(** * HQSession: the HTTP-over-QUIC session core

    A shallow embedding of [proxygen/lib/http/session/HQSession.{h,cpp}]:
    the drain / GOAWAY state machine, the stream acceptance policy, the
    ingress end-of-message gate, server-push binding, peer resets, the
    unidirectional stream preface and the reads-per-loop budget.

    Conventions.
    - [quic::StreamId], [hq::PushId] and the other unsigned 64-bit values
      are [Z]; the code never does arithmetic on them that could wrap.
    - The session and its streams are records; a member function becomes a
      function from the record to the record.  A function whose call tree
      contains a [CHECK] returns [option]: [None] is the aborted process.
    - A [CHECK] or [DCHECK] that fails is [None] as well.
    - External collaborators (QUIC socket, codec, HTTPTransaction) are
      represented by the calls the session makes on them, kept in order in
      a log, and by the answers they give, passed in as arguments. *)

From Stdlib Require Import ZArith Lia.
From stdpp Require Import base option list gmap strings sorting.

Open Scope Z_scope.

(** ** Identifiers and enumerations *)

Definition StreamId := Z.
Definition PushId := Z.

(** Modelled from the spec: [quic::kEightByteLimit] is declared by the QUIC
    library, outside src/; the spec gives the sentinel as [2^62-1], "the
    maximum representable stream id in a quic varint". *)
Definition kEightByteLimit : Z := 2 ^ 62 - 1.

(** [static const uint16_t kMaxReadsPerLoop = 16;] *)
Definition kMaxReadsPerLoop : Z := 16.

Inductive TransportDirection := DOWNSTREAM | UPSTREAM.

Inductive HQVersion := H1Q_FB_V1 | H1Q_FB_V2 | HQ.

(** [enum DrainState : uint8_t], with the numbering of the header. *)
Inductive DrainState :=
| NONE | PENDING | CLOSE_SENT | CLOSE_RECEIVED
| FIRST_GOAWAY | SECOND_GOAWAY | DONE.

Definition DrainState_to_Z (d : DrainState) : Z :=
  match d with
  | NONE => 0 | PENDING => 1 | CLOSE_SENT => 2 | CLOSE_RECEIVED => 3
  | FIRST_GOAWAY => 4 | SECOND_GOAWAY => 5 | DONE => 6
  end.

(** Modelled from the spec: the enumerators of [HTTP3::ErrorCode] are
    declared outside src/; these are the application error codes the spec
    lists, and [HTTP3_OTHER] stands for any other value a peer can put on
    the wire ([static_cast<HTTP3::ErrorCode>(ec)]). *)
Inductive ErrorCode :=
| HTTP_NO_ERROR | HTTP_WRONG_STREAM | HTTP_WRONG_STREAM_COUNT
| HTTP_CLOSED_CRITICAL_STREAM | HTTP_UNKNOWN_STREAM_TYPE
| HTTP_REQUEST_CANCELLED | HTTP_REQUEST_REJECTED | HTTP_INTERNAL_ERROR
| HTTP_MALFORMED_FRAME_PUSH_PROMISE | HTTP_GENERAL_PROTOCOL_ERROR
| GIVEUP_ZERO_RTT
| HTTP3_OTHER (code : Z).

Inductive LocalErrorCode := LOCAL_NO_ERROR | CONNECT_FAILED | LOCAL_OTHER (code : Z).

(** [quic::QuicErrorCode] is a variant of the three kinds of error. *)
Inductive QuicErrorCode :=
| ApplicationErrorCode (ec : ErrorCode)
| LocalError (ec : LocalErrorCode)
| TransportErrorCode (ec : Z).

Inductive ProxygenError :=
| kErrorNone | kErrorStreamAbort | kErrorStreamUnacknowledged
| kErrorEarlyDataFailed | kErrorDropped | kErrorConnect | kErrorShutdown
| kErrorConnectionReset | kErrorConnection | kErrorWrite | kErrorTimeout
| kErrorUnknown.

(** [HTTPException::Direction] *)
Inductive Direction := INGRESS | EGRESS | INGRESS_AND_EGRESS.

(** [HTTPException]: [exErrno] holds the error code whose integer value
    [setErrno] stores. *)
Record HTTPException := mkHTTPException {
  exDirection : Direction;
  exProxygenError : ProxygenError;
  exErrno : option QuicErrorCode;
}.

Definition isIngressException (ex : HTTPException) : bool :=
  match exDirection ex with EGRESS => false | _ => true end.

Definition isEgressException (ex : HTTPException) : bool :=
  match exDirection ex with INGRESS => false | _ => true end.

Definition setProxygenError (e : ProxygenError) (ex : HTTPException) : HTTPException :=
  {| exDirection := exDirection ex; exProxygenError := e; exErrno := exErrno ex |}.

Definition setErrno (n : QuicErrorCode) (ex : HTTPException) : HTTPException :=
  {| exDirection := exDirection ex; exProxygenError := exProxygenError ex;
     exErrno := Some n |}.

#[global] Instance DrainState_eq_dec : EqDecision DrainState.
Proof. solve_decision. Defined.
#[global] Instance TransportDirection_eq_dec : EqDecision TransportDirection.
Proof. solve_decision. Defined.
#[global] Instance HQVersion_eq_dec : EqDecision HQVersion.
Proof. solve_decision. Defined.
#[global] Instance ErrorCode_eq_dec : EqDecision ErrorCode.
Proof. solve_decision. Defined.
#[global] Instance LocalErrorCode_eq_dec : EqDecision LocalErrorCode.
Proof. solve_decision. Defined.
#[global] Instance Direction_eq_dec : EqDecision Direction.
Proof. solve_decision. Defined.
#[global] Instance ProxygenError_eq_dec : EqDecision ProxygenError.
Proof. solve_decision. Defined.

(** Modelled from the spec: the enumerators of
    [hq::UnidirectionalStreamType] are declared outside src/.  The type is
    an enum over [uint64_t], so a value of the type is its integer and a
    [switch] compares integers; the five named stream types of the spec
    ("Control, Push, QPACK-Encoder, QPACK-Decoder, H1Q-Control") are the
    members of this class. *)
Definition UnidirectionalStreamType := Z.

Class StreamTypeCodes := {
  H1Q_CONTROL : UnidirectionalStreamType;
  CONTROL : UnidirectionalStreamType;
  PUSH : UnidirectionalStreamType;
  QPACK_ENCODER : UnidirectionalStreamType;
  QPACK_DECODER : UnidirectionalStreamType;
}.

(** ** The QUIC socket, as the session uses it *)

(** Stream id classification.  The session asks the socket; the answers
    are those of the QUIC stream id layout, as the socket driver of the
    test suite (test/MockQuicSocketDriver.h) computes them: bit 0 is the
    initiator, bit 1 the directionality. *)
Definition isClientStream (id : StreamId) : bool := Z.land id 1 =? 0.
Definition isServerStream (id : StreamId) : bool := negb (Z.land id 1 =? 0).
Definition isUnidirectionalStream (id : StreamId) : bool := negb (Z.land id 2 =? 0).
Definition isBidirectionalStream (id : StreamId) : bool := Z.land id 2 =? 0.

Inductive Callback := CbSession | CbDispatcher.

(** One constructor per socket operation the modelled code calls. *)
Inductive SockOp :=
| OpStopSending (id : StreamId) (err : ErrorCode)
| OpResetStream (id : StreamId) (err : ErrorCode)
| OpSetReadCallback (id : StreamId) (cb : option Callback)
| OpSetPeekCallback (id : StreamId) (cb : option Callback)
| OpPauseRead (id : StreamId)
| OpResumeRead (id : StreamId)
| OpConsume (id : StreamId) (amount : Z)
| OpRead (id : StreamId)
| OpSetStreamFlowControlWindow (id : StreamId) (window : Z)
| OpRegisterDeliveryCallback (id : StreamId) (offset : Z)
| OpNotifyPendingWriteOnConnection
| OpSetControlStream (id : StreamId).

(** The socket: whether it is good, the operations performed on it (oldest
    first), and per stream the bytes received and not yet read together
    with the end-of-stream mark.  The session holds it in [sock_]; closing
    it ([sock_->close(...); sock_.reset()]) leaves [sock_] empty. *)
Record QuicSocket := mkQuicSocket {
  good : bool;
  sockOps : list SockOp;
  sockIngress : gmap Z (list Z * bool);
}.

Definition sock_do (op : SockOp) (k : QuicSocket) : QuicSocket :=
  {| good := good k; sockOps := sockOps k ++ [op]; sockIngress := sockIngress k |}.

(** [sock_->read(id, 0)]: everything buffered for the stream, and whether
    the end of the stream was reached; an error for an unknown stream. *)
Definition sock_read (id : StreamId) (k : QuicSocket)
  : (LocalErrorCode + (list Z * bool)) * QuicSocket :=
  match sockIngress k !! id with
  | None => (inl (LOCAL_OTHER 0), sock_do (OpRead id) k)
  | Some (data, eof) =>
      (inr (data, eof),
       {| good := good k; sockOps := sockOps k ++ [OpRead id];
          sockIngress := <[id := ([], eof)]> (sockIngress k) |})
  end.

(** ** HTTPTransaction, as the streams use it *)

Inductive TxnEvent :=
| TxnOnError (ex : HTTPException)
| TxnOnIngressEOM
| TxnOnGoaway
| TxnOnIngressHeadersComplete
| TxnOnPushedTransaction (pushId : PushId)
| TxnSetHandler (handler : nat).

(** The transaction: its direction, whether it is a pushed transaction
    (it has an associated parent), the handler attached, the upcalls it
    received (oldest first), and how it reacts to [onError]: whether it
    calls [detach] on its transport from within the upcall. *)
Record HTTPTransaction := mkHTTPTransaction {
  txnDirection : TransportDirection;
  txnAssocTxnId : option Z;
  txnHandler : option nat;
  txnLog : list TxnEvent;
  txnDetachesOnError : bool;
}.

Definition txn_do (e : TxnEvent) (t : HTTPTransaction) : HTTPTransaction :=
  {| txnDirection := txnDirection t; txnAssocTxnId := txnAssocTxnId t;
     txnHandler := txnHandler t; txnLog := txnLog t ++ [e];
     txnDetachesOnError := txnDetachesOnError t |}.

Definition txn_setHandler (h : nat) (t : HTTPTransaction) : HTTPTransaction :=
  {| txnDirection := txnDirection t; txnAssocTxnId := txnAssocTxnId t;
     txnHandler := Some h; txnLog := txnLog t ++ [TxnSetHandler h];
     txnDetachesOnError := txnDetachesOnError t |}.

Definition txn_isUpstream (t : HTTPTransaction) : bool :=
  bool_decide (txnDirection t = UPSTREAM).

Definition txn_isPushed (t : HTTPTransaction) : bool :=
  match txnAssocTxnId t with Some _ => true | None => false end.

(** ** ConditionalGate *)

Inductive EOMType := CODEC | TRANSPORT.

(** Modelled from the spec: [ConditionalGate] (proxygen/lib/utils) is not
    under src/.  The spec: "EOM gate: conjunction of {codec-saw-EOM,
    transport-saw-EOF}; fires transaction-level ingress-EOM exactly once",
    "the conjunction that fires ingress end-of-message only once both the
    codec and the transport have indicated completion".  The gate holds one
    bit per condition and the callback registered by [then]; the callback
    runs when the last condition is set and is consumed by running. *)
Record ConditionalGate := mkGate {
  gateCodec : bool;
  gateTransport : bool;
  gateCallback : bool;
}.

Definition gate_new : ConditionalGate :=
  {| gateCodec := false; gateTransport := false; gateCallback := false |}.

Definition gate_get (c : EOMType) (g : ConditionalGate) : bool :=
  match c with CODEC => gateCodec g | TRANSPORT => gateTransport g end.

Definition gate_allConditionsMet (g : ConditionalGate) : bool :=
  gateCodec g && gateTransport g.

(** [then(fn)]: the second component tells whether [fn] runs now. *)
Definition gate_then (g : ConditionalGate) : ConditionalGate * bool :=
  if gate_allConditionsMet g then (g, true)
  else ({| gateCodec := gateCodec g; gateTransport := gateTransport g;
           gateCallback := true |}, false).

(** [set(c)]: the second component tells whether the callback runs now. *)
Definition gate_set (c : EOMType) (g : ConditionalGate) : ConditionalGate * bool :=
  let codec := match c with CODEC => true | TRANSPORT => gateCodec g end in
  let transport := match c with CODEC => gateTransport g | TRANSPORT => true end in
  if gateCallback g && (codec && transport)
  then ({| gateCodec := codec; gateTransport := transport; gateCallback := false |}, true)
  else ({| gateCodec := codec; gateTransport := transport;
           gateCallback := gateCallback g |}, false).

(** ** Streams *)

(** Calls made on the stream's codec (an external collaborator). *)
Inductive CodecCall :=
| CodecSetParserPaused
| CodecOnIngressEOF
| CodecSetCallback
| CodecCreateStream.

(** [HQStreamTransportBase] with its stream-id mixin: a request stream has
    both ids (SSBidir), an ingress push stream only an ingress id, set when
    it is bound (SSIngress), an egress push stream only an egress id. *)
Record HQStreamTransportBase := mkStream {
  txn_ : HTTPTransaction;
  pendingEOM_ : bool;
  readEOF_ : bool;
  hasCodec_ : bool;
  hasIngress_ : bool;
  detached_ : bool;
  ingressError_ : bool;
  eomGate_ : ConditionalGate;
  codecStreamId_ : option Z;
  readBuf_ : list Z;
  writeBuf_ : list Z;
  ingressStreamId_ : option StreamId;
  egressStreamId_ : option StreamId;
  streamTransportEnqueued : bool;
  codecCalls : list CodecCall;
}.

Definition hasIngressStreamId (st : HQStreamTransportBase) : bool :=
  match ingressStreamId_ st with Some _ => true | None => false end.

Definition hasEgressStreamId (st : HQStreamTransportBase) : bool :=
  match egressStreamId_ st with Some _ => true | None => false end.

Definition getStreamId (st : HQStreamTransportBase) : option StreamId :=
  match ingressStreamId_ st with
  | Some id => Some id
  | None => egressStreamId_ st
  end.

Definition set_txn (t : HTTPTransaction) (st : HQStreamTransportBase) :=
  {| txn_ := t; pendingEOM_ := pendingEOM_ st; readEOF_ := readEOF_ st;
     hasCodec_ := hasCodec_ st; hasIngress_ := hasIngress_ st;
     detached_ := detached_ st; ingressError_ := ingressError_ st;
     eomGate_ := eomGate_ st; codecStreamId_ := codecStreamId_ st;
     readBuf_ := readBuf_ st; writeBuf_ := writeBuf_ st;
     ingressStreamId_ := ingressStreamId_ st; egressStreamId_ := egressStreamId_ st;
     streamTransportEnqueued := streamTransportEnqueued st;
     codecCalls := codecCalls st |}.

Definition set_eomGate (g : ConditionalGate) (st : HQStreamTransportBase) :=
  {| txn_ := txn_ st; pendingEOM_ := pendingEOM_ st; readEOF_ := readEOF_ st;
     hasCodec_ := hasCodec_ st; hasIngress_ := hasIngress_ st;
     detached_ := detached_ st; ingressError_ := ingressError_ st;
     eomGate_ := g; codecStreamId_ := codecStreamId_ st;
     readBuf_ := readBuf_ st; writeBuf_ := writeBuf_ st;
     ingressStreamId_ := ingressStreamId_ st; egressStreamId_ := egressStreamId_ st;
     streamTransportEnqueued := streamTransportEnqueued st;
     codecCalls := codecCalls st |}.

Definition codec_do (c : CodecCall) (st : HQStreamTransportBase) :=
  {| txn_ := txn_ st; pendingEOM_ := pendingEOM_ st; readEOF_ := readEOF_ st;
     hasCodec_ := hasCodec_ st; hasIngress_ := hasIngress_ st;
     detached_ := detached_ st; ingressError_ := ingressError_ st;
     eomGate_ := eomGate_ st; codecStreamId_ := codecStreamId_ st;
     readBuf_ := readBuf_ st; writeBuf_ := writeBuf_ st;
     ingressStreamId_ := ingressStreamId_ st; egressStreamId_ := egressStreamId_ st;
     streamTransportEnqueued := streamTransportEnqueued st;
     codecCalls := codecCalls st ++ [c] |}.

Definition set_detached (b : bool) (st : HQStreamTransportBase) :=
  {| txn_ := txn_ st; pendingEOM_ := pendingEOM_ st; readEOF_ := readEOF_ st;
     hasCodec_ := hasCodec_ st; hasIngress_ := hasIngress_ st;
     detached_ := b; ingressError_ := ingressError_ st;
     eomGate_ := eomGate_ st; codecStreamId_ := codecStreamId_ st;
     readBuf_ := readBuf_ st; writeBuf_ := writeBuf_ st;
     ingressStreamId_ := ingressStreamId_ st; egressStreamId_ := egressStreamId_ st;
     streamTransportEnqueued := streamTransportEnqueued st;
     codecCalls := codecCalls st |}.

Definition set_ingressError (b : bool) (st : HQStreamTransportBase) :=
  {| txn_ := txn_ st; pendingEOM_ := pendingEOM_ st; readEOF_ := readEOF_ st;
     hasCodec_ := hasCodec_ st; hasIngress_ := hasIngress_ st;
     detached_ := detached_ st; ingressError_ := b;
     eomGate_ := eomGate_ st; codecStreamId_ := codecStreamId_ st;
     readBuf_ := readBuf_ st; writeBuf_ := writeBuf_ st;
     ingressStreamId_ := ingressStreamId_ st; egressStreamId_ := egressStreamId_ st;
     streamTransportEnqueued := streamTransportEnqueued st;
     codecCalls := codecCalls st |}.

Definition set_readBuf (buf : list Z) (st : HQStreamTransportBase) :=
  {| txn_ := txn_ st; pendingEOM_ := pendingEOM_ st; readEOF_ := readEOF_ st;
     hasCodec_ := hasCodec_ st; hasIngress_ := hasIngress_ st;
     detached_ := detached_ st; ingressError_ := ingressError_ st;
     eomGate_ := eomGate_ st; codecStreamId_ := codecStreamId_ st;
     readBuf_ := buf; writeBuf_ := writeBuf_ st;
     ingressStreamId_ := ingressStreamId_ st; egressStreamId_ := egressStreamId_ st;
     streamTransportEnqueued := streamTransportEnqueued st;
     codecCalls := codecCalls st |}.

Definition set_readEOF (b : bool) (st : HQStreamTransportBase) :=
  {| txn_ := txn_ st; pendingEOM_ := pendingEOM_ st; readEOF_ := b;
     hasCodec_ := hasCodec_ st; hasIngress_ := hasIngress_ st;
     detached_ := detached_ st; ingressError_ := ingressError_ st;
     eomGate_ := eomGate_ st; codecStreamId_ := codecStreamId_ st;
     readBuf_ := readBuf_ st; writeBuf_ := writeBuf_ st;
     ingressStreamId_ := ingressStreamId_ st; egressStreamId_ := egressStreamId_ st;
     streamTransportEnqueued := streamTransportEnqueued st;
     codecCalls := codecCalls st |}.

Definition set_codecStreamId (c : option Z) (st : HQStreamTransportBase) :=
  {| txn_ := txn_ st; pendingEOM_ := pendingEOM_ st; readEOF_ := readEOF_ st;
     hasCodec_ := hasCodec_ st; hasIngress_ := hasIngress_ st;
     detached_ := detached_ st; ingressError_ := ingressError_ st;
     eomGate_ := eomGate_ st; codecStreamId_ := c;
     readBuf_ := readBuf_ st; writeBuf_ := writeBuf_ st;
     ingressStreamId_ := ingressStreamId_ st; egressStreamId_ := egressStreamId_ st;
     streamTransportEnqueued := streamTransportEnqueued st;
     codecCalls := codecCalls st |}.

Definition set_hasCodec (b : bool) (st : HQStreamTransportBase) :=
  {| txn_ := txn_ st; pendingEOM_ := pendingEOM_ st; readEOF_ := readEOF_ st;
     hasCodec_ := b; hasIngress_ := hasIngress_ st;
     detached_ := detached_ st; ingressError_ := ingressError_ st;
     eomGate_ := eomGate_ st; codecStreamId_ := codecStreamId_ st;
     readBuf_ := readBuf_ st; writeBuf_ := writeBuf_ st;
     ingressStreamId_ := ingressStreamId_ st; egressStreamId_ := egressStreamId_ st;
     streamTransportEnqueued := streamTransportEnqueued st;
     codecCalls := codecCalls st |}.

Definition set_hasIngress (b : bool) (st : HQStreamTransportBase) :=
  {| txn_ := txn_ st; pendingEOM_ := pendingEOM_ st; readEOF_ := readEOF_ st;
     hasCodec_ := hasCodec_ st; hasIngress_ := b;
     detached_ := detached_ st; ingressError_ := ingressError_ st;
     eomGate_ := eomGate_ st; codecStreamId_ := codecStreamId_ st;
     readBuf_ := readBuf_ st; writeBuf_ := writeBuf_ st;
     ingressStreamId_ := ingressStreamId_ st; egressStreamId_ := egressStreamId_ st;
     streamTransportEnqueued := streamTransportEnqueued st;
     codecCalls := codecCalls st |}.

Definition setIngressStreamId (id : StreamId) (st : HQStreamTransportBase) :=
  {| txn_ := txn_ st; pendingEOM_ := pendingEOM_ st; readEOF_ := readEOF_ st;
     hasCodec_ := hasCodec_ st; hasIngress_ := hasIngress_ st;
     detached_ := detached_ st; ingressError_ := ingressError_ st;
     eomGate_ := eomGate_ st; codecStreamId_ := codecStreamId_ st;
     readBuf_ := readBuf_ st; writeBuf_ := writeBuf_ st;
     ingressStreamId_ := Some id; egressStreamId_ := egressStreamId_ st;
     streamTransportEnqueued := streamTransportEnqueued st;
     codecCalls := codecCalls st |}.

(** The egress half cleared by [abortEgress]: [writeBuf_.move()],
    [pendingEOM_ = false], and the stream leaves the egress queue. *)
Definition clear_egress (st : HQStreamTransportBase) :=
  {| txn_ := txn_ st; pendingEOM_ := false; readEOF_ := readEOF_ st;
     hasCodec_ := hasCodec_ st; hasIngress_ := hasIngress_ st;
     detached_ := detached_ st; ingressError_ := ingressError_ st;
     eomGate_ := eomGate_ st; codecStreamId_ := codecStreamId_ st;
     readBuf_ := readBuf_ st; writeBuf_ := [];
     ingressStreamId_ := ingressStreamId_ st; egressStreamId_ := egressStreamId_ st;
     streamTransportEnqueued := false;
     codecCalls := codecCalls st |}.

(** *** Stream member functions that stay within the stream *)

(** [HQStreamTransportBase::abortIngress] *)
Definition abortIngress (st : HQStreamTransportBase) : HQStreamTransportBase :=
  codec_do CodecSetParserPaused (set_readBuf [] (set_ingressError true st)).

(** [HQStreamTransportBase::abortEgress]: the byte events are drained, the
    write buffer and the pending EOM dropped, the stream leaves the egress
    queue. *)
Definition abortEgress (checkForDetach : bool) (st : HQStreamTransportBase)
  : HQStreamTransportBase :=
  clear_egress st.

(** [HQStreamTransportBase::detach]: the stream's part; the session's part
    ([session_.scheduleLoopCallback()]) is in [updStream] below. *)
Definition detach (st : HQStreamTransportBase) : HQStreamTransportBase :=
  set_detached true st.

(** [txn_.onError(ex)]: the upcall, and the transaction's reaction. *)
Definition txn_onError (ex : HTTPException) (st : HQStreamTransportBase)
  : HQStreamTransportBase :=
  let st1 := set_txn (txn_do (TxnOnError ex) (txn_ st)) st in
  if txnDetachesOnError (txn_ st1) then detach st1 else st1.

(** [HQStreamTransportBase::errorOnTransaction(HTTPException)] *)
Definition errorOnTransaction (ex : HTTPException) (st : HQStreamTransportBase)
  : HQStreamTransportBase :=
  let st1 := if detached_ st then st else txn_onError ex st in
  let st2 := if isIngressException ex then abortIngress st1 else st1 in
  if isEgressException ex then abortEgress true st2 else st2.

(** [errorOnTransaction(ProxygenError, msg)]: builds the exception. *)
Definition errorOnTransaction_err (err : ProxygenError) (st : HQStreamTransportBase)
  : HQStreamTransportBase :=
  errorOnTransaction
    {| exDirection := INGRESS_AND_EGRESS; exProxygenError := err; exErrno := None |} st.

(** Setting a condition of the gate; the callback registered by
    [initIngress] is [txn_.onIngressEOM()]. *)
Definition eomGate_set (c : EOMType) (st : HQStreamTransportBase)
  : HQStreamTransportBase :=
  let '(g, fired) := gate_set c (eomGate_ st) in
  let st1 := set_eomGate g st in
  if fired then set_txn (txn_do TxnOnIngressEOM (txn_ st1)) st1 else st1.

(** [HQStreamTransportBase::onMessageComplete].  [extraResponseExpected]
    is the answer of [txn_.extraResponseExpected()]. *)
Definition onMessageComplete (extraResponseExpected : bool)
  (st : HQStreamTransportBase) : HQStreamTransportBase :=
  if txn_isUpstream (txn_ st) && extraResponseExpected then st
  else eomGate_set CODEC (codec_do CodecSetParserPaused st).

(** [HQStreamTransportBase::onIngressEOF].  [codecAtEOF] is what the codec
    does inside [codecFilterChain->onIngressEOF()]: nothing, or the upcall
    [onMessageComplete] (a message that ends with the stream), with the
    transaction's answer to [extraResponseExpected()]. *)
Definition onIngressEOF (codecAtEOF : option bool) (st : HQStreamTransportBase)
  : option HQStreamTransportBase :=
  if gate_get TRANSPORT (eomGate_ st) then None
  else if ingressError_ st then Some st
  else
    let st1 := codec_do CodecOnIngressEOF st in
    let st2 := match codecAtEOF with
               | Some extra => onMessageComplete extra st1
               | None => st1
               end in
    Some (eomGate_set TRANSPORT st2).

(** [HQStreamTransportBase::initIngress].  [sock] is [session_.sock_],
    [window] is [session_.receiveStreamWindowSize_]. *)
Definition initIngress (window : option Z) (sock : option QuicSocket)
  (st : HQStreamTransportBase) : option (QuicSocket * HQStreamTransportBase) :=
  k ← sock;
  k1 ← match window with
       | Some w => id ← ingressStreamId_ st;
                   Some (sock_do (OpSetStreamFlowControlWindow id w) k)
       | None => Some k
       end;
  let st1 := codec_do CodecSetCallback st in
  let '(g, fired) := gate_then (eomGate_ st1) in
  let st2 := set_eomGate g st1 in
  let st3 := if fired then set_txn (txn_do TxnOnIngressEOM (txn_ st2)) st2 else st2 in
  Some (k1, set_hasIngress true st3).

(** [HQStreamTransportBase::initCodec].  [direction] is
    [session_.direction_]; [created] is what
    [codecFilterChain->createStream()] returns. *)
Definition initCodec (direction : TransportDirection) (created : Z)
  (sock : option QuicSocket) (st : HQStreamTransportBase)
  : option HQStreamTransportBase :=
  _ ← sock;
  let st1 :=
    if bool_decide (direction = UPSTREAM) || txn_isPushed (txn_ st)
    then set_codecStreamId (Some created) (codec_do CodecCreateStream st)
    else st in
  Some (set_hasCodec true st1).

(** What the feeding loop of [processReadData] gives, in all: the bytes
    the codec parsed, whether it made the upcall [onMessageComplete] (with
    the transaction's [extraResponseExpected()]), and whether it reported
    an error on the stream ([onError], of which [ingressError_ = true] is
    kept). *)
Record OnIngress := mkOnIngress {
  bytesParsed : nat;
  messageComplete : option bool;
  codecError : bool;
}.

(** [HQStreamTransportBase::processReadData]: returns the stream and
    whether the codec is blocked. *)
Definition stream_processReadData (r : OnIngress) (st : HQStreamTransportBase)
  : HQStreamTransportBase * bool :=
  if gate_get CODEC (eomGate_ st) && negb (bool_decide (readBuf_ st = []))
  then
    (errorOnTransaction
       {| exDirection := INGRESS_AND_EGRESS; exProxygenError := kErrorNone;
          exErrno := None |} st, false)
  else
    let st1 :=
      if negb (ingressError_ st) && negb (bool_decide (readBuf_ st = []))
      then
        let st' := match messageComplete r with
                   | Some extra => onMessageComplete extra st
                   | None => st
                   end in
        let st'' := if codecError r then set_ingressError true st' else st' in
        set_readBuf (drop (bytesParsed r) (readBuf_ st'')) st''
      else st in
    let st2 := if ingressError_ st1 then abortIngress st1 else st1 in
    (st2, negb (bool_decide (readBuf_ st2 = []))).

(** ** Control streams *)

(** What the control codecs were asked to generate on an egress control
    stream. *)
Inductive CtrlFrame :=
| FrPreface (type : UnidirectionalStreamType)
| FrSettings
| FrGoaway (lastStreamId : StreamId)
| FrQpackCancel (id : StreamId).

(** [HQControlStream]: the egress id it was created with, the ingress id
    linked when the peer's stream of the same type shows up, whether the
    ingress codec is installed, and everything appended to [writeBuf_],
    oldest first (the flush to the socket is not part of the model). *)
Record HQControlStream := mkControlStream {
  ctrlEgressStreamId : StreamId;
  ctrlIngressStreamId : option StreamId;
  ingressCodec_ : bool;
  ctrlWritten : list CtrlFrame;
}.

Definition ctrl_append (f : CtrlFrame) (c : HQControlStream) : HQControlStream :=
  {| ctrlEgressStreamId := ctrlEgressStreamId c;
     ctrlIngressStreamId := ctrlIngressStreamId c;
     ingressCodec_ := ingressCodec_ c;
     ctrlWritten := ctrlWritten c ++ [f] |}.

Definition ctrl_isUsing (id : StreamId) (c : HQControlStream) : bool :=
  (ctrlEgressStreamId c =? id) ||
  match ctrlIngressStreamId c with Some i => i =? id | None => false end.

(** ** The session *)

(** The members of [HQSession] the modelled functions read or write.
    [version_] also stands for [versionUtils_], which [setVersionUtils]
    creates in the same step.  [dispatcherPending_] is the set of stream
    ids the unidirectional dispatcher holds while it waits for a preface.
    [loopCallbackScheduled_] is [isLoopCallbackScheduled()], [destroyed_]
    records the call of [destroy()].  [pendingProcessReadSet_] keeps the
    ids in insertion order, without repetition. *)
Record HQSession := mkSession {
  direction_ : TransportDirection;
  version_ : option HQVersion;
  drainState_ : DrainState;
  dropping_ : bool;
  dropInNextLoop_ : option (ErrorCode * ProxygenError);
  sock_ : option QuicSocket;
  streams_ : gmap Z HQStreamTransportBase;
  ingressPushStreams_ : gmap Z HQStreamTransportBase;
  egressPushStreams_ : gmap Z HQStreamTransportBase;
  streamLookup_ : list (PushId * StreamId);
  controlStreams_ : gmap Z HQControlStream;
  dispatcherPending_ : list StreamId;
  maxIncomingStreamId_ : StreamId;
  maxAllowedStreamId_ : StreamId;
  readsPerLoop_ : Z;
  pendingProcessReadSet_ : list StreamId;
  loopCallbackScheduled_ : bool;
  scheduledWrite_ : bool;
  receiveStreamWindowSize_ : option Z;
  destroyed_ : bool;
}.

Definition set_version (v : option HQVersion) (s : HQSession) : HQSession :=
  {| direction_ := direction_ s; version_ := v; drainState_ := drainState_ s;
     dropping_ := dropping_ s; dropInNextLoop_ := dropInNextLoop_ s;
     sock_ := sock_ s; streams_ := streams_ s;
     ingressPushStreams_ := ingressPushStreams_ s;
     egressPushStreams_ := egressPushStreams_ s;
     streamLookup_ := streamLookup_ s; controlStreams_ := controlStreams_ s;
     dispatcherPending_ := dispatcherPending_ s;
     maxIncomingStreamId_ := maxIncomingStreamId_ s;
     maxAllowedStreamId_ := maxAllowedStreamId_ s;
     readsPerLoop_ := readsPerLoop_ s;
     pendingProcessReadSet_ := pendingProcessReadSet_ s;
     loopCallbackScheduled_ := loopCallbackScheduled_ s;
     scheduledWrite_ := scheduledWrite_ s;
     receiveStreamWindowSize_ := receiveStreamWindowSize_ s;
     destroyed_ := destroyed_ s |}.

Definition set_drainState (v : DrainState) (s : HQSession) : HQSession :=
  {| direction_ := direction_ s; version_ := version_ s; drainState_ := v;
     dropping_ := dropping_ s; dropInNextLoop_ := dropInNextLoop_ s;
     sock_ := sock_ s; streams_ := streams_ s;
     ingressPushStreams_ := ingressPushStreams_ s;
     egressPushStreams_ := egressPushStreams_ s;
     streamLookup_ := streamLookup_ s; controlStreams_ := controlStreams_ s;
     dispatcherPending_ := dispatcherPending_ s;
     maxIncomingStreamId_ := maxIncomingStreamId_ s;
     maxAllowedStreamId_ := maxAllowedStreamId_ s;
     readsPerLoop_ := readsPerLoop_ s;
     pendingProcessReadSet_ := pendingProcessReadSet_ s;
     loopCallbackScheduled_ := loopCallbackScheduled_ s;
     scheduledWrite_ := scheduledWrite_ s;
     receiveStreamWindowSize_ := receiveStreamWindowSize_ s;
     destroyed_ := destroyed_ s |}.

Definition set_dropping (v : bool) (s : HQSession) : HQSession :=
  {| direction_ := direction_ s; version_ := version_ s;
     drainState_ := drainState_ s; dropping_ := v;
     dropInNextLoop_ := dropInNextLoop_ s; sock_ := sock_ s;
     streams_ := streams_ s; ingressPushStreams_ := ingressPushStreams_ s;
     egressPushStreams_ := egressPushStreams_ s;
     streamLookup_ := streamLookup_ s; controlStreams_ := controlStreams_ s;
     dispatcherPending_ := dispatcherPending_ s;
     maxIncomingStreamId_ := maxIncomingStreamId_ s;
     maxAllowedStreamId_ := maxAllowedStreamId_ s;
     readsPerLoop_ := readsPerLoop_ s;
     pendingProcessReadSet_ := pendingProcessReadSet_ s;
     loopCallbackScheduled_ := loopCallbackScheduled_ s;
     scheduledWrite_ := scheduledWrite_ s;
     receiveStreamWindowSize_ := receiveStreamWindowSize_ s;
     destroyed_ := destroyed_ s |}.

Definition set_dropInNextLoop (v : option (ErrorCode * ProxygenError)) (s : HQSession) : HQSession :=
  {| direction_ := direction_ s; version_ := version_ s;
     drainState_ := drainState_ s; dropping_ := dropping_ s;
     dropInNextLoop_ := v; sock_ := sock_ s; streams_ := streams_ s;
     ingressPushStreams_ := ingressPushStreams_ s;
     egressPushStreams_ := egressPushStreams_ s;
     streamLookup_ := streamLookup_ s; controlStreams_ := controlStreams_ s;
     dispatcherPending_ := dispatcherPending_ s;
     maxIncomingStreamId_ := maxIncomingStreamId_ s;
     maxAllowedStreamId_ := maxAllowedStreamId_ s;
     readsPerLoop_ := readsPerLoop_ s;
     pendingProcessReadSet_ := pendingProcessReadSet_ s;
     loopCallbackScheduled_ := loopCallbackScheduled_ s;
     scheduledWrite_ := scheduledWrite_ s;
     receiveStreamWindowSize_ := receiveStreamWindowSize_ s;
     destroyed_ := destroyed_ s |}.

Definition set_sock (v : option QuicSocket) (s : HQSession) : HQSession :=
  {| direction_ := direction_ s; version_ := version_ s;
     drainState_ := drainState_ s; dropping_ := dropping_ s;
     dropInNextLoop_ := dropInNextLoop_ s; sock_ := v;
     streams_ := streams_ s; ingressPushStreams_ := ingressPushStreams_ s;
     egressPushStreams_ := egressPushStreams_ s;
     streamLookup_ := streamLookup_ s; controlStreams_ := controlStreams_ s;
     dispatcherPending_ := dispatcherPending_ s;
     maxIncomingStreamId_ := maxIncomingStreamId_ s;
     maxAllowedStreamId_ := maxAllowedStreamId_ s;
     readsPerLoop_ := readsPerLoop_ s;
     pendingProcessReadSet_ := pendingProcessReadSet_ s;
     loopCallbackScheduled_ := loopCallbackScheduled_ s;
     scheduledWrite_ := scheduledWrite_ s;
     receiveStreamWindowSize_ := receiveStreamWindowSize_ s;
     destroyed_ := destroyed_ s |}.

Definition set_streams (v : gmap Z HQStreamTransportBase) (s : HQSession) : HQSession :=
  {| direction_ := direction_ s; version_ := version_ s;
     drainState_ := drainState_ s; dropping_ := dropping_ s;
     dropInNextLoop_ := dropInNextLoop_ s; sock_ := sock_ s; streams_ := v;
     ingressPushStreams_ := ingressPushStreams_ s;
     egressPushStreams_ := egressPushStreams_ s;
     streamLookup_ := streamLookup_ s; controlStreams_ := controlStreams_ s;
     dispatcherPending_ := dispatcherPending_ s;
     maxIncomingStreamId_ := maxIncomingStreamId_ s;
     maxAllowedStreamId_ := maxAllowedStreamId_ s;
     readsPerLoop_ := readsPerLoop_ s;
     pendingProcessReadSet_ := pendingProcessReadSet_ s;
     loopCallbackScheduled_ := loopCallbackScheduled_ s;
     scheduledWrite_ := scheduledWrite_ s;
     receiveStreamWindowSize_ := receiveStreamWindowSize_ s;
     destroyed_ := destroyed_ s |}.

Definition set_ingressPushStreams (v : gmap Z HQStreamTransportBase) (s : HQSession) : HQSession :=
  {| direction_ := direction_ s; version_ := version_ s;
     drainState_ := drainState_ s; dropping_ := dropping_ s;
     dropInNextLoop_ := dropInNextLoop_ s; sock_ := sock_ s;
     streams_ := streams_ s; ingressPushStreams_ := v;
     egressPushStreams_ := egressPushStreams_ s;
     streamLookup_ := streamLookup_ s; controlStreams_ := controlStreams_ s;
     dispatcherPending_ := dispatcherPending_ s;
     maxIncomingStreamId_ := maxIncomingStreamId_ s;
     maxAllowedStreamId_ := maxAllowedStreamId_ s;
     readsPerLoop_ := readsPerLoop_ s;
     pendingProcessReadSet_ := pendingProcessReadSet_ s;
     loopCallbackScheduled_ := loopCallbackScheduled_ s;
     scheduledWrite_ := scheduledWrite_ s;
     receiveStreamWindowSize_ := receiveStreamWindowSize_ s;
     destroyed_ := destroyed_ s |}.

Definition set_egressPushStreams (v : gmap Z HQStreamTransportBase) (s : HQSession) : HQSession :=
  {| direction_ := direction_ s; version_ := version_ s;
     drainState_ := drainState_ s; dropping_ := dropping_ s;
     dropInNextLoop_ := dropInNextLoop_ s; sock_ := sock_ s;
     streams_ := streams_ s; ingressPushStreams_ := ingressPushStreams_ s;
     egressPushStreams_ := v; streamLookup_ := streamLookup_ s;
     controlStreams_ := controlStreams_ s;
     dispatcherPending_ := dispatcherPending_ s;
     maxIncomingStreamId_ := maxIncomingStreamId_ s;
     maxAllowedStreamId_ := maxAllowedStreamId_ s;
     readsPerLoop_ := readsPerLoop_ s;
     pendingProcessReadSet_ := pendingProcessReadSet_ s;
     loopCallbackScheduled_ := loopCallbackScheduled_ s;
     scheduledWrite_ := scheduledWrite_ s;
     receiveStreamWindowSize_ := receiveStreamWindowSize_ s;
     destroyed_ := destroyed_ s |}.

Definition set_streamLookup (v : list (PushId * StreamId)) (s : HQSession) : HQSession :=
  {| direction_ := direction_ s; version_ := version_ s;
     drainState_ := drainState_ s; dropping_ := dropping_ s;
     dropInNextLoop_ := dropInNextLoop_ s; sock_ := sock_ s;
     streams_ := streams_ s; ingressPushStreams_ := ingressPushStreams_ s;
     egressPushStreams_ := egressPushStreams_ s; streamLookup_ := v;
     controlStreams_ := controlStreams_ s;
     dispatcherPending_ := dispatcherPending_ s;
     maxIncomingStreamId_ := maxIncomingStreamId_ s;
     maxAllowedStreamId_ := maxAllowedStreamId_ s;
     readsPerLoop_ := readsPerLoop_ s;
     pendingProcessReadSet_ := pendingProcessReadSet_ s;
     loopCallbackScheduled_ := loopCallbackScheduled_ s;
     scheduledWrite_ := scheduledWrite_ s;
     receiveStreamWindowSize_ := receiveStreamWindowSize_ s;
     destroyed_ := destroyed_ s |}.

Definition set_controlStreams (v : gmap Z HQControlStream) (s : HQSession) : HQSession :=
  {| direction_ := direction_ s; version_ := version_ s;
     drainState_ := drainState_ s; dropping_ := dropping_ s;
     dropInNextLoop_ := dropInNextLoop_ s; sock_ := sock_ s;
     streams_ := streams_ s; ingressPushStreams_ := ingressPushStreams_ s;
     egressPushStreams_ := egressPushStreams_ s;
     streamLookup_ := streamLookup_ s; controlStreams_ := v;
     dispatcherPending_ := dispatcherPending_ s;
     maxIncomingStreamId_ := maxIncomingStreamId_ s;
     maxAllowedStreamId_ := maxAllowedStreamId_ s;
     readsPerLoop_ := readsPerLoop_ s;
     pendingProcessReadSet_ := pendingProcessReadSet_ s;
     loopCallbackScheduled_ := loopCallbackScheduled_ s;
     scheduledWrite_ := scheduledWrite_ s;
     receiveStreamWindowSize_ := receiveStreamWindowSize_ s;
     destroyed_ := destroyed_ s |}.

Definition set_dispatcherPending (v : list StreamId) (s : HQSession) : HQSession :=
  {| direction_ := direction_ s; version_ := version_ s;
     drainState_ := drainState_ s; dropping_ := dropping_ s;
     dropInNextLoop_ := dropInNextLoop_ s; sock_ := sock_ s;
     streams_ := streams_ s; ingressPushStreams_ := ingressPushStreams_ s;
     egressPushStreams_ := egressPushStreams_ s;
     streamLookup_ := streamLookup_ s; controlStreams_ := controlStreams_ s;
     dispatcherPending_ := v; maxIncomingStreamId_ := maxIncomingStreamId_ s;
     maxAllowedStreamId_ := maxAllowedStreamId_ s;
     readsPerLoop_ := readsPerLoop_ s;
     pendingProcessReadSet_ := pendingProcessReadSet_ s;
     loopCallbackScheduled_ := loopCallbackScheduled_ s;
     scheduledWrite_ := scheduledWrite_ s;
     receiveStreamWindowSize_ := receiveStreamWindowSize_ s;
     destroyed_ := destroyed_ s |}.

Definition set_maxIncomingStreamId (v : StreamId) (s : HQSession) : HQSession :=
  {| direction_ := direction_ s; version_ := version_ s;
     drainState_ := drainState_ s; dropping_ := dropping_ s;
     dropInNextLoop_ := dropInNextLoop_ s; sock_ := sock_ s;
     streams_ := streams_ s; ingressPushStreams_ := ingressPushStreams_ s;
     egressPushStreams_ := egressPushStreams_ s;
     streamLookup_ := streamLookup_ s; controlStreams_ := controlStreams_ s;
     dispatcherPending_ := dispatcherPending_ s; maxIncomingStreamId_ := v;
     maxAllowedStreamId_ := maxAllowedStreamId_ s;
     readsPerLoop_ := readsPerLoop_ s;
     pendingProcessReadSet_ := pendingProcessReadSet_ s;
     loopCallbackScheduled_ := loopCallbackScheduled_ s;
     scheduledWrite_ := scheduledWrite_ s;
     receiveStreamWindowSize_ := receiveStreamWindowSize_ s;
     destroyed_ := destroyed_ s |}.

Definition set_maxAllowedStreamId (v : StreamId) (s : HQSession) : HQSession :=
  {| direction_ := direction_ s; version_ := version_ s;
     drainState_ := drainState_ s; dropping_ := dropping_ s;
     dropInNextLoop_ := dropInNextLoop_ s; sock_ := sock_ s;
     streams_ := streams_ s; ingressPushStreams_ := ingressPushStreams_ s;
     egressPushStreams_ := egressPushStreams_ s;
     streamLookup_ := streamLookup_ s; controlStreams_ := controlStreams_ s;
     dispatcherPending_ := dispatcherPending_ s;
     maxIncomingStreamId_ := maxIncomingStreamId_ s;
     maxAllowedStreamId_ := v; readsPerLoop_ := readsPerLoop_ s;
     pendingProcessReadSet_ := pendingProcessReadSet_ s;
     loopCallbackScheduled_ := loopCallbackScheduled_ s;
     scheduledWrite_ := scheduledWrite_ s;
     receiveStreamWindowSize_ := receiveStreamWindowSize_ s;
     destroyed_ := destroyed_ s |}.

Definition set_readsPerLoop (v : Z) (s : HQSession) : HQSession :=
  {| direction_ := direction_ s; version_ := version_ s;
     drainState_ := drainState_ s; dropping_ := dropping_ s;
     dropInNextLoop_ := dropInNextLoop_ s; sock_ := sock_ s;
     streams_ := streams_ s; ingressPushStreams_ := ingressPushStreams_ s;
     egressPushStreams_ := egressPushStreams_ s;
     streamLookup_ := streamLookup_ s; controlStreams_ := controlStreams_ s;
     dispatcherPending_ := dispatcherPending_ s;
     maxIncomingStreamId_ := maxIncomingStreamId_ s;
     maxAllowedStreamId_ := maxAllowedStreamId_ s; readsPerLoop_ := v;
     pendingProcessReadSet_ := pendingProcessReadSet_ s;
     loopCallbackScheduled_ := loopCallbackScheduled_ s;
     scheduledWrite_ := scheduledWrite_ s;
     receiveStreamWindowSize_ := receiveStreamWindowSize_ s;
     destroyed_ := destroyed_ s |}.

Definition set_pendingProcessReadSet (v : list StreamId) (s : HQSession) : HQSession :=
  {| direction_ := direction_ s; version_ := version_ s;
     drainState_ := drainState_ s; dropping_ := dropping_ s;
     dropInNextLoop_ := dropInNextLoop_ s; sock_ := sock_ s;
     streams_ := streams_ s; ingressPushStreams_ := ingressPushStreams_ s;
     egressPushStreams_ := egressPushStreams_ s;
     streamLookup_ := streamLookup_ s; controlStreams_ := controlStreams_ s;
     dispatcherPending_ := dispatcherPending_ s;
     maxIncomingStreamId_ := maxIncomingStreamId_ s;
     maxAllowedStreamId_ := maxAllowedStreamId_ s;
     readsPerLoop_ := readsPerLoop_ s; pendingProcessReadSet_ := v;
     loopCallbackScheduled_ := loopCallbackScheduled_ s;
     scheduledWrite_ := scheduledWrite_ s;
     receiveStreamWindowSize_ := receiveStreamWindowSize_ s;
     destroyed_ := destroyed_ s |}.

Definition set_loopCallbackScheduled (v : bool) (s : HQSession) : HQSession :=
  {| direction_ := direction_ s; version_ := version_ s;
     drainState_ := drainState_ s; dropping_ := dropping_ s;
     dropInNextLoop_ := dropInNextLoop_ s; sock_ := sock_ s;
     streams_ := streams_ s; ingressPushStreams_ := ingressPushStreams_ s;
     egressPushStreams_ := egressPushStreams_ s;
     streamLookup_ := streamLookup_ s; controlStreams_ := controlStreams_ s;
     dispatcherPending_ := dispatcherPending_ s;
     maxIncomingStreamId_ := maxIncomingStreamId_ s;
     maxAllowedStreamId_ := maxAllowedStreamId_ s;
     readsPerLoop_ := readsPerLoop_ s;
     pendingProcessReadSet_ := pendingProcessReadSet_ s;
     loopCallbackScheduled_ := v; scheduledWrite_ := scheduledWrite_ s;
     receiveStreamWindowSize_ := receiveStreamWindowSize_ s;
     destroyed_ := destroyed_ s |}.

Definition set_scheduledWrite (v : bool) (s : HQSession) : HQSession :=
  {| direction_ := direction_ s; version_ := version_ s;
     drainState_ := drainState_ s; dropping_ := dropping_ s;
     dropInNextLoop_ := dropInNextLoop_ s; sock_ := sock_ s;
     streams_ := streams_ s; ingressPushStreams_ := ingressPushStreams_ s;
     egressPushStreams_ := egressPushStreams_ s;
     streamLookup_ := streamLookup_ s; controlStreams_ := controlStreams_ s;
     dispatcherPending_ := dispatcherPending_ s;
     maxIncomingStreamId_ := maxIncomingStreamId_ s;
     maxAllowedStreamId_ := maxAllowedStreamId_ s;
     readsPerLoop_ := readsPerLoop_ s;
     pendingProcessReadSet_ := pendingProcessReadSet_ s;
     loopCallbackScheduled_ := loopCallbackScheduled_ s;
     scheduledWrite_ := v;
     receiveStreamWindowSize_ := receiveStreamWindowSize_ s;
     destroyed_ := destroyed_ s |}.

Definition set_destroyed (v : bool) (s : HQSession) : HQSession :=
  {| direction_ := direction_ s; version_ := version_ s;
     drainState_ := drainState_ s; dropping_ := dropping_ s;
     dropInNextLoop_ := dropInNextLoop_ s; sock_ := sock_ s;
     streams_ := streams_ s; ingressPushStreams_ := ingressPushStreams_ s;
     egressPushStreams_ := egressPushStreams_ s;
     streamLookup_ := streamLookup_ s; controlStreams_ := controlStreams_ s;
     dispatcherPending_ := dispatcherPending_ s;
     maxIncomingStreamId_ := maxIncomingStreamId_ s;
     maxAllowedStreamId_ := maxAllowedStreamId_ s;
     readsPerLoop_ := readsPerLoop_ s;
     pendingProcessReadSet_ := pendingProcessReadSet_ s;
     loopCallbackScheduled_ := loopCallbackScheduled_ s;
     scheduledWrite_ := scheduledWrite_ s;
     receiveStreamWindowSize_ := receiveStreamWindowSize_ s;
     destroyed_ := v |}.

(** ** Session member functions *)

Section Session.
Context `{codes : StreamTypeCodes}.

(** [sock_->op(...)]: [None] when the socket has been released. *)
Definition sock_call (op : SockOp) (s : HQSession) : option HQSession :=
  k ← sock_ s; Some (set_sock (Some (sock_do op k)) s).

(** [HQSession::scheduleLoopCallback]; [getEventBase()] is the socket's
    event base, or null without a socket. *)
Definition scheduleLoopCallback (thisIteration : bool) (s : HQSession) : HQSession :=
  if loopCallbackScheduled_ s then s
  else match sock_ s with
       | Some _ => set_loopCallbackScheduled true s
       | None => s
       end.

(** [HQSession::scheduleWrite] *)
Definition scheduleWrite (s : HQSession) : option HQSession :=
  if scheduledWrite_ s then Some s
  else sock_call OpNotifyPendingWriteOnConnection (set_scheduledWrite true s).

Definition isPeerUniStream (s : HQSession) (id : StreamId) : bool :=
  isUnidirectionalStream id &&
  ((bool_decide (direction_ s = DOWNSTREAM) && isClientStream id) ||
   (bool_decide (direction_ s = UPSTREAM) && isServerStream id)).

Definition isSelfUniStream (s : HQSession) (id : StreamId) : bool :=
  isUnidirectionalStream id &&
  ((bool_decide (direction_ s = DOWNSTREAM) && isServerStream id) ||
   (bool_decide (direction_ s = UPSTREAM) && isClientStream id)).

(** [findControlStream(UnidirectionalStreamType)] *)
Definition findControlStream (type : UnidirectionalStreamType) (s : HQSession)
  : option HQControlStream :=
  controlStreams_ s !! type.

(** [findControlStream(quic::StreamId)]: the type of a control stream that
    uses the id. *)
Definition findControlStreamById (id : StreamId) (s : HQSession)
  : option UnidirectionalStreamType :=
  fst <$> List.find (λ e, ctrl_isUsing id (snd e)) (map_to_list (controlStreams_ s)).

Definition ctrl_write (type : UnidirectionalStreamType) (f : CtrlFrame)
  (s : HQSession) : option HQSession :=
  c ← findControlStream type s;
  Some (set_controlStreams (<[type := ctrl_append f c]> (controlStreams_ s)) s).

(** [versionUtils_->abortStream(id)]: nothing for the H1Q dialects, a QPACK
    stream cancellation on the decoder stream for HQ. *)
Definition versionUtils_abortStream (id : StreamId) (s : HQSession) : option HQSession :=
  v ← version_ s;
  match v with
  | HQ => s1 ← ctrl_write QPACK_DECODER (FrQpackCancel id) s; scheduleWrite s1
  | _ => Some s
  end.

(** [HQSession::abortStream] *)
Definition abortStream (dir : Direction) (id : StreamId) (err : ErrorCode)
  (s : HQSession) : option HQSession :=
  _ ← sock_ s;
  s1 ← (if negb (bool_decide (dir = EGRESS)) &&
           (isBidirectionalStream id || isPeerUniStream s id)
        then s' ← versionUtils_abortStream id s; sock_call (OpStopSending id err) s'
        else Some s);
  if negb (bool_decide (dir = INGRESS)) &&
     (isBidirectionalStream id || isSelfUniStream s1 id)
  then sock_call (OpResetStream id err) s1
  else Some s1.

(** [H1QFBV1VersionUtils::checkNewStream] *)
Definition H1QFBV1_checkNewStream (id : StreamId) (s : HQSession)
  : option (bool * HQSession) :=
  if isUnidirectionalStream id || isServerStream id
  then s1 ← abortStream INGRESS_AND_EGRESS id HTTP_WRONG_STREAM s; Some (false, s1)
  else Some (true, s).

(** [GoawayUtils::checkNewStream] *)
Definition GoawayUtils_checkNewStream (id : StreamId) (s : HQSession)
  : option (bool * HQSession) :=
  if isBidirectionalStream id && isServerStream id
  then s1 ← abortStream INGRESS_AND_EGRESS id HTTP_WRONG_STREAM s; Some (false, s1)
  else
    if negb (bool_decide (drainState_ s = NONE)) &&
       ((bool_decide (direction_ s = UPSTREAM) && (maxAllowedStreamId_ s <? id)) ||
        (bool_decide (direction_ s = DOWNSTREAM) && isBidirectionalStream id &&
         (maxIncomingStreamId_ s <? id)))
    then s1 ← abortStream INGRESS_AND_EGRESS id HTTP_REQUEST_REJECTED s; Some (false, s1)
    else Some (true, s).

(** [versionUtils_->checkNewStream(id)] *)
Definition checkNewStream (id : StreamId) (s : HQSession) : option (bool * HQSession) :=
  v ← version_ s;
  match v with
  | H1Q_FB_V1 => H1QFBV1_checkNewStream id s
  | H1Q_FB_V2 | HQ => GoawayUtils_checkNewStream id s
  end.

(** *** Finding streams *)

(** A stream object is named by the table that holds it and its key. *)
Inductive StreamRef :=
| RequestStream (id : StreamId)
| IngressPushStream (pushId : PushId)
| EgressPushStream (id : StreamId).

#[global] Instance StreamRef_eq_dec : EqDecision StreamRef.
Proof. solve_decision. Defined.

Definition getStream (r : StreamRef) (s : HQSession) : option HQStreamTransportBase :=
  match r with
  | RequestStream id => streams_ s !! id
  | IngressPushStream p => ingressPushStreams_ s !! p
  | EgressPushStream id => egressPushStreams_ s !! id
  end.

Definition putStream (r : StreamRef) (st : HQStreamTransportBase) (s : HQSession)
  : HQSession :=
  match r with
  | RequestStream id => set_streams (<[id := st]> (streams_ s)) s
  | IngressPushStream p => set_ingressPushStreams (<[p := st]> (ingressPushStreams_ s)) s
  | EgressPushStream id => set_egressPushStreams (<[id := st]> (egressPushStreams_ s)) s
  end.

(** Modelled from the spec: [PushToStreamMap] is declared outside src/; the
    spec calls it the "PushId ↔ QUIC stream id bimap, built as nascent push
    streams are observed", in which "a PushId maps to at most one ... QUIC
    stream".  The relation is a list of pairs; an insertion that would
    repeat a push id or a stream id is refused. *)
Definition lookup_by_push_id (p : PushId) (l : list (PushId * StreamId))
  : option (PushId * StreamId) :=
  List.find (λ e, fst e =? p) l.

Definition lookup_by_stream_id (id : StreamId) (l : list (PushId * StreamId))
  : option (PushId * StreamId) :=
  List.find (λ e, snd e =? id) l.

Definition streamLookup_push_back (p : PushId) (id : StreamId)
  (l : list (PushId * StreamId)) : list (PushId * StreamId) :=
  match lookup_by_push_id p l, lookup_by_stream_id id l with
  | None, None => l ++ [(p, id)]
  | _, _ => l
  end.

(** [findIngressPushStreamByPushId] *)
Definition findIngressPushStreamByPushId (p : PushId) (s : HQSession)
  : option StreamRef :=
  _ ← ingressPushStreams_ s !! p; Some (IngressPushStream p).

(** [findIngressPushStream(quic::StreamId)] *)
Definition findIngressPushStream (id : StreamId) (s : HQSession) : option StreamRef :=
  e ← lookup_by_stream_id id (streamLookup_ s);
  findIngressPushStreamByPushId (fst e) s.

(** [findEgressPushStream] *)
Definition findEgressPushStream (id : StreamId) (s : HQSession) : option StreamRef :=
  _ ← egressPushStreams_ s !! id; Some (EgressPushStream id).

(** [findStreamImpl] *)
Definition findStreamImpl (id : StreamId)
  (includeEgress includeIngress includeDetached : bool) (s : HQSession)
  : option StreamRef :=
  let p0 := _ ← streams_ s !! id; Some (RequestStream id) in
  let p1 := match p0 with
            | None => if includeIngress then findIngressPushStream id s else None
            | _ => p0
            end in
  let p2 := match p1 with
            | None => if includeEgress then findEgressPushStream id s else None
            | _ => p1
            end in
  r ← p2;
  st ← getStream r s;
  if negb includeDetached && detached_ st then None else Some r.

Definition findNonDetachedStream (id : StreamId) := findStreamImpl id true true false.
Definition findStream (id : StreamId) := findStreamImpl id true true true.
Definition findIngressStream (id : StreamId) (includeDetached : bool) :=
  findStreamImpl id false true includeDetached.
Definition findEgressStream (id : StreamId) (includeDetached : bool) :=
  findStreamImpl id true false includeDetached.

(** [countStreamsImpl] / [numberOfStreams] *)
Definition numberOfStreams (s : HQSession) : nat :=
  (size (streams_ s) + size (ingressPushStreams_ s) + size (egressPushStreams_ s))%nat.

(** Applying a stream member function to a stream of the session.  When
    the transaction detaches inside ([detach]), the session's part of
    [detach] follows: [session_.scheduleLoopCallback()]. *)
Definition replaceStream (r : StreamRef) (st st' : HQStreamTransportBase)
  (s : HQSession) : HQSession :=
  let s1 := putStream r st' s in
  if negb (detached_ st) && detached_ st'
  then scheduleLoopCallback false s1 else s1.

Definition updStream (r : StreamRef)
  (f : HQStreamTransportBase → HQStreamTransportBase) (s : HQSession) : HQSession :=
  match getStream r s with
  | Some st => replaceStream r st (f st) s
  | None => s
  end.

(** *** Creating request streams *)

(** The answers of the collaborators of a new stream: what the codec's
    [createStream()] returns, and the reaction of the new transaction to
    [onError]. *)
Record NewStreamEnv := mkNewStreamEnv {
  created : Z;
  detachesOnError : bool;
}.

(** The stream object before [initCodec] and [initIngress]. *)
Definition new_stream (direction : TransportDirection) (assoc : option Z)
  (ingressId egressId : option StreamId) (env : NewStreamEnv)
  : HQStreamTransportBase :=
  {| txn_ := {| txnDirection := direction; txnAssocTxnId := assoc;
                txnHandler := None; txnLog := [];
                txnDetachesOnError := detachesOnError env |};
     pendingEOM_ := false; readEOF_ := false; hasCodec_ := false;
     hasIngress_ := false; detached_ := false; ingressError_ := false;
     eomGate_ := gate_new; codecStreamId_ := None;
     readBuf_ := []; writeBuf_ := [];
     ingressStreamId_ := ingressId; egressStreamId_ := egressId;
     streamTransportEnqueued := false; codecCalls := [] |}.

(** [HQStreamTransportBase::generateGoaway], for the field of the model it
    writes. *)
Definition generateGoaway (st : HQStreamTransportBase) : HQStreamTransportBase :=
  match codecStreamId_ st with
  | None => set_codecStreamId (Some 0) st
  | Some _ => st
  end.

(** [versionUtils_->createCodec(streamId)]: the HQ codec needs the two
    QPACK streams. *)
Definition createCodec (v : HQVersion) (s : HQSession) : option unit :=
  match v with
  | HQ => _ ← findControlStream QPACK_ENCODER s;
          _ ← findControlStream QPACK_DECODER s; Some ()
  | _ => Some ()
  end.

(** [HQSession::createStreamTransport]: the new stream, or null. *)
Definition createStreamTransport (env : NewStreamEnv) (streamId : StreamId)
  (s : HQSession) : option (option StreamRef * HQSession) :=
  k ← sock_ s;
  if negb (good k) || bool_decide (is_Some (findStream streamId s))
  then Some (None, s)
  else
    v ← version_ s;
    _ ← createCodec v s;
    st1 ← initCodec (direction_ s) (created env) (sock_ s)
            (new_stream (direction_ s) None (Some streamId) (Some streamId) env);
    '(k1, st2) ← initIngress (receiveStreamWindowSize_ s) (sock_ s) st1;
    let st3 := if negb (bool_decide (drainState_ s = NONE)) &&
                  bool_decide (v = H1Q_FB_V1)
               then generateGoaway st2 else st2 in
    Some (Some (RequestStream streamId),
          set_streams (<[streamId := st3]> (streams_ s)) (set_sock (Some k1) s)).

(** [HQSession::onNewBidirectionalStream] *)
Definition onNewBidirectionalStream (env : NewStreamEnv) (id : StreamId)
  (s : HQSession) : option HQSession :=
  '(ok, s1) ← checkNewStream id s;
  if negb ok then Some s1
  else
    match findNonDetachedStream id s1 with
    | Some _ => None
    | None =>
        '(r, s2) ← createStreamTransport env id s1;
        _ ← r;
        s3 ← sock_call (OpSetReadCallback id (Some CbSession)) s2;
        Some (set_maxIncomingStreamId (Z.max (maxIncomingStreamId_ s3) id) s3)
    end.

(** [HQSession::onNewUnidirectionalStream] *)
Definition onNewUnidirectionalStream (id : StreamId) (s : HQSession)
  : option HQSession :=
  '(ok, s1) ← checkNewStream id s;
  if negb ok then Some s1
  else
    match findControlStreamById id s1 with
    | Some _ => None
    | None =>
        sock_call (OpSetPeekCallback id (Some CbDispatcher))
          (set_dispatcherPending (dispatcherPending_ s1 ++ [id]) s1)
    end.

(** *** Reaping streams *)

(** [HQSession::clearStreamCallbacks] (the callbacks of the partial
    reliability extension are not part of the model). *)
Definition clearStreamCallbacks (id : StreamId) (s : HQSession) : HQSession :=
  match sock_ s with
  | Some k =>
      set_sock (Some (sock_do (OpSetPeekCallback id None)
                        (sock_do (OpSetReadCallback id None) k))) s
  | None => s
  end.

(** [HQSession::cleanupPendingStreams].  As in the source, the entry's
    stream id is also what is looked up among the ingress push streams. *)
Definition cleanupPendingStreams (s : HQSession) : HQSession :=
  let fromLookup :=
    omap (λ e : PushId * StreamId,
            let streamId := snd e in
            let pushId := snd e in
            match ingressPushStreams_ s !! pushId with
            | None => Some streamId
            | Some _ => None
            end) (streamLookup_ s) in
  foldl (λ acc id, clearStreamCallbacks id acc) s (dispatcherPending_ s ++ fromLookup).

Definition remove_first (f : PushId * StreamId → bool) (l : list (PushId * StreamId))
  : list (PushId * StreamId) :=
  (fix go l := match l with
               | [] => []
               | e :: l' => if f e then l' else e :: go l'
               end) l.

(** [HQSession::eraseStream]: [None] when a [CHECK] fails. *)
Definition eraseStream (streamId : StreamId) (s : HQSession) : option (bool * HQSession) :=
  let b1 := bool_decide (is_Some (streams_ s !! streamId)) in
  let s1 := set_streams (delete streamId (streams_ s)) s in
  let b2 := bool_decide (is_Some (egressPushStreams_ s1 !! streamId)) in
  let s2 := set_egressPushStreams (delete streamId (egressPushStreams_ s1)) s1 in
  '(b3, s3) ←
    match lookup_by_stream_id streamId (streamLookup_ s2) with
    | Some e =>
        let pushId := fst e in
        let b := bool_decide (is_Some (ingressPushStreams_ s2 !! pushId)) in
        let l := remove_first (λ e', snd e' =? streamId) (streamLookup_ s2) in
        match lookup_by_push_id pushId l with
        | Some _ => None
        | None =>
            Some (b, set_streamLookup l
                       (set_ingressPushStreams (delete pushId (ingressPushStreams_ s2)) s2))
        end
    | None => Some (false, s2)
    end;
  if (b1 && b2) || (b1 && b3) || (b2 && b3) then None
  else Some (b1 || b2 || b3, s3).

(** [HQSession::eraseStreamByPushId] *)
Definition eraseStreamByPushId (pushId : PushId) (s : HQSession)
  : option (bool * HQSession) :=
  let erased := bool_decide (is_Some (ingressPushStreams_ s !! pushId)) in
  let s1 := set_ingressPushStreams (delete pushId (ingressPushStreams_ s)) s in
  match lookup_by_push_id pushId (streamLookup_ s1) with
  | Some e =>
      let l := remove_first (λ e', fst e' =? pushId) (streamLookup_ s1) in
      match lookup_by_stream_id (snd e) l with
      | Some _ => None
      | None => Some (true, set_streamLookup l s1)
      end
  | None => Some (erased, s1)
  end.

(** [HQSession::detachStreamTransport] *)
Definition detachStreamTransport (r : StreamRef) (s : HQSession) : option HQSession :=
  st ← getStream r s;
  s1 ← (if hasIngressStreamId st || hasEgressStreamId st
        then
          streamId ← getStreamId st;
          _ ← findStream streamId s;
          let s' := if bool_decide (is_Some (sock_ s)) && hasIngressStreamId st
                    then clearStreamCallbacks streamId s else s in
          snd <$> eraseStream streamId s'
        else
          match r with
          | IngressPushStream pushId => snd <$> eraseStreamByPushId pushId s
          | _ => None
          end);
  Some (if bool_decide (numberOfStreams s1 = 0%nat) then cleanupPendingStreams s1 else s1).

(** The condition of [HQStreamTransportBase::checkForDetach]. *)
Definition readyToDetach (st : HQStreamTransportBase) : bool :=
  detached_ st && bool_decide (readBuf_ st = []) && bool_decide (writeBuf_ st = []) &&
  negb (pendingEOM_ st) && negb (streamTransportEnqueued st).

(** [HQStreamTransportBase::checkForDetach] *)
Definition checkForDetach (r : StreamRef) (s : HQSession) : option HQSession :=
  match getStream r s with
  | Some st => if readyToDetach st then detachStreamTransport r s else Some s
  | None => Some s
  end.

(** The streams [invokeOnAllStreams] visits: those of the three tables.
    The source collects them in an unordered set; the model visits them
    table by table, in the order of the keys. *)
Definition allStreams (s : HQSession) : list StreamRef :=
  (RequestStream <$> (fst <$> map_to_list (streams_ s))) ++
  (EgressPushStream <$> (fst <$> map_to_list (egressPushStreams_ s))) ++
  (IngressPushStream <$> (fst <$> map_to_list (ingressPushStreams_ s))).

(** [HQSession::checkForShutdown] *)
Definition checkForShutdown (s : HQSession) : option HQSession :=
  let s1 := if negb (bool_decide (version_ s = Some H1Q_FB_V1)) &&
               bool_decide (direction_ s = UPSTREAM) &&
               bool_decide (drainState_ s = PENDING)
            then set_drainState DONE s else s in
  s2 ← foldl (λ acc r, a ← acc; checkForDetach r a) (Some s1) (allStreams s1);
  if bool_decide (drainState_ s2 = DONE) && bool_decide (numberOfStreams s2 = 0%nat) &&
     negb (loopCallbackScheduled_ s2)
  then
    let s3 := match sock_ s2 with
              | Some k => set_sock None s2
              | None => s2
              end in
    Some (set_destroyed true s3)
  else Some s2.

(** *** Drain and GOAWAY *)

(** The answers of the collaborators of [GoawayUtils::sendGoaway]: the
    number of bytes the control codec generated, the socket's write offset
    and buffered bytes for the control stream, the length of the control
    stream's write buffer, and whether the delivery callback could be
    registered. *)
Record GoawayEnv := mkGoawayEnv {
  generated : Z;
  writeOffset : option Z;
  writeBufferedBytes : option Z;
  chainLength : Z;
  registered : bool;
}.

(** [HQSession::getGoawayStreamId] *)
Definition getGoawayStreamId (s : HQSession) : StreamId :=
  if bool_decide (drainState_ s = NONE) || bool_decide (drainState_ s = PENDING)
  then kEightByteLimit
  else maxIncomingStreamId_ s.

(** [GoawayUtils::sendGoaway] *)
Definition GoawayUtils_sendGoaway (env : GoawayEnv) (s : HQSession) : option HQSession :=
  if bool_decide (direction_ s = UPSTREAM) then Some s
  else if bool_decide (drainState_ s = DONE) then Some s
  else if negb (bool_decide (drainState_ s = PENDING) ||
                bool_decide (drainState_ s = FIRST_GOAWAY)) then None
  else
    let type := if bool_decide (version_ s = Some H1Q_FB_V2)
                then H1Q_CONTROL else CONTROL in
    connCtrlStream ← findControlStream type s;
    let goawayStreamId := getGoawayStreamId s in
    s1 ← (if generated env =? 0 then Some s
          else ctrl_write type (FrGoaway goawayStreamId) s);
    _ ← sock_ s1;
    match writeOffset env, writeBufferedBytes env with
    | Some wo, Some wb =>
        if generated env =? 0 then Some (set_drainState DONE s1)
        else
          s2 ← sock_call (OpRegisterDeliveryCallback
                            (ctrlEgressStreamId connCtrlStream)
                            (wo + wb + chainLength env)) s1;
          if negb (registered env) then Some (set_drainState DONE s2)
          else
            s3 ← scheduleWrite s2;
            Some (if bool_decide (drainState_ s3 = PENDING)
                  then set_drainState FIRST_GOAWAY s3
                  else set_drainState SECOND_GOAWAY s3)
    | _, _ => Some (set_drainState DONE s1)
    end.

(** [H1QFBV1VersionUtils::sendGoaway]: [generateGoaway] on all streams. *)
Definition H1QFBV1_sendGoaway (s : HQSession) : HQSession :=
  set_ingressPushStreams (generateGoaway <$> ingressPushStreams_ s)
    (set_egressPushStreams (generateGoaway <$> egressPushStreams_ s)
       (set_streams (generateGoaway <$> streams_ s) s)).

(** [versionUtils_->sendGoaway()] *)
Definition sendGoaway (env : GoawayEnv) (s : HQSession) : option HQSession :=
  v ← version_ s;
  match v with
  | H1Q_FB_V1 => Some (H1QFBV1_sendGoaway s)
  | H1Q_FB_V2 | HQ => GoawayUtils_sendGoaway env s
  end.

(** [HQSession::drainImpl] *)
Definition drainImpl (env : GoawayEnv) (s : HQSession) : option HQSession :=
  if negb (bool_decide (drainState_ s = NONE)) then Some s
  else
    let s1 := set_drainState PENDING s in
    match version_ s1 with
    | Some _ => sendGoaway env s1
    | None => Some s1
    end.

(** [HQSession::notifyPendingShutdown]; [drain()] is the same call. *)
Definition notifyPendingShutdown (env : GoawayEnv) (s : HQSession) : option HQSession :=
  drainImpl env s.

(** [HQSession::closeWhenIdle] *)
Definition closeWhenIdle (env : GoawayEnv) (s : HQSession) : option HQSession :=
  s1 ← drainImpl env s;
  let s2 := if bool_decide (version_ s1 = Some H1Q_FB_V1)
            then set_drainState DONE s1 else s1 in
  checkForShutdown (cleanupPendingStreams s2).

(** [HQSession::dropConnectionWithError] *)
Definition dropConnectionWithError (proxygenError : ProxygenError) (s : HQSession)
  : option HQSession :=
  if dropping_ s then Some s
  else
    let s1 := set_dropping true s in
    s2 ← (if bool_decide (numberOfStreams s1 = 0%nat)
          then Some (set_sock None s1)
          else
            _ ← sock_ s1;
            let s' := set_sock None s1 in
            Some (foldl (λ acc r, updStream r (errorOnTransaction_err proxygenError) acc)
                    s' (allStreams s')));
    s3 ← checkForShutdown (set_loopCallbackScheduled false (set_drainState DONE s2));
    if bool_decide (numberOfStreams s3 = 0%nat) then Some s3 else None.

(** [HQSession::dropConnection] *)
Definition dropConnection (s : HQSession) : option HQSession :=
  dropConnectionWithError kErrorDropped s.

(** [HQSession::onConnectionEnd] *)
Definition onConnectionEnd (env : GoawayEnv) (s : HQSession) : option HQSession :=
  closeWhenIdle env (set_drainState DONE s).

(** The streams [invokeOnNonDetachedStreams] visits. *)
Definition nonDetachedStreams (s : HQSession) : list StreamRef :=
  remove_dups
    (omap (λ id, findNonDetachedStream id s)
       ((fst <$> map_to_list (streams_ s)) ++
        (fst <$> map_to_list (egressPushStreams_ s)))).

(** [HQSession::onGoaway] *)
Definition onGoaway (env : GoawayEnv) (lastGoodStreamID : Z) (s : HQSession)
  : option HQSession :=
  if negb (bool_decide (direction_ s = UPSTREAM)) then None
  else if bool_decide (version_ s = Some H1Q_FB_V1) then None
  else
    let s1 := set_maxAllowedStreamId (Z.min (maxAllowedStreamId_ s) lastGoodStreamID) s in
    s2 ← drainImpl env s1;
    let s3 :=
      foldl (λ acc r,
               updStream r
                 (λ st, let st1 := set_txn (txn_do TxnOnGoaway (txn_ st)) st in
                        match getStreamId st1 with
                        | Some id => if maxAllowedStreamId_ s2 <? id
                                     then errorOnTransaction_err kErrorStreamUnacknowledged st1
                                     else st1
                        | None => st1
                        end) acc)
        s2 (nonDetachedStreams s2) in
    let s4 :=
      if bool_decide (drainState_ s3 = NONE) || bool_decide (drainState_ s3 = PENDING)
      then set_drainState FIRST_GOAWAY s3
      else if bool_decide (drainState_ s3 = FIRST_GOAWAY)
           then set_drainState DONE s3 else s3 in
    checkForShutdown s4.

(** [HQSession::onGoawayAck] *)
Definition onGoawayAck (env : GoawayEnv) (s : HQSession) : option HQSession :=
  s1 ← (if bool_decide (drainState_ s = FIRST_GOAWAY) then sendGoaway env s
        else if bool_decide (drainState_ s = SECOND_GOAWAY)
             then Some (set_drainState DONE s) else Some s);
  Some (scheduleLoopCallback false s1).

(** [HQControlStream::onDeliveryAck] *)
Definition HQControlStream_onDeliveryAck (env : GoawayEnv) (s : HQSession)
  : option HQSession :=
  onGoawayAck env s.

(** [HQControlStream::onCanceled] *)
Definition HQControlStream_onCanceled (s : HQSession) : HQSession :=
  scheduleLoopCallback false (set_drainState DONE s).

(** [H1QFBV1VersionUtils::headersComplete]; [close] is
    [msg->checkForHeaderToken(HTTP_HEADER_CONNECTION, "close", false)]. *)
Definition H1QFBV1_headersComplete (env : GoawayEnv) (close : bool) (s : HQSession)
  : option HQSession :=
  if bool_decide (drainState_ s = DONE) then Some s
  else if close
       then if bool_decide (drainState_ s = CLOSE_SENT)
            then Some (set_drainState DONE s)
            else
              s1 ← (if bool_decide (drainState_ s = NONE)
                    then drainImpl env s else Some s);
              Some (set_drainState CLOSE_RECEIVED s1)
       else Some s.

(** [versionUtils_->headersComplete(msg)]; [decoderPending] tells whether
    the write buffer of the QPACK decoder stream is not empty. *)
Definition headersComplete (env : GoawayEnv) (close decoderPending : bool)
  (s : HQSession) : option HQSession :=
  v ← version_ s;
  match v with
  | H1Q_FB_V1 => H1QFBV1_headersComplete env close s
  | H1Q_FB_V2 => Some s
  | HQ => match findControlStream QPACK_DECODER s with
          | Some _ => if decoderPending then scheduleWrite s else Some s
          | None => Some s
          end
  end.

(** [H1QFBV1VersionUtils::checkSendingGoaway] *)
Definition H1QFBV1_checkSendingGoaway (env : GoawayEnv) (wantsKeepalive : bool)
  (s : HQSession) : option HQSession :=
  s1 ← (if bool_decide (drainState_ s = NONE) && negb wantsKeepalive
        then notifyPendingShutdown env s else Some s);
  Some (if bool_decide (drainState_ s1 = CLOSE_RECEIVED) then set_drainState DONE s1
        else if bool_decide (drainState_ s1 = PENDING)
             then set_drainState CLOSE_SENT s1 else s1).

(** [versionUtils_->checkSendingGoaway(msg)], as [sendHeaders] calls it
    when [versionUtils_] is set. *)
Definition checkSendingGoaway (env : GoawayEnv) (wantsKeepalive : bool)
  (s : HQSession) : option HQSession :=
  match version_ s with
  | Some H1Q_FB_V1 => H1QFBV1_checkSendingGoaway env wantsKeepalive s
  | _ => Some s
  end.

(** *** Transport ready *)

(** [HQSession::onConnectionError], as [createEgressControlStream] and
    [getAndCheckApplicationProtocol] use it; [proxygenErr] is what
    [toProxygenError] makes of the code. *)
Definition onConnectionError (proxygenErr : ProxygenError) (s : HQSession)
  : option HQSession :=
  dropConnectionWithError proxygenErr s.

(** [HQSession::createEgressControlStream]; [id] is the answer of
    [sock_->createUnidirectionalStream()]. *)
Definition createEgressControlStream (proxygenErr : ProxygenError)
  (type : UnidirectionalStreamType) (id : option StreamId) (s : HQSession)
  : option (bool * HQSession) :=
  _ ← sock_ s;
  match id with
  | None => s1 ← onConnectionError proxygenErr s; Some (false, s1)
  | Some id =>
      match controlStreams_ s !! type with
      | Some _ => None
      | None =>
          let c := {| ctrlEgressStreamId := id; ctrlIngressStreamId := None;
                      ingressCodec_ := false; ctrlWritten := [FrPreface type] |} in
          s1 ← sock_call (OpSetControlStream id)
                 (set_controlStreams (<[type := c]> (controlStreams_ s)) s);
          Some (true, s1)
      end
  end.

(** [versionUtils_->createEgressControlStreams()]; [id1], [id2], [id3] are
    the answers of the socket to the successive requests for a
    unidirectional stream. *)
Definition createEgressControlStreams (proxygenErr : ProxygenError)
  (id1 id2 id3 : option StreamId) (s : HQSession) : option (bool * HQSession) :=
  v ← version_ s;
  match v with
  | H1Q_FB_V1 => Some (true, s)
  | H1Q_FB_V2 =>
      '(ok, s1) ← createEgressControlStream proxygenErr H1Q_CONTROL id1 s;
      if negb ok then Some (false, s1)
      else s2 ← scheduleWrite s1; Some (true, s2)
  | HQ =>
      '(ok1, s1) ← createEgressControlStream proxygenErr CONTROL id1 s;
      if negb ok1 then Some (false, s1)
      else
        '(ok2, s2) ← createEgressControlStream proxygenErr QPACK_ENCODER id2 s1;
        if negb ok2 then Some (false, s2)
        else
          '(ok3, s3) ← createEgressControlStream proxygenErr QPACK_DECODER id3 s2;
          if negb ok3 then Some (false, s3)
          else
            s4 ← ctrl_write CONTROL FrSettings s3;
            s5 ← scheduleWrite s4;
            s6 ← scheduleWrite s5;
            Some (true, s6)
  end.

(** The ALPN table of [getAndCheckApplicationProtocol]. *)
Definition alpnVersion (alpn : string) : option HQVersion :=
  if bool_decide (alpn = "h1q-fb") || bool_decide (alpn = "h1q") ||
     bool_decide (alpn = "hq-20")
  then Some H1Q_FB_V1
  else if bool_decide (alpn = "h1q-fb-v2") then Some H1Q_FB_V2
  else if bool_decide (alpn = "h3-fb-05") || bool_decide (alpn = "h3-20")
       then Some HQ
       else None.

(** [HQSession::getAndCheckApplicationProtocol] *)
Definition getAndCheckApplicationProtocol (proxygenErr : ProxygenError)
  (alpn : option string) (s : HQSession) : option (bool * HQSession) :=
  _ ← sock_ s;
  let s1 := match alpn ≫= alpnVersion with
            | Some v => set_version (Some v) s
            | None => s
            end in
  match alpn, version_ s1 with
  | Some _, Some _ => Some (true, s1)
  | _, _ => s2 ← onConnectionError proxygenErr s1; Some (false, s2)
  end.

(** [HQSession::onTransportReadyCommon], for the members of the model. *)
Definition onTransportReadyCommon (proxygenErr : ProxygenError)
  (alpn : option string) (id1 id2 id3 : option StreamId) (env : GoawayEnv)
  (s : HQSession) : option (bool * HQSession) :=
  '(ok, s1) ← getAndCheckApplicationProtocol proxygenErr alpn s;
  if negb ok then Some (false, s1)
  else
    '(ok', s2) ← createEgressControlStreams proxygenErr id1 id2 id3 s1;
    if negb ok' then Some (false, s2)
    else
      s3 ← (if bool_decide (drainState_ s2 = PENDING)
            then sendGoaway env s2 else Some s2);
      Some (true, s3).

(** *** Upstream: new transactions *)

(** [HQSession::newTransaction]; [quicStreamId] is the answer of
    [sock_->createBidirectionalStream()].  The result is the stream whose
    transaction is returned, or null. *)
Definition newTransaction (env : NewStreamEnv) (handler : option nat)
  (quicStreamId : option StreamId) (s : HQSession)
  : option (option StreamRef * HQSession) :=
  if bool_decide (drainState_ s = CLOSE_SENT) ||
     bool_decide (drainState_ s = FIRST_GOAWAY) ||
     bool_decide (drainState_ s = DONE)
  then Some (None, s)
  else
    k ← sock_ s;
    if negb (good k) then Some (None, s)
    else
      match quicStreamId with
      | None => Some (None, s)
      | Some id =>
          '(r, s1) ← createStreamTransport env id s;
          match r with
          | Some hqStream =>
              h ← handler;
              let s2 := updStream hqStream
                          (λ st, set_txn (txn_setHandler h (txn_ st)) st) s1 in
              s3 ← sock_call (OpSetReadCallback id (Some CbSession)) s2;
              Some (Some hqStream, s3)
          | None => Some (None, s1)
          end
      end.

(** *** Peer resets and read errors *)

(** [HQStreamTransportBase::sendAbortImpl] *)
Definition sendAbortImpl (r : StreamRef) (code : ErrorCode) (s : HQSession)
  : option HQSession :=
  st ← getStream r s;
  id ← getStreamId st;
  s1 ← abortStream INGRESS_AND_EGRESS id code s;
  Some (updStream r (abortEgress true) s1).

(** [HQStreamTransportBase::onResetStream]; [ingressStarted] is the answer
    of [txn_.isIngressStarted()]. *)
Definition onResetStream (r : StreamRef) (ingressStarted : bool)
  (errorCode : ErrorCode) (ex : HTTPException) (s : HQSession) : option HQSession :=
  let replyError :=
    if bool_decide (direction_ s = UPSTREAM) then HTTP_REQUEST_CANCELLED
    else if negb ingressStarted then HTTP_REQUEST_REJECTED
         else HTTP_NO_ERROR in
  let ex1 := if bool_decide (errorCode = HTTP_REQUEST_REJECTED)
             then setProxygenError kErrorStreamUnacknowledged ex
             else setProxygenError kErrorStreamAbort ex in
  let ex2 := if bool_decide (errorCode = GIVEUP_ZERO_RTT)
             then setProxygenError kErrorEarlyDataFailed ex1 else ex1 in
  let ex3 := setErrno (ApplicationErrorCode errorCode) ex2 in
  sendAbortImpl r replyError (updStream r (errorOnTransaction ex3) s).

(** [HQSession::errorOnTransactionId] *)
Definition errorOnTransactionId (id : StreamId) (ex : HTTPException) (s : HQSession)
  : HQSession :=
  match findStream id s with
  | Some r => updStream r (errorOnTransaction ex) s
  | None => s
  end.

(** [HQSession::readError] *)
Definition readError (ingressStarted : bool) (id : StreamId) (error : QuicErrorCode)
  (s : HQSession) : option HQSession :=
  let ex := {| exDirection := INGRESS_AND_EGRESS; exProxygenError := kErrorNone;
               exErrno := None |} in
  match error with
  | ApplicationErrorCode ec =>
      match findNonDetachedStream id s with
      | Some stream => onResetStream stream ingressStarted ec ex s
      | None => Some s
      end
  | LocalError errorCode =>
      let ex1 := if bool_decide (errorCode = CONNECT_FAILED)
                 then setProxygenError kErrorConnect ex
                 else setProxygenError kErrorShutdown ex in
      Some (errorOnTransactionId id ex1 s)
  | TransportErrorCode errorCode =>
      Some (errorOnTransactionId id
              (setErrno error (setProxygenError kErrorConnectionReset ex)) s)
  end.

(** *** Reads and the loop callback *)

Definition set_insert (id : StreamId) (l : list StreamId) : list StreamId :=
  if bool_decide (id ∈ l) then l else l ++ [id].

(** [HQSession::readRequestStream] *)
Definition readRequestStream (id : StreamId) (s : HQSession) : option HQSession :=
  match findIngressStream id false s with
  | None => _ ← findStream id s; Some s
  | Some hqStream =>
      k ← sock_ s;
      let '(readRes, k1) := sock_read id k in
      let s1 := set_sock (Some k1) s in
      match readRes with
      | inl e => readError false id (LocalError e) s1
      | inr (data, eof) =>
          let s2 := updStream hqStream
                      (λ st, set_readBuf (readBuf_ st ++ data) (set_readEOF eof st)) s1 in
          Some (set_pendingProcessReadSet (set_insert id (pendingProcessReadSet_ s2)) s2)
      end
  end.

(** [HQSession::readAvailable] *)
Definition readAvailable (id : StreamId) (s : HQSession) : option HQSession :=
  if kMaxReadsPerLoop <=? readsPerLoop_ s then Some s
  else
    s1 ← readRequestStream id (set_readsPerLoop (readsPerLoop_ s + 1) s);
    Some (scheduleLoopCallback true s1).

(** The codec of the request streams, as [processReadData] meets it: the
    outcome of feeding a stream's read buffer, and what the codec does at
    the end of the stream (see [onIngressEOF]). *)
Record CodecEnv := mkCodecEnv {
  onIngress : StreamId → list Z → OnIngress;
  atEOF : StreamId → option bool;
}.

(** The body of the loop of [HQSession::processReadData]. *)
Definition processReadData_step (codec : CodecEnv) (id : StreamId) (s : HQSession)
  : option HQSession :=
  match findIngressStream id true s with
  | None => Some s
  | Some ingressStream =>
      st ← getStream ingressStream s;
      if detached_ st
      then Some (replaceStream ingressStream st (set_readEOF false (set_readBuf [] st)) s)
      else
        let '(st1, blocked) :=
          stream_processReadData (onIngress codec id (readBuf_ st)) st in
        if negb blocked && readEOF_ st1
        then st2 ← onIngressEOF (atEOF codec id) st1;
             Some (replaceStream ingressStream st st2 s)
        else Some (replaceStream ingressStream st st1 s)
  end.

(** [HQSession::processReadData]: every id of the pending set is visited
    and erased. *)
Definition processReadData (codec : CodecEnv) (s : HQSession) : option HQSession :=
  s1 ← foldl (λ acc id, a ← acc; processReadData_step codec id a) (Some s)
         (pendingProcessReadSet_ s);
  Some (set_pendingProcessReadSet [] s1).

(** [HQSession::runLoopCallback], for the ingress half: the deferred drop,
    the reset of the read budget, the processing of the buffered reads and
    the shutdown check of the scope guard.  The event base has unlinked
    the callback when it runs it.  The egress half (the writes of the
    control and request streams) is not part of the model. *)
Definition runLoopCallback (codec : CodecEnv) (s : HQSession) : option HQSession :=
  let s0 := set_loopCallbackScheduled false s in
  match dropInNextLoop_ s0 with
  | Some (_, proxygenError) =>
      s1 ← dropConnectionWithError proxygenError s0;
      checkForShutdown s1
  | None =>
      s1 ← processReadData codec (set_readsPerLoop 0 s0);
      let s2 := if negb (bool_decide (pendingProcessReadSet_ s1 = []))
                then scheduleLoopCallback false s1 else s1 in
      checkForShutdown s2
  end.

(** [HQSession::resumeReads] *)
Definition resumeReads (streamId : StreamId) (s : HQSession) : option HQSession :=
  s1 ← sock_call (OpResumeRead streamId) s;
  Some (scheduleLoopCallback true s1).

(** *** Ingress push (upstream) *)

(** [HQIngressPushStream::bindTo], on the ingress push stream of [pushId];
    [created] is what the new codec's [createStream()] returns. *)
Definition bindTo (created : Z) (pushId : PushId) (streamId : StreamId)
  (s : HQSession) : option HQSession :=
  st ← ingressPushStreams_ s !! pushId;
  _ ← txnAssocTxnId (txn_ st);
  v ← version_ s;
  _ ← createCodec v s;
  st1 ← initCodec (direction_ s) created (sock_ s) st;
  if negb (bool_decide (codecStreamId_ st1 = Some streamId)) then None
  else
    let st2 := setIngressStreamId streamId st1 in
    '(k1, st3) ← initIngress (receiveStreamWindowSize_ s) (sock_ s) st2;
    let s1 := set_ingressPushStreams (<[pushId := st3]> (ingressPushStreams_ s))
                (set_sock (Some k1) s) in
    resumeReads streamId
      (set_pendingProcessReadSet (set_insert streamId (pendingProcessReadSet_ s1)) s1).

(** [HQSession::tryBindIngressStreamToTxn]; the stream hint, when given,
    is the ingress push stream of [pushId]. *)
Definition tryBindIngressStreamToTxn (created : Z) (pushId : PushId)
  (s : HQSession) : option (bool * HQSession) :=
  match lookup_by_push_id pushId (streamLookup_ s) with
  | None => Some (false, s)
  | Some res =>
      let streamId := snd res in
      match findIngressPushStreamByPushId pushId s with
      | None => Some (false, s)
      | Some _ =>
          s1 ← bindTo created pushId streamId s;
          streamById ← findIngressPushStream streamId s1;
          streamByPushId ← findIngressPushStreamByPushId pushId s1;
          st ← getStream streamByPushId s1;
          if bool_decide (ingressStreamId_ st = Some streamId) &&
             bool_decide (streamById = streamByPushId)
          then Some (true, s1) else None
      end
  end.

(** [HQSession::createIngressPushStream]; [detaches] is the reaction of
    the pushed transaction to [onError]. *)
Definition createIngressPushStream (created : Z) (detaches : bool)
  (parentId : StreamId) (pushId : PushId) (s : HQSession) : option HQSession :=
  match findIngressPushStreamByPushId pushId s with
  | Some _ => None
  | None =>
      let st := new_stream UPSTREAM (Some parentId) None None
                  {| created := created; detachesOnError := detaches |} in
      let s1 := set_ingressPushStreams (<[pushId := st]> (ingressPushStreams_ s)) s in
      snd <$> tryBindIngressStreamToTxn created pushId s1
  end.

(** [HQStreamTransport::onPushPromiseHeadersComplete], on the request
    stream [parent]. *)
Definition onPushPromiseHeadersComplete (created : Z) (detaches : bool)
  (parent : StreamId) (pushID : PushId) (s : HQSession) : option HQSession :=
  s1 ← createIngressPushStream created detaches parent pushID s;
  let s2 := updStream (RequestStream parent)
              (λ st, set_txn (txn_do (TxnOnPushedTransaction pushID) (txn_ st)) st) s1 in
  Some (updStream (IngressPushStream pushID)
          (λ st, set_txn (txn_do TxnOnIngressHeadersComplete (txn_ st)) st) s2).

(** [HQSession::onNewPushStream] *)
Definition onNewPushStream (pushStreamId : StreamId) (pushId : PushId)
  (toConsume : Z) (s : HQSession) : option HQSession :=
  s1 ← sock_call (OpConsume pushStreamId toConsume) s;
  s2 ← sock_call (OpSetReadCallback pushStreamId (Some CbSession)) s1;
  s3 ← sock_call (OpSetPeekCallback pushStreamId None) s2;
  s4 ← sock_call (OpPauseRead pushStreamId) s3;
  let s5 := set_streamLookup
              (streamLookup_push_back pushId pushStreamId (streamLookup_ s4)) s4 in
  match findIngressPushStreamByPushId pushId s5 with
  | Some ingressPushStream => Some s5
  | None => Some s5
  end.

(** *** Unidirectional streams: the preface *)

(** Modelled from the spec: [hq::withType] is declared outside src/; it
    hands the preface, as a stream type, to the functor of the dialect. *)
Definition withType (preface : Z)
  (parse : UnidirectionalStreamType → option UnidirectionalStreamType)
  : option UnidirectionalStreamType :=
  parse preface.

(** [H1QFBV2VersionUtils::parseStreamPreface] *)
Definition H1QFBV2_parseStreamPreface (preface : Z) : option UnidirectionalStreamType :=
  withType preface
    (λ type, if bool_decide (type = H1Q_CONTROL) then Some type else None).

(** [HQVersionUtils::parseStreamPreface] *)
Definition HQ_parseStreamPreface (preface : Z) : option UnidirectionalStreamType :=
  withType preface
    (λ type, if bool_decide (type = CONTROL) || bool_decide (type = PUSH) ||
                bool_decide (type = QPACK_ENCODER) || bool_decide (type = QPACK_DECODER)
             then Some type else None).

(** [HQSession::parseStreamPreface]: the outer [None] is the [LOG(FATAL)]
    of the first dialect, which has no preface. *)
Definition parseStreamPreface (preface : Z) (s : HQSession)
  : option (option UnidirectionalStreamType) :=
  v ← version_ s;
  match v with
  | H1Q_FB_V1 => None
  | H1Q_FB_V2 => Some (H1QFBV2_parseStreamPreface preface)
  | HQ => Some (HQ_parseStreamPreface preface)
  end.

(** [HQSession::rejectStream] *)
Definition rejectStream (id : StreamId) (s : HQSession) : option HQSession :=
  sock_call (OpStopSending id HTTP_UNKNOWN_STREAM_TYPE) s.

(** [versionUtils_->createControlCodec(type, ctrlStream)]: whether the
    codec returned is not null; [None] for a type the dialect has no
    ingress codec for ([CHECK(false)], [LOG(FATAL)]). *)
Definition createControlCodec (v : HQVersion) (type : UnidirectionalStreamType)
  : option bool :=
  match v with
  | H1Q_FB_V1 => Some false
  | H1Q_FB_V2 => if bool_decide (type = H1Q_CONTROL) then Some true else None
  | HQ => if bool_decide (type = CONTROL) || bool_decide (type = QPACK_ENCODER) ||
             bool_decide (type = QPACK_DECODER) then Some true else None
  end.

(** [HQSession::createIngressControlStream]: the control stream, or null. *)
Definition createIngressControlStream (id : StreamId) (type : UnidirectionalStreamType)
  (s : HQSession) : option (option UnidirectionalStreamType * HQSession) :=
  ctrlStream ← findControlStream type s;
  if ingressCodec_ ctrlStream
  then s1 ← dropConnectionWithError kErrorConnection s; Some (None, s1)
  else
    v ← version_ s;
    codec ← createControlCodec v type;
    let c := {| ctrlEgressStreamId := ctrlEgressStreamId ctrlStream;
                ctrlIngressStreamId := Some id; ingressCodec_ := codec;
                ctrlWritten := ctrlWritten ctrlStream |} in
    Some (Some type, set_controlStreams (<[type := c]> (controlStreams_ s)) s).

(** [HQSession::tryCreateIngressControlStream] *)
Definition tryCreateIngressControlStream (id : StreamId) (preface : Z) (s : HQSession)
  : option (option UnidirectionalStreamType * HQSession) :=
  res ← parseStreamPreface preface s;
  match res with
  | None => Some (None, s)
  | Some type =>
      '(ctrlStream, s1) ← createIngressControlStream id type s;
      match ctrlStream with
      | None => Some (None, s1)
      | Some c => s2 ← sock_call (OpSetControlStream id) s1; Some (Some c, s2)
      end
  end.

(** [HQSession::assignReadCallback], up to the installation of the read
    callback (the call that follows hands the bytes already received to
    the control codec). *)
Definition assignReadCallback (id : StreamId) (type : UnidirectionalStreamType)
  (toConsume : Z) (s : HQSession) : option HQSession :=
  s1 ← sock_call (OpConsume id toConsume) s;
  '(ctrlStream, s2) ← tryCreateIngressControlStream id type s1;
  match ctrlStream with
  | None => rejectStream id s2
  | Some _ =>
      s3 ← sock_call (OpSetPeekCallback id None) s2;
      sock_call (OpSetReadCallback id (Some CbDispatcher)) s3
  end.

(** Modelled from the spec: [HQUnidirStreamDispatcher] is not under src/.
    The spec (4.2): "When enough bytes are available to decode the
    preface: if the preface denotes a known stream type for this dialect:
    if control-like, consume the preface bytes, create an ingress control
    stream ..., install a read callback ...  If Push: consume preface +
    PushId, record the (PushId → stream id) binding ...  If unknown
    (includes grease): send STOP_SENDING with "unknown stream type" and
    forget the stream."  [preface] and [prefaceLen] are the decoded varint
    and its length, [push] the PushId that follows and its length, when
    the bytes for it are there. *)
Definition dispatcher_onDataAvailable (id : StreamId) (preface prefaceLen : Z)
  (push : option (PushId * Z)) (s : HQSession) : option HQSession :=
  type ← parseStreamPreface preface s;
  let release := λ s' : HQSession,
    set_dispatcherPending (filter (λ i, i ≠ id) (dispatcherPending_ s')) s' in
  match type with
  | None => s1 ← rejectStream id s; Some (release s1)
  | Some type =>
      if bool_decide (type = PUSH)
      then match push with
           | Some (pushId, pushIdLen) =>
               onNewPushStream id pushId (prefaceLen + pushIdLen) (release s)
           | None => Some s
           end
      else assignReadCallback id type prefaceLen (release s)
  end.

End Session.

(** ** The session at its creation *)

Definition newSession (direction : TransportDirection) (sock : QuicSocket) : HQSession :=
  {| direction_ := direction; version_ := None; drainState_ := NONE;
     dropping_ := false; dropInNextLoop_ := None; sock_ := Some sock;
     streams_ := ∅; ingressPushStreams_ := ∅; egressPushStreams_ := ∅;
     streamLookup_ := []; controlStreams_ := ∅; dispatcherPending_ := [];
     maxIncomingStreamId_ := 0; maxAllowedStreamId_ := kEightByteLimit;
     readsPerLoop_ := 0; pendingProcessReadSet_ := [];
     loopCallbackScheduled_ := false; scheduledWrite_ := false;
     receiveStreamWindowSize_ := None; destroyed_ := false |}.

Definition newSocket : QuicSocket :=
  {| good := true; sockOps := []; sockIngress := ∅ |}.

(** ** The session as a transition system *)

(** What can happen to a session: the calls of its owner, the callbacks of
    the transport, and the upcalls of the codecs, each with the answers of
    the collaborators it needs. *)
Inductive Event :=
| TransportReady (proxygenErr : ProxygenError) (alpn : option string)
    (id1 id2 id3 : option StreamId) (env : GoawayEnv)
| Drain (env : GoawayEnv)
| CloseWhenIdle (env : GoawayEnv)
| DropConnection
| ConnectionEnd (env : GoawayEnv)
| TimeoutExpired (env : GoawayEnv)
| GoawayReceived (env : GoawayEnv) (lastGoodStreamID : Z)
| GoawayDelivered (env : GoawayEnv)
| GoawayCanceled
| NewBidirectionalStream (env : NewStreamEnv) (id : StreamId)
| NewUnidirectionalStream (id : StreamId)
| UniPreface (id : StreamId) (preface prefaceLen : Z) (push : option (PushId * Z))
| NewTransaction (env : NewStreamEnv) (handler : option nat)
    (quicStreamId : option StreamId)
| ReadAvailable (id : StreamId)
| ReadError (ingressStarted : bool) (id : StreamId) (error : QuicErrorCode)
| LoopCallback (codec : CodecEnv)
| HeadersComplete (env : GoawayEnv) (close decoderPending : bool)
| SendHeaders (env : GoawayEnv) (wantsKeepalive : bool)
| PushPromise (created : Z) (detaches : bool) (parent : StreamId) (pushId : PushId).

Section Step.
Context `{codes : StreamTypeCodes}.

(** [HQSession::timeoutExpired] *)
Definition timeoutExpired (env : GoawayEnv) (s : HQSession) : option HQSession :=
  if negb (bool_decide (numberOfStreams s = 0%nat)) then Some s
  else closeWhenIdle env s.

(** [HQControlStream::onGoaway]: the upcall of the ingress codec of a
    control stream, so there is one. *)
Definition HQControlStream_onGoaway (env : GoawayEnv) (lastGoodStreamID : Z)
  (s : HQSession) : option HQSession :=
  if existsb (λ e, ingressCodec_ (snd e)) (map_to_list (controlStreams_ s))
  then onGoaway env lastGoodStreamID s
  else None.

(** One event.  The transport reports that it is ready once, before the
    dialect is known. *)
Definition step (ev : Event) (s : HQSession) : option HQSession :=
  match ev with
  | TransportReady proxygenErr alpn id1 id2 id3 env =>
      match version_ s with
      | None => snd <$> onTransportReadyCommon proxygenErr alpn id1 id2 id3 env s
      | Some _ => None
      end
  | Drain env => notifyPendingShutdown env s
  | CloseWhenIdle env => closeWhenIdle env s
  | DropConnection => dropConnection s
  | ConnectionEnd env => onConnectionEnd env s
  | TimeoutExpired env => timeoutExpired env s
  | GoawayReceived env lastGoodStreamID => HQControlStream_onGoaway env lastGoodStreamID s
  | GoawayDelivered env => HQControlStream_onDeliveryAck env s
  | GoawayCanceled => Some (HQControlStream_onCanceled s)
  | NewBidirectionalStream env id => onNewBidirectionalStream env id s
  | NewUnidirectionalStream id => onNewUnidirectionalStream id s
  | UniPreface id preface prefaceLen push =>
      dispatcher_onDataAvailable id preface prefaceLen push s
  | NewTransaction env handler quicStreamId =>
      snd <$> newTransaction env handler quicStreamId s
  | ReadAvailable id => readAvailable id s
  | ReadError ingressStarted id error => readError ingressStarted id error s
  | LoopCallback codec => runLoopCallback codec s
  | HeadersComplete env close decoderPending => headersComplete env close decoderPending s
  | SendHeaders env wantsKeepalive => checkSendingGoaway env wantsKeepalive s
  | PushPromise created detaches parent pushId =>
      onPushPromiseHeadersComplete created detaches parent pushId s
  end.

(** A sequence of events, oldest first. *)
Fixpoint run (evs : list Event) (s : HQSession) : option HQSession :=
  match evs with
  | [] => Some s
  | ev :: evs' => s1 ← step ev s; run evs' s1
  end.

End Step.

(** ** The drain order *)

(** The order of the drain diagram of the header:
    NONE, then PENDING, then CLOSE_SENT or CLOSE_RECEIVED (first dialect)
    or FIRST_GOAWAY then SECOND_GOAWAY (dialects with a control stream),
    then DONE. *)
Definition drain_le (a b : DrainState) : bool :=
  match a, b with
  | NONE, _ => true
  | PENDING, NONE => false
  | PENDING, _ => true
  | CLOSE_SENT, (CLOSE_SENT | DONE) => true
  | CLOSE_RECEIVED, (CLOSE_RECEIVED | DONE) => true
  | FIRST_GOAWAY, (FIRST_GOAWAY | SECOND_GOAWAY | DONE) => true
  | SECOND_GOAWAY, (SECOND_GOAWAY | DONE) => true
  | DONE, DONE => true
  | _, _ => false
  end.


(** ** Views of the session used in the statements *)

(** The members that only the drain, GOAWAY and read-budget code writes. *)
Definition core (s : HQSession) :=
  (direction_ s, version_ s, drainState_ s, dropping_ s, controlStreams_ s,
   maxIncomingStreamId_ s, maxAllowedStreamId_ s, readsPerLoop_ s,
   dropInNextLoop_ s, receiveStreamWindowSize_ s).

(** The members that no drain or GOAWAY function writes, except the bound
    that [onGoaway] lowers. *)
Definition bounds (s : HQSession) :=
  (direction_ s, version_ s, maxIncomingStreamId_ s, maxAllowedStreamId_ s,
   readsPerLoop_ s, receiveStreamWindowSize_ s).

(** The stream was opened by the peer of the session. *)
Definition peerInitiated (s : HQSession) (id : StreamId) : bool :=
  (bool_decide (direction_ s = UPSTREAM) && isServerStream id) ||
  (bool_decide (direction_ s = DOWNSTREAM) && isClientStream id).

(** The id is beyond the GOAWAY bound that applies to it: the advertised
    last-good id upstream; downstream, for bidirectional streams, the
    largest peer-initiated id seen so far. *)
Definition exceedsGoawayBound (s : HQSession) (id : StreamId) : bool :=
  (bool_decide (direction_ s = UPSTREAM) && (maxAllowedStreamId_ s <? id)) ||
  (bool_decide (direction_ s = DOWNSTREAM) && isBidirectionalStream id &&
   (maxIncomingStreamId_ s <? id)).

(** The operations on the socket so far. *)
Definition sockLog (s : HQSession) : list SockOp :=
  match sock_ s with Some k => sockOps k | None => [] end.

(** The tables of stream objects, and the streams the dispatcher holds. *)
Definition tables (s : HQSession) :=
  (streams_ s, ingressPushStreams_ s, egressPushStreams_ s, streamLookup_ s,
   dispatcherPending_ s, pendingProcessReadSet_ s).

(** The dialect has what [abortStream] needs. *)
Definition canAbort `{StreamTypeCodes} (s : HQSession) : Prop :=
  version_ s = Some H1Q_FB_V1 ∨ version_ s = Some H1Q_FB_V2 ∨
  (version_ s = Some HQ ∧ is_Some (findControlStream QPACK_DECODER s)).

(** C1 as the claim states it: with a GOAWAY bound in force, a new
    peer-initiated stream is refused exactly when its id is beyond the
    bound. *)
Definition new_stream_refused_iff_beyond_bound : Prop :=
  ∀ (codes : StreamTypeCodes) (s s' : HQSession) (id : StreamId) (ok : bool),
    version_ s = Some H1Q_FB_V2 ∨ version_ s = Some HQ →
    drainState_ s ≠ NONE →
    peerInitiated s id = true →
    checkNewStream id s = Some (ok, s') →
    ok = negb (exceedsGoawayBound s id).


(** The drain has gone beyond PENDING. *)
Definition drainedPastPending (s : HQSession) : bool :=
  negb (bool_decide (drainState_ s = NONE)) &&
  negb (bool_decide (drainState_ s = PENDING)).

(** C6 as the claim states it: [newTransaction] gives null exactly when
    the session has drained past PENDING, the socket is not good, or the
    socket refuses a bidirectional stream id. *)
Definition newTransaction_null_iff : Prop :=
  ∀ (codes : StreamTypeCodes) (env : NewStreamEnv) (handler : nat)
    (quicStreamId : option StreamId) (s s' : HQSession) (r : option StreamRef),
    direction_ s = UPSTREAM →
    newTransaction env (Some handler) quicStreamId s = Some (r, s') →
    (r = None ↔
     drainedPastPending s = true ∨
     (∃ k, sock_ s = Some k ∧ good k = false) ∨
     quicStreamId = None).

(** The reply code of [onResetStream]: by direction and ingress progress. *)
Definition replyErrorFor (direction : TransportDirection) (ingressStarted : bool)
  : ErrorCode :=
  match direction with
  | UPSTREAM => HTTP_REQUEST_CANCELLED
  | DOWNSTREAM => if ingressStarted then HTTP_NO_ERROR else HTTP_REQUEST_REJECTED
  end.

(** The exception [onResetStream] hands to the transaction for the peer's
    code: retryable ([kErrorStreamUnacknowledged]) when the peer said
    HTTP_REQUEST_REJECTED. *)
Definition resetException (errorCode : ErrorCode) : HTTPException :=
  {| exDirection := INGRESS_AND_EGRESS;
     exProxygenError :=
       if bool_decide (errorCode = GIVEUP_ZERO_RTT) then kErrorEarlyDataFailed
       else if bool_decide (errorCode = HTTP_REQUEST_REJECTED)
            then kErrorStreamUnacknowledged else kErrorStreamAbort;
     exErrno := Some (ApplicationErrorCode errorCode) |}.

(** The preface denotes a stream type of the dialect. *)
Definition knownStreamType `{codes : StreamTypeCodes} (v : HQVersion) (preface : Z)
  : bool :=
  match v with
  | H1Q_FB_V1 => false
  | H1Q_FB_V2 => bool_decide (preface = H1Q_CONTROL)
  | HQ => bool_decide (preface = CONTROL) || bool_decide (preface = PUSH) ||
          bool_decide (preface = QPACK_ENCODER) || bool_decide (preface = QPACK_DECODER)
  end.

(** *** The life of one request stream's ingress *)

(** What reaches a request stream after [initIngress]: the codec's upcall
    [onMessageComplete] (with the transaction's answer to
    [extraResponseExpected()]), the end of the stream as the session hands
    it over ([onIngressEOF], with what the codec does at the end), an error
    on the transaction, and an abort of the ingress. *)
Inductive StreamEvent :=
| SMessageComplete (extraResponseExpected : bool)
| SIngressEOF (codecAtEOF : option bool)
| SErrorOnTransaction (ex : HTTPException)
| SAbortIngress.

Definition stream_step (e : StreamEvent) (st : HQStreamTransportBase)
  : option HQStreamTransportBase :=
  match e with
  | SMessageComplete extra => Some (onMessageComplete extra st)
  | SIngressEOF codecAtEOF => onIngressEOF codecAtEOF st
  | SErrorOnTransaction ex => Some (errorOnTransaction ex st)
  | SAbortIngress => Some (abortIngress st)
  end.

Fixpoint stream_run (evs : list StreamEvent) (st : HQStreamTransportBase)
  : option HQStreamTransportBase :=
  match evs with
  | [] => Some st
  | e :: evs' => st' ← stream_step e st; stream_run evs' st'
  end.

(** How often [txn_.onIngressEOM()] ran. *)
Definition isIngressEOM (e : TxnEvent) : bool :=
  match e with TxnOnIngressEOM => true | _ => false end.

Definition eomCount (st : HQStreamTransportBase) : nat :=
  length (filter (λ e, isIngressEOM e = true) (txnLog (txn_ st))).

(** The event is a message-complete of the codec, or an end of stream of
    the transport. *)
Definition signalsMessageComplete (e : StreamEvent) : bool :=
  match e with
  | SMessageComplete _ | SIngressEOF (Some _) => true
  | _ => false
  end.

Definition signalsEOF (e : StreamEvent) : bool :=
  match e with SIngressEOF _ => true | _ => false end.

(** The message-complete ends the last message of the stream: upstream, no
    further response is expected after it. *)
Definition signalsFinalMessageComplete (upstream : bool) (e : StreamEvent) : bool :=
  match e with
  | SMessageComplete extra | SIngressEOF (Some extra) => negb (upstream && extra)
  | _ => false
  end.

(** The event aborts the ingress of the stream. *)
Definition abortsIngress (e : StreamEvent) : bool :=
  match e with
  | SErrorOnTransaction ex => isIngressException ex
  | SAbortIngress => true
  | _ => false
  end.

(** C3 as the claim states it: on a request stream, [onIngressEOM] runs
    once if the codec signalled message-complete and the transport the end
    of the stream, and never otherwise. *)
Definition eom_fires_once_iff_both_signals : Prop :=
  ∀ (direction : TransportDirection) (id : StreamId) (env : NewStreamEnv)
    (window : option Z) (k k' : QuicSocket) (st0 st : HQStreamTransportBase)
    (evs : list StreamEvent),
    initIngress window (Some k) (new_stream direction None (Some id) (Some id) env)
      = Some (k', st0) →
    stream_run evs st0 = Some st →
    eomCount st =
      if existsb signalsMessageComplete evs && existsb signalsEOF evs
      then 1%nat else 0%nat.

(** The gate and the transaction's log agree: the callback is held until
    both conditions are met, and has run once when they are. *)
Definition gateInv (st : HQStreamTransportBase) : Prop :=
  gateCallback (eomGate_ st) = negb (gate_allConditionsMet (eomGate_ st)) ∧
  eomCount st = if gate_allConditionsMet (eomGate_ st) then 1%nat else 0%nat.

(** *** The read budget of a loop iteration *)



(** The [readAvailable] callbacks of the transport between two loop
    callbacks, for the streams [ids] in turn. *)
Fixpoint readBurst `{codes : StreamTypeCodes} (ids : list StreamId) (s : HQSession)
  : option HQSession :=
  match ids with
  | [] => Some s
  | id :: ids' => s1 ← readAvailable id s; readBurst ids' s1
  end.

(** *** The drain diagram *)

(** The type of the connection's control stream, on which GOAWAY goes. *)
Definition connControlType `{codes : StreamTypeCodes} (s : HQSession)
  : UnidirectionalStreamType :=
  if bool_decide (version_ s = Some H1Q_FB_V2) then H1Q_CONTROL else CONTROL.

Definition goawayId (f : CtrlFrame) : option StreamId :=
  match f with FrGoaway id => Some id | _ => None end.

(** The stream ids of the GOAWAY frames written so far on the connection's
    control stream, oldest first. *)
Definition goawaysSent `{codes : StreamTypeCodes} (s : HQSession) : list StreamId :=
  match controlStreams_ s !! connControlType s with
  | Some c => omap goawayId (ctrlWritten c)
  | None => []
  end.

(** The GOAWAY frames that go with a drain state of a downstream session:
    none before the first GOAWAY, the sentinel in FIRST_GOAWAY, the
    sentinel and one more in SECOND_GOAWAY, and never more than two. *)
Definition goawaysFor (d : DrainState) (l : list StreamId) : Prop :=
  match d with
  | FIRST_GOAWAY => l = [kEightByteLimit]
  | SECOND_GOAWAY => ∃ m, l = [kEightByteLimit; m]
  | DONE => (length l ≤ 2)%nat
  | _ => l = []
  end.

Definition goawaysMatch `{codes : StreamTypeCodes} (s : HQSession) : Prop :=
  direction_ s = DOWNSTREAM → goawaysFor (drainState_ s) (goawaysSent s).

(** What the drain code relies on, and keeps: control streams exist only
    once the dialect is known, the GOAWAY states belong to the dialects
    with a control stream, and the GOAWAY frames written go with the drain
    state. *)
Definition drainInv `{codes : StreamTypeCodes} (s : HQSession) : Prop :=
  (version_ s = None → controlStreams_ s = ∅) ∧
  (drainState_ s = FIRST_GOAWAY ∨ drainState_ s = SECOND_GOAWAY →
   version_ s = Some H1Q_FB_V2 ∨ version_ s = Some HQ) ∧
  goawaysMatch s.

(** The collaborators of [sendGoaway] cooperate: the codec generates the
    frame, the socket knows the control stream and registers the delivery
    callback. *)
Definition cooperates (env : GoawayEnv) : bool :=
  negb (generated env =? 0) && bool_decide (is_Some (writeOffset env)) &&
  bool_decide (is_Some (writeBufferedBytes env)) && registered env.

(** From [s] to [s'] the direction and the dialect are kept, no control
    stream appears before the dialect is known, the drain state does not
    go back, a GOAWAY state is entered only by a dialect with a control
    stream, and the GOAWAY frames keep going with the drain state. *)
Definition advancesW `{codes : StreamTypeCodes} (s s' : HQSession) : Prop :=
  direction_ s' = direction_ s ∧
  version_ s' = version_ s ∧
  (version_ s = None → controlStreams_ s' = controlStreams_ s) ∧
  drain_le (drainState_ s) (drainState_ s') = true ∧
  (drainState_ s' = FIRST_GOAWAY ∨ drainState_ s' = SECOND_GOAWAY →
   drainState_ s' = drainState_ s ∨
   version_ s = Some H1Q_FB_V2 ∨ version_ s = Some HQ) ∧
  (goawaysMatch s → goawaysMatch s').

(** Once the drain is past PENDING, no GOAWAY frame is written from [s] to
    [s']. *)
Definition frozen `{codes : StreamTypeCodes} (s s' : HQSession) : Prop :=
  drainState_ s ≠ NONE → drainState_ s ≠ PENDING → goawaysSent s' = goawaysSent s.

(** What every function of the session but the delivery callback of the
    GOAWAY does. *)
Definition advances `{codes : StreamTypeCodes} (s s' : HQSession) : Prop :=
  advancesW s s' ∧ frozen s s'.

(** From [s] to [s'] nothing of the drain moves. *)
Definition quiet `{codes : StreamTypeCodes} (s s' : HQSession) : Prop :=
  direction_ s' = direction_ s ∧
  version_ s' = version_ s ∧
  drainState_ s' = drainState_ s ∧
  (version_ s = None → controlStreams_ s' = controlStreams_ s) ∧
  goawaysSent s' = goawaysSent s.

(** [sendGoaway] from [s] to [s'] registered the delivery callback of the
    connection's control stream on the socket, at the offset where the
    frame it wrote ends: the socket's write offset and buffered bytes for
    the stream and the length of the stream's write buffer together. *)
Definition registersDelivery `{codes : StreamTypeCodes} (env : GoawayEnv)
  (s s' : HQSession) : Prop :=
  ∃ c wo wb post,
    controlStreams_ s !! connControlType s = Some c ∧
    writeOffset env = Some wo ∧ writeBufferedBytes env = Some wb ∧
    sockLog s' = sockLog s ++
      OpRegisterDeliveryCallback (ctrlEgressStreamId c) (wo + wb + chainLength env)
        :: post ∧
    (post = [] ∨ post = [OpNotifyPendingWriteOnConnection]).

(** ** Concrete sessions, for the examples *)

(** Stream type codes of the examples: those of the HTTP/3 drafts for the
    four HTTP/3 stream types, and a value of its own for H1Q-Control. *)
Definition exampleCodes : StreamTypeCodes :=
  {| H1Q_CONTROL := 240; CONTROL := 0; PUSH := 1;
     QPACK_ENCODER := 2; QPACK_DECODER := 3 |}.

(** A drain in which the codec, the socket and the delivery callback all
    cooperate. *)
Definition orderly : GoawayEnv :=
  {| generated := 9; writeOffset := Some 0; writeBufferedBytes := Some 0;
     chainLength := 9; registered := true |}.

Definition exampleStreamEnv : NewStreamEnv :=
  {| created := 0; detachesOnError := true |}.

(** An upstream and a downstream HTTP/3 session after [onTransportReady]:
    the three egress control streams are open. *)
Definition upstreamH3 : option HQSession :=
  run (codes := exampleCodes)
    [TransportReady kErrorConnect (Some "h3-20") (Some 2) (Some 6) (Some 10) orderly]
    (newSession UPSTREAM newSocket).

Definition downstreamH3 : option HQSession :=
  run (codes := exampleCodes)
    [TransportReady kErrorConnect (Some "h3-20") (Some 3) (Some 7) (Some 11) orderly]
    (newSession DOWNSTREAM newSocket).

(** The session a run of events ends in (the fresh session if a [CHECK]
    fails on the way; the examples check that none does). *)
Definition the (o : option HQSession) : HQSession :=
  default (newSession DOWNSTREAM newSocket) o.

(** Scenario 2 of the spec: a downstream HTTP/3 session accepts streams 0,
    8 and 16, then [closeWhenIdle] sends the first GOAWAY. *)
Definition drainingDownstreamH3 : HQSession :=
  the (run (codes := exampleCodes)
         [TransportReady kErrorConnect (Some "h3-20") (Some 3) (Some 7) (Some 11) orderly;
          NewBidirectionalStream exampleStreamEnv 0;
          NewBidirectionalStream exampleStreamEnv 8;
          NewBidirectionalStream exampleStreamEnv 16;
          CloseWhenIdle orderly]
         (newSession DOWNSTREAM newSocket)).

(** An upstream HTTP/3 session that received a GOAWAY with last-good id
    12. *)
Definition goneAwayUpstreamH3 : HQSession :=
  the (run (codes := exampleCodes)
         [TransportReady kErrorConnect (Some "h3-20") (Some 2) (Some 6) (Some 10) orderly;
          UniPreface 3 0 1 None;
          GoawayReceived orderly 12]
         (newSession UPSTREAM newSocket)).


(** An upstream H1Q-v1 session whose first response carried
    "Connection: close". *)
Definition closeReceivedUpstreamH1Q : HQSession :=
  the (run (codes := exampleCodes)
         [TransportReady kErrorConnect (Some "h1q-fb") None None None orderly;
          NewTransaction exampleStreamEnv (Some 1%nat) (Some 0);
          HeadersComplete orderly true false]
         (newSession UPSTREAM newSocket)).

(** The request stream 0 of a downstream session, after [initIngress]. *)
Definition requestStream0 : HQStreamTransportBase :=
  default (new_stream DOWNSTREAM None (Some 0) (Some 0) exampleStreamEnv)
    (snd <$> initIngress None (Some newSocket)
               (new_stream DOWNSTREAM None (Some 0) (Some 0) exampleStreamEnv)).

(** An upstream HTTP/3 session with a request on stream 0. *)
Definition requestingUpstreamH3 : HQSession :=
  the (run (codes := exampleCodes)
         [TransportReady kErrorConnect (Some "h3-20") (Some 2) (Some 6) (Some 10) orderly;
          NewTransaction exampleStreamEnv (Some 1%nat) (Some 0)]
         (newSession UPSTREAM newSocket)).

(** The same session after the promise of push 4 on stream 0; the codec of
    the pushed stream will answer 15 to [createStream()]. *)
Definition promisedUpstreamH3 : HQSession :=
  the (run (codes := exampleCodes) [PushPromise 15 true 0 4] requestingUpstreamH3).

(** The events of the nascent push stream 15 for push 4 (preface and push
    id of one byte each), and of the promise. *)
Definition nascentPush : Event := UniPreface 15 1 1 (Some (4, 1)).
Definition promisePush : Event := PushPromise 15 true 0 4.

(** A socket that holds three bytes for stream 0 and two, with the end of
    the stream, for stream 4. *)
Definition dataSocket : QuicSocket :=
  {| good := true; sockOps := [];
     sockIngress := <[0 := ([1; 2; 3], false)]> (<[4 := ([4; 5], true)]> ∅) |}.

(** A downstream HTTP/3 session on that socket, with the request streams 0
    and 4. *)
Definition readingDownstreamH3 : HQSession :=
  the (run (codes := exampleCodes)
         [TransportReady kErrorConnect (Some "h3-20") (Some 3) (Some 7) (Some 11) orderly;
          NewBidirectionalStream exampleStreamEnv 0;
          NewBidirectionalStream exampleStreamEnv 4]
         (newSession DOWNSTREAM dataSocket)).

(** A codec that parses what it is given and has nothing to say yet. *)
Definition quietCodec : CodecEnv :=
  {| onIngress := λ _ buf, {| bytesParsed := length buf; messageComplete := None;
                              codecError := false |};
     atEOF := λ _, None |}.

(** The events that make a downstream HTTP/3 session with the request
    streams 0, 8 and 16. *)
Definition threeRequests : list Event :=
  [TransportReady kErrorConnect (Some "h3-20") (Some 3) (Some 7) (Some 11) orderly;
   NewBidirectionalStream exampleStreamEnv 0;
   NewBidirectionalStream exampleStreamEnv 8;
   NewBidirectionalStream exampleStreamEnv 16].

Definition servingDownstreamH3 : HQSession :=
  the (run (codes := exampleCodes) threeRequests (newSession DOWNSTREAM newSocket)).

(** More bytes reach the socket for a stream (what the transport does
    between two callbacks). *)
Definition deliver (id : StreamId) (data : list Z) (eof : bool) (s : HQSession)
  : HQSession :=
  set_sock ((λ k, {| good := good k; sockOps := sockOps k;
                     sockIngress := <[id := (data, eof)]> (sockIngress k) |})
              <$> sock_ s) s.

(** A codec that finds the end of a message in what it is given. *)
Definition completingCodec : CodecEnv :=
  {| onIngress := λ _ buf, {| bytesParsed := length buf; messageComplete := Some false;
                              codecError := false |};
     atEOF := λ _, None |}.

(** A downstream HTTP/3 session on [dataSocket] with the request stream 0,
    whose transaction stays attached on errors. *)
Definition attachedDownstreamH3 : HQSession :=
  the (run (codes := exampleCodes)
         [TransportReady kErrorConnect (Some "h3-20") (Some 3) (Some 7) (Some 11) orderly;
          NewBidirectionalStream {| created := 0; detachesOnError := false |} 0]
         (newSession DOWNSTREAM dataSocket)).

(** ** Further views used in the statements *)

(** The session holds request streams only, each under its own id: no
    push stream was created or announced. *)
Definition requestStreamsOnly (s : HQSession) : Prop :=
  ingressPushStreams_ s = ∅ ∧ egressPushStreams_ s = ∅ ∧ streamLookup_ s = [] ∧
  map_Forall (λ id st, ingressStreamId_ st = Some id) (streams_ s).

(** A downstream h1q-fb-v1 session after [onTransportReady]. *)
Definition downstreamH1Q : HQSession :=
  the (run (codes := exampleCodes)
         [TransportReady kErrorConnect (Some "h1q-fb") None None None orderly]
         (newSession DOWNSTREAM newSocket)).

(** The members that reaping a stream leaves alone. *)
Definition beside (s : HQSession) :=
  (core s, dispatcherPending_ s, pendingProcessReadSet_ s,
   loopCallbackScheduled_ s, scheduledWrite_ s, destroyed_ s).

(** [s'] is [s] but for the socket, which is there in both or in
    neither. *)
Definition sameButSock (s s' : HQSession) : Prop :=
  ∃ x, s' = set_sock x s ∧ (is_Some x ↔ is_Some (sock_ s)).

(** The stream is left as it is by [checkForDetach]. *)
Definition staysAttached (st : HQStreamTransportBase) : Prop :=
  readyToDetach st = false.

(** The drain state [checkForShutdown] works with: an upstream session of
    a dialect with a control stream goes from PENDING straight to DONE. *)
Definition shutdownState (s : HQSession) : DrainState :=
  if negb (bool_decide (version_ s = Some H1Q_FB_V1)) &&
     bool_decide (direction_ s = UPSTREAM) && bool_decide (drainState_ s = PENDING)
  then DONE else drainState_ s.

(** The request streams [checkForShutdown] leaves in the session. *)
Definition unreaped (m : gmap Z HQStreamTransportBase) : gmap Z HQStreamTransportBase :=
  filter (λ e, staysAttached e.2) m.

(** The transaction of the stream lets go of it when it is told of an
    error, or has done so before. *)
Definition detachesOnDrop (st : HQStreamTransportBase) : Prop :=
  detached_ st = true ∨ txnDetachesOnError (txn_ st) = true.

(** The members the drain and GOAWAY functions leave alone: the tables of
    streams, the loop callback, and the marks of a drop and of the
    destruction. *)
Definition aside (s : HQSession) :=
  (streams_ s, ingressPushStreams_ s, egressPushStreams_ s, streamLookup_ s,
   loopCallbackScheduled_ s, destroyed_ s, dropping_ s).

(** The exception [onGoaway] hands to the transactions of the streams
    beyond the bound: the request was not processed and can be retried. *)
Definition unacknowledged : HTTPException :=
  {| exDirection := INGRESS_AND_EGRESS;
     exProxygenError := kErrorStreamUnacknowledged; exErrno := None |}.

(** The drain state after a GOAWAY of the peer. *)
Definition afterGoaway (d : DrainState) : DrainState :=
  match d with
  | NONE | PENDING => FIRST_GOAWAY
  | FIRST_GOAWAY => DONE
  | _ => d
  end.

(** An upstream HTTP/3 session with requests on the streams 0, 4 and 8. *)
Definition busyUpstreamH3 : HQSession :=
  the (run (codes := exampleCodes)
         [TransportReady kErrorConnect (Some "h3-20") (Some 2) (Some 6) (Some 10) orderly;
          NewTransaction exampleStreamEnv (Some 1%nat) (Some 0);
          NewTransaction exampleStreamEnv (Some 2%nat) (Some 4);
          NewTransaction exampleStreamEnv (Some 3%nat) (Some 8)]
         (newSession UPSTREAM newSocket)).

(** An egress control stream as [createEgressControlStream] leaves it,
    with what was written after the preface. *)
Definition openedControlStream (type : UnidirectionalStreamType) (id : StreamId)
  (frames : list CtrlFrame) : HQControlStream :=
  {| ctrlEgressStreamId := id; ctrlIngressStreamId := None;
     ingressCodec_ := false; ctrlWritten := FrPreface type :: frames |}.

(** The egress control streams of a dialect, on the stream ids [a], [b]
    and [c] the socket granted in turn. *)
Definition egressControlStreams `{codes : StreamTypeCodes} (v : HQVersion)
  (a b c : StreamId) (type : UnidirectionalStreamType) : option HQControlStream :=
  match v with
  | H1Q_FB_V1 => None
  | H1Q_FB_V2 =>
      if bool_decide (type = H1Q_CONTROL)
      then Some (openedControlStream H1Q_CONTROL a []) else None
  | HQ =>
      if bool_decide (type = CONTROL)
      then Some (openedControlStream CONTROL a [FrSettings])
      else if bool_decide (type = QPACK_ENCODER)
           then Some (openedControlStream QPACK_ENCODER b [])
           else if bool_decide (type = QPACK_DECODER)
                then Some (openedControlStream QPACK_DECODER c []) else None
  end.

(** What the session does on the socket to open them. *)
Definition egressControlOps (v : HQVersion) (a b c : StreamId) (scheduled : bool)
  : list SockOp :=
  match v with
  | H1Q_FB_V1 => []
  | H1Q_FB_V2 =>
      OpSetControlStream a ::
      (if scheduled then [] else [OpNotifyPendingWriteOnConnection])
  | HQ =>
      [OpSetControlStream a; OpSetControlStream b; OpSetControlStream c] ++
      (if scheduled then [] else [OpNotifyPendingWriteOnConnection])
  end.

(** The socket granted the unidirectional streams the dialect asks for,
    as far as they were asked for: the dialect stops at the first
    refusal. *)
Definition granted (v : HQVersion) (id1 id2 id3 : option StreamId) : bool :=
  match v with
  | H1Q_FB_V1 => true
  | H1Q_FB_V2 => bool_decide (is_Some id1)
  | HQ => bool_decide (is_Some id1) && bool_decide (is_Some id2) &&
          bool_decide (is_Some id3)
  end.

(** The session as [newSession] makes it, for what the transport-ready
    code depends on; it may have been asked to drain already. *)
Definition unready (s : HQSession) : Prop :=
  version_ s = None ∧ controlStreams_ s = ∅ ∧ requestStreamsOnly s ∧
  streams_ s = ∅ ∧ dropping_ s = false ∧ is_Some (sock_ s).

(** The stream types of HTTP/3 that get a control stream are different
    from each other. *)
Definition distinctCodes `{codes : StreamTypeCodes} : Prop :=
  CONTROL ≠ QPACK_ENCODER ∧ CONTROL ≠ QPACK_DECODER ∧ QPACK_ENCODER ≠ QPACK_DECODER.

(** The ALPN strings of a dialect: [kH1QV1ProtocolString],
    [kH1QLigerProtocolString] and [kHQCurrentDraft] for the first one,
    [kH1QV2ProtocolString] for the second, [kH3FBCurrentDraft] and
    [kH3CurrentDraft] for HTTP/3. *)
Definition alpnsOf (v : HQVersion) : list string :=
  match v with
  | H1Q_FB_V1 => ["h1q-fb"; "h1q"; "hq-20"]
  | H1Q_FB_V2 => ["h1q-fb-v2"]
  | HQ => ["h3-fb-05"; "h3-20"]
  end.

(** ** Session errors, and errors on the egress of a stream *)

(** [quicControlStreamError]: an application error on a control stream
    becomes HTTP_CLOSED_CRITICAL_STREAM. *)
Definition quicControlStreamError (error : QuicErrorCode) : QuicErrorCode :=
  match error with
  | ApplicationErrorCode _ => ApplicationErrorCode HTTP_CLOSED_CRITICAL_STREAM
  | LocalError errorCode => LocalError errorCode
  | TransportErrorCode errorCode => TransportErrorCode errorCode
  end.

Section SessionErrors.
Context `{codes : StreamTypeCodes}.

(** [quic::TransportErrorCode::NO_ERROR] is an enumerator of the QUIC
    library; the functions below take its value as [noError]. *)
Variable noError : Z.

(** The [shouldDrop] of [handleSessionError]: the errors that are expected
    when the socket closes without error do not drop the connection. *)
Definition shouldDrop (err : QuicErrorCode) : bool :=
  match err with
  | ApplicationErrorCode _ => true
  | LocalError errorCode => negb (bool_decide (errorCode = LOCAL_NO_ERROR))
  | TransportErrorCode errorCode => negb (errorCode =? noError)
  end.

(** [HQSession::handleSessionError]; [ctrlStream] tells whether the stream
    is a control stream (the outcome of the [dynamic_cast]).  For a request
    stream the error has to be an application error. *)
Definition handleSessionError (ctrlStream : bool) (err : QuicErrorCode)
  (proxygenError : ProxygenError) (s : HQSession) : option HQSession :=
  _ ← (if ctrlStream then Some ()
       else match err with ApplicationErrorCode _ => Some () | _ => None end);
  if negb (shouldDrop err) then Some s
  else
    let appError := match err with
                    | ApplicationErrorCode error => error
                    | _ => HTTP_NO_ERROR
                    end in
    let appError := if ctrlStream && bool_decide (appError = HTTP_NO_ERROR)
                    then HTTP_CLOSED_CRITICAL_STREAM else appError in
    match dropInNextLoop_ s with
    | None => Some (scheduleLoopCallback true
                      (set_dropInNextLoop (Some (appError, proxygenError)) s))
    | Some _ => Some s
    end.

(** [HQSession::controlStreamReadError]; [proxygenErr] is what
    [toProxygenError] makes of the error. *)
Definition controlStreamReadError (proxygenErr : ProxygenError) (id : StreamId)
  (error : QuicErrorCode) (s : HQSession) : option HQSession :=
  match findControlStreamById id s with
  | None => Some s
  | Some _ => handleSessionError true (quicControlStreamError error) proxygenErr s
  end.

(** [HQControlStream::onError]: an error the ingress codec of a control
    stream reports; [error] is what [toHTTP3ErrorCode] makes of it, and the
    session id of the codec stands for the ingress stream. *)
Definition HQControlStream_onError (streamID : StreamId) (error : ErrorCode)
  (s : HQSession) : option HQSession :=
  _ ← findControlStreamById streamID s;
  handleSessionError true (ApplicationErrorCode error) kErrorConnection s.

End SessionErrors.

Section WriteErrors.
Context `{codes : StreamTypeCodes}.

(** [HQSession::handleWriteError] (the codec status code of the exception
    is not part of the model). *)
Definition handleWriteError (hqStream : StreamRef) (err : QuicErrorCode)
  (s : HQSession) : option HQSession :=
  let ex := {| exDirection := INGRESS_AND_EGRESS; exProxygenError := kErrorNone;
               exErrno := None |} in
  ex1 ← match err with
        | ApplicationErrorCode _ => Some (setProxygenError kErrorStreamAbort ex)
        | LocalError _ => Some (setProxygenError kErrorWrite (setErrno err ex))
        | TransportErrorCode _ => None
        end;
  st ← getStream hqStream s;
  id ← getStreamId st;
  s1 ← abortStream (exDirection ex1) id HTTP_REQUEST_CANCELLED s;
  Some (updStream hqStream (errorOnTransaction ex1) s1).

(** [HQSession::onStopSending] *)
Definition onStopSending (id : StreamId) (error : ErrorCode) (s : HQSession)
  : option HQSession :=
  match findStream id s with
  | Some stream => handleWriteError stream (ApplicationErrorCode error) s
  | None => Some s
  end.

End WriteErrors.

(** The exception [handleWriteError] hands to the transaction when the
    peer asked to stop sending. *)
Definition stopSendingException : HTTPException :=
  {| exDirection := INGRESS_AND_EGRESS; exProxygenError := kErrorStreamAbort;
     exErrno := None |}.

(** The exception [readError] hands to the transaction for an error that
    is not an application error of the peer: a failed connect, any other
    local error, or a transport error, whose code is kept. *)
Definition readErrorException (error : QuicErrorCode) : HTTPException :=
  {| exDirection := INGRESS_AND_EGRESS;
     exProxygenError :=
       match error with
       | LocalError CONNECT_FAILED => kErrorConnect
       | LocalError _ => kErrorShutdown
       | _ => kErrorConnectionReset
       end;
     exErrno := match error with
                | TransportErrorCode _ => Some error
                | _ => None
                end |}.

Definition isApplicationError (error : QuicErrorCode) : bool :=
  match error with ApplicationErrorCode _ => true | _ => false end.

(** The control stream of the peer, linked to the egress control stream of
    the same type. *)
Definition linkedControlStream (id : StreamId) (c : HQControlStream) : HQControlStream :=
  {| ctrlEgressStreamId := ctrlEgressStreamId c; ctrlIngressStreamId := Some id;
     ingressCodec_ := true; ctrlWritten := ctrlWritten c |}.

(** ** Writing the control streams *)

(** Sizes in the write path are [uint64_t] or [size_t]: a subtraction
    wraps around. *)
Definition wrap64 (z : Z) : Z := z mod 2 ^ 64.

(** What the write path asks of the QUIC socket, whose state is [T]:
    [getStreamFlowControl] answers with the send window available on a
    stream, or an error; [writeChain] is handed bytes, the end-of-stream
    mark and whether a delivery callback comes with them, and answers with
    an error or with the bytes it did not take (none for a null buffer). *)
Class QuicSocketWrites (T : Type) := {
  getStreamFlowControl : StreamId → T → LocalErrorCode + Z;
  writeChain : StreamId → list Z → bool → bool → T → (LocalErrorCode + list Z) * T;
}.

(** The socket keeps to its interface: a window is a size, and what
    [writeChain] hands back is the end of what it was given. *)
Definition returnsTheRest (T : Type) `{QuicSocketWrites T} : Prop :=
  (∀ id k window, getStreamFlowControl id k = inr window → 0 ≤ window) ∧
  (∀ id data eof cb k notWritten k',
     writeChain id data eof cb k = (inr notWritten, k') →
     ∃ taken, data = taken ++ notWritten).

(** The socket reports no error. *)
Definition neverFails (T : Type) `{QuicSocketWrites T} : Prop :=
  (∀ id k, ∃ window, getStreamFlowControl id k = inr window) ∧
  (∀ id data eof cb k, ∃ notWritten k',
     writeChain id data eof cb k = (inr notWritten, k')).

(** The session as the write path sees it: beside the members of
    [HQSession], the bytes in the [writeBuf_] of each control stream, by
    the type of the stream as in [controlStreams_], and the sending side of
    the socket. *)
Record Egress (T : Type) := mkEgress {
  session : HQSession;
  ctrlWriteBufs : gmap UnidirectionalStreamType (list Z);
  transport : T;
}.
Arguments mkEgress {T}.
Arguments session {T}.
Arguments ctrlWriteBufs {T}.
Arguments transport {T}.

(** The bytes waiting in the write buffers of the control streams. *)
Definition buffered {T : Type} (e : Egress T) : nat :=
  sum_list_with (λ b, length b.2) (map_to_list (ctrlWriteBufs e)).

(** [controlStreams_] is a [std::unordered_map]: a loop over it meets
    every control stream once, in an order that the container does not
    specify.  [order] is such an order for the session. *)
Definition visitsControlStreams (order : list UnidirectionalStreamType)
  (s : HQSession) : Prop :=
  order ≡ₚ (map_to_list (controlStreams_ s)).*1.

Section Egress.
Context {T : Type} `{QuicSocketWrites T}.

(** [quic::TransportErrorCode::NO_ERROR], as in [handleSessionError]; and
    [toProxygenError], a function of the QUIC glue code. *)
Variable noError : Z.
Variable toProxygenError : QuicErrorCode → ProxygenError.

(** [HQSession::writeBase]: [data] was split off [writeBuf] by the caller;
    what the socket hands back goes in front of what is left there.  The
    result is the count sent or the error, with the write buffer and the
    socket. *)
Definition writeBase (id : StreamId) (writeBuf data : list Z) (tryToSend : Z)
  (sendEof deliveryCallback : bool) (k : T)
  : (LocalErrorCode + Z) * list Z * T :=
  match writeChain id data sendEof deliveryCallback k with
  | (inl error, k') => (inl error, writeBuf, k')
  | (inr notWrittenBuf, k') =>
      match notWrittenBuf with
      | [] => (inr tryToSend, writeBuf, k')
      | _ :: _ =>
          (inr (wrap64 (tryToSend - Z.of_nat (length notWrittenBuf))),
           notWrittenBuf ++ writeBuf, k')
      end
  end.

(** [HQSession::controlStreamWriteImpl] for the control stream of a type:
    the count sent, and the state left. *)
Definition controlStreamWriteImpl (type : UnidirectionalStreamType) (maxEgress : Z)
  (e : Egress T) : option (Z * Egress T) :=
  ctrlStream ← controlStreams_ (session e) !! type;
  _ ← sock_ (session e);
  let egressStreamId := ctrlEgressStreamId ctrlStream in
  let writeBuf_ := default [] (ctrlWriteBufs e !! type) in
  match getStreamFlowControl egressStreamId (transport e) with
  | inl error =>
      s' ← handleSessionError noError true (quicControlStreamError (LocalError error))
             (toProxygenError (LocalError error)) (session e);
      Some (0, mkEgress s' (ctrlWriteBufs e) (transport e))
  | inr streamSendWindow =>
      let canSend := Z.min streamSendWindow maxEgress in
      let sendLen := Z.min canSend (Z.of_nat (length writeBuf_)) in
      let tryWriteBuf := take (Z.to_nat canSend) writeBuf_ in
      let writeBuf1 := drop (Z.to_nat canSend) writeBuf_ in
      match writeBase egressStreamId writeBuf1 tryWriteBuf sendLen false false
              (transport e) with
      | (inl error, writeBuf2, k') =>
          s' ← handleSessionError noError true (quicControlStreamError (LocalError error))
                 kErrorWrite (session e);
          Some (0, mkEgress s' (<[type := writeBuf2]> (ctrlWriteBufs e)) k')
      | (inr sent, writeBuf2, k') =>
          if maxEgress <? sent then None
          else Some (sent, mkEgress (session e) (<[type := writeBuf2]> (ctrlWriteBufs e)) k')
      end
  end.

(** The loop of [HQSession::writeControlStreams] over the control streams
    still to visit; the result is what is left of [maxEgress]. *)
Fixpoint writeControlStreams_from (types : list UnidirectionalStreamType)
  (maxEgress : Z) (e : Egress T) : option (Z * Egress T) :=
  match types with
  | [] => Some (maxEgress, e)
  | type :: types' =>
      match default [] (ctrlWriteBufs e !! type) with
      | [] => writeControlStreams_from types' maxEgress e
      | _ :: _ =>
          '(sent, e1) ← controlStreamWriteImpl type maxEgress e;
          if maxEgress <? sent then None
          else
            let maxEgress := maxEgress - sent in
            if maxEgress =? 0 then Some (maxEgress, e1)
            else writeControlStreams_from types' maxEgress e1
      end
  end.

(** [HQSession::writeControlStreams]: the count sent on all the control
    streams together; [order] is the order in which the loop over
    [controlStreams_] meets them. *)
Definition writeControlStreams (order : list UnidirectionalStreamType)
  (maxEgress : Z) (e : Egress T) : option (Z * Egress T) :=
  '(remaining, e') ← writeControlStreams_from order maxEgress e;
  Some (maxEgress - remaining, e').

End Egress.

(** The session after a control stream failed and nothing was waiting to
    drop the connection: the drop with HTTP_CLOSED_CRITICAL_STREAM waits
    for the next loop callback. *)
Definition criticalStreamClosed (proxygenError : ProxygenError) (s : HQSession)
  : HQSession :=
  scheduleLoopCallback true
    (set_dropInNextLoop (Some (HTTP_CLOSED_CRITICAL_STREAM, proxygenError)) s).

(** An example of a socket: one send window for all the streams, of which
    [writeChain] takes what fits and hands back the rest. *)
Record WindowSocket := mkWindowSocket {
  sendWindow : nat;
}.

#[global] Instance windowSocket : QuicSocketWrites WindowSocket := {
  getStreamFlowControl id k := inr (Z.of_nat (sendWindow k));
  writeChain id data eof cb k :=
    let n := (length data `min` sendWindow k)%nat in
    (inr (drop n data), mkWindowSocket (sendWindow k - n));
}.

(** Another one: it has no send window for the streams it has closed, and
    fails every write. *)
Record FaultySocket := mkFaultySocket {
  closedStreams : list StreamId;
}.

#[global] Instance faultySocket : QuicSocketWrites FaultySocket := {
  getStreamFlowControl id k :=
    if bool_decide (id ∈ closedStreams k) then inl (LOCAL_OTHER 1) else inr 8;
  writeChain id data eof cb k := (inl (LOCAL_OTHER 2), k);
}.

(** The bytes waiting on the control streams of the examples: three on
    the control stream and four on the QPACK decoder stream (the types 0
    and 3). *)
Definition waiting : gmap UnidirectionalStreamType (list Z) :=
  {[ 0 := [0; 4; 0]; 2 := []; 3 := [7; 7; 7; 7] ]}.

(** A downstream HTTP/3 session with these bytes to write. *)
Definition egressH3 {T : Type} (k : T) : Egress T :=
  mkEgress (the downstreamH3) waiting k.

(** ** Letting go of the socket *)

(** [HQSession::isClosing] and [HQSession::isReusable] *)
Definition isClosing (s : HQSession) : bool :=
  negb (bool_decide (drainState_ s = NONE)) || dropping_ s.

Definition isReusable (s : HQSession) : bool := negb (isClosing s).

(** Whether the session holds the socket, and the marks of a drop and of
    the destruction. *)
Definition held (s : HQSession) :=
  (bool_decide (is_Some (sock_ s)), dropping_ s, destroyed_ s).

(** The socket was let go, with the drain at its end. *)
Definition released (s : HQSession) : Prop :=
  sock_ s = None ∧ drainState_ s = DONE.

(** From [s] to [s'] the socket is held as before, or it was let go. *)
Definition moves (s s' : HQSession) : Prop :=
  held s' = held s ∨ released s'.

(** What holds of the socket in every session: after a drop or the
    destruction it is gone, and it is gone only with the drain at its
    end. *)
Definition releaseInv (s : HQSession) : Prop :=
  (dropping_ s = true ∨ destroyed_ s = true → sock_ s = None) ∧
  (sock_ s = None → drainState_ s = DONE).

(** ** The socket driver of the tests: opening streams *)

(** The part of [MockQuicSocketDriver] (test/MockQuicSocketDriver.h) that
    hands out stream ids. *)
Module Driver.

Inductive TransportEnum := CLIENT | SERVER.
Inductive StateEnum := NEW | OPEN | PAUSED | CLOSED | ERROR.

#[global] Instance TransportEnum_eq_dec : EqDecision TransportEnum.
Proof. solve_decision. Defined.
#[global] Instance StateEnum_eq_dec : EqDecision StateEnum.
Proof. solve_decision. Defined.

(** [StreamState], for the members the functions below read; the values
    of a new entry are the member initialisers. *)
Record StreamState := mkStreamState {
  readState : StateEnum;
  writeState : StateEnum;
  flowControlWindow : Z;
  isControl : bool;
}.

Definition newStreamState : StreamState :=
  {| readState := NEW; writeState := OPEN; flowControlWindow := 65536;
     isControl := false |}.

Record MockQuicSocketDriver := mkDriver {
  transportType_ : TransportEnum;
  streams_ : gmap Z StreamState;
  nextBidirectionalStreamId_ : Z;
  nextUnidirectionalStreamId_ : Z;
  unidirectionalStreamsCredit_ : Z;
}.

(** The constructor.  It leaves [unidirectionalStreamsCredit_] without a
    value; [credit] is what the member holds. *)
Definition create (transportType : TransportEnum) (credit : Z) : MockQuicSocketDriver :=
  {| transportType_ := transportType; streams_ := ∅;
     nextBidirectionalStreamId_ := if bool_decide (transportType = SERVER) then 1 else 0;
     nextUnidirectionalStreamId_ := if bool_decide (transportType = SERVER) then 3 else 2;
     unidirectionalStreamsCredit_ := credit |}.

(** [streams_[id]]: the entry is made if it is not there. *)
Definition touch (id : StreamId) (streams : gmap Z StreamState) : gmap Z StreamState :=
  match streams !! id with
  | Some _ => streams
  | None => <[id := newStreamState]> streams
  end.

(** [sock_->createBidirectionalStream()] *)
Definition createBidirectionalStream (d : MockQuicSocketDriver)
  : StreamId * MockQuicSocketDriver :=
  let streamId := nextBidirectionalStreamId_ d in
  (streamId,
   {| transportType_ := transportType_ d; streams_ := touch streamId (streams_ d);
      nextBidirectionalStreamId_ := wrap64 (streamId + 4);
      nextUnidirectionalStreamId_ := nextUnidirectionalStreamId_ d;
      unidirectionalStreamsCredit_ := unidirectionalStreamsCredit_ d |}).

(** The [count_if] of [createUnidirectionalStream]. *)
Definition activeUniStreams (d : MockQuicSocketDriver) : Z :=
  Z.of_nat (length (filter (λ item : Z * StreamState,
                              isUnidirectionalStream item.1 = true ∧
                              readState item.2 ≠ CLOSED ∧ writeState item.2 ≠ CLOSED)
                      (map_to_list (streams_ d)))).

(** [sock_->createUnidirectionalStream()]; [None] is the error
    STREAM_LIMIT_EXCEEDED. *)
Definition createUnidirectionalStream (d : MockQuicSocketDriver)
  : option StreamId * MockQuicSocketDriver :=
  if unidirectionalStreamsCredit_ d <=? activeUniStreams d then (None, d)
  else
    let streamId := nextUnidirectionalStreamId_ d in
    (Some streamId,
     {| transportType_ := transportType_ d; streams_ := touch streamId (streams_ d);
        nextBidirectionalStreamId_ := nextBidirectionalStreamId_ d;
        nextUnidirectionalStreamId_ := wrap64 (streamId + 4);
        unidirectionalStreamsCredit_ := unidirectionalStreamsCredit_ d |}).

Definition isSendingStream (d : MockQuicSocketDriver) (stream : StreamId) : bool :=
  isUnidirectionalStream stream &&
  ((bool_decide (transportType_ d = CLIENT) && isClientStream stream) ||
   (bool_decide (transportType_ d = SERVER) && isServerStream stream)).

Definition isReceivingStream (d : MockQuicSocketDriver) (stream : StreamId) : bool :=
  isUnidirectionalStream stream &&
  ((bool_decide (transportType_ d = CLIENT) && isServerStream stream) ||
   (bool_decide (transportType_ d = SERVER) && isClientStream stream)).

(** [checkNotReadOnlyStream] and [checkNotWriteOnlyStream]: whether the
    [CHECK] passes. *)
Definition checkNotReadOnlyStream (d : MockQuicSocketDriver) (id : StreamId) : bool :=
  negb (isUnidirectionalStream id && isReceivingStream d id).

Definition checkNotWriteOnlyStream (d : MockQuicSocketDriver) (id : StreamId) : bool :=
  negb (isUnidirectionalStream id && isSendingStream d id).

(** The streams a user of the socket asks for, one after the other. *)
Inductive Open := Bidirectional | Unidirectional.

Definition open (o : Open) (d : MockQuicSocketDriver) : MockQuicSocketDriver :=
  match o with
  | Bidirectional => (createBidirectionalStream d).2
  | Unidirectional => (createUnidirectionalStream d).2
  end.

Definition opens (l : list Open) (d : MockQuicSocketDriver) : MockQuicSocketDriver :=
  foldl (λ acc o, open o acc) d l.

End Driver.

(** ** Reads that wait for a detached stream *)

(** A stream whose buffered reads [processReadData] has thrown away. *)
Definition discarded (st : HQStreamTransportBase) : HQStreamTransportBase :=
  set_readEOF false (set_readBuf [] st).

(** The streams of the pending set are detached, or gone. *)
Definition pendingDetached (s : HQSession) : Prop :=
  Forall (λ id, ∀ st, streams_ s !! id = Some st → detached_ st = true)
    (pendingProcessReadSet_ s).

(** A downstream HTTP/3 session with the request streams 0 and 4: the
    bytes of stream 0 were read and wait in its buffer, its id waits in
    the pending set, and its transaction has let go of the stream. *)
Definition detachedReaderH3 : HQSession :=
  let s := the (run (codes := exampleCodes) [ReadAvailable 0] readingDownstreamH3) in
  set_streams (alter (set_detached true) 0 (streams_ s)) s.

(** ** The streams accepted and the stream id of the GOAWAY *)

(** Every request stream of the session has an id within
    [maxIncomingStreamId_], the id the second GOAWAY announces. *)
Definition covered (s : HQSession) : Prop :=
  ∀ id, is_Some (streams_ s !! id) → id ≤ maxIncomingStreamId_ s.

(** From [s] to [s'] no request stream was added, and
    [maxIncomingStreamId_] is as it was. *)
Definition within (s s' : HQSession) : Prop :=
  maxIncomingStreamId_ s' = maxIncomingStreamId_ s ∧
  ∀ id, is_Some (streams_ s' !! id) → is_Some (streams_ s !! id).

(** The event is a transaction the session opens itself. *)
Definition opensTransaction (ev : Event) : bool :=
  match ev with NewTransaction _ _ _ => true | _ => false end.
(** The transport reports a new bidirectional stream with the id of a
    bidirectional stream. *)
Definition bidirectionalId (ev : Event) : bool :=
  match ev with
  | NewBidirectionalStream _ id => isBidirectionalStream id
  | _ => true
  end.

(** * Properties *)

(** Keep [simpl] from unfolding the member functions. *)
Arguments initCodec : simpl never.
Arguments initIngress : simpl never.
Arguments new_stream : simpl never.
Arguments sock_call : simpl never.
Arguments scheduleWrite : simpl never.
Arguments scheduleLoopCallback : simpl never.
Arguments abortStream : simpl never.
Arguments versionUtils_abortStream : simpl never.
Arguments checkNewStream : simpl never.
Arguments GoawayUtils_checkNewStream : simpl never.
Arguments H1QFBV1_checkNewStream : simpl never.
Arguments findStreamImpl : simpl never.
Arguments createStreamTransport : simpl never.
Arguments createCodec : simpl never.
Arguments updStream : simpl never.
Arguments replaceStream : simpl never.
Arguments checkForShutdown : simpl never.
Arguments cleanupPendingStreams : simpl never.
Arguments GoawayUtils_sendGoaway : simpl never.
Arguments H1QFBV1_sendGoaway : simpl never.
Arguments sendGoaway : simpl never.
Arguments drainImpl : simpl never.
Arguments closeWhenIdle : simpl never.
Arguments dropConnectionWithError : simpl never.
Arguments onGoaway : simpl never.
Arguments onGoawayAck : simpl never.
Arguments readRequestStream : simpl never.
Arguments readAvailable : simpl never.
Arguments readError : simpl never.
Arguments onResetStream : simpl never.
Arguments sendAbortImpl : simpl never.
Arguments processReadData : simpl never.
Arguments runLoopCallback : simpl never.
Arguments bindTo : simpl never.
Arguments tryBindIngressStreamToTxn : simpl never.
Arguments createIngressPushStream : simpl never.
Arguments onNewPushStream : simpl never.
Arguments rejectStream : simpl never.
Arguments parseStreamPreface : simpl never.
Arguments newTransaction : simpl never.
Arguments onTransportReadyCommon : simpl never.
Arguments kEightByteLimit : simpl never.
Arguments errorOnTransaction : simpl never.
Arguments errorOnTransaction_err : simpl never.
Arguments abortEgress : simpl never.
Arguments abortIngress : simpl never.
Arguments txn_onError : simpl never.
Arguments getStreamId : simpl never.
Arguments eomGate_set : simpl never.
Arguments onMessageComplete : simpl never.
Arguments onIngressEOF : simpl never.
Arguments stream_processReadData : simpl never.
Arguments generateGoaway : simpl never.

(** ** Frame lemmas: what the helpers leave alone *)

Section Frames.
Context `{codes : StreamTypeCodes}.

Lemma foldl_option_inv {A B} (P : A → Prop) (f : A → B → option A) l a a' :
  (∀ x b x', P x → f x b = Some x' → P x') →
  P a →
  foldl (λ acc b, x ← acc; f x b) (Some a) l = Some a' → P a'.
Proof.
  intros Hf. revert a. induction l as [|b l IH]; simpl; intros a Ha Hr.
  - by simplify_eq.
  - destruct (f a b) as [x|] eqn:E.
    + eapply IH; [|exact Hr]. eauto.
    + clear -Hr. exfalso. induction l; simpl in *; [done|auto].
Qed.

Lemma foldl_inv {A B} (P : A → Prop) (f : A → B → A) l a :
  (∀ x b, P x → P (f x b)) → P a → P (foldl f a l).
Proof. intros Hf. revert a. induction l; simpl; auto. Qed.

Lemma core_scheduleLoopCallback b s : core (scheduleLoopCallback b s) = core s.
Proof. unfold scheduleLoopCallback. by repeat case_match. Qed.

Lemma core_putStream r st s : core (putStream r st s) = core s.
Proof. by destruct r. Qed.

Lemma core_replaceStream r st st' s : core (replaceStream r st st' s) = core s.
Proof.
  unfold replaceStream. case_match; [rewrite core_scheduleLoopCallback|];
    apply core_putStream.
Qed.

Lemma core_updStream r f s : core (updStream r f s) = core s.
Proof. unfold updStream. case_match; [apply core_replaceStream|done]. Qed.

Lemma core_sock_call op s s' : sock_call op s = Some s' → core s' = core s.
Proof. unfold sock_call. intros; by simplify_option_eq. Qed.

Lemma core_clearStreamCallbacks id s : core (clearStreamCallbacks id s) = core s.
Proof. unfold clearStreamCallbacks. by case_match. Qed.

Lemma core_cleanupPendingStreams s : core (cleanupPendingStreams s) = core s.
Proof.
  unfold cleanupPendingStreams.
  apply (foldl_inv (λ x, core x = core s)); [|done].
  intros x b <-. apply core_clearStreamCallbacks.
Qed.

Lemma core_eraseStream id s b s' : eraseStream id s = Some (b, s') → core s' = core s.
Proof.
  unfold eraseStream. intros Hs.
  repeat (simplify_option_eq || case_match); done.
Qed.

Lemma core_eraseStreamByPushId p s b s' :
  eraseStreamByPushId p s = Some (b, s') → core s' = core s.
Proof.
  unfold eraseStreamByPushId. intros Hs.
  repeat (simplify_option_eq || case_match); done.
Qed.

Lemma core_detachStreamTransport r s s' :
  detachStreamTransport r s = Some s' → core s' = core s.
Proof.
  unfold detachStreamTransport. intros Hs.
  apply bind_Some in Hs as (st & _ & Hs).
  apply bind_Some in Hs as (s1 & E1 & Hs).
  assert (core s1 = core s) as <-.
  { clear Hs. destruct (hasIngressStreamId st || hasEgressStreamId st).
    - apply bind_Some in E1 as (id & _ & E1).
      apply bind_Some in E1 as (? & _ & E1).
      apply fmap_Some in E1 as ([b s2] & E1 & ->). simpl.
      apply core_eraseStream in E1. rewrite E1.
      case_match; [apply core_clearStreamCallbacks|done].
    - destruct r; try done.
      apply fmap_Some in E1 as ([b s2] & E1 & ->). simpl.
      by apply core_eraseStreamByPushId in E1. }
  simplify_eq. destruct (bool_decide (numberOfStreams _ = _));
    [apply core_cleanupPendingStreams|done].
Qed.

Lemma core_checkForDetach r s s' : checkForDetach r s = Some s' → core s' = core s.
Proof.
  unfold checkForDetach. intros Hs. repeat case_match; simplify_eq; try done.
  by eapply core_detachStreamTransport.
Qed.

End Frames.

Section DrainFrames.
Context `{codes : StreamTypeCodes}.

Lemma core_scheduleWrite s s' : scheduleWrite s = Some s' → core s' = core s.
Proof.
  unfold scheduleWrite. destruct (scheduledWrite_ s); intros Hs; [by simplify_eq|].
  by apply core_sock_call in Hs.
Qed.

(** [checkForShutdown] may only finish a pending drain of an upstream
    session with a control stream. *)
Lemma checkForShutdown_core s s' :
  checkForShutdown s = Some s' →
  core s' =
  core (if negb (bool_decide (version_ s = Some H1Q_FB_V1)) &&
          bool_decide (direction_ s = UPSTREAM) &&
          bool_decide (drainState_ s = PENDING)
        then set_drainState DONE s else s).
Proof.
  unfold checkForShutdown.
  set (s1 := if negb (bool_decide (version_ s = Some H1Q_FB_V1)) && _ && _
             then _ else s).
  intros Hs.
  apply bind_Some in Hs as (s2 & Hf & Hs).
  apply (foldl_option_inv (λ x, core x = core s1)) in Hf; [| |reflexivity].
  - rewrite <- Hf. clear Hf.
    destruct (_ && _ && negb _); simplify_eq; [|done].
    by destruct (sock_ s2).
  - intros x b x' Hx Hd. apply core_checkForDetach in Hd. congruence.
Qed.

Lemma drainState_checkForShutdown s s' :
  checkForShutdown s = Some s' →
  drainState_ s' = drainState_ s ∨
  (drainState_ s = PENDING ∧ drainState_ s' = DONE ∧ direction_ s = UPSTREAM ∧
   version_ s ≠ Some H1Q_FB_V1).
Proof.
  intros Hs. apply checkForShutdown_core in Hs.
  destruct (negb _ && _ && _) eqn:E.
  - right. apply andb_prop in E as [E E3]. apply andb_prop in E as [E1 E2].
    apply bool_decide_eq_true in E2, E3. apply negb_true_iff, bool_decide_eq_false in E1.
    assert (drainState_ s' = DONE) by (by injection Hs). done.
  - left. by injection Hs.
Qed.

End DrainFrames.

Section Bounds.
Context `{codes : StreamTypeCodes}.

Lemma core_bounds s s' : core s' = core s → bounds s' = bounds s.
Proof. unfold core, bounds. intros [=]. congruence. Qed.

Lemma bounds_set_drainState d s : bounds (set_drainState d s) = bounds s.
Proof. done. Qed.

Lemma bounds_ctrl_write type f s s' : ctrl_write type f s = Some s' → bounds s' = bounds s.
Proof. unfold ctrl_write. intros; by simplify_option_eq. Qed.

Lemma bounds_scheduleWrite s s' : scheduleWrite s = Some s' → bounds s' = bounds s.
Proof. intros Hs. by apply core_bounds, core_scheduleWrite. Qed.

Lemma bounds_sock_call op s s' : sock_call op s = Some s' → bounds s' = bounds s.
Proof. intros Hs. by apply core_sock_call, core_bounds in Hs. Qed.

Lemma bounds_GoawayUtils_sendGoaway env s s' :
  GoawayUtils_sendGoaway env s = Some s' → bounds s' = bounds s.
Proof.
  unfold GoawayUtils_sendGoaway. intros Hs.
  destruct (bool_decide (direction_ s = UPSTREAM)); [by simplify_eq|].
  destruct (bool_decide (drainState_ s = DONE)); [by simplify_eq|].
  destruct (negb _); [done|].
  apply bind_Some in Hs as (c & _ & Hs).
  apply bind_Some in Hs as (s1 & H1 & Hs).
  assert (bounds s1 = bounds s) as <-.
  { destruct (generated env =? 0); [by simplify_eq|]. by eapply bounds_ctrl_write. }
  clear H1. apply bind_Some in Hs as (k & _ & Hs).
  destruct (writeOffset env), (writeBufferedBytes env); simplify_eq; try done.
  destruct (generated env =? 0); [by simplify_eq|].
  apply bind_Some in Hs as (s2 & H2 & Hs). apply bounds_sock_call in H2. rewrite <- H2.
  destruct (negb (registered env)); [by simplify_eq|].
  apply bind_Some in Hs as (s3 & H3 & Hs). apply bounds_scheduleWrite in H3.
  rewrite <- H3. destruct (bool_decide (drainState_ s3 = PENDING)); by simplify_eq.
Qed.

Lemma bounds_H1QFBV1_sendGoaway s : bounds (H1QFBV1_sendGoaway s) = bounds s.
Proof. done. Qed.

Lemma bounds_sendGoaway env s s' : sendGoaway env s = Some s' → bounds s' = bounds s.
Proof.
  unfold sendGoaway. intros Hs. apply bind_Some in Hs as (v & _ & Hs).
  destruct v; simplify_eq; try done; by eapply bounds_GoawayUtils_sendGoaway.
Qed.

Lemma bounds_drainImpl env s s' : drainImpl env s = Some s' → bounds s' = bounds s.
Proof.
  unfold drainImpl. intros Hs. destruct (negb _); [by simplify_eq|].
  destruct (version_ (set_drainState PENDING s)); [|by simplify_eq].
  by apply bounds_sendGoaway in Hs.
Qed.

Lemma bounds_checkForShutdown s s' : checkForShutdown s = Some s' → bounds s' = bounds s.
Proof.
  intros Hs. apply checkForShutdown_core, core_bounds in Hs. rewrite Hs.
  by destruct (_ && _ && _).
Qed.

Lemma bounds_foldl_updStream (f : StreamRef → HQStreamTransportBase → HQStreamTransportBase)
  l s :
  bounds (foldl (λ acc r, updStream r (f r) acc) s l) = bounds s.
Proof.
  apply (foldl_inv (λ x, bounds x = bounds s)); [|done].
  intros x r <-. apply core_bounds, core_updStream.
Qed.

End Bounds.

Section C10.
Context `{codes : StreamTypeCodes}.

Lemma bounds_onGoaway env id s s' :
  onGoaway env id s = Some s' →
  bounds s' = bounds (set_maxAllowedStreamId (Z.min (maxAllowedStreamId_ s) id) s).
Proof.
  unfold onGoaway. intros Hs.
  destruct (negb _); [done|]. destruct (bool_decide (version_ s = _)); [done|].
  apply bind_Some in Hs as (s2 & Hd & Hs).
  apply bounds_drainImpl in Hd. apply bounds_checkForShutdown in Hs.
  rewrite Hs, <- Hd. clear Hs Hd.
  match goal with |- bounds (if ?c then _ else _) = _ => destruct c end.
  - rewrite bounds_set_drainState. apply bounds_foldl_updStream.
  - match goal with |- bounds (if ?c then _ else _) = _ => destruct c end;
      rewrite ?bounds_set_drainState; apply bounds_foldl_updStream.
Qed.

(** C10.  A received GOAWAY sets [maxAllowedStreamId_] to the minimum of
    its value and the advertised id.  So the bound never grows, a later
    GOAWAY that advertises an id at least as large as the bound leaves it
    as it is, and in particular the same GOAWAY delivered again does. *)
Theorem onGoaway_bound_is_min env1 env2 id1 id2 s s1 s2 :
  onGoaway env1 id1 s = Some s1 →
  onGoaway env2 id2 s1 = Some s2 →
  maxAllowedStreamId_ s1 = Z.min (maxAllowedStreamId_ s) id1 ∧
  maxAllowedStreamId_ s1 ≤ maxAllowedStreamId_ s ∧
  maxAllowedStreamId_ s2 = Z.min (maxAllowedStreamId_ s1) id2 ∧
  maxAllowedStreamId_ s2 ≤ maxAllowedStreamId_ s1 ∧
  (id1 ≤ id2 → maxAllowedStreamId_ s2 = maxAllowedStreamId_ s1) ∧
  (id2 = id1 → maxAllowedStreamId_ s2 = maxAllowedStreamId_ s1).
Proof.
  intros H1 H2. apply bounds_onGoaway in H1, H2.
  assert (maxAllowedStreamId_ s1 = Z.min (maxAllowedStreamId_ s) id1) as E1
    by (by injection H1).
  assert (maxAllowedStreamId_ s2 = Z.min (maxAllowedStreamId_ s1) id2) as E2
    by (by injection H2).
  rewrite E2, E1. repeat split; lia.
Qed.

End C10.

(** Two GOAWAYs on the upstream HTTP/3 session: ids 12 then 20. *)
Lemma onGoaway_bound_is_min_witness :
  ∃ s s1 s2,
    upstreamH3 = Some s ∧
    onGoaway (codes := exampleCodes) orderly 12 s = Some s1 ∧
    onGoaway (codes := exampleCodes) orderly 20 s1 = Some s2 ∧
    maxAllowedStreamId_ s1 = 12 ∧ maxAllowedStreamId_ s2 = 12.
Proof.
  destruct upstreamH3 as [s|] eqn:E0; [|by vm_compute in E0].
  destruct (onGoaway (codes := exampleCodes) orderly 12 s) as [s1|] eqn:E1;
    [|by vm_compute in E0; injection E0 as <-; vm_compute in E1].
  destruct (onGoaway (codes := exampleCodes) orderly 20 s1) as [s2|] eqn:E2;
    [|by vm_compute in E0; injection E0 as <-; vm_compute in E1;
         injection E1 as <-; vm_compute in E2].
  exists s, s1, s2.
  pose proof (onGoaway_bound_is_min orderly orderly 12 20 s s1 s2 E1 E2)
    as (A & _ & B & _).
  repeat split; [done..| |].
  - rewrite A. vm_compute in E0. injection E0 as <-. reflexivity.
  - rewrite B, A. vm_compute in E0. injection E0 as <-. reflexivity.
Defined.

(** ** New peer-initiated streams and the GOAWAY bound (C1) *)

Section C1.
Context `{codes : StreamTypeCodes}.

Lemma sockLog_sock_call op s s' :
  sock_call op s = Some s' →
  sockLog s' = sockLog s ++ [op] ∧ core s' = core s ∧ tables s' = tables s ∧
  scheduledWrite_ s' = scheduledWrite_ s ∧ is_Some (sock_ s').
Proof.
  unfold sock_call, sockLog. intros Hs.
  destruct (sock_ s) as [k|] eqn:E; simplify_option_eq. by eauto.
Qed.

Lemma sock_call_Some op s k :
  sock_ s = Some k → sock_call op s = Some (set_sock (Some (sock_do op k)) s).
Proof. unfold sock_call. by intros ->. Qed.

Lemma versionUtils_abortStream_spec id s :
  is_Some (sock_ s) → canAbort s →
  ∃ s0 pre, versionUtils_abortStream id s = Some s0 ∧
    sockLog s0 = sockLog s ++ pre ∧
    (pre = [] ∨ pre = [OpNotifyPendingWriteOnConnection]) ∧
    tables s0 = tables s ∧ bounds s0 = bounds s ∧
    drainState_ s0 = drainState_ s ∧ is_Some (sock_ s0).
Proof.
  intros [k Hk] Hv. unfold versionUtils_abortStream.
  destruct Hv as [->|[->|[-> [c Hc]]]]; simpl.
  - exists s, []. rewrite app_nil_r. by eauto 10.
  - exists s, []. rewrite app_nil_r. by eauto 10.
  - unfold ctrl_write. rewrite Hc. simpl. unfold scheduleWrite. simpl.
    destruct (scheduledWrite_ s).
    + eexists _, []. rewrite app_nil_r. split; [done|].
      unfold sockLog; simpl. rewrite Hk. by eauto 10.
    + unfold sock_call. simpl. rewrite Hk. simpl.
      eexists _, [_]. split; [done|]. unfold sockLog; simpl. rewrite Hk.
      by eauto 10.
Qed.

(** What [abortStream] does for both directions of a stream: STOP_SENDING
    on the ingress half when there is one, a reset of the egress half when
    there is one, each with the given code; for HQ a QPACK cancellation
    goes first.  No stream object is touched. *)
Lemma abortStream_both id err s :
  is_Some (sock_ s) → canAbort s →
  ∃ s' pre,
    abortStream INGRESS_AND_EGRESS id err s = Some s' ∧
    sockLog s' = sockLog s ++ pre ++
      (if isBidirectionalStream id || isPeerUniStream s id
       then [OpStopSending id err] else []) ++
      (if isBidirectionalStream id || isSelfUniStream s id
       then [OpResetStream id err] else []) ∧
    (pre = [] ∨ pre = [OpNotifyPendingWriteOnConnection]) ∧
    tables s' = tables s ∧ bounds s' = bounds s ∧
    drainState_ s' = drainState_ s.
Proof.
  intros Hk Hv.
  destruct (versionUtils_abortStream_spec id s Hk Hv)
    as (s0 & pre & E0 & L0 & Hpre & T0 & B0 & D0 & [k0 K0]).
  destruct Hk as [k Hk]. unfold abortStream. rewrite Hk.
  assert (direction_ s0 = direction_ s) as Dir0 by (by injection B0).
  destruct (isBidirectionalStream id || isPeerUniStream s id) eqn:B1; simpl.
  - rewrite E0. simpl. rewrite (sock_call_Some _ _ _ K0). simpl.
    unfold isSelfUniStream at 1. simpl. rewrite Dir0. fold (isSelfUniStream s id).
    destruct (isBidirectionalStream id || isSelfUniStream s id) eqn:B2.
    + unfold sock_call. simpl. eexists _, pre. split; [done|].
      unfold sockLog in *. simpl. rewrite K0 in L0. rewrite L0, <- !app_assoc.
      repeat split; first [done | by injection B0].
    + eexists _, pre. split; [done|].
      unfold sockLog in *. simpl. rewrite K0 in L0. rewrite L0, <- !app_assoc.
      repeat split; first [done | by injection B0].
  - destruct (isBidirectionalStream id || isSelfUniStream s id) eqn:B2.
    + rewrite (sock_call_Some _ _ _ Hk). eexists _, []. split; [done|].
      unfold sockLog. simpl. rewrite Hk. by eauto 10.
    + eexists _, []. split; [done|]. rewrite !app_nil_r. by eauto 10.
Qed.

End C1.

Section C1_main.
Context `{codes : StreamTypeCodes}.

Lemma isUnidirectionalStream_negb id :
  isUnidirectionalStream id = negb (isBidirectionalStream id).
Proof. done. Qed.

Lemma isServerStream_negb id : isServerStream id = negb (isClientStream id).
Proof. done. Qed.

Lemma peer_stream_halves s id :
  peerInitiated s id = true →
  isBidirectionalStream id || isPeerUniStream s id = true ∧
  isBidirectionalStream id || isSelfUniStream s id = isBidirectionalStream id.
Proof.
  unfold peerInitiated, isPeerUniStream, isSelfUniStream.
  rewrite isUnidirectionalStream_negb, isServerStream_negb.
  destruct (direction_ s), (isBidirectionalStream id), (isClientStream id); done.
Qed.

Lemma findStreamImpl_detached id e i s :
  findStreamImpl id e i true s = None → findStreamImpl id e i false s = None.
Proof.
  unfold findStreamImpl.
  match goal with |- ?p ≫= _ = None → _ => destruct p as [r|] end; simpl; [|done].
  by destruct (getStream r s).
Qed.

Lemma initCodec_Some dir created k st :
  ∃ st', initCodec dir created (Some k) st = Some st' ∧
         ingressStreamId_ st' = ingressStreamId_ st ∧
         txnHandler (txn_ st') = txnHandler (txn_ st) ∧
         txnDirection (txn_ st') = txnDirection (txn_ st).
Proof.
  unfold initCodec. simpl. eexists. split; [done|].
  by destruct (bool_decide _ || _).
Qed.

Lemma initIngress_Some w k st :
  is_Some (ingressStreamId_ st) →
  ∃ k1 st', initIngress w (Some k) st = Some (k1, st') ∧
    txnHandler (txn_ st') = txnHandler (txn_ st) ∧
    txnDirection (txn_ st') = txnDirection (txn_ st).
Proof.
  intros [i Hi]. unfold initIngress. simpl.
  destruct w; simpl; [rewrite Hi; simpl|];
    destruct (gate_then _) as [g []]; by eauto.
Qed.

(** A fresh id on a good socket gets its stream object. *)
Lemma createStreamTransport_fresh env id s k :
  sock_ s = Some k → good k = true → findStream id s = None →
  is_Some (version_ s ≫= λ v, createCodec v s) →
  ∃ s' k' st,
    createStreamTransport env id s = Some (Some (RequestStream id), s') ∧
    streams_ s' = <[id := st]> (streams_ s) ∧ sock_ s' = Some k' ∧
    core s' = core s ∧ txnHandler (txn_ st) = None ∧
    txnDirection (txn_ st) = direction_ s.
Proof.
  intros Hk Hgood Hf Hcodec. unfold createStreamTransport.
  rewrite Hk. cbn. rewrite Hgood, Hf. cbn.
  destruct (version_ s) as [v|]; [|by destruct Hcodec]. cbn in *.
  destruct (createCodec v s) as [[]|]; [|by destruct Hcodec]. cbn.
  destruct (initCodec_Some (direction_ s) (created env) k
              (new_stream (direction_ s) None (Some id) (Some id) env))
    as (st1 & -> & Hi & Hh1 & Hd1). cbn.
  destruct (initIngress_Some (receiveStreamWindowSize_ s) k st1)
    as (k1 & st2 & -> & Hh2 & Hd2); [rewrite Hi; by eauto|]. cbn.
  eexists _, _, _. repeat split.
  - destruct (_ && _); cbn; [unfold generateGoaway; destruct (codecStreamId_ st2)|];
      cbn; by rewrite Hh2, Hh1.
  - destruct (_ && _); cbn; [unfold generateGoaway; destruct (codecStreamId_ st2)|];
      cbn; by rewrite Hd2, Hd1.
Qed.

(** C1, amended.  On an H1Q-v2 or H3 session the transport reports a new
    stream.  A bidirectional server-initiated stream is always aborted
    with HTTP_WRONG_STREAM (STOP_SENDING and a reset), whatever the drain
    state and the bound, and gets no stream object.  For any other
    peer-initiated stream, with a GOAWAY bound in force ([drainState_] is
    not NONE): if its id is beyond the bound that applies - upstream:
    strictly greater than the advertised last-good id; downstream:
    bidirectional and strictly greater than the largest peer-initiated id
    seen - the notification of the transport aborts it with
    HTTP_REQUEST_REJECTED (STOP_SENDING, and a reset when the stream is
    bidirectional) and creates no stream object.  Otherwise the check
    accepts it and changes nothing: a bidirectional stream gets its stream
    object, a unidirectional one goes to the dispatcher. *)
Theorem new_stream_goaway_bound (env : NewStreamEnv) (s : HQSession) (id : StreamId) :
  version_ s = Some H1Q_FB_V2 ∨
    (version_ s = Some HQ ∧ is_Some (findControlStream QPACK_DECODER s)) →
  is_Some (sock_ s) →
  (isBidirectionalStream id && isServerStream id = true →
   ∃ s' pre,
     checkNewStream id s = Some (false, s') ∧
     onNewBidirectionalStream env id s = Some s' ∧
     sockLog s' = sockLog s ++ pre ++
       [OpStopSending id HTTP_WRONG_STREAM; OpResetStream id HTTP_WRONG_STREAM] ∧
     (pre = [] ∨ pre = [OpNotifyPendingWriteOnConnection]) ∧
     tables s' = tables s ∧ bounds s' = bounds s ∧ drainState_ s' = drainState_ s) ∧
  (isBidirectionalStream id && isServerStream id = false →
   drainState_ s ≠ NONE →
   peerInitiated s id = true →
   if exceedsGoawayBound s id
   then
     ∃ s' pre,
       checkNewStream id s = Some (false, s') ∧
       (if isBidirectionalStream id then onNewBidirectionalStream env id s
        else onNewUnidirectionalStream id s) = Some s' ∧
       sockLog s' = sockLog s ++ pre ++ [OpStopSending id HTTP_REQUEST_REJECTED] ++
         (if isBidirectionalStream id
          then [OpResetStream id HTTP_REQUEST_REJECTED] else []) ∧
       (pre = [] ∨ pre = [OpNotifyPendingWriteOnConnection]) ∧
       tables s' = tables s
   else
     checkNewStream id s = Some (true, s) ∧
     (isBidirectionalStream id = true →
      (∃ k, sock_ s = Some k ∧ good k = true) →
      findStream id s = None →
      is_Some (version_ s ≫= λ v, createCodec v s) →
      ∃ s', onNewBidirectionalStream env id s = Some s' ∧
            is_Some (streams_ s' !! id) ∧
            maxIncomingStreamId_ s' = Z.max (maxIncomingStreamId_ s) id) ∧
     (isBidirectionalStream id = false →
      findControlStreamById id s = None →
      ∃ s', onNewUnidirectionalStream id s = Some s' ∧
            id ∈ dispatcherPending_ s' ∧ streams_ s' = streams_ s)).
Proof.
  intros Hv Hk.
  assert (canAbort s) as Hca by (unfold canAbort; tauto).
  assert (checkNewStream id s = GoawayUtils_checkNewStream id s) as Hc.
  { unfold checkNewStream. by destruct Hv as [->|[-> _]]. }
  split.
  { intros Hbs.
    destruct (abortStream_both id HTTP_WRONG_STREAM s Hk Hca)
      as (s' & pre & Ea & La & Hpre & Ta & Ba & Da).
    apply andb_prop in Hbs as [Hb Hs]. rewrite Hb in La. cbn [orb app] in La.
    assert (GoawayUtils_checkNewStream id s = Some (false, s')) as Hg.
    { unfold GoawayUtils_checkNewStream. rewrite Hb, Hs. cbn [andb].
      by rewrite Ea. }
    exists s', pre. rewrite Hc, Hg. split_and!; try done.
    unfold onNewBidirectionalStream. by rewrite Hc, Hg. }
  intros Hbs Hd Hp.
  assert (GoawayUtils_checkNewStream id s =
          if exceedsGoawayBound s id
          then abortStream INGRESS_AND_EGRESS id HTTP_REQUEST_REJECTED s
               ≫= λ s1, Some (false, s1)
          else Some (true, s)) as Hg.
  { unfold GoawayUtils_checkNewStream, exceedsGoawayBound. rewrite Hbs.
    rewrite bool_decide_eq_false_2 by done. done. }
  destruct (exceedsGoawayBound s id) eqn:Hex.
  - destruct (abortStream_both id HTTP_REQUEST_REJECTED s Hk Hca)
      as (s' & pre & Ea & La & Hpre & Ta & _).
    destruct (peer_stream_halves s id Hp) as [E1 E2]. rewrite E1, E2 in La.
    exists s', pre. rewrite Hc, Hg, Ea. simpl. repeat split; try done.
    unfold onNewBidirectionalStream, onNewUnidirectionalStream.
    rewrite Hc, Hg, Ea. simpl. by destruct (isBidirectionalStream id).
  - rewrite Hc, Hg. split; [done|]. split.
    + intros Hb (k0 & Hk0 & Hgood) Hf Hcodec.
      unfold onNewBidirectionalStream. rewrite Hc, Hg. simpl.
      unfold findNonDetachedStream.
      rewrite (findStreamImpl_detached id true true s Hf).
      destruct (createStreamTransport_fresh env id s k0 Hk0 Hgood Hf Hcodec)
        as (s1 & k1 & st & -> & Hst & Hk1 & Hcore & _). simpl.
      rewrite (sock_call_Some _ _ _ Hk1). simpl.
      eexists. split; [done|]. simpl. rewrite Hst, lookup_insert_eq.
      split; [by eauto|]. by injection Hcore as _ _ _ _ _ -> _.
    + intros Hb Hf. unfold onNewUnidirectionalStream. rewrite Hc, Hg. simpl.
      rewrite Hf. destruct Hk as [k Hk]. unfold sock_call. simpl. rewrite Hk. simpl.
      eexists. split; [done|]. simpl. split; [|done].
      apply elem_of_app. right. by apply list_elem_of_singleton.
Qed.

End C1_main.

Section Examples_C1.
#[local] Existing Instance exampleCodes.

Example drainingDownstreamH3_state :
  drainState_ drainingDownstreamH3 = FIRST_GOAWAY ∧
  maxIncomingStreamId_ drainingDownstreamH3 = 16 ∧
  dom (streams_ drainingDownstreamH3) = {[0; 8; 16]}.
Proof. vm_compute. done. Qed.

Example goneAwayUpstreamH3_state :
  drainState_ goneAwayUpstreamH3 = FIRST_GOAWAY ∧
  maxAllowedStreamId_ goneAwayUpstreamH3 = 12.
Proof. by vm_compute. Qed.

(** On the draining downstream session stream 20 is beyond the bound 16:
    it is refused with HTTP_REQUEST_REJECTED.  On the upstream session
    that holds the bound 12, stream 1 (bidirectional, opened by the
    server) is refused with HTTP_WRONG_STREAM although it is below the
    bound. *)
Lemma new_stream_goaway_bound_witness :
  (let s := drainingDownstreamH3 in
   (version_ s = Some H1Q_FB_V2 ∨
      (version_ s = Some HQ ∧
       is_Some (findControlStream QPACK_DECODER s))) ∧
   is_Some (sock_ s) ∧
   drainState_ s ≠ NONE ∧
   peerInitiated s 20 = true ∧
   isBidirectionalStream 20 && isServerStream 20 = false ∧
   exceedsGoawayBound s 20 = true ∧
   ∃ s' pre,
     checkNewStream 20 s = Some (false, s') ∧
     onNewBidirectionalStream exampleStreamEnv 20 s = Some s' ∧
     sockLog s' = sockLog s ++ pre ++
       [OpStopSending 20 HTTP_REQUEST_REJECTED; OpResetStream 20 HTTP_REQUEST_REJECTED] ∧
     (pre = [] ∨ pre = [OpNotifyPendingWriteOnConnection]) ∧
     tables s' = tables s) ∧
  (let s := goneAwayUpstreamH3 in
   (version_ s = Some H1Q_FB_V2 ∨
      (version_ s = Some HQ ∧
       is_Some (findControlStream QPACK_DECODER s))) ∧
   is_Some (sock_ s) ∧
   isBidirectionalStream 1 && isServerStream 1 = true ∧
   exceedsGoawayBound s 1 = false ∧
   ∃ s' pre,
     checkNewStream 1 s = Some (false, s') ∧
     onNewBidirectionalStream exampleStreamEnv 1 s = Some s' ∧
     sockLog s' = sockLog s ++ pre ++
       [OpStopSending 1 HTTP_WRONG_STREAM; OpResetStream 1 HTTP_WRONG_STREAM] ∧
     (pre = [] ∨ pre = [OpNotifyPendingWriteOnConnection]) ∧
     tables s' = tables s ∧ bounds s' = bounds s ∧ drainState_ s' = drainState_ s).
Proof.
  split.
  - intros s.
    assert (version_ s = Some H1Q_FB_V2 ∨
       (version_ s = Some HQ ∧
        is_Some (findControlStream QPACK_DECODER s))) as H1
      by (right; split; vm_compute; [reflexivity | eexists; reflexivity]).
    assert (is_Some (sock_ s)) as H2 by (vm_compute; eexists; reflexivity).
    assert (drainState_ s ≠ NONE) as H3 by (vm_compute; discriminate).
    assert (peerInitiated s 20 = true) as H4 by (vm_compute; reflexivity).
    assert (isBidirectionalStream 20 && isServerStream 20 = false) as H5
      by (vm_compute; reflexivity).
    assert (exceedsGoawayBound s 20 = true) as H6 by (vm_compute; reflexivity).
    repeat split; try assumption.
    pose proof (proj2 (new_stream_goaway_bound exampleStreamEnv s 20 H1 H2) H5 H3 H4) as R.
    rewrite H6 in R. exact R.
  - intros s.
    assert (version_ s = Some H1Q_FB_V2 ∨
       (version_ s = Some HQ ∧
        is_Some (findControlStream QPACK_DECODER s))) as H1
      by (right; split; vm_compute; [reflexivity | eexists; reflexivity]).
    assert (is_Some (sock_ s)) as H2 by (vm_compute; eexists; reflexivity).
    assert (isBidirectionalStream 1 && isServerStream 1 = true) as H5
      by (vm_compute; reflexivity).
    repeat split; try assumption.
    exact (proj1 (new_stream_goaway_bound exampleStreamEnv s 1 H1 H2) H5).
Defined.

(** C1 as stated fails: stream 1 (bidirectional, opened by the server) on
    the upstream session that holds the bound 12 is below the bound and
    is refused all the same, with HTTP_WRONG_STREAM. *)
Lemma new_stream_refused_iff_beyond_bound_counterexample :
  ¬ new_stream_refused_iff_beyond_bound.
Proof.
  intros Hclaim.
  destruct (checkNewStream 1 goneAwayUpstreamH3)
    as [[ok s']|] eqn:E; [|by vm_compute in E].
  specialize (Hclaim exampleCodes goneAwayUpstreamH3 s' 1 ok).
  assert (ok = false) as -> by (vm_compute in E; congruence).
  assert (false = negb (exceedsGoawayBound goneAwayUpstreamH3 1)) as Habs.
  { apply Hclaim; [right; by vm_compute | by vm_compute | by vm_compute | done]. }
  by vm_compute in Habs.
Qed.

(** What the code does there. *)
Example server_bidirectional_stream_is_wrong_stream :
  ∃ s', checkNewStream 1 goneAwayUpstreamH3 = Some (false, s') ∧
        sockLog s' = sockLog goneAwayUpstreamH3 ++
          [OpStopSending 1 HTTP_WRONG_STREAM; OpResetStream 1 HTTP_WRONG_STREAM].
Proof. vm_compute. eexists. split; reflexivity. Qed.

End Examples_C1.

(** ** New transactions (C6) *)

Section C6.
Context `{codes : StreamTypeCodes}.

Lemma getStream_putStream r st s : getStream r (putStream r st s) = Some st.
Proof. destruct r; simpl; apply lookup_insert_eq. Qed.

Lemma tables_scheduleLoopCallback b s :
  tables (scheduleLoopCallback b s) = tables s ∧
  sock_ (scheduleLoopCallback b s) = sock_ s.
Proof. unfold scheduleLoopCallback. by repeat case_match. Qed.

Lemma getStream_scheduleLoopCallback r b s :
  getStream r (scheduleLoopCallback b s) = getStream r s.
Proof. unfold scheduleLoopCallback. by repeat case_match. Qed.

Lemma sock_scheduleLoopCallback b s : sock_ (scheduleLoopCallback b s) = sock_ s.
Proof. apply tables_scheduleLoopCallback. Qed.

Lemma sock_putStream r st s : sock_ (putStream r st s) = sock_ s.
Proof. by destruct r. Qed.

Lemma getStream_updStream r f s :
  getStream r (updStream r f s) = f <$> getStream r s.
Proof.
  unfold updStream. destruct (getStream r s) as [st|] eqn:E; simpl; [|done].
  unfold replaceStream. destruct (negb _ && _);
    rewrite ?getStream_scheduleLoopCallback; apply getStream_putStream.
Qed.

Lemma sock_updStream r f s : sock_ (updStream r f s) = sock_ s.
Proof.
  unfold updStream. destruct (getStream r s); [|done].
  unfold replaceStream. destruct (negb _ && _);
    rewrite ?sock_scheduleLoopCallback; apply sock_putStream.
Qed.

(** C6, amended.  [newTransaction(handler)] gives null exactly when
    [drainState_] is CLOSE_SENT, FIRST_GOAWAY or DONE, or the socket is not
    good, or the socket refuses a bidirectional stream id, or a stream
    with the id it gives exists already; it does create a transaction in
    the states CLOSE_RECEIVED and SECOND_GOAWAY.  Otherwise it returns the
    transaction of a new request stream on that id, with the given handler
    attached.  (The header comments the function "Only for
    UpstreamSession"; nothing in it looks at the direction.) *)
Theorem newTransaction_null_iff_refused (env : NewStreamEnv) (handler : nat)
  (quicStreamId : option StreamId) (s : HQSession) :
  is_Some (sock_ s) →
  is_Some (version_ s ≫= λ v, createCodec v s) →
  ∃ r s',
    newTransaction env (Some handler) quicStreamId s = Some (r, s') ∧
    (r = None ↔
     (drainState_ s = CLOSE_SENT ∨ drainState_ s = FIRST_GOAWAY ∨ drainState_ s = DONE) ∨
     (∃ k, sock_ s = Some k ∧ good k = false) ∨
     quicStreamId = None ∨
     (∃ id, quicStreamId = Some id ∧ is_Some (findStream id s))) ∧
    (∀ hqStream, r = Some hqStream →
     ∃ id st, quicStreamId = Some id ∧ hqStream = RequestStream id ∧
              streams_ s !! id = None ∧
              streams_ s' !! id = Some st ∧
              txnHandler (txn_ st) = Some handler ∧
              txnDirection (txn_ st) = direction_ s).
Proof.
  intros [k Hk] Hcodec. unfold newTransaction.
  destruct (decide (drainState_ s = CLOSE_SENT)) as [D1|D1].
  { rewrite bool_decide_eq_true_2 by done. cbn. exists None, s.
    split; [done|]. split; [|done]. split; [tauto|done]. }
  destruct (decide (drainState_ s = FIRST_GOAWAY)) as [D2|D2].
  { rewrite (bool_decide_eq_true_2 (drainState_ s = FIRST_GOAWAY)) by done.
    rewrite orb_true_r. cbn. exists None, s.
    split; [done|]. split; [|done]. split; [tauto|done]. }
  destruct (decide (drainState_ s = DONE)) as [D3|D3].
  { rewrite (bool_decide_eq_true_2 (drainState_ s = DONE)) by done.
    rewrite orb_true_r. cbn. exists None, s.
    split; [done|]. split; [|done]. split; [tauto|done]. }
  rewrite !bool_decide_eq_false_2 by done. cbn. rewrite Hk. cbn.
  destruct (good k) eqn:Hgood; cbn.
  2:{ exists None, s. split; [done|]. split; [|done]. split; [|done].
      intros _. right. left. by eauto. }
  destruct quicStreamId as [id|].
  2:{ exists None, s. split; [done|]. split; [|done]. split; [|done]. by eauto. }
  destruct (findStream id s) as [r0|] eqn:Hf.
  - unfold createStreamTransport. rewrite Hk. cbn. rewrite Hgood, Hf. cbn.
    exists None, s. split; [done|]. split; [|done]. split; [|done].
    intros _. do 3 right. by eauto.
  - destruct (createStreamTransport_fresh env id s k Hk Hgood Hf Hcodec)
      as (s1 & k1 & st & -> & Hst & Hk1 & Hcore & Hh & Hdir). cbn.
    assert (sock_ (updStream (RequestStream id)
              (λ st0, set_txn (txn_setHandler handler (txn_ st0)) st0) s1) = Some k1)
      as Hk2 by (by rewrite sock_updStream).
    rewrite (sock_call_Some _ _ _ Hk2). cbn.
    eexists _, _. split; [done|]. split.
    + split; [done|]. intros [[?|[?|?]]|[(k' & Hk' & Hg')|[?|(id' & ? & [? Hf'])]]];
        try done; simplify_eq; congruence.
    + intros ? [= <-]. eexists id, _. split; [done|]. split; [done|].
      cbn.
      pose proof (getStream_updStream (RequestStream id)
        (λ st0, set_txn (txn_setHandler handler (txn_ st0)) st0) s1) as Hg.
      cbn in Hg. rewrite Hst, lookup_insert_eq in Hg. cbn in Hg.
      split.
      { unfold findStream, findStreamImpl in Hf.
        destruct (streams_ s !! id) as [st0|] eqn:E; [|done]. cbn in Hf.
        rewrite E in Hf. done. }
      split; [exact Hg|]. split; [done|]. cbn. by rewrite Hdir.
Qed.

End C6.

Section Examples_C6.
#[local] Existing Instance exampleCodes.

(** A first transaction on the upstream HTTP/3 session, on stream 0. *)
Lemma newTransaction_null_iff_refused_witness :
  let s := the upstreamH3 in
  is_Some (sock_ s) ∧
  is_Some (version_ s ≫= λ v, createCodec v s) ∧
  ∃ r s',
    newTransaction exampleStreamEnv (Some 7%nat) (Some 0) s = Some (r, s') ∧
    (r = None ↔
     (drainState_ s = CLOSE_SENT ∨ drainState_ s = FIRST_GOAWAY ∨ drainState_ s = DONE) ∨
     (∃ k, sock_ s = Some k ∧ good k = false) ∨
     Some 0 = None ∨
     (∃ id, Some 0 = Some id ∧ is_Some (findStream id s))) ∧
    (∀ hqStream, r = Some hqStream →
     ∃ id st, Some 0 = Some id ∧ hqStream = RequestStream id ∧
              streams_ s !! id = None ∧
              streams_ s' !! id = Some st ∧
              txnHandler (txn_ st) = Some 7%nat ∧
              txnDirection (txn_ st) = direction_ s).
Proof.
  intros s.
  assert (is_Some (sock_ s)) as H1 by (vm_compute; eexists; reflexivity).
  assert (is_Some (version_ s ≫= λ v, createCodec v s)) as H2
    by (vm_compute; eexists; reflexivity).
  split; [exact H1|]. split; [exact H2|].
  exact (newTransaction_null_iff_refused exampleStreamEnv 7%nat (Some 0) s H1 H2).
Defined.

Example closeReceivedUpstreamH1Q_state :
  drainState_ closeReceivedUpstreamH1Q = CLOSE_RECEIVED ∧
  direction_ closeReceivedUpstreamH1Q = UPSTREAM ∧
  version_ closeReceivedUpstreamH1Q = Some H1Q_FB_V1.
Proof. by vm_compute. Qed.

(** C6 as stated fails: in the state CLOSE_RECEIVED, which is past
    PENDING, an upstream H1Q-v1 session with a good socket still gets a
    transaction, on stream 4. *)
Lemma newTransaction_null_iff_counterexample : ¬ newTransaction_null_iff.
Proof.
  intros Hclaim.
  destruct (newTransaction exampleStreamEnv (Some 2%nat) (Some 4) closeReceivedUpstreamH1Q)
    as [[r s']|] eqn:E; [|by vm_compute in E].
  specialize (Hclaim exampleCodes exampleStreamEnv 2%nat (Some 4)
                closeReceivedUpstreamH1Q s' r).
  assert (r = Some (RequestStream 4)) as -> by (vm_compute in E; congruence).
  assert (Some (RequestStream 4) = None) as Habs; [|done].
  apply Hclaim; [by vm_compute | done | left; by vm_compute].
Qed.

End Examples_C6.

(** ** Peer resets (C7) *)

Section C7.
Context `{codes : StreamTypeCodes}.

Lemma errorOnTransaction_txn ex st :
  detached_ st = false →
  txnLog (txn_ (errorOnTransaction ex st)) = txnLog (txn_ st) ++ [TxnOnError ex] ∧
  ingressStreamId_ (errorOnTransaction ex st) = ingressStreamId_ st ∧
  egressStreamId_ (errorOnTransaction ex st) = egressStreamId_ st.
Proof.
  intros Hd. unfold errorOnTransaction. rewrite Hd. unfold txn_onError.
  cbn. destruct (txnDetachesOnError (txn_ st)), (isIngressException ex),
    (isEgressException ex); done.
Qed.

Lemma core_sockLog_updStream r f s :
  sockLog (updStream r f s) = sockLog s ∧ core (updStream r f s) = core s.
Proof. unfold sockLog. by rewrite sock_updStream, core_updStream. Qed.

Lemma canAbort_core s s' : core s' = core s → canAbort s → canAbort s'.
Proof.
  unfold canAbort, findControlStream. intros [= Hd Hv _ _ Hc _ _ _ _ _].
  by rewrite Hv, Hc.
Qed.

(** C7.  A peer reset (a read error carrying an application error code)
    on a live request stream: the transaction gets an HTTP exception,
    marked retryable when the peer's code was HTTP_REQUEST_REJECTED, and
    the stream is aborted in both directions with the reply code -
    HTTP_REQUEST_CANCELLED upstream; downstream HTTP_REQUEST_REJECTED when
    the transaction has not started ingress and HTTP_NO_ERROR when it
    has. *)
Theorem peer_reset_reply (ingressStarted : bool) (id : StreamId)
  (errorCode : ErrorCode) (s : HQSession) (st : HQStreamTransportBase) :
  is_Some (sock_ s) → canAbort s →
  streams_ s !! id = Some st →
  detached_ st = false →
  ingressStreamId_ st = Some id →
  isBidirectionalStream id = true →
  ∃ s' pre st',
    readError ingressStarted id (ApplicationErrorCode errorCode) s = Some s' ∧
    sockLog s' = sockLog s ++ pre ++
      [OpStopSending id (replyErrorFor (direction_ s) ingressStarted);
       OpResetStream id (replyErrorFor (direction_ s) ingressStarted)] ∧
    (pre = [] ∨ pre = [OpNotifyPendingWriteOnConnection]) ∧
    streams_ s' !! id = Some st' ∧
    txnLog (txn_ st') = txnLog (txn_ st) ++ [TxnOnError (resetException errorCode)].
Proof.
  intros Hk Hv Hst Hd Hid Hb.
  assert (findNonDetachedStream id s = Some (RequestStream id)) as Hf.
  { unfold findNonDetachedStream, findStreamImpl. rewrite Hst. cbn.
    rewrite Hst. cbn. by rewrite Hd. }
  unfold readError. rewrite Hf. unfold onResetStream.
  set (ex := setErrno _ _).
  assert (ex = resetException errorCode) as ->.
  { unfold ex, resetException, setErrno, setProxygenError. cbn.
    by destruct (bool_decide (errorCode = GIVEUP_ZERO_RTT)),
         (bool_decide (errorCode = HTTP_REQUEST_REJECTED)). }
  set (reply := if bool_decide (direction_ s = UPSTREAM) then _ else _).
  assert (reply = replyErrorFor (direction_ s) ingressStarted) as ->.
  { unfold reply, replyErrorFor. by destruct (direction_ s), ingressStarted. }
  set (s1 := updStream (RequestStream id) (errorOnTransaction (resetException errorCode)) s).
  destruct (core_sockLog_updStream (RequestStream id)
              (errorOnTransaction (resetException errorCode)) s) as [L1 C1].
  fold s1 in L1, C1.
  pose proof (getStream_updStream (RequestStream id)
                (errorOnTransaction (resetException errorCode)) s) as G1.
  fold s1 in G1. cbn in G1. rewrite Hst in G1. cbn in G1.
  destruct (errorOnTransaction_txn (resetException errorCode) st Hd) as (T1 & I1 & _).
  unfold sendAbortImpl. cbn. rewrite G1. cbn. unfold getStreamId at 1. rewrite I1, Hid. cbn.
  assert (is_Some (sock_ s1)) as Hk1 by (unfold s1; by rewrite sock_updStream).
  destruct (abortStream_both id (replyErrorFor (direction_ s) ingressStarted) s1 Hk1
              (canAbort_core _ _ C1 Hv)) as (s2 & pre & -> & L2 & Hpre & T2 & _).
  rewrite Hb in L2. cbn in L2. cbn.
  eexists _, pre, _. split; [done|]. split.
  { destruct (core_sockLog_updStream (RequestStream id) (abortEgress true) s2) as [-> _].
    by rewrite L2, L1. }
  split; [done|].
  pose proof (getStream_updStream (RequestStream id) (abortEgress true) s2) as G2.
  cbn in G2. assert (streams_ s2 = streams_ s1) as E2 by (by injection T2).
  rewrite E2, G1 in G2. cbn in G2. split; [exact G2|]. done.
Qed.

End C7.

Section Examples_C7.
#[local] Existing Instance exampleCodes.

(** Scenario 4 of the spec on the draining downstream session: the peer
    resets stream 8 with HTTP_INTERNAL_ERROR before any ingress. *)
Lemma peer_reset_reply_witness :
  let s := drainingDownstreamH3 in
  ∃ st,
    is_Some (sock_ s) ∧ canAbort s ∧
    streams_ s !! 8 = Some st ∧
    detached_ st = false ∧
    ingressStreamId_ st = Some 8 ∧
    isBidirectionalStream 8 = true ∧
    ∃ s' pre st',
      readError false 8 (ApplicationErrorCode HTTP_INTERNAL_ERROR) s = Some s' ∧
      sockLog s' = sockLog s ++ pre ++
        [OpStopSending 8 (replyErrorFor (direction_ s) false);
         OpResetStream 8 (replyErrorFor (direction_ s) false)] ∧
      (pre = [] ∨ pre = [OpNotifyPendingWriteOnConnection]) ∧
      streams_ s' !! 8 = Some st' ∧
      txnLog (txn_ st') =
        txnLog (txn_ st) ++ [TxnOnError (resetException HTTP_INTERNAL_ERROR)].
Proof.
  intros s.
  destruct (streams_ s !! 8) as [st|] eqn:E; [|by vm_compute in E].
  assert (is_Some (sock_ s)) as H1 by (vm_compute; eexists; reflexivity).
  assert (canAbort s) as H2
    by (right; right; split; vm_compute; [reflexivity | eexists; reflexivity]).
  assert (detached_ st = false) as H3
    by (vm_compute in E; injection E as <-; reflexivity).
  assert (ingressStreamId_ st = Some 8) as H4
    by (vm_compute in E; injection E as <-; reflexivity).
  assert (isBidirectionalStream 8 = true) as H5 by reflexivity.
  exists st. repeat split; try assumption.
  exact (peer_reset_reply false 8 HTTP_INTERNAL_ERROR s st H1 H2 E H3 H4 H5).
Defined.

Example peer_reset_reply_codes :
  replyErrorFor UPSTREAM false = HTTP_REQUEST_CANCELLED ∧
  replyErrorFor UPSTREAM true = HTTP_REQUEST_CANCELLED ∧
  replyErrorFor DOWNSTREAM false = HTTP_REQUEST_REJECTED ∧
  replyErrorFor DOWNSTREAM true = HTTP_NO_ERROR ∧
  exProxygenError (resetException HTTP_REQUEST_REJECTED) = kErrorStreamUnacknowledged ∧
  exProxygenError (resetException HTTP_INTERNAL_ERROR) = kErrorStreamAbort.
Proof. done. Qed.

End Examples_C7.

(** ** Unknown unidirectional stream types (C8) *)

Section C8.
Context `{codes : StreamTypeCodes}.

Lemma parseStreamPreface_unknown preface v s :
  version_ s = Some v → v ≠ H1Q_FB_V1 → knownStreamType v preface = false →
  parseStreamPreface preface s = Some None.
Proof.
  intros Hv Hv1 Hk. unfold parseStreamPreface. rewrite Hv. cbn.
  destruct v; [done| |]; cbn in Hk;
    unfold H1QFBV2_parseStreamPreface, HQ_parseStreamPreface, withType;
    cbv beta; unfold UnidirectionalStreamType in *; by rewrite Hk.
Qed.

(** C8.  On an H1Q-v2 or H3 session, a peer-initiated unidirectional
    stream whose preface is not a stream type of the dialect (a reserved
    or grease value, or a type of the other dialect) is answered with
    STOP_SENDING carrying HTTP_UNKNOWN_STREAM_TYPE and forgotten: that is
    the only operation on the socket - nothing is read or consumed from
    the stream - and no stream object of any kind is created for it. *)
Theorem unknown_stream_type_rejected (id : StreamId) (preface prefaceLen : Z)
  (push : option (PushId * Z)) (v : HQVersion) (s : HQSession) :
  version_ s = Some v → v ≠ H1Q_FB_V1 →
  is_Some (sock_ s) →
  knownStreamType v preface = false →
  ∃ s',
    dispatcher_onDataAvailable id preface prefaceLen push s = Some s' ∧
    (sockLog <$> rejectStream id s) = Some (sockLog s') ∧
    sockLog s' = sockLog s ++ [OpStopSending id HTTP_UNKNOWN_STREAM_TYPE] ∧
    streams_ s' = streams_ s ∧
    ingressPushStreams_ s' = ingressPushStreams_ s ∧
    egressPushStreams_ s' = egressPushStreams_ s ∧
    streamLookup_ s' = streamLookup_ s ∧
    controlStreams_ s' = controlStreams_ s ∧
    (id ∉ dispatcherPending_ s') ∧
    tryCreateIngressControlStream id preface s = Some (None, s).
Proof.
  intros Hv Hv1 [k Hk] Hkn.
  pose proof (parseStreamPreface_unknown preface v s Hv Hv1 Hkn) as Hp.
  unfold dispatcher_onDataAvailable, tryCreateIngressControlStream. rewrite Hp. cbn.
  unfold rejectStream. rewrite (sock_call_Some _ _ _ Hk). cbn.
  eexists. split; [done|]. unfold sockLog. cbn. rewrite Hk.
  repeat split; try done.
  intros Hin. apply list_elem_of_filter in Hin as [Hne _]. done.
Qed.

End C8.

Section Examples_C8.
#[local] Existing Instance exampleCodes.

(** A grease stream type (0x21) on stream 14 of the downstream HTTP/3
    session. *)
Lemma unknown_stream_type_rejected_witness :
  let s := the downstreamH3 in
  version_ s = Some HQ ∧ HQ ≠ H1Q_FB_V1 ∧
  is_Some (sock_ s) ∧
  knownStreamType HQ 33 = false ∧
  ∃ s',
    dispatcher_onDataAvailable 14 33 1 None s = Some s' ∧
    (sockLog <$> rejectStream 14 s) = Some (sockLog s') ∧
    sockLog s' = sockLog s ++ [OpStopSending 14 HTTP_UNKNOWN_STREAM_TYPE] ∧
    streams_ s' = streams_ s ∧
    ingressPushStreams_ s' = ingressPushStreams_ s ∧
    egressPushStreams_ s' = egressPushStreams_ s ∧
    streamLookup_ s' = streamLookup_ s ∧
    controlStreams_ s' = controlStreams_ s ∧
    (14 ∉ dispatcherPending_ s') ∧
    tryCreateIngressControlStream 14 33 s = Some (None, s).
Proof.
  intros s.
  assert (version_ s = Some HQ) as H1 by (vm_compute; reflexivity).
  assert (HQ ≠ H1Q_FB_V1) as H2 by discriminate.
  assert (is_Some (sock_ s)) as H3 by (vm_compute; eexists; reflexivity).
  assert (knownStreamType HQ 33 = false) as H4 by (vm_compute; reflexivity).
  repeat split; try assumption.
  exact (unknown_stream_type_rejected 14 33 1 None HQ s H1 H2 H3 H4).
Defined.

End Examples_C8.

(** ** The EOM gate of a request stream (C3) *)

Section Gate.

Lemma eomCount_txn_do (e : TxnEvent) (st : HQStreamTransportBase) :
  eomCount (set_txn (txn_do e (txn_ st)) st)
  = (eomCount st + if isIngressEOM e then 1 else 0)%nat.
Proof.
  unfold eomCount. destruct st as [t ? ? ? ? ? ? ? ? ? ? ? ? ? ?]; cbn.
  rewrite filter_app, length_app. f_equal.
  destruct e; cbn; reflexivity.
Qed.

Lemma eomCount_same_txn (st st' : HQStreamTransportBase) :
  txn_ st' = txn_ st → eomCount st' = eomCount st.
Proof. unfold eomCount. by intros ->. Qed.

(** [abortIngress] leaves the gate and the transaction alone. *)
Lemma abortIngress_frame (st : HQStreamTransportBase) :
  eomGate_ (abortIngress st) = eomGate_ st ∧
  txn_ (abortIngress st) = txn_ st ∧
  ingressError_ (abortIngress st) = true.
Proof. by destruct st. Qed.

Lemma abortEgress_frame (b : bool) (st : HQStreamTransportBase) :
  eomGate_ (abortEgress b st) = eomGate_ st ∧
  txn_ (abortEgress b st) = txn_ st ∧
  ingressError_ (abortEgress b st) = ingressError_ st.
Proof. by destruct st. Qed.

Lemma txn_onError_frame (ex : HTTPException) (st : HQStreamTransportBase) :
  eomGate_ (txn_onError ex st) = eomGate_ st ∧
  eomCount (txn_onError ex st) = eomCount st ∧
  txnDirection (txn_ (txn_onError ex st)) = txnDirection (txn_ st) ∧
  ingressError_ (txn_onError ex st) = ingressError_ st.
Proof.
  unfold txn_onError.
  assert (eomCount (set_txn (txn_do (TxnOnError ex) (txn_ st)) st) = eomCount st) as E.
  { rewrite eomCount_txn_do. cbn. lia. }
  destruct (txnDetachesOnError _); repeat split; try done;
    try (by destruct st); by rewrite <- E; destruct st.
Qed.

Lemma errorOnTransaction_frame (ex : HTTPException) (st : HQStreamTransportBase) :
  eomGate_ (errorOnTransaction ex st) = eomGate_ st ∧
  eomCount (errorOnTransaction ex st) = eomCount st ∧
  txnDirection (txn_ (errorOnTransaction ex st)) = txnDirection (txn_ st) ∧
  ingressError_ (errorOnTransaction ex st) = ingressError_ st || isIngressException ex.
Proof.
  unfold errorOnTransaction.
  set (st1 := if detached_ st then st else txn_onError ex st).
  assert (eomGate_ st1 = eomGate_ st ∧ eomCount st1 = eomCount st ∧
          txnDirection (txn_ st1) = txnDirection (txn_ st) ∧
          ingressError_ st1 = ingressError_ st) as (G1 & C1 & D1 & I1).
  { subst st1. destruct (detached_ st); [done | apply txn_onError_frame]. }
  set (st2 := if isIngressException ex then abortIngress st1 else st1).
  assert (eomGate_ st2 = eomGate_ st ∧ eomCount st2 = eomCount st ∧
          txnDirection (txn_ st2) = txnDirection (txn_ st) ∧
          ingressError_ st2 = ingressError_ st || isIngressException ex)
    as (G2 & C2 & D2 & I2).
  { subst st2. destruct (isIngressException ex).
    - destruct (abortIngress_frame st1) as (G & T & I).
      rewrite G, (eomCount_same_txn _ _ T), T, I. by rewrite orb_true_r.
    - by rewrite orb_false_r. }
  destruct (isEgressException ex); [|done].
  destruct (abortEgress_frame true st2) as (G & T & I).
  by rewrite G, (eomCount_same_txn _ _ T), T, I.
Qed.

(** Setting a condition of the gate, under the invariant. *)
Lemma eomGate_set_spec (c : EOMType) (st : HQStreamTransportBase) :
  gateInv st →
  gateInv (eomGate_set c st) ∧
  gate_get c (eomGate_ (eomGate_set c st)) = true ∧
  (∀ c', c' ≠ c →
     gate_get c' (eomGate_ (eomGate_set c st)) = gate_get c' (eomGate_ st)) ∧
  txnDirection (txn_ (eomGate_set c st)) = txnDirection (txn_ st) ∧
  ingressError_ (eomGate_set c st) = ingressError_ st.
Proof.
  intros [Hcb Hn]. unfold gateInv, eomGate_set, gate_set, gate_allConditionsMet in *.
  destruct st as [t ? ? ? ? ? ? g ? ? ? ? ? ? ?].
  destruct g as [gc gt cb]. unfold eomCount in *. cbn in *. subst cb.
  destruct c, gc, gt; cbn in *;
    rewrite ?filter_app, ?length_app; cbn;
    (split; [split; [done | repeat case_decide; try done; cbn; lia] |]);
    (split; [done |]); (split; [by intros [] |]); done.
Qed.

Lemma codec_do_frame (c : CodecCall) (st : HQStreamTransportBase) :
  eomGate_ (codec_do c st) = eomGate_ st ∧ txn_ (codec_do c st) = txn_ st ∧
  ingressError_ (codec_do c st) = ingressError_ st.
Proof. by destruct st. Qed.

Lemma gateInv_codec_do (c : CodecCall) (st : HQStreamTransportBase) :
  gateInv st → gateInv (codec_do c st).
Proof.
  destruct (codec_do_frame c st) as (G & T & _). unfold gateInv.
  by rewrite G, (eomCount_same_txn _ _ T).
Qed.

(** [onMessageComplete]: the CODEC condition is set unless a further
    response is expected upstream. *)
Lemma onMessageComplete_spec (extra : bool) (st : HQStreamTransportBase) :
  gateInv st →
  let st' := onMessageComplete extra st in
  gateInv st' ∧
  gate_get CODEC (eomGate_ st') =
    gate_get CODEC (eomGate_ st) || negb (txn_isUpstream (txn_ st) && extra) ∧
  gate_get TRANSPORT (eomGate_ st') = gate_get TRANSPORT (eomGate_ st) ∧
  txnDirection (txn_ st') = txnDirection (txn_ st) ∧
  ingressError_ st' = ingressError_ st.
Proof.
  intros Hinv. cbv zeta. unfold onMessageComplete.
  destruct (txn_isUpstream (txn_ st) && extra).
  { by rewrite orb_false_r. }
  destruct (codec_do_frame CodecSetParserPaused st) as (G & T & I).
  destruct (eomGate_set_spec CODEC _ (gateInv_codec_do CodecSetParserPaused _ Hinv))
    as (Hinv' & Hc & Ho & Hd & He).
  repeat split; try apply Hinv'.
  - by rewrite Hc, orb_true_r.
  - by rewrite (Ho TRANSPORT), G.
  - by rewrite Hd, T.
  - by rewrite He, I.
Qed.

(** [onIngressEOF]: nothing happens on a stream whose ingress is in error;
    otherwise the TRANSPORT condition is set, after the codec's last
    upcall. *)
Lemma onIngressEOF_spec (a : option bool) (st st' : HQStreamTransportBase) :
  gateInv st →
  onIngressEOF a st = Some st' →
  gateInv st' ∧
  txnDirection (txn_ st') = txnDirection (txn_ st) ∧
  ingressError_ st' = ingressError_ st ∧
  (ingressError_ st = true → eomGate_ st' = eomGate_ st) ∧
  (ingressError_ st = false →
   gate_get TRANSPORT (eomGate_ st') = true ∧
   gate_get CODEC (eomGate_ st') =
     gate_get CODEC (eomGate_ st) ||
     match a with
     | Some extra => negb (txn_isUpstream (txn_ st) && extra)
     | None => false
     end).
Proof.
  intros Hinv. unfold onIngressEOF.
  destruct (gate_get TRANSPORT (eomGate_ st)); [done|].
  destruct (ingressError_ st) eqn:Herr.
  { intros [= <-]. by rewrite Herr. }
  intros [= <-].
  destruct (codec_do_frame CodecOnIngressEOF st) as (G & T & I).
  pose proof (gateInv_codec_do CodecOnIngressEOF _ Hinv) as Hinv1.
  set (st1 := codec_do CodecOnIngressEOF st) in *.
  set (st2 := match a with Some extra => onMessageComplete extra st1 | None => st1 end).
  assert (gateInv st2 ∧
          gate_get CODEC (eomGate_ st2) =
            gate_get CODEC (eomGate_ st) ||
            match a with
            | Some extra => negb (txn_isUpstream (txn_ st) && extra)
            | None => false
            end ∧
          txnDirection (txn_ st2) = txnDirection (txn_ st) ∧
          ingressError_ st2 = false) as (Hinv2 & C2 & D2 & I2).
  { subst st2. destruct a as [extra|].
    - destruct (onMessageComplete_spec extra st1 Hinv1) as (? & C & _ & D & E).
      split_and!; [done | | |].
      + by rewrite C, G, T.
      + by rewrite D, T.
      + by rewrite E, I.
    - split_and!; [done | | |].
      + by rewrite G, orb_false_r.
      + by rewrite T.
      + by rewrite I. }
  destruct (eomGate_set_spec TRANSPORT st2 Hinv2) as (Hinv3 & Ht & Ho & Hd & He).
  split_and!; [done | | | done |].
  - by rewrite Hd.
  - by rewrite He.
  - intros _. split; [done|]. by rewrite (Ho CODEC).
Qed.

(** A run of events keeps the invariant; while nothing aborts the ingress
    the two conditions of the gate record what the codec and the transport
    signalled. *)
Lemma stream_run_gate (evs : list StreamEvent) :
  ∀ st st' : HQStreamTransportBase,
    gateInv st →
    stream_run evs st = Some st' →
    gateInv st' ∧
    txnDirection (txn_ st') = txnDirection (txn_ st) ∧
    (ingressError_ st = false →
     existsb abortsIngress evs = false →
     ingressError_ st' = false ∧
     gate_get CODEC (eomGate_ st') =
       gate_get CODEC (eomGate_ st) ||
       existsb (signalsFinalMessageComplete (txn_isUpstream (txn_ st))) evs ∧
     gate_get TRANSPORT (eomGate_ st') =
       gate_get TRANSPORT (eomGate_ st) || existsb signalsEOF evs).
Proof.
  induction evs as [|e evs IH]; intros st st' Hinv Hrun.
  { injection Hrun as <-. by rewrite !orb_false_r. }
  cbn [stream_run] in Hrun. apply bind_Some in Hrun as (st1 & Hstep & Hrun).
  match goal with |- ?Goal => assert (txn_isUpstream (txn_ st1) = txn_isUpstream (txn_ st) →
          txnDirection (txn_ st1) = txnDirection (txn_ st) →
          gateInv st1 →
          (ingressError_ st = false → abortsIngress e = false →
           ingressError_ st1 = false ∧
           gate_get CODEC (eomGate_ st1) =
             gate_get CODEC (eomGate_ st) ||
             signalsFinalMessageComplete (txn_isUpstream (txn_ st)) e ∧
           gate_get TRANSPORT (eomGate_ st1) =
             gate_get TRANSPORT (eomGate_ st) || signalsEOF e) →
          Goal) as Hcont end.
  { intros Hup Hdir Hinv1 Hsig.
    destruct (IH _ _ Hinv1 Hrun) as (Hinv' & Hdir' & Hrest).
    split; [done|]. split; [by rewrite Hdir'|].
    intros He Hab. cbn [existsb] in *. apply orb_false_elim in Hab as [Hab1 Hab2].
    destruct (Hsig He Hab1) as (He1 & Hc1 & Ht1).
    destruct (Hrest He1 Hab2) as (He' & Hc' & Ht').
    split; [done|]. rewrite Hc', Ht', Hc1, Ht1, Hup. by rewrite !orb_assoc. }
  destruct e as [extra|a|ex|]; cbn [stream_step] in Hstep.
  - injection Hstep as <-.
    destruct (onMessageComplete_spec extra st Hinv) as (Hinv1 & C & T & D & E).
    apply Hcont; [unfold txn_isUpstream; by rewrite D | done | done |].
    intros He _. by rewrite E, C, T, orb_false_r.
  - destruct (onIngressEOF_spec a _ _ Hinv Hstep) as (Hinv1 & D & E & _ & Hset).
    apply Hcont; [unfold txn_isUpstream; by rewrite D | done | done |].
    intros He _. destruct (Hset He) as [Ht Hc].
    rewrite E, Ht, Hc, orb_true_r. by destruct a.
  - injection Hstep as <-.
    destruct (errorOnTransaction_frame ex st) as (G & C & D & E).
    apply Hcont; [unfold txn_isUpstream; by rewrite D | done | |].
    + unfold gateInv. rewrite G, C. apply Hinv.
    + intros He Hab. cbn in Hab. by rewrite E, G, He, Hab, !orb_false_r.
  - injection Hstep as <-.
    destruct (abortIngress_frame st) as (G & T & E).
    apply Hcont; [by rewrite T | by rewrite T | | done].
    unfold gateInv. rewrite G, (eomCount_same_txn _ _ T). apply Hinv.
Qed.

(** The stream [initIngress] hands over: the callback is registered, no
    condition is set, nothing was delivered. *)
Lemma initIngress_fresh (direction : TransportDirection) (assoc : option Z)
  (ingressId egressId : option StreamId) (env : NewStreamEnv)
  (window : option Z) (k k' : QuicSocket) (st0 : HQStreamTransportBase) :
  initIngress window (Some k) (new_stream direction assoc ingressId egressId env)
    = Some (k', st0) →
  gateInv st0 ∧
  gate_get CODEC (eomGate_ st0) = false ∧
  gate_get TRANSPORT (eomGate_ st0) = false ∧
  ingressError_ st0 = false ∧
  txn_isUpstream (txn_ st0) = bool_decide (direction = UPSTREAM).
Proof.
  unfold initIngress. cbn. intros H.
  apply bind_Some in H as (k1 & _ & H). injection H as _ <-.
  by cbn.
Qed.

End Gate.

(** C3 (amended).  On a request stream set up by [initIngress], whatever
    the codec, the transport and the session then do to it:
    [txn_.onIngressEOM()] runs at most once; it has run exactly when both
    conditions of the EOM gate are set; and as long as nothing aborts the
    ingress of the stream it has run once if the codec signalled the
    completion of the last message (upstream: with no further response
    expected) and the transport signalled the end of the stream, in
    whichever order, and not at all otherwise. *)
Theorem eom_gate_exactness (direction : TransportDirection) (id : StreamId)
  (env : NewStreamEnv) (window : option Z) (k k' : QuicSocket)
  (st0 st : HQStreamTransportBase) (evs : list StreamEvent) :
  initIngress window (Some k) (new_stream direction None (Some id) (Some id) env)
    = Some (k', st0) →
  stream_run evs st0 = Some st →
  (eomCount st ≤ 1)%nat ∧
  (eomCount st = 1%nat ↔
   gate_get CODEC (eomGate_ st) = true ∧ gate_get TRANSPORT (eomGate_ st) = true) ∧
  (existsb abortsIngress evs = false →
   eomCount st =
     if existsb (signalsFinalMessageComplete (bool_decide (direction = UPSTREAM))) evs
        && existsb signalsEOF evs
     then 1%nat else 0%nat).
Proof.
  intros Hinit Hrun.
  destruct (initIngress_fresh _ _ _ _ _ _ _ _ _ Hinit) as (Hinv0 & C0 & T0 & E0 & U0).
  destruct (stream_run_gate evs _ _ Hinv0 Hrun) as ([_ Hn] & _ & Hsig).
  unfold gate_allConditionsMet in Hn. cbn [gate_get] in *.
  split_and!.
  - rewrite Hn.
    destruct (gateCodec (eomGate_ st) && gateTransport (eomGate_ st)); lia.
  - rewrite Hn. clear Hsig.
    destruct (gateCodec (eomGate_ st)), (gateTransport (eomGate_ st)); cbn;
      (split; [by intros ? | by intros [? ?]]).
  - intros Hab. destruct (Hsig E0 Hab) as (_ & Hc & Ht).
    by rewrite Hn, Hc, Ht, C0, T0, U0.
Qed.

(** The only [CHECK] on the way is the one of [onIngressEOF]: a run in
    which the transport signals the end of the stream at most once goes
    through. *)
Lemma stream_run_total (evs : list StreamEvent) :
  ∀ st : HQStreamTransportBase,
    gateInv st →
    (gate_get TRANSPORT (eomGate_ st) = false ∧
     (length (filter (λ e, signalsEOF e = true) evs) ≤ 1)%nat) ∨
    length (filter (λ e, signalsEOF e = true) evs) = 0%nat →
    is_Some (stream_run evs st).
Proof.
  induction evs as [|e evs IH]; intros st Hinv Hn; [done|].
  cbn [stream_run].
  destruct e as [extra|a|ex|].
  - cbn [stream_step option_bind mbind]. cbn. rewrite filter_cons in Hn. cbn in Hn.
    case_decide; [done|].
    destruct (onMessageComplete_spec extra st Hinv) as (Hinv1 & _ & T & _).
    apply IH; [done|]. by rewrite T.
  - rewrite filter_cons in Hn. case_decide; [|done]. cbn in Hn.
    destruct Hn as [[Ht Hn]|]; [|done].
    cbn [stream_step].
    destruct (onIngressEOF a st) as [st1|] eqn:Hstep.
    + cbn. destruct (onIngressEOF_spec a _ _ Hinv Hstep) as (Hinv1 & _).
      apply IH; [done|]. right. lia.
    + unfold onIngressEOF, gate_get in Hstep. rewrite Ht in Hstep.
      by destruct (ingressError_ st).
  - cbn. rewrite filter_cons in Hn. case_decide; [done|].
    destruct (errorOnTransaction_frame ex st) as (G & C & _).
    apply IH; [|by rewrite G]. unfold gateInv. rewrite G, C. apply Hinv.
  - cbn. rewrite filter_cons in Hn. case_decide; [done|].
    destruct (abortIngress_frame st) as (G & T & _).
    apply IH; [|by rewrite G]. unfold gateInv.
    rewrite G, (eomCount_same_txn _ _ T). apply Hinv.
Qed.

Section Examples_C3.

#[local] Existing Instance exampleCodes.

(** The end of the stream first, the end of the message second:
    [onIngressEOM] runs once. *)
Lemma eom_gate_exactness_witness :
  initIngress None (Some newSocket)
    (new_stream DOWNSTREAM None (Some 0) (Some 0) exampleStreamEnv)
    = Some (newSocket, requestStream0) ∧
  ∃ st, stream_run [SIngressEOF None; SMessageComplete false] requestStream0 = Some st ∧
        eomCount st = 1%nat ∧
        (eomCount st ≤ 1)%nat.
Proof.
  split; [by vm_compute|].
  eexists. split; [by vm_compute|]. split; [by vm_compute|].
  eapply (eom_gate_exactness DOWNSTREAM 0 exampleStreamEnv None newSocket newSocket
            requestStream0 _ [SIngressEOF None; SMessageComplete false]);
    by vm_compute.
Defined.

(** The other order. *)
Lemma eom_after_message_then_eof :
  eomCount <$> stream_run [SMessageComplete false; SIngressEOF None] requestStream0
  = Some 1%nat.
Proof. by vm_compute. Qed.

(** The message is complete, bytes follow it (the session's
    [processReadData] answers with an error on the transaction, which
    aborts the ingress), then the stream ends: [onIngressEOM] never
    runs. *)
Lemma eom_fires_once_iff_both_signals_counterexample :
  ¬ eom_fires_once_iff_both_signals.
Proof.
  intros H.
  specialize (H DOWNSTREAM 0 exampleStreamEnv None newSocket newSocket requestStream0).
  specialize (H (default requestStream0
                   (stream_run
                      [SMessageComplete false;
                       SErrorOnTransaction
                         {| exDirection := INGRESS_AND_EGRESS;
                            exProxygenError := kErrorNone; exErrno := None |};
                       SIngressEOF None] requestStream0))
                [SMessageComplete false;
                 SErrorOnTransaction
                   {| exDirection := INGRESS_AND_EGRESS;
                      exProxygenError := kErrorNone; exErrno := None |};
                 SIngressEOF None]).
  by vm_compute in H; specialize (H eq_refl eq_refl).
Qed.

(** Upstream, a message-complete after which a further response is
    expected does not count either. *)
Lemma eom_not_after_interim_response :
  ∃ k st0,
    initIngress None (Some newSocket)
      (new_stream UPSTREAM None (Some 0) (Some 0) exampleStreamEnv) = Some (k, st0) ∧
    eomCount <$> stream_run [SMessageComplete true; SIngressEOF None] st0
    = Some 0%nat.
Proof. do 2 eexists. split; by vm_compute. Qed.

(** The same through the session: the three bytes of stream 0 are read and
    the codec finds the message complete; one more byte arrives with the
    end of the stream; the loop callback answers the byte with an error
    on the transaction and hands the end of the stream to a stream whose
    ingress is in error.  [onIngressEOM] has not run. *)
Lemma eom_lost_to_bytes_after_message :
  ∃ s1 s2 st,
    run [ReadAvailable 0; LoopCallback completingCodec] attachedDownstreamH3 = Some s1 ∧
    run [ReadAvailable 0; LoopCallback completingCodec] (deliver 0 [9] true s1)
      = Some s2 ∧
    streams_ s2 !! 0 = Some st ∧
    gate_get CODEC (eomGate_ st) = true ∧ readEOF_ st = true ∧
    ingressError_ st = true ∧ eomCount st = 0%nat.
Proof.
  do 3 eexists.
  split; [vm_compute; reflexivity|]. split; [vm_compute; reflexivity|].
  split; [vm_compute; reflexivity|]. split_and!; vm_compute; reflexivity.
Qed.

End Examples_C3.

(** ** Binding ingress push streams (C4) *)

Section C4.
Context `{codes : StreamTypeCodes}.

(** A promise with no nascent stream recorded for its push id creates the
    ingress push stream and leaves it unbound. *)
Lemma createIngressPushStream_unbound (created : Z) (detaches : bool)
  (parentId : StreamId) (pushId : PushId) (s : HQSession) :
  ingressPushStreams_ s !! pushId = None →
  lookup_by_push_id pushId (streamLookup_ s) = None →
  createIngressPushStream created detaches parentId pushId s
  = Some (putStream (IngressPushStream pushId)
            (new_stream UPSTREAM (Some parentId) None None
               {| created := created; detachesOnError := detaches |}) s).
Proof.
  intros Hnew Hlook. unfold createIngressPushStream, findIngressPushStreamByPushId.
  rewrite Hnew. cbn. unfold tryBindIngressStreamToTxn.
  destruct s; cbn in *. by rewrite Hlook.
Qed.

(** C4, the order the code does not handle.  When the promise came first
    (the ingress push stream of the push id exists), [onNewPushStream]
    consumes the preface, takes the stream's reads over and pauses them,
    records the pair of ids, and stops there: the ingress push stream is
    what it was (no codec, no ingress stream id), no read is resumed and
    nothing is queued for processing. *)
Theorem promised_push_stream_left_unbound (pushStreamId : StreamId) (pushId : PushId)
  (toConsume : Z) (s s' : HQSession) (st : HQStreamTransportBase) :
  ingressPushStreams_ s !! pushId = Some st →
  onNewPushStream pushStreamId pushId toConsume s = Some s' →
  ingressPushStreams_ s' !! pushId = Some st ∧
  streamLookup_ s' = streamLookup_push_back pushId pushStreamId (streamLookup_ s) ∧
  sockLog s' = sockLog s ++ [OpConsume pushStreamId toConsume;
                             OpSetReadCallback pushStreamId (Some CbSession);
                             OpSetPeekCallback pushStreamId None;
                             OpPauseRead pushStreamId] ∧
  pendingProcessReadSet_ s' = pendingProcessReadSet_ s.
Proof.
  intros Hst. unfold onNewPushStream. intros H.
  apply bind_Some in H as (s1 & H1 & H). apply bind_Some in H as (s2 & H2 & H).
  apply bind_Some in H as (s3 & H3 & H). apply bind_Some in H as (s4 & H4 & H).
  apply sockLog_sock_call in H1 as (L1 & _ & T1 & _).
  apply sockLog_sock_call in H2 as (L2 & _ & T2 & _).
  apply sockLog_sock_call in H3 as (L3 & _ & T3 & _).
  apply sockLog_sock_call in H4 as (L4 & _ & T4 & _).
  assert (tables s4 = tables s) as T by congruence.
  assert (s' = set_streamLookup
                 (streamLookup_push_back pushId pushStreamId (streamLookup_ s4)) s4)
    as -> by (by destruct (findIngressPushStreamByPushId _ _); injection H).
  unfold tables in T. injection T as _ Hp _ Hl _ Hq.
  split_and!.
  - by destruct s4; cbn in *; rewrite Hp.
  - by destruct s4; cbn in *; rewrite Hl.
  - transitivity (sockLog s4); [by destruct s4|].
    rewrite L4, L3, L2, L1. by rewrite <- !app_assoc.
  - by destruct s4.
Qed.

End C4.

Section Examples_C4.

#[local] Existing Instance exampleCodes.

Lemma promisedUpstreamH3_state :
  ∃ st, ingressPushStreams_ promisedUpstreamH3 !! 4 = Some st ∧
        hasCodec_ st = false ∧ hasIngress_ st = false ∧ ingressStreamId_ st = None.
Proof. eexists. by vm_compute. Qed.

Lemma promised_push_stream_left_unbound_witness :
  ∃ st s',
    ingressPushStreams_ promisedUpstreamH3 !! 4 = Some st ∧
    onNewPushStream 15 4 2 promisedUpstreamH3 = Some s' ∧
    ingressPushStreams_ s' !! 4 = Some st ∧
    hasCodec_ st = false ∧ ingressStreamId_ st = None ∧
    last (sockLog s') = Some (OpPauseRead 15).
Proof.
  do 2 eexists.
  split; [by vm_compute|]. split; [by vm_compute|].
  split; [|by vm_compute].
  eapply (promised_push_stream_left_unbound 15 4 2 promisedUpstreamH3); by vm_compute.
Defined.

(** The promise, then the nascent push stream, through the dispatcher: the
    pair of ids is recorded, the ingress push stream has neither codec nor
    ingress stream id, and the reads of stream 15 stay paused. *)
Lemma promise_then_nascent_stream_unbound :
  ∃ s st,
    run [promisePush; nascentPush] requestingUpstreamH3 = Some s ∧
    streamLookup_ s = [(4, 15)] ∧
    ingressPushStreams_ s !! 4 = Some st ∧
    hasCodec_ st = false ∧ hasIngress_ st = false ∧ ingressStreamId_ st = None ∧
    sockLog s = sockLog requestingUpstreamH3 ++
                [OpConsume 15 2; OpSetReadCallback 15 (Some CbSession);
                 OpSetPeekCallback 15 None; OpPauseRead 15] ∧
    pendingProcessReadSet_ s = [].
Proof.
  do 2 eexists. split; [by vm_compute|]. split; [by vm_compute|].
  split; [by vm_compute|]. split_and!; by vm_compute.
Qed.

(** The nascent push stream, then the promise: the stream is bound (codec,
    ingress stream id 15) and its reads are resumed. *)
Lemma nascent_stream_then_promise_bound :
  ∃ s st,
    run [nascentPush; promisePush] requestingUpstreamH3 = Some s ∧
    streamLookup_ s = [(4, 15)] ∧
    ingressPushStreams_ s !! 4 = Some st ∧
    hasCodec_ st = true ∧ hasIngress_ st = true ∧ ingressStreamId_ st = Some 15 ∧
    last (sockLog s) = Some (OpResumeRead 15) ∧
    pendingProcessReadSet_ s = [15].
Proof.
  do 2 eexists. split; [by vm_compute|]. split; [by vm_compute|].
  split; [by vm_compute|]. split_and!; by vm_compute.
Qed.

End Examples_C4.

(** ** The read budget of a loop iteration (C9) *)

Section C9.
Context `{codes : StreamTypeCodes}.

Lemma core_errorOnTransactionId id ex s :
  core (errorOnTransactionId id ex s) = core s ∧
  sock_ (errorOnTransactionId id ex s) = sock_ s.
Proof.
  unfold errorOnTransactionId. destruct (findStream id s); [|done].
  by rewrite core_updStream, sock_updStream.
Qed.

(** [readRequestStream] reads the socket once when it finds the stream,
    and not at all otherwise; it leaves the budget alone and keeps the
    socket. *)
Lemma readRequestStream_spec id s s' :
  readRequestStream id s = Some s' →
  core s' = core s ∧
  (is_Some (sock_ s) → is_Some (sock_ s')) ∧
  sockLog s' = sockLog s ++
               (if findIngressStream id false s is Some _ then [OpRead id] else []).
Proof.
  unfold readRequestStream.
  destruct (findIngressStream id false s) as [r|].
  2:{ intros H. apply bind_Some in H as (? & _ & [= <-]). by rewrite app_nil_r. }
  intros H. apply bind_Some in H as (k & Hk & H).
  assert (sockOps (sock_read id k).2 = sockOps k ++ [OpRead id]) as Hlog.
  { unfold sock_read. by destruct (sockIngress k !! id) as [[? ?]|]. }
  destruct (sock_read id k) as [readRes k1]. cbn in Hlog.
  set (s1 := set_sock (Some k1) s) in *.
  assert (core s1 = core s ∧ sock_ s1 = Some k1) as (C1 & K1) by (by destruct s).
  unfold sockLog at 2. rewrite Hk.
  destruct readRes as [e|[data eof]].
  - unfold readError in H. injection H as <-.
    destruct (core_errorOnTransactionId id
                (if bool_decide (e = CONNECT_FAILED)
                 then setProxygenError kErrorConnect
                        {| exDirection := INGRESS_AND_EGRESS;
                           exProxygenError := kErrorNone; exErrno := None |}
                 else setProxygenError kErrorShutdown
                        {| exDirection := INGRESS_AND_EGRESS;
                           exProxygenError := kErrorNone; exErrno := None |}) s1)
      as [C K].
    unfold sockLog. rewrite K, K1, C, C1. split_and!; [done | by eauto | done].
  - injection H as <-.
    set (s2 := updStream r _ s1).
    assert (core s2 = core s1 ∧ sock_ s2 = sock_ s1) as [C2 K2]
      by (subst s2; by rewrite core_updStream, sock_updStream).
    unfold sockLog.
    replace (sock_ (set_pendingProcessReadSet
                      (set_insert id (pendingProcessReadSet_ s2)) s2))
      with (sock_ s2) by (by destruct s2).
    rewrite K2, K1. split_and!; [|by eauto|done].
    transitivity (core s2); [by destruct s2 | congruence].
Qed.



Lemma core_processReadData codec s s' :
  processReadData codec s = Some s' → core s' = core s.
Proof.
  unfold processReadData. intros H. apply bind_Some in H as (s1 & H & [= <-]).
  apply (foldl_option_inv (λ x, core x = core s)) in H; [by destruct s1 | | done].
  intros x id x' Hx Hstep. rewrite <- Hx. clear Hx.
  unfold processReadData_step in Hstep.
  destruct (findIngressStream id true x) as [r|]; [|by injection Hstep as <-].
  apply bind_Some in Hstep as (st & _ & Hstep).
  destruct (detached_ st).
  { injection Hstep as <-. apply core_replaceStream. }
  destruct (stream_processReadData _ st) as [st1 blocked].
  destruct (negb blocked && readEOF_ st1).
  - apply bind_Some in Hstep as (st2 & _ & [= <-]). apply core_replaceStream.
  - injection Hstep as <-. apply core_replaceStream.
Qed.




End C9.

Section Examples_C9.

#[local] Existing Instance exampleCodes.


(** The read that was skipped is made after the next loop callback: the
    bytes of stream 4 are still with the socket, and reach the stream. *)
Lemma skipped_read_made_in_next_iteration :
  ∃ s s' s1 s2 st,
    runLoopCallback quietCodec readingDownstreamH3 = Some s ∧
    readBurst (replicate 17 0 ++ [4]) s = Some s' ∧
    (sock_ s' ≫= λ k, sockIngress k !! 4) = Some ([4; 5], true) ∧
    (OpRead 4 ∉ sockLog s') ∧
    runLoopCallback quietCodec s' = Some s1 ∧
    readAvailable 4 s1 = Some s2 ∧
    last (sockLog s2) = Some (OpRead 4) ∧
    streams_ s2 !! 4 = Some st ∧ readBuf_ st = [4; 5] ∧ readEOF_ st = true.
Proof.
  do 5 eexists.
  split; [by vm_compute|]. split; [by vm_compute|]. split; [by vm_compute|].
  split.
  { intros H. apply list_elem_of_In in H. vm_compute in H.
    by repeat destruct H as [H|H]. }
  split; [by vm_compute|]. split; [by vm_compute|]. split; [by vm_compute|].
  split; [by vm_compute|]. by vm_compute.
Qed.

End Examples_C9.

(** ** The drain state never goes back (C5) *)

Section DrainOrder.
Context `{codes : StreamTypeCodes}.

Lemma drain_le_refl a : drain_le a a = true.
Proof. by destruct a. Qed.

Lemma drain_le_trans a b c :
  drain_le a b = true → drain_le b c = true → drain_le a c = true.
Proof. by destruct a, b, c. Qed.

Lemma drain_le_antisym a b :
  drain_le a b = true → drain_le b a = true → a = b.
Proof. by destruct a, b. Qed.

Lemma drain_le_DONE a : drain_le a DONE = true.
Proof. by destruct a. Qed.

Lemma drain_le_NONE a : drain_le NONE a = true.
Proof. done. Qed.

(** The GOAWAY frames are a matter of the dialect and of the control
    streams. *)
Lemma goawaysSent_same s s' :
  version_ s' = version_ s → controlStreams_ s' = controlStreams_ s →
  goawaysSent s' = goawaysSent s.
Proof. unfold goawaysSent, connControlType. by intros -> ->. Qed.

(** A control stream is replaced, or created, with the GOAWAY frames that
    were there. *)
Lemma goawaysSent_insert type c s s' :
  version_ s' = version_ s →
  controlStreams_ s' = <[type := c]> (controlStreams_ s) →
  omap goawayId (ctrlWritten c)
  = match controlStreams_ s !! type with
    | Some c0 => omap goawayId (ctrlWritten c0)
    | None => []
    end →
  goawaysSent s' = goawaysSent s.
Proof.
  unfold goawaysSent, connControlType. intros -> -> Hc.
  set (t := if bool_decide (version_ s = Some H1Q_FB_V2) then H1Q_CONTROL else CONTROL).
  destruct (decide (type = t)) as [->|Hne].
  - by rewrite lookup_insert_eq.
  - by rewrite lookup_insert_ne.
Qed.

Lemma goawaysFor_le_2 d l : goawaysFor d l → (length l ≤ 2)%nat.
Proof.
  destruct d; cbn;
    first [done | intros ->; cbn; lia | intros [m ->]; cbn; lia].
Qed.

Lemma quiet_refl s : quiet s s.
Proof. done. Qed.

Lemma quiet_trans s1 s2 s3 : quiet s1 s2 → quiet s2 s3 → quiet s1 s3.
Proof.
  intros (R1 & V1 & D1 & C1 & G1) (R2 & V2 & D2 & C2 & G2).
  split_and!; [congruence.. | | congruence].
  intros Hv. rewrite C2, C1; [done.. | congruence].
Qed.

(** The four members equal. *)
Lemma quiet_fields s s' :
  direction_ s' = direction_ s → version_ s' = version_ s →
  drainState_ s' = drainState_ s → controlStreams_ s' = controlStreams_ s →
  quiet s s'.
Proof. intros. split_and!; [done.. |]. by apply goawaysSent_same. Qed.

(** A control stream is replaced or created once the dialect is known,
    with the GOAWAY frames that were there. *)
Lemma quiet_insert type c s s' :
  is_Some (version_ s) →
  direction_ s' = direction_ s → version_ s' = version_ s →
  drainState_ s' = drainState_ s →
  controlStreams_ s' = <[type := c]> (controlStreams_ s) →
  omap goawayId (ctrlWritten c)
  = match controlStreams_ s !! type with
    | Some c0 => omap goawayId (ctrlWritten c0)
    | None => []
    end →
  quiet s s'.
Proof.
  intros [v Hv] ? ? ? ? ?. split_and!; [done.. | by rewrite Hv |].
  by eapply goawaysSent_insert.
Qed.

Lemma quiet_core s s' : core s' = core s → quiet s s'.
Proof. unfold core. intros [=]. by apply quiet_fields. Qed.

Lemma advancesW_refl s : advancesW s s.
Proof. split_and!; [done | done | done | apply drain_le_refl | by left | done]. Qed.

Lemma advancesW_trans s1 s2 s3 : advancesW s1 s2 → advancesW s2 s3 → advancesW s1 s3.
Proof.
  intros (R1 & V1 & C1 & D1 & G1 & M1) (R2 & V2 & C2 & D2 & G2 & M2). split_and!.
  - congruence.
  - congruence.
  - intros Hv. rewrite C2, C1; [done.. | congruence].
  - by eapply drain_le_trans.
  - intros Hg. destruct (G2 Hg) as [E|E]; [|rewrite <- V1; tauto].
    rewrite E in *. tauto.
  - auto.
Qed.

Lemma advancesW_drainInv s s' : advancesW s s' → drainInv s → drainInv s'.
Proof.
  intros (R & V & C & D & G & M) (I1 & I2 & I3). split_and!.
  - rewrite V. intros Hv. rewrite C; auto.
  - rewrite V. intros Hg. destruct (G Hg) as [E|E]; [|done].
    rewrite E in Hg. auto.
  - auto.
Qed.

Lemma advances_direction s s' : advances s s' → direction_ s' = direction_ s.
Proof. by intros ((? & _) & _). Qed.

Lemma advances_version s s' : advances s s' → version_ s' = version_ s.
Proof. by intros ((_ & ? & _) & _). Qed.

Lemma advances_le s s' :
  advances s s' → drain_le (drainState_ s) (drainState_ s') = true.
Proof. by intros ((_ & _ & _ & ? & _) & _). Qed.

Lemma advances_refl s : advances s s.
Proof. split; [apply advancesW_refl | by intros _ _]. Qed.

Lemma advances_trans s1 s2 s3 : advances s1 s2 → advances s2 s3 → advances s1 s3.
Proof.
  intros [W1 F1] [W2 F2]. split; [by eapply advancesW_trans|].
  intros Hn Hp. rewrite F2, F1; [done.. | |].
  - destruct W1 as (_ & _ & _ & D & _). intros E. rewrite E in D.
    by destruct (drainState_ s1).
  - destruct W1 as (_ & _ & _ & D & _). intros E. rewrite E in D.
    by destruct (drainState_ s1).
Qed.

Lemma quiet_advances s s' : quiet s s' → advances s s'.
Proof.
  intros (R & V & D & C & G). split; [|by intros _ _].
  split_and!; [done | done | done | | by left |].
  - rewrite D. apply drain_le_refl.
  - unfold goawaysMatch. by rewrite R, D, G.
Qed.

Lemma advances_core s s' : core s' = core s → advances s s'.
Proof. intros. by apply quiet_advances, quiet_core. Qed.

Lemma advances_drainInv s s' : advances s s' → drainInv s → drainInv s'.
Proof. intros [W _]. by apply advancesW_drainInv. Qed.

(** Setting the drain state, the control streams as they are. *)
Lemma advances_set_drainState d s :
  drain_le (drainState_ s) d = true →
  (d = FIRST_GOAWAY ∨ d = SECOND_GOAWAY →
   d = drainState_ s ∨ version_ s = Some H1Q_FB_V2 ∨ version_ s = Some HQ) →
  (direction_ s = DOWNSTREAM →
   goawaysFor (drainState_ s) (goawaysSent s) → goawaysFor d (goawaysSent s)) →
  advances s (set_drainState d s).
Proof.
  intros Hle Hg Hm.
  assert (drainState_ (set_drainState d s) = d) as Hd by (by destruct s).
  assert (goawaysSent (set_drainState d s) = goawaysSent s) as Hs
    by (apply goawaysSent_same; by destruct s).
  split; [|by intros _ _].
  split_and!; [by destruct s | by destruct s | by destruct s | by rewrite Hd
              | by rewrite Hd |].
  unfold goawaysMatch. rewrite Hd, Hs.
  replace (direction_ (set_drainState d s)) with (direction_ s) by (by destruct s).
  auto.
Qed.

Lemma advances_set_DONE s : advances s (set_drainState DONE s).
Proof.
  apply advances_set_drainState; [apply drain_le_DONE | by intros [?|?] |].
  intros _. apply goawaysFor_le_2.
Qed.

End DrainOrder.

Section DrainFunctions.
Context `{codes : StreamTypeCodes}.

Lemma quiet_sock_call op s s' : sock_call op s = Some s' → quiet s s'.
Proof. intros H. by apply quiet_core, (core_sock_call op). Qed.

Lemma quiet_scheduleWrite s s' : scheduleWrite s = Some s' → quiet s s'.
Proof. intros H. by apply quiet_core, core_scheduleWrite. Qed.

Lemma quiet_scheduleLoopCallback b s : quiet s (scheduleLoopCallback b s).
Proof. apply quiet_core, core_scheduleLoopCallback. Qed.

Lemma quiet_updStream r f s : quiet s (updStream r f s).
Proof. apply quiet_core, core_updStream. Qed.

(** A write on a control stream: the dialect is known wherever the code
    makes one. *)
Lemma quiet_ctrl_write type f s s' :
  is_Some (version_ s) → goawayId f = None →
  ctrl_write type f s = Some s' → quiet s s'.
Proof.
  intros Hv Hf H. unfold ctrl_write in H.
  apply bind_Some in H as (c & Hc & [= <-]). unfold findControlStream in Hc.
  eapply (quiet_insert type (ctrl_append f c)); [done | by destruct s.. |].
  unfold UnidirectionalStreamType in *. rewrite Hc. cbn.
  by rewrite omap_app; cbn; rewrite Hf, app_nil_r.
Qed.

(** A GOAWAY frame written on the connection's control stream. *)
Lemma ctrl_write_goaway id s s' :
  ctrl_write (connControlType s) (FrGoaway id) s = Some s' →
  direction_ s' = direction_ s ∧ version_ s' = version_ s ∧
  drainState_ s' = drainState_ s ∧ sock_ s' = sock_ s ∧
  scheduledWrite_ s' = scheduledWrite_ s ∧
  goawaysSent s' = goawaysSent s ++ [id].
Proof.
  unfold ctrl_write. intros H.
  apply bind_Some in H as (c & Hc & [= <-]). unfold findControlStream in Hc.
  split_and!; [by destruct s.. |].
  unfold goawaysSent.
  replace (connControlType (set_controlStreams _ s)) with (connControlType s)
    by (by destruct s).
  replace (controlStreams_ (set_controlStreams
                              (<[connControlType s := ctrl_append (FrGoaway id) c]>
                                 (controlStreams_ s)) s))
    with (<[connControlType s := ctrl_append (FrGoaway id) c]> (controlStreams_ s))
    by (by destruct s).
  unfold UnidirectionalStreamType in *.
  rewrite lookup_insert_eq, Hc. cbn. by rewrite omap_app.
Qed.

Lemma quiet_versionUtils_abortStream id s s' :
  versionUtils_abortStream id s = Some s' → quiet s s'.
Proof.
  unfold versionUtils_abortStream. intros H.
  apply bind_Some in H as (v & Hv & H).
  destruct v; cbv iota in H; [by injection H as <-.. |].
  apply bind_Some in H as (s1 & H1 & H).
  eapply quiet_trans;
    [eapply quiet_ctrl_write; [| |exact H1]; by eauto | by apply quiet_scheduleWrite].
Qed.

Lemma quiet_abortStream dir id err s s' :
  abortStream dir id err s = Some s' → quiet s s'.
Proof.
  unfold abortStream. intros H.
  apply bind_Some in H as (k & _ & H). apply bind_Some in H as (s1 & H1 & H).
  assert (quiet s s1) as Q1.
  { destruct (negb _ && _); [|by injection H1 as <-].
    apply bind_Some in H1 as (s0 & H0 & H1).
    eapply quiet_trans; [by eapply quiet_versionUtils_abortStream
                        | by eapply quiet_sock_call]. }
  eapply quiet_trans; [done|]. clear H1.
  destruct (negb _ && _); [by eapply quiet_sock_call | by injection H as <-].
Qed.

Lemma quiet_checkNewStream id s ok s' :
  checkNewStream id s = Some (ok, s') → quiet s s'.
Proof.
  unfold checkNewStream. intros H. apply bind_Some in H as (v & _ & H).
  assert (GoawayUtils_checkNewStream id s = Some (ok, s') → quiet s s') as HG.
  { unfold GoawayUtils_checkNewStream. intros HG.
    destruct (isBidirectionalStream id && isServerStream id).
    { apply bind_Some in HG as (s1 & H1 & [= _ <-]). by eapply quiet_abortStream. }
    destruct (negb _ && _); [|by injection HG as _ <-].
    apply bind_Some in HG as (s1 & H1 & [= _ <-]). by eapply quiet_abortStream. }
  destruct v; cbv iota in H; [|by auto..].
  unfold H1QFBV1_checkNewStream in H.
  destruct (isUnidirectionalStream id || isServerStream id); [|by injection H as _ <-].
  apply bind_Some in H as (s1 & H1 & [= _ <-]). by eapply quiet_abortStream.
Qed.

Lemma core_createStreamTransport env id s r s' :
  createStreamTransport env id s = Some (r, s') → core s' = core s.
Proof.
  unfold createStreamTransport. intros H.
  apply bind_Some in H as (k & _ & H).
  destruct (negb (good k) || _); [by injection H as _ <-|].
  apply bind_Some in H as (v & _ & H). apply bind_Some in H as (? & _ & H).
  apply bind_Some in H as (st1 & _ & H). apply bind_Some in H as ([k1 st2] & _ & H).
  injection H as _ <-. by destruct s.
Qed.

Lemma quiet_onNewBidirectionalStream env id s s' :
  onNewBidirectionalStream env id s = Some s' → quiet s s'.
Proof.
  unfold onNewBidirectionalStream. intros H.
  apply bind_Some in H as ([ok s1] & H1 & H). apply quiet_checkNewStream in H1.
  eapply quiet_trans; [done|]. clear H1.
  destruct (negb ok); [by injection H as <-|].
  destruct (findNonDetachedStream id s1); [done|].
  apply bind_Some in H as ([r s2] & H2 & H). apply core_createStreamTransport in H2.
  apply bind_Some in H as (? & _ & H). apply bind_Some in H as (s3 & H3 & [= <-]).
  apply (core_sock_call _) in H3.
  eapply quiet_trans; [by apply quiet_core|].
  eapply quiet_trans; [by apply quiet_core|]. apply quiet_fields; by destruct s3.
Qed.

Lemma quiet_onNewUnidirectionalStream id s s' :
  onNewUnidirectionalStream id s = Some s' → quiet s s'.
Proof.
  unfold onNewUnidirectionalStream. intros H.
  apply bind_Some in H as ([ok s1] & H1 & H). apply quiet_checkNewStream in H1.
  eapply quiet_trans; [done|]. clear H1.
  destruct (negb ok); [by injection H as <-|].
  destruct (findControlStreamById id s1); [done|].
  apply (core_sock_call _) in H. eapply quiet_trans; [|by apply quiet_core].
  apply quiet_fields; by destruct s1.
Qed.

Lemma advances_checkForShutdown s s' : checkForShutdown s = Some s' → advances s s'.
Proof.
  intros H. apply checkForShutdown_core in H.
  destruct (negb _ && _ && _).
  - eapply advances_trans; [apply advances_set_DONE | by apply advances_core].
  - by apply advances_core.
Qed.

Lemma core_foldl_updStream (f : StreamRef → HQStreamTransportBase → HQStreamTransportBase)
  l s :
  core (foldl (λ acc r, updStream r (f r) acc) s l) = core s.
Proof.
  apply (foldl_inv (λ x, core x = core s)); [|done].
  intros x r <-. apply core_updStream.
Qed.

(** [dropConnectionWithError]: DONE, whatever the state was. *)
Lemma advances_dropConnectionWithError err s s' :
  dropConnectionWithError err s = Some s' → advances s s'.
Proof.
  unfold dropConnectionWithError. intros H.
  destruct (dropping_ s); [injection H as <-; apply advances_refl|].
  apply bind_Some in H as (s2 & H2 & H). apply bind_Some in H as (s3 & H3 & H).
  assert (s' = s3) as ->
    by (destruct (bool_decide (numberOfStreams s3 = 0%nat)); by simplify_eq).
  clear H.
  assert (core s2 = core (set_dropping true s)) as C2.
  { destruct (bool_decide (numberOfStreams (set_dropping true s) = 0%nat));
      [by injection H2 as <-|].
    apply bind_Some in H2 as (k & _ & [= <-]).
    by rewrite (core_foldl_updStream (λ _, errorOnTransaction_err err)). }
  apply advances_checkForShutdown in H3.
  eapply advances_trans; [|exact H3].
  eapply advances_trans; [|eapply advances_trans; [apply (advances_set_DONE s2)|]].
  - apply quiet_advances. unfold core in C2. injection C2 as ? ? ? ? ? ? ? ? ? ?.
    apply quiet_fields; by destruct s.
  - by apply advances_core.
Qed.

Lemma quiet_H1QFBV1_sendGoaway s : quiet s (H1QFBV1_sendGoaway s).
Proof. by apply quiet_core. Qed.

(** [GoawayUtils::sendGoaway]: nothing happens (upstream, or in DONE); or
    the frame is written and the state goes from PENDING to FIRST_GOAWAY
    with the sentinel, or from FIRST_GOAWAY to SECOND_GOAWAY with the
    largest stream id seen; or something fails and the state is DONE. *)
Lemma GoawayUtils_sendGoaway_spec env s s' :
  GoawayUtils_sendGoaway env s = Some s' →
  direction_ s' = direction_ s ∧ version_ s' = version_ s ∧
  (drainState_ s' = drainState_ s ∧ goawaysSent s' = goawaysSent s ∨
   (drainState_ s = PENDING ∨ drainState_ s = FIRST_GOAWAY) ∧
   drainState_ s' = DONE ∧
   (goawaysSent s' = goawaysSent s ∨
    goawaysSent s' = goawaysSent s ++ [getGoawayStreamId s]) ∨
   drainState_ s = PENDING ∧ drainState_ s' = FIRST_GOAWAY ∧
   goawaysSent s' = goawaysSent s ++ [kEightByteLimit] ∨
   drainState_ s = FIRST_GOAWAY ∧ drainState_ s' = SECOND_GOAWAY ∧
   goawaysSent s' = goawaysSent s ++ [maxIncomingStreamId_ s]).
Proof.
  intros H. unfold GoawayUtils_sendGoaway in H.
  destruct (bool_decide (direction_ s = UPSTREAM)); [injection H as <-; by auto|].
  destruct (bool_decide (drainState_ s = DONE)); [injection H as <-; by auto|].
  assert (∀ d x, goawaysSent (set_drainState d x) = goawaysSent x) as Gset
    by (intros d x; apply goawaysSent_same; by destruct x).
  assert (drainState_ s = PENDING ∨ drainState_ s = FIRST_GOAWAY) as Hst.
  { destruct (drainState_ s); cbn in H; by auto. }
  destruct (negb _); [done|].
  apply bind_Some in H as (c & _ & H). apply bind_Some in H as (s1 & H1 & H).
  apply bind_Some in H as (k & _ & H).
  fold (connControlType s) in H1.
  assert (direction_ s1 = direction_ s ∧ version_ s1 = version_ s ∧
          drainState_ s1 = drainState_ s ∧
          (if generated env =? 0 then goawaysSent s1 = goawaysSent s
           else goawaysSent s1 = goawaysSent s ++ [getGoawayStreamId s]))
    as (R1 & V1 & D1 & G1).
  { destruct (generated env =? 0); [by injection H1 as <-|].
    apply ctrl_write_goaway in H1. tauto. }
  clear H1.
  assert (goawaysSent s1 = goawaysSent s ∨
          goawaysSent s1 = goawaysSent s ++ [getGoawayStreamId s]) as G1'
    by (destruct (generated env =? 0); by auto).
  assert (∀ x, direction_ x = direction_ s1 → version_ x = version_ s1 →
               goawaysSent x = goawaysSent s1 →
               set_drainState DONE x = s' →
               direction_ s' = direction_ s ∧ version_ s' = version_ s ∧
               (drainState_ s' = drainState_ s ∧ goawaysSent s' = goawaysSent s ∨
                (drainState_ s = PENDING ∨ drainState_ s = FIRST_GOAWAY) ∧
                drainState_ s' = DONE ∧
                (goawaysSent s' = goawaysSent s ∨
                 goawaysSent s' = goawaysSent s ++ [getGoawayStreamId s]) ∨
                drainState_ s = PENDING ∧ drainState_ s' = FIRST_GOAWAY ∧
                goawaysSent s' = goawaysSent s ++ [kEightByteLimit] ∨
                drainState_ s = FIRST_GOAWAY ∧ drainState_ s' = SECOND_GOAWAY ∧
                goawaysSent s' = goawaysSent s ++ [maxIncomingStreamId_ s]))
    as Hdone.
  { intros x Rx Vx Gx <-.
    replace (direction_ (set_drainState DONE x)) with (direction_ x) by (by destruct x).
    replace (version_ (set_drainState DONE x)) with (version_ x) by (by destruct x).
    split_and!; [congruence.. |].
    right; left. split; [done|]. split; [by destruct x|].
    rewrite Gset, Gx. done. }
  destruct (writeOffset env) as [wo|]; [|injection H as H; by apply (Hdone s1)].
  destruct (writeBufferedBytes env) as [wb|]; [|injection H as H; by apply (Hdone s1)].
  destruct (generated env =? 0); [injection H as H; by apply (Hdone s1)|].
  cbv iota in G1. apply bind_Some in H as (s2 & H2 & H).
  apply quiet_sock_call in H2 as (R2 & V2 & D2 & _ & G2).
  destruct (negb (registered env));
    [injection H as H; apply (Hdone s2); [congruence.. | exact H]|].
  apply bind_Some in H as (s3 & H3 & H).
  apply quiet_scheduleWrite in H3 as (R3 & V3 & D3 & _ & G3).
  assert (drainState_ s3 = drainState_ s) as D by congruence.
  assert (goawaysSent s3 = goawaysSent s ++ [getGoawayStreamId s]) as G by congruence.
  assert (∀ d x, direction_ (set_drainState d x) = direction_ x ∧
                 version_ (set_drainState d x) = version_ x ∧
                 drainState_ (set_drainState d x) = d) as Fset
    by (intros d x; by destruct x).
  injection H as <-. rewrite D. unfold getGoawayStreamId in G.
  destruct Hst as [E|E]; rewrite E in *; cbn in G.
  - rewrite bool_decide_eq_true_2 by done.
    destruct (Fset FIRST_GOAWAY s3) as (-> & -> & ->).
    split_and!; [congruence.. |]. right; right; left. by rewrite Gset.
  - rewrite bool_decide_eq_false_2 by done.
    destruct (Fset SECOND_GOAWAY s3) as (-> & -> & ->).
    split_and!; [congruence.. |]. right; right; right. by rewrite Gset.
Qed.

Lemma advancesW_sendGoaway env s s' : sendGoaway env s = Some s' → advancesW s s'.
Proof.
  unfold sendGoaway. intros H. apply bind_Some in H as (v & Hv & H).
  assert (GoawayUtils_sendGoaway env s = Some s' →
          version_ s = Some H1Q_FB_V2 ∨ version_ s = Some HQ → advancesW s s') as HG.
  { intros HG Hv2. apply GoawayUtils_sendGoaway_spec in HG as (R & V & D).
    split_and!; [done | done | by rewrite Hv | | by auto |].
    - destruct D as [[D _]|[(_ & D & _)|[(D & D' & _)|(D & D' & _)]]];
        rewrite ?D', ?D; auto using drain_le_refl, drain_le_DONE.
    - unfold goawaysMatch. rewrite R. intros M Hd. specialize (M Hd).
      destruct D as [[D G]|[(D & D' & G)|[(D & D' & G)|(D & D' & G)]]].
      + by rewrite D, G.
      + rewrite D'. cbn.
        destruct D as [D|D]; rewrite D in M; cbn in M;
          destruct G as [G|G]; rewrite G, M; cbn; lia.
      + rewrite D', G. rewrite D in M. cbn in M. by rewrite M.
      + rewrite D', G. rewrite D in M. cbn in M. rewrite M. cbn. by eauto. }
  destruct v; cbv iota in H; [|by auto..].
  injection H as <-. apply quiet_advances, quiet_H1QFBV1_sendGoaway.
Qed.

(** The first GOAWAY: [sendGoaway] in PENDING. *)
Lemma advances_sendGoaway env s s' :
  drainState_ s = PENDING → sendGoaway env s = Some s' → advances s s'.
Proof. intros Hp H. split; [by eapply advancesW_sendGoaway | by intros _ ?]. Qed.

Lemma advances_set_PENDING s :
  drainState_ s = NONE → advances s (set_drainState PENDING s).
Proof.
  intros Hn. apply advances_set_drainState; [by rewrite Hn | by intros [?|?] |].
  by rewrite Hn.
Qed.

Lemma advances_drainImpl env s s' : drainImpl env s = Some s' → advances s s'.
Proof.
  unfold drainImpl. intros H.
  destruct (bool_decide (drainState_ s = NONE)) eqn:E; cbn [negb] in H;
    [|injection H as <-; apply advances_refl].
  apply bool_decide_eq_true in E.
  eapply advances_trans; [by apply advances_set_PENDING|].
  destruct (version_ (set_drainState PENDING s));
    [eapply advances_sendGoaway; [by destruct s | done]
    | injection H as <-; apply advances_refl].
Qed.

Lemma advances_closeWhenIdle env s s' : closeWhenIdle env s = Some s' → advances s s'.
Proof.
  unfold closeWhenIdle. intros H. apply bind_Some in H as (s1 & H1 & H).
  apply advances_drainImpl in H1. apply advances_checkForShutdown in H.
  eapply advances_trans; [exact H1|]. eapply advances_trans; [|exact H].
  eapply advances_trans; [|apply advances_core, core_cleanupPendingStreams].
  destruct (bool_decide _); [apply advances_set_DONE | apply advances_refl].
Qed.

Lemma advances_onConnectionEnd env s s' : onConnectionEnd env s = Some s' → advances s s'.
Proof.
  unfold onConnectionEnd. intros H. apply advances_closeWhenIdle in H.
  eapply advances_trans; [apply advances_set_DONE | done].
Qed.

Lemma advances_onGoaway env id s s' :
  is_Some (version_ s) → onGoaway env id s = Some s' → advances s s'.
Proof.
  intros [v Hv]. unfold onGoaway. intros H.
  destruct (bool_decide (direction_ s = UPSTREAM)) eqn:EU; [|done].
  apply bool_decide_eq_true in EU. cbn [negb] in H.
  destruct (bool_decide (version_ s = Some H1Q_FB_V1)) eqn:E1; [done|].
  apply bool_decide_eq_false in E1.
  assert (version_ s = Some H1Q_FB_V2 ∨ version_ s = Some HQ) as Hv2
    by (rewrite Hv in *; destruct v; by eauto).
  apply bind_Some in H as (s2 & H2 & H).
  apply advances_drainImpl in H2. apply advances_checkForShutdown in H.
  set (s1 := set_maxAllowedStreamId _ s) in *.
  assert (quiet s s1) as Q1 by (apply quiet_fields; by destruct s).
  set (s3 := foldl _ s2 _) in *.
  assert (core s3 = core s2) as C3.
  { subst s3. apply (foldl_inv (λ x, core x = core s2)); [|done].
    intros x r <-. apply core_updStream. }
  eapply advances_trans; [by apply quiet_advances|].
  eapply advances_trans; [exact H2|].
  eapply advances_trans; [by apply advances_core|].
  eapply advances_trans; [|exact H].
  assert (version_ s3 = version_ s ∧ direction_ s3 = UPSTREAM) as [V3 R3].
  { pose proof (advances_direction _ _ H2) as R2.
    pose proof (advances_version _ _ H2) as V2. destruct Q1 as (R1 & V1 & _).
    unfold core in C3. injection C3 as ? ? _ _ _ _ _ _ _ _. split; congruence. }
  destruct (bool_decide (drainState_ s3 = NONE) || bool_decide (drainState_ s3 = PENDING))
    eqn:E.
  - apply advances_set_drainState; [|rewrite V3; by eauto|by rewrite R3].
    apply orb_prop in E as [E|E]; apply bool_decide_eq_true in E; by rewrite E.
  - destruct (bool_decide (drainState_ s3 = FIRST_GOAWAY));
      [apply advances_set_DONE | apply advances_refl].
Qed.

(** The delivery callback of the GOAWAY: the one place where a frame is
    written past PENDING. *)
Lemma advancesW_onGoawayAck env s s' : onGoawayAck env s = Some s' → advancesW s s'.
Proof.
  unfold onGoawayAck. intros H. apply bind_Some in H as (s1 & H1 & [= <-]).
  eapply advancesW_trans; [|apply quiet_advances, quiet_scheduleLoopCallback].
  destruct (bool_decide (drainState_ s = FIRST_GOAWAY));
    [by eapply advancesW_sendGoaway|].
  destruct (bool_decide (drainState_ s = SECOND_GOAWAY)); injection H1 as <-;
    [apply advances_set_DONE | apply advancesW_refl].
Qed.

Lemma advances_onCanceled s : advances s (HQControlStream_onCanceled s).
Proof.
  unfold HQControlStream_onCanceled.
  eapply advances_trans; [apply advances_set_DONE|].
  apply quiet_advances, quiet_scheduleLoopCallback.
Qed.

(** The first dialect's header-driven transitions; they rely on the GOAWAY
    states being out of its reach. *)
Lemma advances_H1QFBV1_headersComplete env close s s' :
  version_ s = Some H1Q_FB_V1 →
  drainState_ s ≠ FIRST_GOAWAY → drainState_ s ≠ SECOND_GOAWAY →
  H1QFBV1_headersComplete env close s = Some s' → advances s s'.
Proof.
  intros Hv HF HS. unfold H1QFBV1_headersComplete. intros H.
  destruct (bool_decide (drainState_ s = DONE)) eqn:ED;
    [injection H as <-; apply advances_refl|].
  destruct close; [|injection H as <-; apply advances_refl].
  destruct (bool_decide (drainState_ s = CLOSE_SENT)) eqn:EC;
    [injection H as <-; apply advances_set_DONE|].
  apply bind_Some in H as (s1 & H1 & [= <-]).
  apply bool_decide_eq_false in ED, EC.
  destruct (bool_decide (drainState_ s = NONE)) eqn:EN.
  - apply bool_decide_eq_true in EN. pose proof (advances_drainImpl _ _ _ H1) as A1.
    assert (drainState_ s1 = PENDING) as E.
    { unfold drainImpl in H1. rewrite bool_decide_eq_true_2 in H1 by done.
      cbn [negb] in H1.
      replace (version_ (set_drainState PENDING s)) with (version_ s) in H1
        by (by destruct s).
      rewrite Hv in H1. unfold sendGoaway in H1.
      replace (version_ (set_drainState PENDING s)) with (version_ s) in H1
        by (by destruct s).
      rewrite Hv in H1. injection H1 as <-. by destruct s. }
    eapply advances_trans; [exact A1|].
    apply advances_set_drainState; rewrite ?E; [done | by intros [?|?] | done].
  - injection H1 as <-. apply bool_decide_eq_false in EN.
    apply advances_set_drainState; [by destruct (drainState_ s) | by intros [?|?] |].
    intros _. by destruct (drainState_ s).
Qed.

Lemma advances_headersComplete env close decoderPending s s' :
  drainInv s →
  headersComplete env close decoderPending s = Some s' → advances s s'.
Proof.
  intros (_ & Hinv & _). unfold headersComplete. intros H.
  apply bind_Some in H as (v & Hv & H). destruct v; cbv iota in H.
  - eapply advances_H1QFBV1_headersComplete; [done| | |done];
      intros E; rewrite Hv in Hinv; destruct Hinv as [?|?]; by auto.
  - injection H as <-. apply advances_refl.
  - destruct (findControlStream QPACK_DECODER s);
      [|injection H as <-; apply advances_refl].
    destruct decoderPending; [|injection H as <-; apply advances_refl].
    by apply quiet_advances, quiet_scheduleWrite.
Qed.

Lemma advances_checkSendingGoaway env wantsKeepalive s s' :
  checkSendingGoaway env wantsKeepalive s = Some s' → advances s s'.
Proof.
  unfold checkSendingGoaway. intros H.
  destruct (version_ s) as [[| |]|] eqn:Hv; try (injection H as <-; apply advances_refl).
  unfold H1QFBV1_checkSendingGoaway in H. apply bind_Some in H as (s1 & H1 & [= <-]).
  assert (advances s s1) as A1.
  { destruct (_ && _); [by apply advances_drainImpl in H1|].
    injection H1 as <-. apply advances_refl. }
  eapply advances_trans; [exact A1|].
  destruct (bool_decide (drainState_ s1 = CLOSE_RECEIVED)); [apply advances_set_DONE|].
  destruct (bool_decide (drainState_ s1 = PENDING)) eqn:EP; [|apply advances_refl].
  apply bool_decide_eq_true in EP.
  apply advances_set_drainState; rewrite ?EP; [done | by intros [?|?] | done].
Qed.

Lemma quiet_newTransaction env handler quicStreamId s r s' :
  newTransaction env handler quicStreamId s = Some (r, s') → quiet s s'.
Proof.
  unfold newTransaction. intros H.
  destruct (_ || _ || _); [by injection H as _ <-|].
  apply bind_Some in H as (k & _ & H).
  destruct (negb (good k)); [by injection H as _ <-|].
  destruct quicStreamId as [id|]; [|by injection H as _ <-].
  apply bind_Some in H as ([r1 s1] & H1 & H). apply core_createStreamTransport in H1.
  eapply quiet_trans; [by apply quiet_core|].
  destruct r1 as [hqStream|]; [|by injection H as _ <-].
  apply bind_Some in H as (h & _ & H). apply bind_Some in H as (s3 & H3 & [= _ <-]).
  eapply quiet_trans; [apply quiet_updStream | by eapply quiet_sock_call].
Qed.

Lemma quiet_readAvailable id s s' : readAvailable id s = Some s' → quiet s s'.
Proof.
  unfold readAvailable. intros H.
  destruct (kMaxReadsPerLoop <=? readsPerLoop_ s); [by injection H as <-|].
  apply bind_Some in H as (s1 & H1 & [= <-]).
  apply readRequestStream_spec in H1 as (C & _).
  eapply quiet_trans; [|apply quiet_scheduleLoopCallback].
  eapply quiet_trans; [|by apply quiet_core]. apply quiet_fields; by destruct s.
Qed.

Lemma quiet_sendAbortImpl r code s s' : sendAbortImpl r code s = Some s' → quiet s s'.
Proof.
  unfold sendAbortImpl. intros H.
  apply bind_Some in H as (st & _ & H). apply bind_Some in H as (id & _ & H).
  apply bind_Some in H as (s1 & H1 & [= <-]).
  eapply quiet_trans; [by eapply quiet_abortStream | apply quiet_updStream].
Qed.

Lemma quiet_readError ingressStarted id error s s' :
  readError ingressStarted id error s = Some s' → quiet s s'.
Proof.
  unfold readError. intros H. destruct error as [ec|e|e].
  - destruct (findNonDetachedStream id s) as [r|]; [|by injection H as <-].
    unfold onResetStream in H. apply quiet_sendAbortImpl in H.
    eapply quiet_trans; [apply quiet_updStream | exact H].
  - injection H as <-. apply quiet_core, core_errorOnTransactionId.
  - injection H as <-. apply quiet_core, core_errorOnTransactionId.
Qed.

Lemma advances_runLoopCallback codec s s' :
  runLoopCallback codec s = Some s' → advances s s'.
Proof.
  unfold runLoopCallback. intros H.
  assert (quiet s (set_loopCallbackScheduled false s)) as Q0
    by (apply quiet_fields; by destruct s).
  eapply advances_trans; [by apply quiet_advances|].
  destruct (dropInNextLoop_ _) as [[? err]|].
  - apply bind_Some in H as (s1 & H1 & H).
    eapply advances_trans; [by eapply advances_dropConnectionWithError
                           | by apply advances_checkForShutdown].
  - apply bind_Some in H as (s1 & H1 & H). apply core_processReadData in H1.
    apply advances_checkForShutdown in H.
    eapply advances_trans; [|exact H].
    eapply advances_trans; [|eapply advances_trans; [by apply advances_core|]].
    + apply quiet_advances, quiet_fields; by destruct s.
    + destruct (negb _); [apply quiet_advances, quiet_scheduleLoopCallback
                         | apply advances_refl].
Qed.

Lemma core_resumeReads id s s' : resumeReads id s = Some s' → core s' = core s.
Proof.
  unfold resumeReads. intros H. apply bind_Some in H as (s1 & H1 & [= <-]).
  rewrite core_scheduleLoopCallback. by eapply core_sock_call.
Qed.

Lemma core_bindTo created pushId streamId s s' :
  bindTo created pushId streamId s = Some s' → core s' = core s.
Proof.
  unfold bindTo. intros H.
  apply bind_Some in H as (st & _ & H). apply bind_Some in H as (? & _ & H).
  apply bind_Some in H as (v & _ & H). apply bind_Some in H as (? & _ & H).
  apply bind_Some in H as (st1 & _ & H).
  destruct (negb _); [done|].
  apply bind_Some in H as ([k1 st3] & _ & H).
  apply core_resumeReads in H. rewrite H. by destruct s.
Qed.

Lemma core_createIngressPushStream created detaches parentId pushId s s' :
  createIngressPushStream created detaches parentId pushId s = Some s' →
  core s' = core s.
Proof.
  unfold createIngressPushStream. intros H.
  destruct (findIngressPushStreamByPushId pushId s); [done|].
  apply fmap_Some in H as ([b s1] & H & ->). cbn [snd].
  unfold tryBindIngressStreamToTxn in H.
  destruct (lookup_by_push_id _ _) as [res|]; [|injection H as _ <-; by destruct s].
  destruct (findIngressPushStreamByPushId _ _); [|injection H as _ <-; by destruct s].
  apply bind_Some in H as (s2 & H2 & H). apply core_bindTo in H2.
  apply bind_Some in H as (? & _ & H). apply bind_Some in H as (? & _ & H).
  apply bind_Some in H as (? & _ & H).
  destruct (_ && _); [|done]. injection H as _ <-. rewrite H2. by destruct s.
Qed.

Lemma quiet_onPushPromiseHeadersComplete created detaches parent pushID s s' :
  onPushPromiseHeadersComplete created detaches parent pushID s = Some s' →
  quiet s s'.
Proof.
  unfold onPushPromiseHeadersComplete. intros H.
  apply bind_Some in H as (s1 & H1 & [= <-]).
  apply core_createIngressPushStream in H1.
  apply quiet_core. by rewrite !core_updStream.
Qed.

Lemma core_onNewPushStream pushStreamId pushId toConsume s s' :
  onNewPushStream pushStreamId pushId toConsume s = Some s' → core s' = core s.
Proof.
  unfold onNewPushStream. intros H.
  apply bind_Some in H as (s1 & H1 & H). apply bind_Some in H as (s2 & H2 & H).
  apply bind_Some in H as (s3 & H3 & H). apply bind_Some in H as (s4 & H4 & H).
  apply (core_sock_call _) in H1, H2, H3, H4.
  assert (s' = set_streamLookup
                 (streamLookup_push_back pushId pushStreamId (streamLookup_ s4)) s4)
    as -> by (by destruct (findIngressPushStreamByPushId _ _); injection H).
  transitivity (core s4); [by destruct s4 | congruence].
Qed.

(** Everything the dispatcher does happens once the dialect is known, and
    leaves the drain state alone unless the connection is dropped. *)
Lemma advances_dispatcher_onDataAvailable id preface prefaceLen push s s' :
  dispatcher_onDataAvailable id preface prefaceLen push s = Some s' → advances s s'.
Proof.
  unfold dispatcher_onDataAvailable. intros H.
  apply bind_Some in H as (type & Hp & H).
  assert (is_Some (version_ s)) as Hv.
  { unfold parseStreamPreface in Hp. apply bind_Some in Hp as (v & Hv & _). by eauto. }
  pose (release := λ x : HQSession,
          set_dispatcherPending (filter (λ i, i ≠ id) (dispatcherPending_ x)) x).
  assert (∀ x, quiet x (release x)) as Qr
    by (intros x; apply quiet_fields; by destruct x).
  change (set_dispatcherPending (filter (λ i, i ≠ id) (dispatcherPending_ s)) s)
    with (release s) in H.
  destruct type as [type|].
  2:{ apply bind_Some in H as (s1 & H1 & [= <-]). unfold rejectStream in H1.
      apply quiet_advances.
      eapply quiet_trans; [by eapply quiet_sock_call | apply (Qr s1)]. }
  destruct (bool_decide (type = PUSH)).
  { destruct push as [[pushId pushIdLen]|]; [|injection H as <-; apply advances_refl].
    apply core_onNewPushStream in H. apply quiet_advances.
    eapply quiet_trans; [apply Qr | by apply quiet_core]. }
  eapply advances_trans; [apply quiet_advances, Qr|].
  assert (is_Some (version_ (release s))) as Hv' by (by destruct s).
  revert H Hv'. generalize (release s). clear. intros s H Hv.
  unfold assignReadCallback in H.
  apply bind_Some in H as (s1 & H1 & H). apply quiet_sock_call in H1.
  apply bind_Some in H as ([c s2] & H2 & H).
  assert (is_Some (version_ s1)) as Hv1 by (destruct H1 as (_ & -> & _); done).
  eapply advances_trans; [by apply quiet_advances|]. clear H1 Hv s.
  assert (advances s1 s2) as A2.
  { unfold tryCreateIngressControlStream in H2.
    apply bind_Some in H2 as (res & _ & H2).
    destruct res as [t|]; [|injection H2 as _ <-; apply advances_refl].
    apply bind_Some in H2 as ([cs s1'] & Hc & H2).
    assert (advances s1 s1') as A1.
    { unfold createIngressControlStream in Hc.
      apply bind_Some in Hc as (ctrlStream & Hcs & Hc).
      destruct (ingressCodec_ ctrlStream).
      - apply bind_Some in Hc as (sd & Hd & [= _ <-]).
        by eapply advances_dropConnectionWithError.
      - apply bind_Some in Hc as (v & Hv & Hc). apply bind_Some in Hc as (b & _ & Hc).
        injection Hc as _ <-. apply quiet_advances.
        eapply (quiet_insert t); [done | by destruct s1.. |].
        unfold findControlStream, UnidirectionalStreamType in *. by rewrite Hcs. }
    eapply advances_trans; [exact A1|].
    destruct cs; [|injection H2 as _ <-; apply advances_refl].
    apply bind_Some in H2 as (sx & Hx & [= _ <-]).
    by eapply quiet_advances, quiet_sock_call. }
  eapply advances_trans; [exact A2|]. apply quiet_advances.
  destruct c.
  - apply bind_Some in H as (s3 & H3 & H).
    eapply quiet_trans; by eapply quiet_sock_call.
  - unfold rejectStream in H. by eapply quiet_sock_call.
Qed.

Lemma advances_createEgressControlStream err type id s ok s' :
  is_Some (version_ s) →
  createEgressControlStream err type id s = Some (ok, s') → advances s s'.
Proof.
  intros [v Hv]. unfold createEgressControlStream. intros H.
  apply bind_Some in H as (k & _ & H). destruct id as [id|].
  - destruct (controlStreams_ s !! type) eqn:Ht; [done|].
    apply bind_Some in H as (s1 & H1 & [= _ <-]). apply quiet_sock_call in H1.
    apply quiet_advances. eapply quiet_trans; [|exact H1].
    eapply (quiet_insert type); [by eauto | by destruct s.. |].
    unfold UnidirectionalStreamType in *. by rewrite Ht.
  - apply bind_Some in H as (s1 & H1 & [= _ <-]).
    by eapply advances_dropConnectionWithError.
Qed.

Lemma advances_createEgressControlStreams err id1 id2 id3 s ok s' :
  createEgressControlStreams err id1 id2 id3 s = Some (ok, s') → advances s s'.
Proof.
  unfold createEgressControlStreams. intros H.
  apply bind_Some in H as (v & Hv & H).
  assert (∀ x y, advances x y → is_Some (version_ x) → is_Some (version_ y)) as Hkeep
    by (intros x y ->%advances_version; done).
  assert (is_Some (version_ s)) as Hs by eauto.
  destruct v; cbv iota in H.
  - injection H as _ <-. apply advances_refl.
  - apply bind_Some in H as ([ok1 s1] & H1 & H).
    apply advances_createEgressControlStream in H1; [|done].
    eapply advances_trans; [exact H1|].
    destruct (negb ok1); [injection H as _ <-; apply advances_refl|].
    apply bind_Some in H as (s2 & H2 & [= _ <-]).
    by apply quiet_advances, quiet_scheduleWrite.
  - apply bind_Some in H as ([ok1 s1] & H1 & H).
    apply advances_createEgressControlStream in H1; [|done].
    eapply advances_trans; [exact H1|]. pose proof (Hkeep _ _ H1 Hs) as Hs1.
    destruct (negb ok1); [injection H as _ <-; apply advances_refl|].
    apply bind_Some in H as ([ok2 s2] & H2 & H).
    apply advances_createEgressControlStream in H2; [|done].
    eapply advances_trans; [exact H2|]. pose proof (Hkeep _ _ H2 Hs1) as Hs2.
    destruct (negb ok2); [injection H as _ <-; apply advances_refl|].
    apply bind_Some in H as ([ok3 s3] & H3 & H).
    apply advances_createEgressControlStream in H3; [|done].
    eapply advances_trans; [exact H3|]. pose proof (Hkeep _ _ H3 Hs2) as Hs3.
    destruct (negb ok3); [injection H as _ <-; apply advances_refl|].
    apply bind_Some in H as (s4 & H4 & H). apply bind_Some in H as (s5 & H5 & H).
    apply bind_Some in H as (s6 & H6 & [= _ <-]).
    apply quiet_advances.
    eapply quiet_trans; [eapply quiet_ctrl_write; [| |exact H4]; by eauto|].
    eapply quiet_trans; by eapply quiet_scheduleWrite.
Qed.

(** [onTransportReady]: the dialect becomes known; the drain state does
    not go back. *)
Lemma onTransportReadyCommon_drain err alpn id1 id2 id3 env s ok s' :
  drainInv s → version_ s = None →
  onTransportReadyCommon err alpn id1 id2 id3 env s = Some (ok, s') →
  drainInv s' ∧ drain_le (drainState_ s) (drainState_ s') = true ∧ frozen s s' ∧
  direction_ s' = direction_ s.
Proof.
  intros Hinv Hv. unfold onTransportReadyCommon. intros H.
  apply bind_Some in H as ([ok1 s1] & H1 & H).
  unfold getAndCheckApplicationProtocol in H1.
  apply bind_Some in H1 as (k & _ & H1).
  set (s0 := match alpn ≫= alpnVersion with
             | Some v => set_version (Some v) s
             | None => s
             end) in *.
  assert (drainInv s0 ∧ drainState_ s0 = drainState_ s ∧
          goawaysSent s0 = goawaysSent s ∧ direction_ s0 = direction_ s)
    as (I0 & D0 & G0 & R0).
  { subst s0. destruct (alpn ≫= alpnVersion) as [v|]; [|done].
    destruct Hinv as (Hc & Hg & Hm).
    assert (∀ x, controlStreams_ x = ∅ → goawaysSent x = []) as Hnil
      by (intros x Hx; unfold goawaysSent; by rewrite Hx, lookup_empty).
    assert (goawaysSent (set_version (Some v) s) = goawaysSent s) as G0.
    { rewrite (Hnil s (Hc Hv)). apply Hnil. destruct s; by apply Hc. }
    split_and!; [split_and!| by destruct s | done | by destruct s].
    - by destruct s.
    - intros Hg'. rewrite Hv in Hg.
      assert (drainState_ s = FIRST_GOAWAY ∨ drainState_ s = SECOND_GOAWAY) as Hg''
        by (by destruct s).
      by destruct (Hg Hg'').
    - unfold goawaysMatch in *. rewrite G0. by destruct s. }
  assert (∀ sx, advances s0 sx →
                drainInv sx ∧ drain_le (drainState_ s) (drainState_ sx) = true ∧
                frozen s sx ∧ direction_ sx = direction_ s) as Hfin.
  { intros sx A.
    split_and!; [by eapply advances_drainInv | rewrite <- D0; by apply advances_le |
                | rewrite <- R0; by apply advances_direction].
    destruct A as [_ F]. unfold frozen in *. rewrite <- D0, <- G0. exact F. }
  assert (advances s0 s1) as A1.
  { destruct alpn as [a|]; [destruct (version_ s0)|].
    - injection H1 as _ <-. apply advances_refl.
    - apply bind_Some in H1 as (sx & Hx & [= _ <-]).
      by eapply advances_dropConnectionWithError.
    - apply bind_Some in H1 as (sx & Hx & [= _ <-]).
      by eapply advances_dropConnectionWithError. }
  destruct (negb ok1); [injection H as _ <-; by apply Hfin|].
  apply bind_Some in H as ([ok2 s2] & H2 & H).
  apply advances_createEgressControlStreams in H2.
  destruct (negb ok2); [injection H as _ <-; apply Hfin; by eapply advances_trans|].
  apply bind_Some in H as (s3 & H3 & [= _ <-]). apply Hfin.
  eapply advances_trans; [exact A1|]. eapply advances_trans; [exact H2|].
  destruct (bool_decide (drainState_ s2 = PENDING)) eqn:EP;
    [apply bool_decide_eq_true in EP; by eapply advances_sendGoaway
    | injection H3 as <-; apply advances_refl].
Qed.

(** One event: the invariant is kept, the drain state does not go back,
    and past PENDING only the delivery of a GOAWAY has a GOAWAY frame
    written. *)
Lemma step_drain ev s s' :
  drainInv s → step ev s = Some s' →
  drainInv s' ∧ drain_le (drainState_ s) (drainState_ s') = true ∧
  ((∀ env, ev ≠ GoawayDelivered env) → frozen s s') ∧
  direction_ s' = direction_ s.
Proof.
  intros Hinv H.
  assert (advances s s' →
          drainInv s' ∧ drain_le (drainState_ s) (drainState_ s') = true ∧
          ((∀ env, ev ≠ GoawayDelivered env) → frozen s s') ∧
          direction_ s' = direction_ s) as Hadv.
  { intros A.
    split_and!; [by eapply advances_drainInv | by apply advances_le |
                | by apply advances_direction].
    intros _. apply A. }
  destruct ev; cbn [step] in H.
  - destruct (version_ s) eqn:Hv; [done|].
    apply fmap_Some in H as ([ok sx] & H & ->).
    destruct (onTransportReadyCommon_drain _ _ _ _ _ _ _ _ _ Hinv Hv H)
      as (? & ? & ? & ?).
    by split_and!.
  - by eapply Hadv, advances_drainImpl.
  - by eapply Hadv, advances_closeWhenIdle.
  - by eapply Hadv, advances_dropConnectionWithError.
  - by eapply Hadv, advances_onConnectionEnd.
  - apply Hadv. unfold timeoutExpired in H.
    destruct (negb _); [injection H as <-; apply advances_refl
                       | by eapply advances_closeWhenIdle].
  - apply Hadv. unfold HQControlStream_onGoaway in H.
    destruct (existsb _ _) eqn:E; [|done].
    eapply advances_onGoaway; [|done].
    destruct (version_ s) eqn:Hv; [by eauto|].
    destruct Hinv as (Hc & _). rewrite (Hc Hv), map_to_list_empty in E. done.
  - apply advancesW_onGoawayAck in H.
    split_and!; [by eapply advancesW_drainInv | apply H | | apply H].
    intros Hne. by destruct (Hne env).
  - injection H as <-. apply Hadv, advances_onCanceled.
  - by eapply Hadv, quiet_advances, quiet_onNewBidirectionalStream.
  - by eapply Hadv, quiet_advances, quiet_onNewUnidirectionalStream.
  - by eapply Hadv, advances_dispatcher_onDataAvailable.
  - apply fmap_Some in H as ([r sx] & H & ->).
    by eapply Hadv, quiet_advances, quiet_newTransaction.
  - by eapply Hadv, quiet_advances, quiet_readAvailable.
  - by eapply Hadv, quiet_advances, quiet_readError.
  - by eapply Hadv, advances_runLoopCallback.
  - by eapply Hadv, advances_headersComplete.
  - by eapply Hadv, advances_checkSendingGoaway.
  - by eapply Hadv, quiet_advances, quiet_onPushPromiseHeadersComplete.
Qed.

Lemma run_drain evs :
  ∀ s s', drainInv s → run evs s = Some s' →
          drainInv s' ∧ drain_le (drainState_ s) (drainState_ s') = true ∧
          direction_ s' = direction_ s.
Proof.
  induction evs as [|ev evs IH]; intros s s' Hinv H.
  { injection H as <-. split_and!; [done | apply drain_le_refl | done]. }
  cbn [run] in H. apply bind_Some in H as (s1 & H1 & H).
  destruct (step_drain _ _ _ Hinv H1) as (I1 & D1 & _ & R1).
  destruct (IH _ _ I1 H) as (I' & D' & R'). split_and!; [done | | congruence].
  by eapply drain_le_trans.
Qed.

Lemma drainInv_newSession direction sock : drainInv (newSession direction sock).
Proof. split_and!; [done | by intros [?|?] | done]. Qed.

(** C5.  In every run of a session from its creation, whatever the
    events (drain, close when idle, drop, end of the connection, timeout,
    GOAWAY received, delivered or cancelled, new streams, reads, loop
    callbacks with their shutdown check, headers), the drain state at a
    later point is the one of an earlier point or one further along the
    drain diagram: it never goes back. *)
Theorem drain_state_never_regresses (direction : TransportDirection)
  (sock : QuicSocket) (before after : list Event) (s s' : HQSession) :
  run before (newSession direction sock) = Some s →
  run after s = Some s' →
  drain_le (drainState_ s) (drainState_ s') = true.
Proof.
  intros H1 H2.
  destruct (run_drain before _ _ (drainInv_newSession direction sock) H1) as [I _].
  by destruct (run_drain after _ _ I H2) as (_ & ? & _).
Qed.

End DrainFunctions.

Section Examples_C5.

#[local] Existing Instance exampleCodes.

(** A downstream HTTP/3 session: first GOAWAY on [closeWhenIdle], second
    on the delivery of the first, DONE on the delivery of the second. *)
Lemma drain_state_never_regresses_witness :
  ∃ s s',
    run [TransportReady kErrorConnect (Some "h3-20") (Some 3) (Some 7) (Some 11) orderly;
         NewBidirectionalStream exampleStreamEnv 0;
         CloseWhenIdle orderly]
      (newSession DOWNSTREAM newSocket) = Some s ∧
    run [GoawayDelivered orderly; GoawayDelivered orderly] s = Some s' ∧
    drainState_ s = FIRST_GOAWAY ∧ drainState_ s' = DONE ∧
    drain_le (drainState_ s) (drainState_ s') = true.
Proof.
  do 2 eexists. split; [by vm_compute|]. split; [by vm_compute|].
  split; [by vm_compute|]. split; [by vm_compute|].
  eapply (drain_state_never_regresses DOWNSTREAM newSocket
            [TransportReady kErrorConnect (Some "h3-20") (Some 3) (Some 7) (Some 11)
               orderly;
             NewBidirectionalStream exampleStreamEnv 0;
             CloseWhenIdle orderly]
            [GoawayDelivered orderly; GoawayDelivered orderly]);
    vm_compute; reflexivity.
Defined.

(** The states a downstream HTTP/3 session goes through in that run. *)
Lemma downstream_drain_path :
  (λ evs, drainState_ <$> run evs (newSession DOWNSTREAM newSocket)) <$>
    [[];
     [TransportReady kErrorConnect (Some "h3-20") (Some 3) (Some 7) (Some 11) orderly];
     [TransportReady kErrorConnect (Some "h3-20") (Some 3) (Some 7) (Some 11) orderly;
      Drain orderly];
     [TransportReady kErrorConnect (Some "h3-20") (Some 3) (Some 7) (Some 11) orderly;
      Drain orderly; GoawayDelivered orderly];
     [TransportReady kErrorConnect (Some "h3-20") (Some 3) (Some 7) (Some 11) orderly;
      Drain orderly; GoawayDelivered orderly; GoawayDelivered orderly]]
  = [Some NONE; Some NONE; Some FIRST_GOAWAY; Some SECOND_GOAWAY; Some DONE].
Proof. by vm_compute. Qed.

(** An upstream session of the first dialect: PENDING when it sends a
    request without keep-alive, CLOSE_SENT once the headers are out, DONE
    when the response says "Connection: close". *)
Lemma upstream_h1q_drain_path :
  (λ evs, drainState_ <$> run evs (newSession UPSTREAM newSocket)) <$>
    [[TransportReady kErrorConnect (Some "h1q-fb") None None None orderly;
      NewTransaction exampleStreamEnv (Some 1%nat) (Some 0)];
     [TransportReady kErrorConnect (Some "h1q-fb") None None None orderly;
      NewTransaction exampleStreamEnv (Some 1%nat) (Some 0);
      SendHeaders orderly false];
     [TransportReady kErrorConnect (Some "h1q-fb") None None None orderly;
      NewTransaction exampleStreamEnv (Some 1%nat) (Some 0);
      SendHeaders orderly false; HeadersComplete orderly true false]]
  = [Some NONE; Some CLOSE_SENT; Some DONE].
Proof. by vm_compute. Qed.

End Examples_C5.

(** ** The two GOAWAY frames of a downstream drain (C2) *)

Section C2.
Context `{codes : StreamTypeCodes}.

Lemma cooperates_spec env :
  cooperates env = true →
  (generated env =? 0) = false ∧ registered env = true ∧
  ∃ wo wb, writeOffset env = Some wo ∧ writeBufferedBytes env = Some wb.
Proof.
  unfold cooperates. intros H.
  apply andb_prop in H as [H Hr]. apply andb_prop in H as [H Hb].
  apply andb_prop in H as [Hg Ho].
  apply bool_decide_eq_true in Ho as [wo Ho], Hb as [wb Hb].
  apply negb_true_iff in Hg. by eauto 10.
Qed.

(** [GoawayUtils::sendGoaway] on a downstream session in PENDING or
    FIRST_GOAWAY whose collaborators cooperate: it returns, the frame is
    written with the id of [getGoawayStreamId], the delivery callback is
    registered, and the state is the next GOAWAY state. *)
Lemma GoawayUtils_sendGoaway_orderly env s :
  direction_ s = DOWNSTREAM →
  drainState_ s = PENDING ∨ drainState_ s = FIRST_GOAWAY →
  is_Some (sock_ s) →
  is_Some (controlStreams_ s !! connControlType s) →
  cooperates env = true →
  ∃ s', GoawayUtils_sendGoaway env s = Some s' ∧
        drainState_ s' = (if bool_decide (drainState_ s = PENDING)
                          then FIRST_GOAWAY else SECOND_GOAWAY) ∧
        goawaysSent s' = goawaysSent s ++ [getGoawayStreamId s] ∧
        bounds s' = bounds s ∧ is_Some (sock_ s') ∧
        controlStreams_ s' !! connControlType s' =
          ctrl_append (FrGoaway (getGoawayStreamId s)) <$>
            (controlStreams_ s !! connControlType s) ∧
        registersDelivery env s s'.
Proof.
  intros Hd Hst [k Hk] [c Hc] Henv.
  destruct (cooperates_spec env Henv) as (Hg & Hr & wo & wb & Hwo & Hwb).
  unfold GoawayUtils_sendGoaway.
  rewrite Hd. cbn [bool_decide decide_rel].
  rewrite (bool_decide_eq_false_2 (DOWNSTREAM = UPSTREAM)) by done.
  rewrite (bool_decide_eq_false_2 (drainState_ s = DONE))
    by (destruct Hst as [-> | ->]; done).
  replace (negb (bool_decide (drainState_ s = PENDING) ||
                 bool_decide (drainState_ s = FIRST_GOAWAY))) with false
    by (destruct Hst as [-> | ->]; done).
  fold (connControlType s). unfold findControlStream.
  unfold UnidirectionalStreamType in *. rewrite Hc. cbn [mbind option_bind].
  rewrite Hg, Hwo, Hwb, Hr. cbn [negb].
  unfold ctrl_write, findControlStream. unfold UnidirectionalStreamType in *.
  rewrite Hc. cbn [mbind option_bind].
  set (s1 := set_controlStreams _ s).
  assert (sock_ s1 = Some k) as Hk1 by (by destruct s).
  rewrite Hk1. cbn [mbind option_bind].
  rewrite (sock_call_Some _ s1 k Hk1). cbn [mbind option_bind].
  set (s2 := set_sock _ s1).
  assert (∃ s3 post, scheduleWrite s2 = Some s3 ∧ core s3 = core s2 ∧
            is_Some (sock_ s3) ∧
            sockLog s3 = sockLog s ++
              OpRegisterDeliveryCallback (ctrlEgressStreamId c)
                (wo + wb + chainLength env) :: post ∧
            (post = [] ∨ post = [OpNotifyPendingWriteOnConnection]))
    as (s3 & post & H3 & C3 & K3 & L3 & P3).
  { unfold scheduleWrite. destruct (scheduledWrite_ s2) eqn:E.
    - exists s2, []. split; [done|]. split; [done|]. split; [by destruct s|].
      split; [|by left]. unfold sockLog. by destruct s; cbn in *; subst.
    - set (s2' := set_scheduledWrite true s2).
      assert (sock_ s2' = Some (sock_do (OpRegisterDeliveryCallback
                                           (ctrlEgressStreamId c)
                                           (wo + wb + chainLength env)) k)) as Hk2
        by (by destruct s).
      rewrite (sock_call_Some _ s2' _ Hk2).
      eexists _, [OpNotifyPendingWriteOnConnection]. split; [done|].
      split; [by destruct s|]. split; [by destruct s|]. split; [|by right].
      unfold sockLog. destruct s; cbn in *; subst. cbn.
      by rewrite <- app_assoc. }
  rewrite H3. cbn [mbind option_bind].
  assert (core s2 = core s1) as C2 by (by destruct s).
  assert (drainState_ s3 = drainState_ s ∧ version_ s3 = version_ s ∧
          controlStreams_ s3 = <[connControlType s :=
                                   ctrl_append (FrGoaway (getGoawayStreamId s)) c]>
                                 (controlStreams_ s) ∧
          bounds s3 = bounds s) as (D3 & V3 & Ct3 & B3).
  { rewrite C2 in C3. unfold core in C3. injection C3 as ? ? ? ? ? ? ? ? ? ?.
    unfold bounds. split_and!; [by destruct s.. |].
    destruct s; cbn in *; congruence. }
  set (d := if bool_decide (drainState_ s = PENDING) then FIRST_GOAWAY else SECOND_GOAWAY).
  exists (set_drainState d s3).
  assert (connControlType (set_drainState d s3) = connControlType s) as Ht
    by (unfold connControlType; destruct s3; cbn in *; by rewrite V3).
  split_and!.
  - rewrite D3. subst d. by destruct (bool_decide (drainState_ s = PENDING)).
  - by destruct s3.
  - unfold goawaysSent. rewrite Ht.
    replace (controlStreams_ (set_drainState d s3)) with (controlStreams_ s3)
      by (by destruct s3).
    unfold UnidirectionalStreamType in *.
    rewrite Ct3, lookup_insert_eq, Hc. cbn. by rewrite omap_app.
  - rewrite <- B3. by destruct s3.
  - by destruct s3.
  - rewrite Ht.
    replace (controlStreams_ (set_drainState d s3)) with (controlStreams_ s3)
      by (by destruct s3).
    unfold UnidirectionalStreamType in *.
    by rewrite Ct3, lookup_insert_eq.
  - exists c, wo, wb, post. by split_and!.
Qed.

(** C2.  At any point of any run of a downstream session of a dialect
    with a control stream: the GOAWAY frames written on the control stream
    go with the drain state (none up to PENDING, the sentinel 2^62-1 alone
    in FIRST_GOAWAY, the sentinel and one more in SECOND_GOAWAY, never
    more than two); past PENDING no event but the delivery callback of a
    GOAWAY has a frame written; and from NONE, with a socket, a control
    stream and collaborators that cooperate, the drain writes the sentinel,
    registers the delivery callback of the control stream on the socket at
    the end of that frame and goes to FIRST_GOAWAY; the delivery callback
    of the control stream then writes [maxIncomingStreamId_] and goes to
    SECOND_GOAWAY, and fired once more, for the second frame, it writes
    nothing and goes to DONE. *)
Theorem downstream_drain_two_goaways (sock : QuicSocket) (evs : list Event)
  (s : HQSession) (env1 env2 env3 : GoawayEnv) :
  run evs (newSession DOWNSTREAM sock) = Some s →
  version_ s = Some H1Q_FB_V2 ∨ version_ s = Some HQ →
  goawaysFor (drainState_ s) (goawaysSent s) ∧
  (∀ ev s',
     step ev s = Some s' → (∀ env, ev ≠ GoawayDelivered env) →
     drainState_ s ≠ NONE → drainState_ s ≠ PENDING →
     goawaysSent s' = goawaysSent s) ∧
  (drainState_ s = NONE →
   is_Some (sock_ s) → is_Some (controlStreams_ s !! connControlType s) →
   cooperates env1 = true → cooperates env2 = true →
   ∃ s1 s2 s3,
     drainImpl env1 s = Some s1 ∧
     drainState_ s1 = FIRST_GOAWAY ∧ goawaysSent s1 = [kEightByteLimit] ∧
     registersDelivery env1 s s1 ∧
     HQControlStream_onDeliveryAck env2 s1 = Some s2 ∧
     step (GoawayDelivered env2) s1 = Some s2 ∧
     drainState_ s2 = SECOND_GOAWAY ∧
     goawaysSent s2 = [kEightByteLimit; maxIncomingStreamId_ s] ∧
     HQControlStream_onDeliveryAck env3 s2 = Some s3 ∧
     drainState_ s3 = DONE ∧ goawaysSent s3 = goawaysSent s2).
Proof.
  intros Hrun Hv.
  destruct (run_drain evs _ _ (drainInv_newSession DOWNSTREAM sock) Hrun)
    as (Hinv & _ & Hd).
  change (direction_ (newSession DOWNSTREAM sock)) with DOWNSTREAM in Hd.
  pose proof Hinv as (_ & _ & Hm). specialize (Hm Hd).
  split_and!; [done | |].
  { intros ev s' Hstep Hne Hn Hp.
    destruct (step_drain _ _ _ Hinv Hstep) as (_ & _ & F & _). by apply F. }
  intros Hn Hk Hc Henv1 Henv2.
  rewrite Hn in Hm. cbn in Hm.
  assert (∃ v, version_ s = Some v ∧ v ≠ H1Q_FB_V1) as (v & Hv' & Hv1)
    by (destruct Hv as [-> | ->]; by eauto).
  (* the drain *)
  set (sp := set_drainState PENDING s).
  assert (direction_ sp = DOWNSTREAM ∧ drainState_ sp = PENDING ∧
          sock_ sp = sock_ s ∧ version_ sp = version_ s ∧
          controlStreams_ sp = controlStreams_ s ∧
          maxIncomingStreamId_ sp = maxIncomingStreamId_ s)
    as (Rp & Dp & Kp & Vp & Cp & Mp) by (by destruct s).
  assert (connControlType sp = connControlType s) as Tp
    by (unfold connControlType; by rewrite Vp).
  assert (goawaysSent sp = goawaysSent s) as Gp by (by apply goawaysSent_same).
  destruct (GoawayUtils_sendGoaway_orderly env1 sp) as (s1 & H1 & D1 & G1 & B1 & K1 & C1 & Rg1);
    [done | by left | by rewrite Kp | by rewrite Tp, Cp | done |].
  rewrite Dp in D1. rewrite bool_decide_eq_true_2 in D1 by done.
  unfold getGoawayStreamId in G1. rewrite Dp in G1.
  rewrite (bool_decide_eq_true_2 (PENDING = PENDING)) in G1 by done.
  rewrite orb_true_r, Gp, Hm in G1. cbn [app] in G1.
  assert (drainImpl env1 s = Some s1) as Hdrain.
  { unfold drainImpl. rewrite Hn. cbn [bool_decide decide_rel negb].
    rewrite bool_decide_eq_true_2 by done. cbn [negb]. fold sp. rewrite Vp, Hv'.
    unfold sendGoaway. rewrite Vp, Hv'. cbn [mbind option_bind].
    by destruct v. }
  assert (version_ s1 = version_ s ∧ direction_ s1 = DOWNSTREAM ∧
          maxIncomingStreamId_ s1 = maxIncomingStreamId_ s) as (V1 & R1 & M1).
  { unfold bounds in B1. injection B1 as ? ? ? ? ? ?. split_and!; congruence. }
  (* the delivery of the first frame *)
  destruct (GoawayUtils_sendGoaway_orderly env2 s1) as (s2 & H2 & D2 & G2 & B2 & K2 & C2 & _);
    [done | by right | done | | done |].
  { rewrite C1, Tp, Cp. destruct Hc as [c ->]. by eauto. }
  rewrite D1 in D2. rewrite bool_decide_eq_false_2 in D2 by done.
  unfold getGoawayStreamId in G2. rewrite D1 in G2.
  rewrite !bool_decide_eq_false_2 in G2 by done.
  rewrite G1, M1 in G2. cbn [orb app] in G2.
  assert (HQControlStream_onDeliveryAck env2 s1
          = Some (scheduleLoopCallback false s2)) as Hack1.
  { unfold HQControlStream_onDeliveryAck, onGoawayAck. rewrite D1. rewrite bool_decide_eq_true_2 by done.
    unfold sendGoaway. rewrite V1, Hv'. cbn [mbind option_bind].
    destruct v; [done| |]; cbv iota; by rewrite H2. }
  destruct (quiet_scheduleLoopCallback false s2) as (_ & _ & D2' & _ & G2').
  (* the delivery of the second frame *)
  set (s2' := scheduleLoopCallback false s2) in *.
  assert (HQControlStream_onDeliveryAck env3 s2'
          = Some (scheduleLoopCallback false (set_drainState DONE s2'))) as Hack2.
  { unfold HQControlStream_onDeliveryAck, onGoawayAck. rewrite D2', D2.
    rewrite bool_decide_eq_false_2 by done.
    by rewrite bool_decide_eq_true_2 by done. }
  destruct (quiet_scheduleLoopCallback false (set_drainState DONE s2'))
    as (_ & _ & D3 & _ & G3).
  exists s1, s2', (scheduleLoopCallback false (set_drainState DONE s2')).
  split_and!; [done | done | done | | done | done | by rewrite D2' | by rewrite G2'
              | done | |].
  { destruct Rg1 as (c & wo & wb & post & Ec & Ewo & Ewb & L & P).
    exists c, wo, wb, post. rewrite Tp, Cp in Ec. by split_and!. }
  - rewrite D3. by destruct s2'.
  - rewrite G3. apply goawaysSent_same; by destruct s2'.
Qed.

End C2.

Section Examples_C2.

#[local] Existing Instance exampleCodes.

(** Scenario 2 of the spec: streams 0, 8 and 16 are accepted, then the
    session drains: GOAWAY(2^62-1), and GOAWAY(16) once the delivery
    callback of the control stream fires. *)
Lemma downstream_drain_two_goaways_witness :
  run threeRequests (newSession DOWNSTREAM newSocket) = Some servingDownstreamH3 ∧
  version_ servingDownstreamH3 = Some HQ ∧
  drainState_ servingDownstreamH3 = NONE ∧
  ∃ s1 s2 s3,
    drainImpl orderly servingDownstreamH3 = Some s1 ∧
    drainState_ s1 = FIRST_GOAWAY ∧ goawaysSent s1 = [kEightByteLimit] ∧
    registersDelivery orderly servingDownstreamH3 s1 ∧
    HQControlStream_onDeliveryAck orderly s1 = Some s2 ∧
    step (GoawayDelivered orderly) s1 = Some s2 ∧
    drainState_ s2 = SECOND_GOAWAY ∧ goawaysSent s2 = [kEightByteLimit; 16] ∧
    HQControlStream_onDeliveryAck orderly s2 = Some s3 ∧
    drainState_ s3 = DONE ∧ goawaysSent s3 = goawaysSent s2.
Proof.
  split; [by vm_compute|]. split; [by vm_compute|]. split; [by vm_compute|].
  destruct (downstream_drain_two_goaways newSocket threeRequests servingDownstreamH3
              orderly orderly orderly) as (_ & _ & Hpath);
    [by vm_compute | right; by vm_compute |].
  destruct Hpath as (s1 & s2 & s3 & H);
    [by vm_compute | vm_compute; by eauto | vm_compute; by eauto
    | by vm_compute | by vm_compute |].
  exists s1, s2, s3. exact H.
Defined.

(** The same drain as a run of events, with what is on the control stream
    at each point. *)
Lemma downstream_goaways_by_state :
  (λ evs, (λ s, (drainState_ s, goawaysSent s)) <$> run evs servingDownstreamH3) <$>
    [[]; [Drain orderly]; [Drain orderly; GoawayDelivered orderly];
     [Drain orderly; GoawayDelivered orderly; GoawayDelivered orderly]]
  = [Some (NONE, []);
     Some (FIRST_GOAWAY, [2 ^ 62 - 1]);
     Some (SECOND_GOAWAY, [2 ^ 62 - 1; 16]);
     Some (DONE, [2 ^ 62 - 1; 16])].
Proof. by vm_compute. Qed.

(** A stream that arrives between the two GOAWAY frames, beyond the
    largest id seen, is refused and does not move the second frame. *)
Lemma downstream_goaway_after_late_stream :
  (λ s, (drainState_ s, goawaysSent s, streams_ s !! 20)) <$>
    run [Drain orderly; NewBidirectionalStream exampleStreamEnv 20;
         GoawayDelivered orderly] servingDownstreamH3
  = Some (SECOND_GOAWAY, [2 ^ 62 - 1; 16], None).
Proof. by vm_compute. Qed.

End Examples_C2.
(** ** Aborting a stream, and the streams the first dialect accepts *)

Section Abort.
Context `{codes : StreamTypeCodes}.

(** The QPACK cancellations written so far on the decoder stream. *)
Lemma versionUtils_abortStream_exact id s :
  is_Some (sock_ s) → canAbort s →
  ∃ s0, versionUtils_abortStream id s = Some s0 ∧
    sockLog s0 = sockLog s ++
      (if bool_decide (version_ s = Some HQ) && negb (scheduledWrite_ s)
       then [OpNotifyPendingWriteOnConnection] else []) ∧
    controlStreams_ s0 =
      (if bool_decide (version_ s = Some HQ)
       then alter (ctrl_append (FrQpackCancel id)) QPACK_DECODER (controlStreams_ s)
       else controlStreams_ s) ∧
    tables s0 = tables s ∧ bounds s0 = bounds s ∧
    drainState_ s0 = drainState_ s ∧ is_Some (sock_ s0).
Proof.
  intros [k Hk] Hv. unfold versionUtils_abortStream.
  destruct Hv as [Hv|[Hv|[Hv [c Hc]]]]; rewrite Hv; simpl.
  - exists s. rewrite app_nil_r. by eauto 10.
  - exists s. rewrite app_nil_r. by eauto 10.
  - unfold ctrl_write. rewrite Hc. simpl.
    assert (<[QPACK_DECODER:=ctrl_append (FrQpackCancel id) c]> (controlStreams_ s)
            = alter (ctrl_append (FrQpackCancel id)) QPACK_DECODER (controlStreams_ s))
      as Ha.
    { unfold findControlStream, UnidirectionalStreamType in *.
      apply map_eq. intros i.
      destruct (decide (i = QPACK_DECODER)) as [->|Hi].
      - rewrite lookup_insert_eq, lookup_alter_eq. by rewrite Hc.
      - by rewrite lookup_insert_ne, lookup_alter_ne. }
    unfold scheduleWrite. simpl.
    destruct (scheduledWrite_ s); simpl.
    + eexists. rewrite app_nil_r. split; [done|].
      unfold sockLog; simpl. rewrite Hk, Ha. by eauto 10.
    + unfold sock_call. simpl. rewrite Hk. simpl.
      eexists. split; [done|]. unfold sockLog; simpl. rewrite Hk, Ha.
      by eauto 10.
Qed.

(** A unidirectional stream has one half only: it is the peer's or the
    session's own. *)
Lemma uni_stream_one_half s id :
  isPeerUniStream s id && isSelfUniStream s id = false.
Proof.
  unfold isPeerUniStream, isSelfUniStream. rewrite isServerStream_negb.
  destruct (direction_ s); cbn;
    by destruct (isUnidirectionalStream id), (isClientStream id).
Qed.

Lemma abortStream_log dir id err s :
  is_Some (sock_ s) → canAbort s →
  let stop := negb (bool_decide (dir = EGRESS)) &&
              (isBidirectionalStream id || isPeerUniStream s id) in
  let reset := negb (bool_decide (dir = INGRESS)) &&
               (isBidirectionalStream id || isSelfUniStream s id) in
  let cancel := stop && bool_decide (version_ s = Some HQ) in
  ∃ s',
    abortStream dir id err s = Some s' ∧
    sockLog s' = sockLog s ++
      (if cancel && negb (scheduledWrite_ s)
       then [OpNotifyPendingWriteOnConnection] else []) ++
      (if stop then [OpStopSending id err] else []) ++
      (if reset then [OpResetStream id err] else []) ∧
    controlStreams_ s' =
      (if cancel
       then alter (ctrl_append (FrQpackCancel id)) QPACK_DECODER (controlStreams_ s)
       else controlStreams_ s) ∧
    tables s' = tables s ∧ bounds s' = bounds s ∧
    drainState_ s' = drainState_ s ∧ is_Some (sock_ s').
Proof.
  intros Hk Hv stop reset cancel.
  destruct (versionUtils_abortStream_exact id s Hk Hv)
    as (s0 & E0 & L0 & C0 & T0 & B0 & D0 & [k0 K0]).
  destruct Hk as [k Hk]. unfold abortStream. rewrite Hk. cbn.
  assert (direction_ s0 = direction_ s) as Dir0 by (by injection B0).
  fold stop. subst cancel.
  destruct stop eqn:B1; cbn.
  - rewrite E0. cbn. rewrite (sock_call_Some _ _ _ K0). cbn.
    unfold isSelfUniStream at 1. cbn. rewrite Dir0. fold (isSelfUniStream s id).
    fold reset.
    destruct reset eqn:B2.
    + unfold sock_call. cbn. eexists. split; [done|].
      unfold sockLog in *. cbn. rewrite K0 in L0. rewrite L0, <- !app_assoc.
      repeat split; first [done | by injection B0 | by eauto].
    + eexists. split; [done|].
      unfold sockLog in *. cbn. rewrite K0 in L0. rewrite L0, <- !app_assoc.
      repeat split; first [done | by injection B0 | by eauto].
  - fold reset. destruct reset eqn:B2.
    + rewrite (sock_call_Some _ _ _ Hk). eexists. split; [done|].
      unfold sockLog. cbn. rewrite Hk. by eauto 10.
    + eexists. split; [done|]. rewrite !app_nil_r. by eauto 10.
Qed.

(** [abortStream], for every direction of the abort: STOP_SENDING goes out
    when the abort covers the ingress and the stream has a half the peer
    writes (it is bidirectional or the peer's unidirectional stream); a
    reset goes out when the abort covers the egress and the stream has a
    half the session writes; both carry the given code, in this order.
    With HTTP/3 a QPACK stream cancellation is appended to the decoder
    stream exactly when STOP_SENDING is sent, and a write is requested
    unless one is already scheduled.  On a unidirectional stream at most
    one of the two goes out.  No stream object, bound or drain state is
    touched. *)
Theorem abortStream_table (dir : Direction) (id : StreamId) (err : ErrorCode)
  (s : HQSession) :
  is_Some (sock_ s) → canAbort s →
  let stop := negb (bool_decide (dir = EGRESS)) &&
              (isBidirectionalStream id || isPeerUniStream s id) in
  let reset := negb (bool_decide (dir = INGRESS)) &&
               (isBidirectionalStream id || isSelfUniStream s id) in
  let cancel := stop && bool_decide (version_ s = Some HQ) in
  (isUnidirectionalStream id = true → stop && reset = false) ∧
  ∃ s',
    abortStream dir id err s = Some s' ∧
    sockLog s' = sockLog s ++
      (if cancel && negb (scheduledWrite_ s)
       then [OpNotifyPendingWriteOnConnection] else []) ++
      (if stop then [OpStopSending id err] else []) ++
      (if reset then [OpResetStream id err] else []) ∧
    controlStreams_ s' =
      (if cancel
       then alter (ctrl_append (FrQpackCancel id)) QPACK_DECODER (controlStreams_ s)
       else controlStreams_ s) ∧
    tables s' = tables s ∧ bounds s' = bounds s ∧
    drainState_ s' = drainState_ s.
Proof.
  intros Hk Hv stop reset cancel. split.
  - intros Hu. subst stop reset.
    rewrite isUnidirectionalStream_negb in Hu. apply negb_true_iff in Hu.
    rewrite Hu. cbn. pose proof (uni_stream_one_half s id) as H1.
    destruct (isPeerUniStream s id), (isSelfUniStream s id); try done;
      by rewrite ?andb_false_r.
  - destruct (abortStream_log dir id err s Hk Hv)
      as (s' & E & L & C & T & B & D & _).
    exists s'. by eauto 10.
Qed.

(** The first dialect (h1q-fb-v1) accepts a new stream exactly when it is
    a bidirectional stream opened by a client, whatever the drain state:
    it has no GOAWAY bound.  An accepted stream leaves the session as it
    was; any other stream is refused with HTTP_WRONG_STREAM on the halves
    it has, and nothing else changes. *)
Theorem h1q_v1_accepts_client_bidirectional_only (id : StreamId) (s : HQSession) :
  version_ s = Some H1Q_FB_V1 → is_Some (sock_ s) →
  ∃ s',
    checkNewStream id s = Some (isBidirectionalStream id && isClientStream id, s') ∧
    (isBidirectionalStream id && isClientStream id = true → s' = s) ∧
    sockLog s' = sockLog s ++
      (if isBidirectionalStream id && isClientStream id then []
       else (if isBidirectionalStream id || isPeerUniStream s id
             then [OpStopSending id HTTP_WRONG_STREAM] else []) ++
            (if isBidirectionalStream id || isSelfUniStream s id
             then [OpResetStream id HTTP_WRONG_STREAM] else [])) ∧
    tables s' = tables s ∧ bounds s' = bounds s ∧
    drainState_ s' = drainState_ s ∧ controlStreams_ s' = controlStreams_ s.
Proof.
  intros Hv Hk. unfold checkNewStream, H1QFBV1_checkNewStream. rewrite Hv. cbn.
  rewrite isUnidirectionalStream_negb, isServerStream_negb.
  destruct (isBidirectionalStream id) eqn:Hb, (isClientStream id) eqn:Hc; cbn.
  1:{ exists s. rewrite app_nil_r. by eauto 10. }
  all: destruct (abortStream_log INGRESS_AND_EGRESS id HTTP_WRONG_STREAM s Hk
                   (or_introl Hv)) as (s' & E & L & C & T & B & D & _);
    rewrite E; cbn; exists s'; rewrite Hv, Hb in L, C; cbn in L, C;
    rewrite ?andb_false_r in L, C; cbn in L, C;
    split; [done|]; split; [done|]; by eauto 10.
Qed.

End Abort.

Section Examples_Abort.
#[local] Existing Instance exampleCodes.

(** An abort of both directions of the client's unidirectional stream 2 on
    the downstream HTTP/3 session: STOP_SENDING only, and a QPACK
    cancellation. *)
Lemma abortStream_table_witness :
  let s := the downstreamH3 in
  is_Some (sock_ s) ∧ canAbort s ∧
  ∃ s',
    abortStream INGRESS_AND_EGRESS 2 HTTP_INTERNAL_ERROR s = Some s' ∧
    sockLog s' = sockLog s ++ [OpStopSending 2 HTTP_INTERNAL_ERROR] ∧
    controlStreams_ s' =
      alter (ctrl_append (FrQpackCancel 2)) QPACK_DECODER (controlStreams_ s).
Proof.
  intros s.
  assert (is_Some (sock_ s)) as H1 by (vm_compute; eexists; reflexivity).
  assert (canAbort s) as H2
    by (right; right; split; vm_compute; [reflexivity | eexists; reflexivity]).
  split; [exact H1|]. split; [exact H2|].
  destruct (abortStream_table INGRESS_AND_EGRESS 2 HTTP_INTERNAL_ERROR s H1 H2)
    as (_ & s' & E & L & C & _).
  exists s'. split; [exact E|]. split; [exact L|exact C].
Defined.

(** The client's unidirectional stream 2 on a downstream h1q-fb-v1
    session is refused. *)
Lemma h1q_v1_accepts_client_bidirectional_only_witness :
  let s := downstreamH1Q in
  version_ s = Some H1Q_FB_V1 ∧ is_Some (sock_ s) ∧
  ∃ s',
    checkNewStream 2 s = Some (false, s') ∧
    sockLog s' = sockLog s ++ [OpStopSending 2 HTTP_WRONG_STREAM].
Proof.
  intros s.
  assert (version_ s = Some H1Q_FB_V1) as H1 by (vm_compute; reflexivity).
  assert (is_Some (sock_ s)) as H2 by (vm_compute; eexists; reflexivity).
  split; [exact H1|]. split; [exact H2|].
  destruct (h1q_v1_accepts_client_bidirectional_only 2 s H1 H2)
    as (s' & E & _ & L & _).
  exists s'. split; [exact E|exact L].
Defined.

End Examples_Abort.
(** ** Reaping streams, shutdown and the drop of the connection *)

Section Reap.
Context `{codes : StreamTypeCodes}.

Lemma sameButSock_refl s : sameButSock s s.
Proof. exists (sock_ s). split; [by destruct s|done]. Qed.

Lemma sameButSock_trans s1 s2 s3 :
  sameButSock s1 s2 → sameButSock s2 s3 → sameButSock s1 s3.
Proof.
  intros (x & -> & Hx) (y & -> & Hy). exists y. split; [done|].
  rewrite Hy. cbn. done.
Qed.

Lemma sameButSock_fields s s' :
  sameButSock s s' →
  streams_ s' = streams_ s ∧ ingressPushStreams_ s' = ingressPushStreams_ s ∧
  egressPushStreams_ s' = egressPushStreams_ s ∧ streamLookup_ s' = streamLookup_ s ∧
  beside s' = beside s ∧ (is_Some (sock_ s') ↔ is_Some (sock_ s)).
Proof. intros (x & -> & Hx). by repeat split; try apply Hx. Qed.

Lemma sameButSock_clearStreamCallbacks id s :
  sameButSock s (clearStreamCallbacks id s).
Proof.
  unfold clearStreamCallbacks. destruct (sock_ s) as [k|] eqn:E.
  - eexists. split; [done|]. rewrite E. split; by eauto.
  - apply sameButSock_refl.
Qed.

Lemma sameButSock_cleanupPendingStreams s : sameButSock s (cleanupPendingStreams s).
Proof.
  unfold cleanupPendingStreams.
  apply (foldl_inv (λ x, sameButSock s x)); [|apply sameButSock_refl].
  intros x b Hx. eapply sameButSock_trans; [exact Hx|].
  apply sameButSock_clearStreamCallbacks.
Qed.

Lemma requestStreamsOnly_sameButSock s s' :
  sameButSock s s' → requestStreamsOnly s → requestStreamsOnly s'.
Proof.
  intros H (A & B & C & D). apply sameButSock_fields in H as (S & I & E & L & _).
  unfold requestStreamsOnly. by rewrite S, I, E, L.
Qed.

Lemma findStream_request id st s :
  streams_ s !! id = Some st → findStream id s = Some (RequestStream id).
Proof.
  intros H. unfold findStream, findStreamImpl. rewrite H. cbn. by rewrite H.
Qed.

(** Detaching a request stream of a session that holds request streams
    only erases it, under its own id. *)
Lemma detachStreamTransport_request id st s :
  requestStreamsOnly s → streams_ s !! id = Some st →
  ∃ s', detachStreamTransport (RequestStream id) s = Some s' ∧
    streams_ s' = delete id (streams_ s) ∧ requestStreamsOnly s' ∧
    beside s' = beside s ∧ (is_Some (sock_ s') ↔ is_Some (sock_ s)).
Proof.
  intros (A & B & C & D) Hst.
  pose proof (D id st Hst) as Hid.
  unfold detachStreamTransport. cbn. rewrite Hst. cbn.
  unfold hasIngressStreamId, getStreamId. rewrite Hid. cbn.
  set (s0 := if bool_decide (is_Some (sock_ s)) && true
             then clearStreamCallbacks id s else s).
  assert (sameButSock s s0) as H0.
  { subst s0. destruct (_ && _);
      [apply sameButSock_clearStreamCallbacks|apply sameButSock_refl]. }
  rewrite (findStream_request id st s Hst). cbn.
  pose proof (sameButSock_fields _ _ H0) as (S0 & I0 & E0 & L0 & B0 & K0).
  unfold eraseStream. cbn. rewrite E0, B, L0, C, S0, Hst. cbn.
  rewrite lookup_empty. cbn.
  set (s1 := set_egressPushStreams _ _).
  assert (sameButSock s1 (if bool_decide (numberOfStreams s1 = 0%nat)
                          then cleanupPendingStreams s1 else s1)) as H1.
  { destruct (bool_decide (numberOfStreams s1 = 0%nat));
      [apply sameButSock_cleanupPendingStreams|apply sameButSock_refl]. }
  set (s' := if bool_decide (numberOfStreams s1 = 0%nat) then _ else _) in *.
  exists s'. split; [done|].
  pose proof (sameButSock_fields _ _ H1) as (S1 & I1 & E1 & L1 & B1 & K1).
  subst s1. cbn in *.
  split; [done|]. split.
  { split; [by rewrite I1, I0|]. split; [by rewrite E1, delete_empty|].
    split; [by rewrite L1, L0|]. rewrite S1. by apply map_Forall_delete. }
  split; [rewrite B1; exact B0|].
  by rewrite K1, <- K0.
Qed.

(** [checkForDetach] on a request stream: it is erased when it is detached
    and has nothing buffered, and kept otherwise. *)
Lemma checkForDetach_request id s :
  requestStreamsOnly s →
  ∃ s', checkForDetach (RequestStream id) s = Some s' ∧
    streams_ s' =
      (if streams_ s !! id is Some st
       then if readyToDetach st then delete id (streams_ s) else streams_ s
       else streams_ s) ∧
    requestStreamsOnly s' ∧ beside s' = beside s ∧
    (is_Some (sock_ s') ↔ is_Some (sock_ s)).
Proof.
  intros Hwf. unfold checkForDetach.
  change (getStream (RequestStream id) s) with (streams_ s !! id).
  destruct (streams_ s !! id) as [st|] eqn:Hst; [|by exists s].
  destruct (readyToDetach st); [|by exists s].
  destruct (detachStreamTransport_request id st s Hwf Hst) as (s' & E & H).
  exists s'. by rewrite E.
Qed.

Lemma foldl_checkForDetach l s :
  requestStreamsOnly s →
  ∃ s', foldl (λ acc r, a ← acc; checkForDetach r a) (Some s) (RequestStream <$> l)
        = Some s' ∧
    (∀ id, streams_ s' !! id =
           if bool_decide (id ∈ l)
           then st ← streams_ s !! id; if readyToDetach st then None else Some st
           else streams_ s !! id) ∧
    requestStreamsOnly s' ∧ beside s' = beside s ∧
    (is_Some (sock_ s') ↔ is_Some (sock_ s)).
Proof.
  revert s. induction l as [|i l IH]; intros s Hwf.
  { exists s. cbn. split; [done|]. split; [|done]. intros id.
    by rewrite bool_decide_eq_false_2 by apply not_elem_of_nil. }
  cbn. destruct (checkForDetach_request i s Hwf) as (s1 & E1 & S1 & W1 & B1 & K1).
  rewrite E1. destruct (IH s1 W1) as (s' & E & S & W & B & K).
  exists s'. split; [exact E|]. split; [|split; [done|split; congruence || by rewrite K]].
  intros id. rewrite S, S1. clear E E1 S S1 IH. unfold StreamId in *.
  destruct (decide (id = i)) as [->|Hne].
  - rewrite (bool_decide_eq_true_2 (i ∈ i :: l)) by (apply elem_of_cons; by left).
    destruct (streams_ s !! i) as [st|] eqn:Hst; cbn.
    + destruct (readyToDetach st) eqn:Hr.
      * rewrite lookup_delete_eq. by destruct (bool_decide (i ∈ l)).
      * rewrite Hst. cbn. rewrite Hr. by destruct (bool_decide (i ∈ l)).
    + rewrite Hst. by destruct (bool_decide (i ∈ l)).
  - assert (bool_decide (id ∈ i :: l) = bool_decide (id ∈ l)) as ->.
    { apply bool_decide_ext. rewrite elem_of_cons.
      split; [by intros [?|?]|by right]. }
    assert ((if streams_ s !! i is Some st
             then if readyToDetach st then delete i (streams_ s) else streams_ s
             else streams_ s) !! id = streams_ s !! id) as ->; [|done].
    destruct (streams_ s !! i) as [st|]; [|done].
    destruct (readyToDetach st); [|done]. by rewrite lookup_delete_ne.
Qed.

Lemma allStreams_requestOnly s :
  requestStreamsOnly s →
  allStreams s = RequestStream <$> (map_to_list (streams_ s)).*1.
Proof.
  intros (A & B & C & D). unfold allStreams. rewrite A, B.
  rewrite map_to_list_empty. cbn. by rewrite app_nil_r.
Qed.

Lemma requestStreamsOnly_ext s s' :
  streams_ s' = streams_ s → ingressPushStreams_ s' = ingressPushStreams_ s →
  egressPushStreams_ s' = egressPushStreams_ s → streamLookup_ s' = streamLookup_ s →
  requestStreamsOnly s → requestStreamsOnly s'.
Proof. unfold requestStreamsOnly. by intros -> -> -> ->. Qed.

Lemma lookup_unreaped m (id : Z) :
  unreaped m !! id = st ← m !! id; if readyToDetach st then None else Some st.
Proof.
  unfold unreaped. rewrite map_lookup_filter.
  destruct (m !! id) as [st|]; [|done]. cbn. unfold staysAttached.
  by destruct (readyToDetach st).
Qed.

Lemma numberOfStreams_requestOnly s :
  requestStreamsOnly s →
  bool_decide (numberOfStreams s = 0%nat) = bool_decide (streams_ s = ∅).
Proof.
  intros (A & B & _). unfold numberOfStreams. rewrite A, B, !map_size_empty.
  apply bool_decide_ext. rewrite <- map_size_empty_iff. lia.
Qed.

Lemma checkForShutdown_request s :
  requestStreamsOnly s →
  let destroys := bool_decide (shutdownState s = DONE) &&
                  bool_decide (unreaped (streams_ s) = ∅) &&
                  negb (loopCallbackScheduled_ s) in
  ∃ s', checkForShutdown s = Some s' ∧
    streams_ s' = unreaped (streams_ s) ∧
    requestStreamsOnly s' ∧
    drainState_ s' = shutdownState s ∧
    destroyed_ s' = destroys || destroyed_ s ∧
    (if destroys then sock_ s' = None
     else is_Some (sock_ s') ↔ is_Some (sock_ s)) ∧
    bounds s' = bounds s ∧ dropping_ s' = dropping_ s ∧
    dropInNextLoop_ s' = dropInNextLoop_ s ∧
    controlStreams_ s' = controlStreams_ s ∧
    loopCallbackScheduled_ s' = loopCallbackScheduled_ s ∧
    pendingProcessReadSet_ s' = pendingProcessReadSet_ s.
Proof.
  intros Hwf destroys. unfold checkForShutdown.
  set (s1 := if negb (bool_decide (version_ s = Some H1Q_FB_V1)) && _ && _
             then set_drainState DONE s else s).
  assert (requestStreamsOnly s1 ∧ streams_ s1 = streams_ s ∧
          drainState_ s1 = shutdownState s ∧ sock_ s1 = sock_ s ∧
          bounds s1 = bounds s ∧ dropping_ s1 = dropping_ s ∧
          dropInNextLoop_ s1 = dropInNextLoop_ s ∧
          controlStreams_ s1 = controlStreams_ s ∧
          loopCallbackScheduled_ s1 = loopCallbackScheduled_ s ∧
          pendingProcessReadSet_ s1 = pendingProcessReadSet_ s ∧
          destroyed_ s1 = destroyed_ s)
    as (W1 & S1 & D1 & K1 & B1 & P1 & N1 & C1 & L1 & R1 & X1).
  { subst s1. unfold shutdownState.
    destruct (negb (bool_decide (version_ s = Some H1Q_FB_V1)) && _ && _);
      split_and!; done. }
  rewrite (allStreams_requestOnly s1 W1).
  destruct (foldl_checkForDetach (map_to_list (streams_ s1)).*1 s1 W1)
    as (s2 & E2 & S2 & W2 & B2 & K2).
  rewrite E2. cbn.
  assert (streams_ s2 = unreaped (streams_ s)) as S2'.
  { apply map_eq. intros id. rewrite S2, lookup_unreaped, S1.
    destruct (streams_ s !! id) as [st|] eqn:Hst.
    - rewrite bool_decide_eq_true_2; [done|].
      apply list_elem_of_fmap. exists (id, st). split; [done|].
      by apply elem_of_map_to_list.
    - cbn. by destruct (bool_decide (id ∈ _)). }
  unfold beside, core in B2.
  injection B2 as Dir2 V2 D2 P2 C2 I2 A2 RP2 N2 RW2 DP2 R2 L2 SW2 X2.
  rewrite (numberOfStreams_requestOnly s2 W2), S2', D2, D1, L2, L1.
  fold destroys.
  assert (bounds s2 = bounds s) as Bd.
  { rewrite <- B1. unfold bounds. congruence. }
  destruct destroys.
  - destruct (sock_ s2) eqn:Ek; (eexists; split; [done|]); cbn;
      split_and!; try done; try congruence; apply W2.
  - exists s2. split; [done|]. cbn.
    split_and!; try done; try congruence.
Qed.

(** The members a stream member function leaves alone when it is applied
    to a request stream of the session; the loop callback may get
    scheduled, by a transaction that detaches. *)
Lemma updStream_request f i s :
  streams_ (updStream (RequestStream i) f s) =
    (if streams_ s !! i is Some st then <[i := f st]> (streams_ s) else streams_ s) ∧
  ingressPushStreams_ (updStream (RequestStream i) f s) = ingressPushStreams_ s ∧
  egressPushStreams_ (updStream (RequestStream i) f s) = egressPushStreams_ s ∧
  streamLookup_ (updStream (RequestStream i) f s) = streamLookup_ s ∧
  core (updStream (RequestStream i) f s) = core s ∧
  sock_ (updStream (RequestStream i) f s) = sock_ s ∧
  destroyed_ (updStream (RequestStream i) f s) = destroyed_ s ∧
  pendingProcessReadSet_ (updStream (RequestStream i) f s) = pendingProcessReadSet_ s ∧
  (loopCallbackScheduled_ (updStream (RequestStream i) f s) = loopCallbackScheduled_ s ∨
   loopCallbackScheduled_ (updStream (RequestStream i) f s) = true ∧ is_Some (sock_ s)).
Proof.
  unfold updStream. cbn. destruct (streams_ s !! i) as [st|]; [|by eauto 10].
  unfold replaceStream, scheduleLoopCallback. cbn.
  destruct (negb (detached_ st) && detached_ (f st)); [|by eauto 10].
  destruct (loopCallbackScheduled_ s) eqn:El; [by eauto 10|].
  destruct (sock_ s) eqn:Ek; cbn; rewrite ?Ek; by eauto 15.
Qed.

Lemma foldl_updStream_request f L s :
  requestStreamsOnly s → NoDup L →
  (∀ r, r ∈ L → ∃ id, r = RequestStream id) →
  (∀ st, ingressStreamId_ (f st) = ingressStreamId_ st) →
  let s' := foldl (λ acc r, updStream r f acc) s L in
  (∀ id, streams_ s' !! id =
         if bool_decide (RequestStream id ∈ L) then f <$> streams_ s !! id
         else streams_ s !! id) ∧
  requestStreamsOnly s' ∧ core s' = core s ∧ sock_ s' = sock_ s ∧
  destroyed_ s' = destroyed_ s ∧
  pendingProcessReadSet_ s' = pendingProcessReadSet_ s ∧
  (loopCallbackScheduled_ s' = loopCallbackScheduled_ s ∨
   loopCallbackScheduled_ s' = true ∧ is_Some (sock_ s)).
Proof.
  intros Hwf Hnd Hreq Hf. revert s Hwf.
  induction L as [|r L IH]; intros s Hwf; cbn.
  { split; [|by eauto 10]. intros id.
    by rewrite bool_decide_eq_false_2 by apply not_elem_of_nil. }
  destruct (Hreq r) as [i ->]; [by apply elem_of_cons; left|].
  apply NoDup_cons in Hnd as [Hni Hnd].
  destruct (updStream_request f i s) as (S1 & I1 & E1 & L1 & C1 & K1 & X1 & R1 & LC1).
  set (s1 := updStream (RequestStream i) f s) in *.
  assert (requestStreamsOnly s1) as W1.
  { destruct Hwf as (A & B & C & D). unfold requestStreamsOnly.
    rewrite I1, E1, L1, S1. split_and!; try done.
    destruct (streams_ s !! i) as [st|] eqn:Hst; [|done].
    apply map_Forall_insert_2; [|done]. rewrite Hf. by apply (D i st). }
  destruct (IH Hnd (λ r Hr, Hreq r (proj2 (elem_of_cons _ _ _) (or_intror Hr))) s1 W1)
    as (S & W & C & K & X & R & LC).
  split_and!; try done; try congruence.
  - intros id. rewrite S, S1. unfold StreamId in *.
    destruct (decide (id = i)) as [->|Hne].
    + rewrite (bool_decide_eq_false_2 (RequestStream i ∈ L)) by done.
      rewrite (bool_decide_eq_true_2 (RequestStream i ∈ RequestStream i :: L))
        by (apply elem_of_cons; by left).
      destruct (streams_ s !! i) as [st|] eqn:Hst; [|by rewrite ?Hst].
      by rewrite lookup_insert_eq, ?Hst.
    + assert (bool_decide (RequestStream id ∈ RequestStream i :: L)
              = bool_decide (RequestStream id ∈ L)) as ->.
      { apply bool_decide_ext. rewrite elem_of_cons.
        split; [intros [?|?]; [congruence|done]|by right]. }
      assert ((if streams_ s !! i is Some st then <[i := f st]> (streams_ s)
               else streams_ s) !! id = streams_ s !! id) as ->; [|done].
      destruct (streams_ s !! i) as [st|]; [|done]. by rewrite lookup_insert_ne.
  - destruct LC as [LC|[LC Hk]]; destruct LC1 as [LC1|[LC1 Hk1]].
    + left. congruence.
    + right. split; [congruence|done].
    + right. split; [done|]. by rewrite <- K1.
    + right. split; [done|]. by rewrite <- K1.
Qed.

Lemma unreaped_empty_iff m :
  unreaped m = ∅ ↔ map_Forall (λ _ st, readyToDetach st = true) m.
Proof.
  rewrite map_empty. unfold map_Forall. split.
  - intros H id st Hst. specialize (H id). rewrite lookup_unreaped, Hst in H.
    cbn in H. by destruct (readyToDetach st).
  - intros H id. rewrite lookup_unreaped.
    destruct (m !! id) as [st|] eqn:Hst; [|done]. cbn. by rewrite (H id st Hst).
Qed.

(** After an error in both directions the stream has nothing buffered: it
    can be reaped as soon as its transaction has let go of it. *)
Lemma errorOnTransaction_err_ready err st :
  readyToDetach (errorOnTransaction_err err st)
    = detached_ st || txnDetachesOnError (txn_ st) ∧
  ingressStreamId_ (errorOnTransaction_err err st) = ingressStreamId_ st.
Proof.
  unfold errorOnTransaction_err, errorOnTransaction, txn_onError, readyToDetach.
  cbn. destruct st as [t ? ? ? ? d ? ? ? ? ? ? ? ? ?]; cbn.
  destruct d; cbn; [done|]. destruct t as [? ? ? ? de]; cbn. by destruct de.
Qed.

(** [checkForShutdown] on a session of request streams.  A stream is
    erased exactly when it is detached and has nothing buffered, to read
    or to write, no pending end of message and no place in the egress
    queue; the others stay as they are.  The session is destroyed, and its
    socket released, exactly when the drain is DONE (an upstream session
    of a dialect with a control stream goes there from PENDING at this
    point), no stream is left and no loop callback is scheduled. *)
Theorem checkForShutdown_reaps (s : HQSession) :
  requestStreamsOnly s →
  ∃ s', checkForShutdown s = Some s' ∧
    (∀ id st, streams_ s' !! id = Some st ↔
              streams_ s !! id = Some st ∧ readyToDetach st = false) ∧
    drainState_ s' = shutdownState s ∧
    (destroyed_ s = false →
     (destroyed_ s' = true ↔
      shutdownState s = DONE ∧ loopCallbackScheduled_ s = false ∧
      ∀ id st, streams_ s !! id = Some st → readyToDetach st = true) ∧
     (destroyed_ s' = true → sock_ s' = None) ∧
     (destroyed_ s' = false → (is_Some (sock_ s') ↔ is_Some (sock_ s)))) ∧
    bounds s' = bounds s ∧ dropping_ s' = dropping_ s ∧
    controlStreams_ s' = controlStreams_ s.
Proof.
  intros Hwf.
  destruct (checkForShutdown_request s Hwf)
    as (s' & E & S & W & D & X & K & B & P & N & C & L & R).
  exists s'. split; [exact E|]. split_and!; try done.
  - intros id st. rewrite S, lookup_unreaped.
    destruct (streams_ s !! id) as [st0|]; cbn; [|by split; [|intros [? _]]].
    destruct (readyToDetach st0) eqn:Hr; split.
    + done.
    + intros [[= ->] ?]. congruence.
    + by intros [= ->].
    + by intros [[= ->] _].
  - intros Hx. rewrite Hx, orb_false_r in X.
    assert (destroyed_ s' = true ↔
            shutdownState s = DONE ∧ loopCallbackScheduled_ s = false ∧
            ∀ id st, streams_ s !! id = Some st → readyToDetach st = true) as Hiff.
    { rewrite X, !andb_true_iff, !bool_decide_eq_true, negb_true_iff,
        unreaped_empty_iff. unfold map_Forall. tauto. }
    split; [exact Hiff|]. rewrite X. rewrite X in Hiff.
    destruct (bool_decide (shutdownState s = DONE) &&
              bool_decide (unreaped (streams_ s) = ∅) &&
              negb (loopCallbackScheduled_ s)); by split.
Qed.

Lemma dropConnectionWithError_request (err : ProxygenError) (s : HQSession) :
  requestStreamsOnly s → dropping_ s = false →
  (streams_ s ≠ ∅ → is_Some (sock_ s)) →
  (is_Some (dropConnectionWithError err s) ↔
   map_Forall (λ _ st, detachesOnDrop st) (streams_ s)) ∧
  ∀ s', dropConnectionWithError err s = Some s' →
    dropping_ s' = true ∧ drainState_ s' = DONE ∧ sock_ s' = None ∧
    streams_ s' = ∅ ∧ destroyed_ s' = true ∧ bounds s' = bounds s ∧
    requestStreamsOnly s' ∧ controlStreams_ s' = controlStreams_ s ∧
    dropInNextLoop_ s' = dropInNextLoop_ s ∧
    loopCallbackScheduled_ s' = false.
Proof.
  intros Hwf Hd Hk. unfold dropConnectionWithError. rewrite Hd.
  set (f := errorOnTransaction_err err).
  set (s1 := set_dropping true s).
  assert (requestStreamsOnly s1) as W1 by done.
  match goal with
  | |- context [(?m ≫= _)] =>
      assert (∃ s2, m = Some s2 ∧ streams_ s2 = f <$> streams_ s ∧
                requestStreamsOnly s2 ∧ sock_ s2 = None ∧ core s2 = core s1)
        as (s2 & -> & S2 & W2 & K2 & C2)
  end.
  { rewrite (numberOfStreams_requestOnly s1 W1).
    destruct (decide (streams_ s = ∅)) as [He|Hne].
    - rewrite bool_decide_eq_true_2 by done. eexists. split; [done|]. cbn.
      rewrite He, fmap_empty. by split_and!.
    - rewrite bool_decide_eq_false_2 by done.
      destruct (Hk Hne) as [k Ek]. cbn. rewrite Ek. cbn.
      set (s0 := set_sock None s1).
      assert (requestStreamsOnly s0) as W0 by done.
      rewrite (allStreams_requestOnly s0 W0).
      destruct (foldl_updStream_request f
                  (RequestStream <$> (map_to_list (streams_ s0)).*1) s0 W0)
        as (S & W & C & K & _).
      { apply NoDup_fmap_2; [by intros ? ? [=]|]. apply NoDup_fst_map_to_list. }
      { intros r Hr. apply list_elem_of_fmap in Hr as (i & -> & _). by eexists. }
      { intros st. apply errorOnTransaction_err_ready. }
      eexists. split; [done|]. split_and!; try done.
      apply map_eq. intros id. rewrite S, lookup_fmap. unfold StreamId in *.
      change (streams_ s0) with (streams_ s).
      destruct (streams_ s !! id) as [st|] eqn:Hst.
      + rewrite bool_decide_eq_true_2; [done|].
        apply list_elem_of_fmap. exists id. split; [done|].
        apply list_elem_of_fmap. exists (id, st). split; [done|].
        by apply elem_of_map_to_list.
      + by destruct (bool_decide (RequestStream id ∈ _)). }
  cbn.
  set (s2' := set_loopCallbackScheduled false (set_drainState DONE s2)).
  assert (requestStreamsOnly s2') as W2' by done.
  destruct (checkForShutdown_request s2' W2')
    as (s3 & E3 & S3 & W3 & D3 & X3 & K3 & B3 & P3 & N3 & C3 & L3 & R3).
  rewrite E3. cbn. rewrite (numberOfStreams_requestOnly s3 W3), S3.
  assert (shutdownState s2' = DONE) as Hsd.
  { unfold shutdownState. cbn. by rewrite andb_false_r. }
  rewrite Hsd in D3, X3, K3. cbn in *. rewrite andb_true_r in X3, K3.
  assert (unreaped (streams_ s2) = ∅ ↔
          map_Forall (λ _ st, detachesOnDrop st) (streams_ s)) as Hiff.
  { rewrite unreaped_empty_iff, S2, map_Forall_fmap. unfold map_Forall.
    split; intros H id st Hst; specialize (H id st Hst); cbn in *;
      unfold f, detachesOnDrop in *;
      rewrite (proj1 (errorOnTransaction_err_ready err st)) in *;
      [by apply orb_true_iff|by apply orb_true_iff]. }
  unfold core in C2. injection C2 as Dir2 V2 _ P2 CT2 I2 A2 RP2 DN2 RW2.
  destruct (bool_decide (unreaped (streams_ s2) = ∅)) eqn:Eu.
  - apply bool_decide_eq_true in Eu. split.
    + split; [intros _; by apply Hiff|by eauto].
    + intros s' [= <-]. rewrite B3, C3, N3. unfold bounds. cbn.
      split_and!; try done; try congruence.
  - apply bool_decide_eq_false in Eu. split.
    + split; [by intros [? ?]|]. intros H. by apply Hiff in H.
    + by intros s'.
Qed.

(** [dropConnectionWithError] on a session of request streams that is not
    being dropped yet.  It returns exactly when every transaction lets go
    of its stream on the error (the final [CHECK_EQ(numberOfStreams(), 0)]
    aborts the process otherwise); the session is then marked as
    dropping, its drain is DONE, the socket is released, no stream is
    left, and the session is destroyed.  The GOAWAY bounds are not
    touched. *)
Theorem dropConnectionWithError_drops (err : ProxygenError) (s : HQSession) :
  requestStreamsOnly s → dropping_ s = false →
  (streams_ s ≠ ∅ → is_Some (sock_ s)) →
  (is_Some (dropConnectionWithError err s) ↔
   map_Forall (λ _ st, detachesOnDrop st) (streams_ s)) ∧
  ∀ s', dropConnectionWithError err s = Some s' →
    dropping_ s' = true ∧ drainState_ s' = DONE ∧ sock_ s' = None ∧
    streams_ s' = ∅ ∧ destroyed_ s' = true ∧ bounds s' = bounds s.
Proof.
  intros Hwf Hd Hk.
  destruct (dropConnectionWithError_request err s Hwf Hd Hk) as [Hiff Hpost].
  split; [exact Hiff|]. intros s' E.
  destruct (Hpost s' E) as (? & ? & ? & ? & ? & ? & _). by split_and!.
Qed.

End Reap.
(** ** Dropping twice, and the examples of reaping and dropping *)

Section DropOnce.
Context `{codes : StreamTypeCodes}.

(** A drop is done once.  After [dropConnectionWithError] has returned the
    session is marked as dropping, and another drop, with whatever error,
    changes nothing.  The first drop leaves the drain DONE and no stream
    in the session. *)
Theorem dropConnectionWithError_once (err err' : ProxygenError) (s s' : HQSession) :
  dropConnectionWithError err s = Some s' →
  dropping_ s' = true ∧
  dropConnectionWithError err' s' = Some s' ∧
  (dropping_ s = false → drainState_ s' = DONE ∧ numberOfStreams s' = 0%nat).
Proof.
  unfold dropConnectionWithError at 1. intros H.
  destruct (dropping_ s) eqn:Hd.
  { injection H as <-. unfold dropConnectionWithError. by rewrite Hd. }
  apply bind_Some in H as (s2 & H2 & H). apply bind_Some in H as (s3 & H3 & H).
  destruct (bool_decide (numberOfStreams s3 = 0%nat)) eqn:Hn; [|done].
  injection H as <-. apply bool_decide_eq_true in Hn.
  assert (core s2 = core (set_dropping true s)) as C2.
  { destruct (bool_decide (numberOfStreams (set_dropping true s) = 0%nat));
      [by injection H2 as <-|].
    apply bind_Some in H2 as (k & _ & [= <-]).
    by rewrite (core_foldl_updStream (λ _, errorOnTransaction_err err)). }
  apply checkForShutdown_core in H3. cbn in H3.
  rewrite andb_false_r in H3. unfold core in H3, C2. cbn in H3, C2.
  injection H3 as _ _ D3 P3 _. injection C2 as _ _ _ P2 _.
  assert (dropping_ s3 = true) as P by congruence.
  split; [exact P|]. split; [|done].
  unfold dropConnectionWithError. by rewrite P.
Qed.

End DropOnce.

Section Examples_Drop.
#[local] Existing Instance exampleCodes.

Lemma servingDownstreamH3_requestStreamsOnly : requestStreamsOnly servingDownstreamH3.
Proof.
  split_and!; [vm_compute; reflexivity..|].
  apply map_Forall_to_list. vm_compute. repeat constructor.
Qed.

(** The downstream HTTP/3 session with the request streams 0, 8 and 16:
    none of them is detached, so [checkForShutdown] leaves them all. *)
Lemma checkForShutdown_reaps_witness :
  let s := servingDownstreamH3 in
  requestStreamsOnly s ∧
  ∃ s', checkForShutdown s = Some s' ∧
    dom (streams_ s') = {[0; 8; 16]} ∧ destroyed_ s' = false.
Proof.
  intros s. split; [exact servingDownstreamH3_requestStreamsOnly|].
  destruct (checkForShutdown_reaps s servingDownstreamH3_requestStreamsOnly)
    as (s' & E & S & _).
  exists s'. split; [exact E|].
  assert (Some s' = Some s) as Hs by (rewrite <- E; vm_compute; reflexivity).
  assert (s' = s) as -> by congruence.
  split; vm_compute; reflexivity.
Defined.

(** The same session is dropped: its three transactions detach on the
    error, and the session is destroyed. *)
Lemma dropConnectionWithError_drops_witness :
  let s := servingDownstreamH3 in
  requestStreamsOnly s ∧ dropping_ s = false ∧
  (streams_ s ≠ ∅ → is_Some (sock_ s)) ∧
  ∃ s', dropConnectionWithError kErrorDropped s = Some s' ∧
    dropping_ s' = true ∧ drainState_ s' = DONE ∧ sock_ s' = None ∧
    streams_ s' = ∅ ∧ destroyed_ s' = true.
Proof.
  intros s.
  assert (dropping_ s = false) as H2 by (vm_compute; reflexivity).
  assert (streams_ s ≠ ∅ → is_Some (sock_ s)) as H3
    by (intros _; vm_compute; eexists; reflexivity).
  split; [exact servingDownstreamH3_requestStreamsOnly|].
  split; [exact H2|]. split; [exact H3|].
  destruct (dropConnectionWithError_drops kErrorDropped s
              servingDownstreamH3_requestStreamsOnly H2 H3) as [_ H].
  destruct (dropConnectionWithError kErrorDropped s) as [s'|] eqn:E;
    [|vm_compute in E; discriminate E].
  exists s'. split; [reflexivity|].
  destruct (H s' eq_refl) as (? & ? & ? & ? & ? & _). by split_and!.
Defined.

Lemma dropConnectionWithError_once_witness :
  let s := servingDownstreamH3 in
  ∃ s', dropConnectionWithError kErrorDropped s = Some s' ∧
    dropping_ s' = true ∧
    dropConnectionWithError kErrorTimeout s' = Some s'.
Proof.
  intros s.
  destruct (dropConnectionWithError kErrorDropped s) as [s'|] eqn:E;
    [|vm_compute in E; discriminate E].
  exists s'. split; [reflexivity|].
  destruct (dropConnectionWithError_once kErrorDropped kErrorTimeout s s' E)
    as (H1 & H2 & _).
  split; [exact H1|exact H2].
Defined.

End Examples_Drop.
(** ** The idle timeout *)

Section Idle.
Context `{codes : StreamTypeCodes}.

Lemma aside_sock_call op s s' : sock_call op s = Some s' → aside s' = aside s.
Proof. unfold sock_call. intros; by simplify_option_eq. Qed.

Lemma aside_scheduleWrite s s' : scheduleWrite s = Some s' → aside s' = aside s.
Proof.
  unfold scheduleWrite. destruct (scheduledWrite_ s); intros H; [by simplify_eq|].
  by apply aside_sock_call in H.
Qed.

Lemma aside_ctrl_write type f s s' : ctrl_write type f s = Some s' → aside s' = aside s.
Proof. unfold ctrl_write. intros; by simplify_option_eq. Qed.

Lemma aside_GoawayUtils_sendGoaway env s s' :
  GoawayUtils_sendGoaway env s = Some s' → aside s' = aside s.
Proof.
  unfold GoawayUtils_sendGoaway. intros Hs.
  destruct (bool_decide (direction_ s = UPSTREAM)); [by simplify_eq|].
  destruct (bool_decide (drainState_ s = DONE)); [by simplify_eq|].
  destruct (negb _); [done|].
  apply bind_Some in Hs as (c & _ & Hs).
  apply bind_Some in Hs as (s1 & H1 & Hs).
  assert (aside s1 = aside s) as <-.
  { destruct (generated env =? 0); [by simplify_eq|]. by eapply aside_ctrl_write. }
  clear H1. apply bind_Some in Hs as (k & _ & Hs).
  destruct (writeOffset env), (writeBufferedBytes env); simplify_eq; try done.
  destruct (generated env =? 0); [by simplify_eq|].
  apply bind_Some in Hs as (s2 & H2 & Hs). apply aside_sock_call in H2. rewrite <- H2.
  destruct (negb (registered env)); [by simplify_eq|].
  apply bind_Some in Hs as (s3 & H3 & Hs). apply aside_scheduleWrite in H3.
  rewrite <- H3. destruct (bool_decide (drainState_ s3 = PENDING)); by simplify_eq.
Qed.

(** The idle timeout.  While the session has a stream the timeout does
    nothing.  On a session without streams that is not draining yet it
    starts the drain: a session of the first dialect, and an upstream
    session of any dialect, are DONE at once and destroyed, the socket
    released; a downstream session of a dialect with a control stream
    sends its first GOAWAY, with the largest stream id there is, and
    stays; a downstream session whose dialect is not known yet stays in
    PENDING. *)
Theorem timeoutExpired_idle (env : GoawayEnv) (s : HQSession) :
  requestStreamsOnly s →
  (streams_ s ≠ ∅ → timeoutExpired env s = Some s) ∧
  (streams_ s = ∅ → drainState_ s = NONE →
   loopCallbackScheduled_ s = false → destroyed_ s = false →
   cooperates env = true → is_Some (sock_ s) →
   (direction_ s = DOWNSTREAM → is_Some (version_ s) →
    version_ s ≠ Some H1Q_FB_V1 →
    is_Some (controlStreams_ s !! connControlType s)) →
   ∃ s', timeoutExpired env s = Some s' ∧
     if bool_decide (version_ s = Some H1Q_FB_V1) ||
        bool_decide (direction_ s = UPSTREAM)
     then drainState_ s' = DONE ∧ destroyed_ s' = true ∧ sock_ s' = None ∧
          goawaysSent s' = goawaysSent s
     else destroyed_ s' = false ∧ is_Some (sock_ s') ∧
          if version_ s is Some _
          then drainState_ s' = FIRST_GOAWAY ∧
               goawaysSent s' = goawaysSent s ++ [kEightByteLimit]
          else drainState_ s' = PENDING ∧ goawaysSent s' = goawaysSent s).
Proof.
  intros Hwf. unfold timeoutExpired.
  rewrite (numberOfStreams_requestOnly s Hwf). split.
  { intros Hne. by rewrite bool_decide_eq_false_2. }
  intros He Hd Hl Hx Henv Hk Hc. rewrite bool_decide_eq_true_2 by done. cbn.
  unfold closeWhenIdle, drainImpl. rewrite Hd. cbn.
  set (s0 := set_drainState PENDING s).
  assert (∃ s1, (if version_ s is Some _ then sendGoaway env s0 else Some s0) = Some s1 ∧
            aside s1 = aside s ∧ bounds s1 = bounds s ∧ is_Some (sock_ s1) ∧
            drainState_ s1 =
              (if version_ s is Some v
               then if bool_decide (v = H1Q_FB_V1) || bool_decide (direction_ s = UPSTREAM)
                    then PENDING else FIRST_GOAWAY
               else PENDING) ∧
            goawaysSent s1 = goawaysSent s ++
              (if version_ s is Some v
               then if bool_decide (v = H1Q_FB_V1) || bool_decide (direction_ s = UPSTREAM)
                    then [] else [kEightByteLimit]
               else []))
    as (s1 & E1 & A1 & B1 & K1 & D1 & G1).
  { destruct (version_ s) as [v|] eqn:Hv.
    2:{ exists s0. rewrite app_nil_r. split_and!; try done;
          unfold goawaysSent, connControlType; cbn; by rewrite Hv. }
    unfold sendGoaway. cbn. rewrite Hv. cbn.
    destruct v; cbn.
    - eexists. split; [done|]. rewrite app_nil_r.
      destruct Hwf as (A & B & C & D).
      unfold H1QFBV1_sendGoaway, aside. cbn. rewrite He, A, B, !fmap_empty.
      split_and!; try done;
          unfold goawaysSent, connControlType; cbn; by rewrite Hv.
    - destruct (direction_ s) eqn:Hdir; cbn.
      + destruct (GoawayUtils_sendGoaway_orderly env s0) as (s1 & E & D & G & B & K & _);
          try done.
        { by left. }
        { apply Hc; [done|by eauto|done]. }
        exists s1. split; [exact E|]. apply aside_GoawayUtils_sendGoaway in E.
        split_and!; try done.
      + exists s0. unfold GoawayUtils_sendGoaway. cbn. rewrite Hdir. cbn.
        rewrite app_nil_r. split_and!; try done;
          unfold goawaysSent, connControlType; cbn; by rewrite Hv.
    - destruct (direction_ s) eqn:Hdir; cbn.
      + destruct (GoawayUtils_sendGoaway_orderly env s0) as (s1 & E & D & G & B & K & _);
          try done.
        { by left. }
        { apply Hc; [done|by eauto|done]. }
        exists s1. split; [exact E|]. apply aside_GoawayUtils_sendGoaway in E.
        split_and!; try done.
      + exists s0. unfold GoawayUtils_sendGoaway. cbn. rewrite Hdir. cbn.
        rewrite app_nil_r. split_and!; try done;
          unfold goawaysSent, connControlType; cbn; by rewrite Hv. }
  rewrite (bool_decide_eq_true_2 (NONE = NONE)) by done. cbn [negb].
  rewrite E1. cbn [mbind option_bind].
  set (s2 := if bool_decide (version_ s1 = Some H1Q_FB_V1)
             then set_drainState DONE s1 else s1).
  pose proof (sameButSock_cleanupPendingStreams s2) as H3.
  set (s3 := cleanupPendingStreams s2) in *.
  apply sameButSock_fields in H3 as (S3 & I3 & P3 & L3 & B3 & K3).
  unfold beside, core in B3.
  injection B3 as Dir3 V3 D3 _ C3 _ _ _ _ _ _ _ LC3 _ X3.
  unfold aside in A1. injection A1 as S1 I1 P1 L1 LC1 X1 _.
  unfold bounds in B1. injection B1 as Dir1 V1 _.
  assert (streams_ s2 = streams_ s1 ∧ ingressPushStreams_ s2 = ingressPushStreams_ s1 ∧
          egressPushStreams_ s2 = egressPushStreams_ s1 ∧
          streamLookup_ s2 = streamLookup_ s1 ∧ version_ s2 = version_ s1 ∧
          direction_ s2 = direction_ s1 ∧ controlStreams_ s2 = controlStreams_ s1 ∧
          loopCallbackScheduled_ s2 = loopCallbackScheduled_ s1 ∧
          destroyed_ s2 = destroyed_ s1 ∧ sock_ s2 = sock_ s1 ∧
          drainState_ s2 = (if bool_decide (version_ s1 = Some H1Q_FB_V1)
                            then DONE else drainState_ s1))
    as (S2 & I2 & P2 & L2 & V2 & Dir2 & C2 & LC2 & X2 & K2 & D2).
  { subst s2. by destruct (bool_decide (version_ s1 = Some H1Q_FB_V1)). }
  assert (requestStreamsOnly s3) as W3.
  { destruct Hwf as (A & B & C & D). unfold requestStreamsOnly.
    rewrite I3, I2, I1, P3, P2, P1, L3, L2, L1, S3, S2, S1. done. }
  destruct (checkForShutdown_request s3 W3)
    as (s' & E & S & W & D & X & K & B & _ & _ & C & _).
  exists s'. split; [exact E|].
  assert (goawaysSent s' = goawaysSent s1) as G.
  { unfold bounds in B. injection B as _ V' _.
    unfold goawaysSent, connControlType. by rewrite C, C3, C2, V', V3, V2. }
  rewrite G, G1. clear G G1.
  assert (unreaped (streams_ s3) = ∅) as U.
  { rewrite S3, S2, S1, He. apply map_empty. intros i.
    by rewrite lookup_unreaped, lookup_empty. }
  rewrite U, LC3, LC2, LC1, Hl in X, K. rewrite X3, X2, X1, Hx in X. cbn in X, K.
  rewrite andb_true_r, orb_false_r in X. rewrite andb_true_r in K.
  unfold shutdownState in D, X, K.
  rewrite V3, Dir3, D3, V2, Dir2, D2, V1, Dir1, D1 in D, X, K.
  assert (is_Some (sock_ s3)) as K3' by (apply K3; by rewrite K2).
  clear E1 Hc.
  destruct (version_ s) as [[| |]|], (direction_ s); cbn in D, X, K |- *;
    rewrite ?app_nil_r; split_and!; try done; by apply K.
Qed.

End Idle.

Section Examples_Idle.
#[local] Existing Instance exampleCodes.

(** The downstream HTTP/3 session, idle: the timeout sends the first
    GOAWAY. *)
Lemma timeoutExpired_idle_witness :
  let s := the downstreamH3 in
  requestStreamsOnly s ∧
  ∃ s', timeoutExpired orderly s = Some s' ∧
    destroyed_ s' = false ∧ is_Some (sock_ s') ∧
    drainState_ s' = FIRST_GOAWAY ∧
    goawaysSent s' = goawaysSent s ++ [kEightByteLimit].
Proof.
  intros s.
  assert (requestStreamsOnly s) as Hwf.
  { split_and!; [vm_compute; reflexivity..|].
    apply map_Forall_to_list. vm_compute. constructor. }
  split; [exact Hwf|].
  destruct (timeoutExpired_idle orderly s Hwf) as [_ H].
  destruct H as (s' & E & H).
  - vm_compute; reflexivity.
  - vm_compute; reflexivity.
  - vm_compute; reflexivity.
  - vm_compute; reflexivity.
  - vm_compute; reflexivity.
  - vm_compute; eexists; reflexivity.
  - intros _ _ _. vm_compute; eexists; reflexivity.
  - exists s'. split; [exact E|].
    assert (version_ s = Some HQ) as Hv by (vm_compute; reflexivity).
    assert (direction_ s = DOWNSTREAM) as Hd by (vm_compute; reflexivity).
    rewrite Hv, Hd in H. exact H.
Defined.

End Examples_Idle.
(** ** A GOAWAY of the peer, and the open requests *)

Section GoawayStreams.
Context `{codes : StreamTypeCodes}.

Lemma findNonDetachedStream_request id s :
  requestStreamsOnly s →
  findNonDetachedStream id s =
  st ← streams_ s !! id; if detached_ st then None else Some (RequestStream id).
Proof.
  intros (A & B & C & D). unfold findNonDetachedStream, findStreamImpl.
  destruct (streams_ s !! id) as [st|] eqn:Hst; cbn.
  - rewrite Hst. cbn. by destruct (detached_ st).
  - unfold findIngressPushStream, findEgressPushStream. rewrite C, B. cbn.
    by rewrite lookup_empty.
Qed.

Lemma nonDetachedStreams_request s :
  requestStreamsOnly s →
  NoDup (nonDetachedStreams s) ∧
  (∀ r, r ∈ nonDetachedStreams s → ∃ id, r = RequestStream id) ∧
  (∀ id, RequestStream id ∈ nonDetachedStreams s ↔
         ∃ st, streams_ s !! id = Some st ∧ detached_ st = false).
Proof.
  intros Hwf. unfold nonDetachedStreams. split; [apply NoDup_remove_dups|].
  assert (∀ r, r ∈ remove_dups
                 (omap (λ id, findNonDetachedStream id s)
                    ((map_to_list (streams_ s)).*1 ++
                     (map_to_list (egressPushStreams_ s)).*1)) ↔
               ∃ id st, r = RequestStream id ∧ streams_ s !! id = Some st ∧
                        detached_ st = false) as H.
  { intros r. rewrite elem_of_remove_dups, list_elem_of_omap. split.
    - intros (id & _ & Hf). rewrite (findNonDetachedStream_request id s Hwf) in Hf.
      destruct (streams_ s !! id) as [st|] eqn:Hst; [|done]. cbn in Hf.
      destruct (detached_ st) eqn:Hd; [done|]. injection Hf as <-. by eauto.
    - intros (id & st & -> & Hst & Hd). exists id. split.
      + apply elem_of_app. left. apply list_elem_of_fmap. exists (id, st).
        split; [done|]. by apply elem_of_map_to_list.
      + rewrite (findNonDetachedStream_request id s Hwf), Hst. cbn. by rewrite Hd. }
  split.
  - intros r Hr. apply H in Hr as (id & _ & -> & _). by eauto.
  - intros id. rewrite H. split.
    + intros (id' & st & [= <-] & ?). by eauto.
    + intros (st & ?). by eauto.
Qed.

Lemma drainImpl_upstream env s :
  direction_ s = UPSTREAM → version_ s = Some H1Q_FB_V2 ∨ version_ s = Some HQ →
  drainImpl env s =
  Some (if bool_decide (drainState_ s = NONE) then set_drainState PENDING s else s).
Proof.
  intros Hd Hv. unfold drainImpl.
  destruct (bool_decide (drainState_ s = NONE)); cbn; [|done].
  unfold sendGoaway, GoawayUtils_sendGoaway. cbn.
  destruct Hv as [-> | ->]; cbn; by rewrite Hd.
Qed.

(** A GOAWAY of the server, on an upstream session of request streams.
    The bound becomes the smaller of the old bound and the id of the
    frame, a first GOAWAY takes the drain to FIRST_GOAWAY and a second one
    to DONE.  Every stream that is not detached is told of the GOAWAY; the
    transaction of a stream beyond the bound is then failed as
    unacknowledged, its buffers are dropped, and the stream is erased if
    the transaction lets go of it.  A stream within the bound goes on as
    it is.  A detached stream is told nothing. *)
Theorem onGoaway_fails_streams_beyond_bound (env : GoawayEnv) (lastGoodStreamID : Z)
  (s : HQSession) :
  direction_ s = UPSTREAM →
  version_ s = Some H1Q_FB_V2 ∨ version_ s = Some HQ →
  requestStreamsOnly s →
  let bound := Z.min (maxAllowedStreamId_ s) lastGoodStreamID in
  ∃ s', onGoaway env lastGoodStreamID s = Some s' ∧
    maxAllowedStreamId_ s' = bound ∧
    drainState_ s' = afterGoaway (drainState_ s) ∧
    ∀ id st, streams_ s !! id = Some st →
      if detached_ st
      then streams_ s' !! id = (if readyToDetach st then None else Some st)
      else if bound <? id
           then (txnDetachesOnError (txn_ st) = true → streams_ s' !! id = None) ∧
                (txnDetachesOnError (txn_ st) = false →
                 ∃ st', streams_ s' !! id = Some st' ∧
                   txnLog (txn_ st') =
                     txnLog (txn_ st) ++ [TxnOnGoaway; TxnOnError unacknowledged] ∧
                   readBuf_ st' = [] ∧ writeBuf_ st' = [] ∧ pendingEOM_ st' = false)
           else streams_ s' !! id = Some (set_txn (txn_do TxnOnGoaway (txn_ st)) st).
Proof.
  intros Hd Hv Hwf bound. unfold onGoaway.
  rewrite (bool_decide_eq_true_2 (direction_ s = UPSTREAM)) by done. cbn [negb].
  rewrite (bool_decide_eq_false_2 (version_ s = Some H1Q_FB_V1))
    by (destruct Hv as [-> | ->]; done).
  fold bound. set (s1 := set_maxAllowedStreamId bound s).
  rewrite (drainImpl_upstream env s1 Hd Hv). cbn [mbind option_bind].
  set (s2 := if bool_decide (drainState_ s1 = NONE) then set_drainState PENDING s1 else s1).
  assert (requestStreamsOnly s2 ∧ streams_ s2 = streams_ s ∧
          maxAllowedStreamId_ s2 = bound ∧ version_ s2 = version_ s ∧
          direction_ s2 = direction_ s ∧
          drainState_ s2 = (if bool_decide (drainState_ s = NONE) then PENDING
                            else drainState_ s))
    as (W2 & S2 & M2 & V2 & Dir2 & D2).
  { subst s2 s1. cbn. by destruct (bool_decide (drainState_ s = NONE)). }
  rewrite M2.
  set (g := λ st : HQStreamTransportBase,
         let st1 := set_txn (txn_do TxnOnGoaway (txn_ st)) st in
         match getStreamId st1 with
         | Some id => if bound <? id
                      then errorOnTransaction_err kErrorStreamUnacknowledged st1
                      else st1
         | None => st1
         end).
  destruct (nonDetachedStreams_request s2 W2) as (Hnd & Hreq & Hin).
  destruct (foldl_updStream_request g (nonDetachedStreams s2) s2 W2 Hnd Hreq)
    as (S3 & W3 & C3 & K3 & X3 & R3 & LC3).
  { intros st. unfold g. cbn. destruct (getStreamId _); [|by destruct st].
    destruct (bound <? _); [|by destruct st].
    rewrite (proj2 (errorOnTransaction_err_ready _ _)). by destruct st. }
  set (s3 := foldl (λ acc r, updStream r g acc) s2 (nonDetachedStreams s2)) in *.
  set (s4 := if bool_decide (drainState_ s3 = NONE) || bool_decide (drainState_ s3 = PENDING)
             then set_drainState FIRST_GOAWAY s3
             else if bool_decide (drainState_ s3 = FIRST_GOAWAY)
                  then set_drainState DONE s3 else s3).
  unfold core in C3. injection C3 as Dir3 V3 D3 _ _ _ M3 _.
  assert (requestStreamsOnly s4 ∧ streams_ s4 = streams_ s3 ∧
          maxAllowedStreamId_ s4 = bound ∧
          shutdownState s4 = afterGoaway (drainState_ s))
    as (W4 & S4 & M4 & D4).
  { assert (drainState_ s3 =
            (if bool_decide (drainState_ s = NONE) then PENDING else drainState_ s))
      as D3' by congruence.
    assert (requestStreamsOnly s4 ∧ streams_ s4 = streams_ s3 ∧
            maxAllowedStreamId_ s4 = maxAllowedStreamId_ s3 ∧
            version_ s4 = version_ s3 ∧ direction_ s4 = direction_ s3 ∧
            drainState_ s4 =
              (if bool_decide (drainState_ s3 = NONE) ||
                  bool_decide (drainState_ s3 = PENDING) then FIRST_GOAWAY
               else if bool_decide (drainState_ s3 = FIRST_GOAWAY) then DONE
                    else drainState_ s3))
      as (W4 & S4 & M4 & V4 & Dir4 & D4).
    { subst s4.
      destruct (bool_decide (drainState_ s3 = NONE) ||
                bool_decide (drainState_ s3 = PENDING)); [done|].
      by destruct (bool_decide (drainState_ s3 = FIRST_GOAWAY)). }
    split; [exact W4|]. split; [exact S4|]. split; [by rewrite M4, M3|].
    unfold shutdownState. rewrite D4, D3'.
    generalize (negb (bool_decide (version_ s4 = Some H1Q_FB_V1)) &&
                bool_decide (direction_ s4 = UPSTREAM)).
    clear. intros b. by destruct (drainState_ s), b. }
  destruct (checkForShutdown_request s4 W4)
    as (s' & E & S & _ & D & _ & _ & B & _).
  exists s'. split; [exact E|]. split.
  { unfold bounds in B. injection B as _ _ _ -> _. exact M4. }
  split; [by rewrite D|].
  intros id st Hst.
  assert (streams_ s' !! id =
          st3 ← (if detached_ st then Some st else Some (g st));
          if readyToDetach st3 then None else Some st3) as ->.
  { unfold StreamId in *. rewrite S, lookup_unreaped, S4, S3, S2, Hst. cbn.
    destruct (detached_ st) eqn:Hdet.
    - rewrite bool_decide_eq_false_2; [done|].
      rewrite Hin, S2. intros (st0 & Hst0 & Hd0). congruence.
    - rewrite bool_decide_eq_true_2; [done|]. rewrite Hin, S2. by eauto. }
  destruct (detached_ st) eqn:Hdet; cbn; [done|].
  pose proof (proj2 (proj2 (proj2 Hwf)) id st Hst) as Hid. cbn in Hid.
  set (st1 := set_txn (txn_do TxnOnGoaway (txn_ st)) st).
  assert (g st = if bound <? id
                 then errorOnTransaction_err kErrorStreamUnacknowledged st1
                 else st1) as ->.
  { unfold g. cbn. fold st1. unfold getStreamId.
    assert (ingressStreamId_ st1 = Some id) as -> by (subst st1; by destruct st).
    done. }
  assert (readyToDetach st1 = false) as R1.
  { unfold readyToDetach. subst st1. destruct st; cbn in *. by rewrite Hdet. }
  destruct (bound <? id); [|by rewrite R1].
  pose proof (errorOnTransaction_err_ready kErrorStreamUnacknowledged st1) as [R _].
  rewrite R.
  assert (detached_ st1 = false) as Dt1 by (subst st1; by destruct st).
  assert (txnDetachesOnError (txn_ st1) = txnDetachesOnError (txn_ st)) as ->
    by (subst st1; by destruct st).
  rewrite Dt1. cbn. split; [by intros ->|]. intros ->. eexists. split; [done|].
  unfold errorOnTransaction_err.
  destruct (errorOnTransaction_txn unacknowledged st1 Dt1) as (L & _).
  fold unacknowledged. rewrite L. split.
  { subst st1. destruct st as [t ? ? ? ? ? ? ? ? ? ? ? ? ? ?]; cbn.
    by rewrite <- app_assoc. }
  unfold errorOnTransaction. rewrite Dt1. cbn. by destruct (txn_onError _ _).
Qed.

End GoawayStreams.

Section Examples_GoawayStreams.
#[local] Existing Instance exampleCodes.

(** A GOAWAY with the id 4 on the upstream session with the requests 0, 4
    and 8: the request on stream 8 is failed and its stream erased, the
    request on stream 4 goes on. *)
Lemma onGoaway_fails_streams_beyond_bound_witness :
  let s := busyUpstreamH3 in
  direction_ s = UPSTREAM ∧
  (version_ s = Some H1Q_FB_V2 ∨ version_ s = Some HQ) ∧
  requestStreamsOnly s ∧
  ∃ s', onGoaway orderly 4 s = Some s' ∧
    maxAllowedStreamId_ s' = 4 ∧ drainState_ s' = FIRST_GOAWAY ∧
    streams_ s' !! 8 = None ∧
    (txnLog ∘ txn_ <$> streams_ s' !! 4) = Some [TxnSetHandler 2; TxnOnGoaway].
Proof.
  intros s.
  assert (direction_ s = UPSTREAM) as H1 by (vm_compute; reflexivity).
  assert (version_ s = Some H1Q_FB_V2 ∨ version_ s = Some HQ) as H2
    by (right; vm_compute; reflexivity).
  assert (requestStreamsOnly s) as H3.
  { split_and!; [vm_compute; reflexivity..|].
    apply map_Forall_to_list. vm_compute. repeat constructor. }
  split; [exact H1|]. split; [exact H2|]. split; [exact H3|].
  assert (Z.min (maxAllowedStreamId_ s) 4 = 4) as Hb by (vm_compute; reflexivity).
  assert (afterGoaway (drainState_ s) = FIRST_GOAWAY) as Hd
    by (vm_compute; reflexivity).
  destruct (onGoaway_fails_streams_beyond_bound orderly 4 s H1 H2 H3)
    as (s' & E & M & D & H).
  cbv zeta in M, H. rewrite Hb in M, H. rewrite Hd in D.
  exists s'. split; [exact E|]. split; [exact M|]. split; [exact D|].
  destruct (streams_ s !! 8) as [st8|] eqn:E8; [|by vm_compute in E8].
  destruct (streams_ s !! 4) as [st4|] eqn:E4; [|by vm_compute in E4].
  pose proof (H 8 st8 E8) as H8. pose proof (H 4 st4 E4) as H4.
  clear H E.
  vm_compute in E8. injection E8 as <-.
  vm_compute in E4. injection E4 as <-.
  cbv beta iota delta [detached_ txn_ txnDetachesOnError Z.ltb Z.compare
                       Pos.compare Pos.compare_cont] in H8, H4.
  split.
  - apply (proj1 H8). reflexivity.
  - rewrite H4. reflexivity.
Defined.

End Examples_GoawayStreams.
(** ** The transport is ready *)

Section Ready.
Context `{codes : StreamTypeCodes}.

(** The drop of a session without streams. *)
Lemma dropConnectionWithError_idle err s :
  requestStreamsOnly s → streams_ s = ∅ → dropping_ s = false →
  ∃ s', dropConnectionWithError err s = Some s' ∧
    dropping_ s' = true ∧ drainState_ s' = DONE ∧ sock_ s' = None ∧
    streams_ s' = ∅ ∧ destroyed_ s' = true ∧ bounds s' = bounds s ∧
    controlStreams_ s' = controlStreams_ s.
Proof.
  intros Hwf He Hd. unfold dropConnectionWithError. rewrite Hd.
  set (s1 := set_dropping true s).
  assert (requestStreamsOnly s1) as W1 by done.
  rewrite (numberOfStreams_requestOnly s1 W1).
  rewrite (bool_decide_eq_true_2 (streams_ s1 = ∅)) by done.
  cbn [mbind option_bind].
  set (s2 := set_loopCallbackScheduled false (set_drainState DONE (set_sock None s1))).
  assert (requestStreamsOnly s2) as W2 by done.
  destruct (checkForShutdown_request s2 W2)
    as (s3 & E3 & S3 & W3 & D3 & X3 & K3 & B3 & P3 & N3 & C3 & L3 & R3).
  rewrite E3. cbn [mbind option_bind].
  assert (unreaped (streams_ s2) = ∅) as U.
  { apply unreaped_empty_iff. change (streams_ s2) with (streams_ s). rewrite He.
    apply map_Forall_empty. }
  rewrite (numberOfStreams_requestOnly s3 W3), S3, U.
  rewrite bool_decide_eq_true_2 by done.
  assert (shutdownState s2 = DONE) as Hsd.
  { unfold shutdownState. cbn. by rewrite andb_false_r. }
  rewrite U, Hsd in X3, K3. cbn in X3, K3.
  exists s3. split_and!; try done; try congruence.
Qed.

Lemma createEgressControlStream_granted err type id s k :
  sock_ s = Some k → controlStreams_ s !! type = None →
  createEgressControlStream err type (Some id) s =
  Some (true, set_sock (Some (sock_do (OpSetControlStream id) k))
                (set_controlStreams
                   (<[type := openedControlStream type id []]> (controlStreams_ s)) s)).
Proof.
  intros Hk Hc. unfold createEgressControlStream. rewrite Hk. cbn [mbind option_bind].
  unfold UnidirectionalStreamType in *. rewrite Hc.
  by rewrite (sock_call_Some _ _ k).
Qed.

Lemma createEgressControlStream_refused err type s :
  is_Some (sock_ s) →
  createEgressControlStream err type None s =
  s1 ← dropConnectionWithError err s; Some (false, s1).
Proof. intros [k Hk]. unfold createEgressControlStream. by rewrite Hk. Qed.

Lemma scheduleWrite_Some s k :
  sock_ s = Some k →
  ∃ s', scheduleWrite s = Some s' ∧ scheduledWrite_ s' = true ∧
    sockLog s' = sockLog s ++
      (if scheduledWrite_ s then [] else [OpNotifyPendingWriteOnConnection]) ∧
    controlStreams_ s' = controlStreams_ s ∧ aside s' = aside s ∧
    bounds s' = bounds s ∧ drainState_ s' = drainState_ s ∧ is_Some (sock_ s').
Proof.
  intros Hk. unfold scheduleWrite. destruct (scheduledWrite_ s) eqn:Hw.
  - exists s. rewrite app_nil_r. by split_and!.
  - rewrite (sock_call_Some _ _ k) by done. eexists. split; [done|].
    unfold sockLog. cbn. rewrite Hk. by split_and!.
Qed.

Lemma createEgressControlStreams_granted err v id1 id2 id3 s :
  version_ s = Some v → controlStreams_ s = ∅ → is_Some (sock_ s) → distinctCodes →
  granted v id1 id2 id3 = true →
  let a := default 0 id1 in
  let b := default 0 id2 in
  let c := default 0 id3 in
  ∃ s', createEgressControlStreams err id1 id2 id3 s = Some (true, s') ∧
    (∀ t, controlStreams_ s' !! t = egressControlStreams v a b c t) ∧
    sockLog s' = sockLog s ++ egressControlOps v a b c (scheduledWrite_ s) ∧
    aside s' = aside s ∧ bounds s' = bounds s ∧
    drainState_ s' = drainState_ s ∧ is_Some (sock_ s').
Proof.
  intros Hv Hc [k Hk] (N1 & N2 & N3) Hg a b c. unfold createEgressControlStreams.
  rewrite Hv. cbn [mbind option_bind]. unfold UnidirectionalStreamType in *.
  destruct v; cbn in Hg;
    rewrite ?andb_true_iff, ?bool_decide_eq_true in Hg;
    [|destruct Hg as [a' ->]
     |destruct Hg as [[[a' ->] [b' ->]] [c' ->]]]; cbn in a, b, c.
  - exists s. rewrite app_nil_r. split_and!; try done; try (by rewrite Hk).
    intros t. by rewrite Hc, lookup_empty.
  - rewrite (createEgressControlStream_granted err _ a s k Hk)
      by (by rewrite Hc, lookup_empty).
    cbn [mbind option_bind negb].
    set (s1 := set_sock _ _).
    destruct (scheduleWrite_Some s1 (sock_do (OpSetControlStream a) k) eq_refl)
      as (s2 & E2 & W2 & L2 & C2 & A2 & B2 & D2 & K2).
    rewrite E2. cbn [mbind option_bind]. exists s2. split; [done|].
    split_and!; try done.
    + intros t. rewrite C2. subst s1. cbn. rewrite Hc.
      unfold egressControlStreams. case_bool_decide as Ht.
      * subst t. by rewrite lookup_insert_eq.
      * rewrite lookup_insert_ne by done. by rewrite lookup_empty.
    + rewrite L2. unfold sockLog. subst s1. cbn. rewrite Hk. cbn.
      by rewrite <- app_assoc.
  - rewrite (createEgressControlStream_granted err _ a s k Hk)
      by (by rewrite Hc, lookup_empty).
    cbn [mbind option_bind negb].
    set (k1 := sock_do (OpSetControlStream a) k).
    set (s1 := set_sock (Some k1) _).
    rewrite (createEgressControlStream_granted err _ b s1 k1 eq_refl).
    2:{ subst s1. cbn. rewrite Hc, lookup_insert_ne by done. apply lookup_empty. }
    cbn [mbind option_bind negb].
    set (k2 := sock_do (OpSetControlStream b) k1).
    set (s2 := set_sock (Some k2) _).
    rewrite (createEgressControlStream_granted err _ c s2 k2 eq_refl).
    2:{ subst s2 s1. cbn. rewrite Hc, !lookup_insert_ne by done. apply lookup_empty. }
    cbn [mbind option_bind negb].
    set (k3 := sock_do (OpSetControlStream c) k2).
    set (s3 := set_sock (Some k3) _).
    unfold ctrl_write, findControlStream.
    assert (controlStreams_ s3 !! CONTROL = Some (openedControlStream CONTROL a [])) as ->.
    { subst s3 s2 s1. cbn. rewrite Hc, !lookup_insert_ne by done.
      apply lookup_insert_eq. }
    cbn [mbind option_bind].
    set (s4 := set_controlStreams _ s3).
    destruct (scheduleWrite_Some s4 k3 eq_refl)
      as (s5 & E5 & W5 & L5 & C5 & A5 & B5 & D5 & [k5 K5]).
    rewrite E5. cbn [mbind option_bind].
    destruct (scheduleWrite_Some s5 k5 K5)
      as (s6 & E6 & W6 & L6 & C6 & A6 & B6 & D6 & K6).
    rewrite E6. cbn [mbind option_bind]. exists s6. split; [done|].
    split_and!; try done; try congruence.
    + intros t. rewrite C6, C5. subst s4 s3 s2 s1. cbn. rewrite Hc.
      unfold egressControlStreams.
      case_bool_decide as Ht1; [subst t; by rewrite lookup_insert_eq|].
      rewrite lookup_insert_ne by done.
      case_bool_decide as Ht2.
      { subst t. rewrite lookup_insert_ne by done. by rewrite lookup_insert_eq. }
      case_bool_decide as Ht3; [subst t; by rewrite lookup_insert_eq|].
      rewrite !lookup_insert_ne by done. apply lookup_empty.
    + rewrite L6, L5, W5, app_nil_r. unfold sockLog. subst s4 s3 s2 s1 k3 k2 k1.
      cbn. rewrite Hk. cbn. by rewrite <- !app_assoc.
    + by rewrite A6, A5.
    + by rewrite B6, B5.
    + by rewrite D6, D5.
Qed.

Lemma alpnVersion_alpnsOf a v : alpnVersion a = Some v ↔ a ∈ alpnsOf v.
Proof.
  split.
  - unfold alpnVersion. intros Ha.
    destruct (bool_decide (a = "h1q-fb")) eqn:E1;
      [apply bool_decide_eq_true in E1; injection Ha as <-; subst a;
       apply elem_of_cons; by left|].
    destruct (bool_decide (a = "h1q")) eqn:E2;
      [apply bool_decide_eq_true in E2; injection Ha as <-; subst a;
       apply elem_of_cons; right; apply elem_of_cons; by left|].
    destruct (bool_decide (a = "hq-20")) eqn:E3;
      [apply bool_decide_eq_true in E3; injection Ha as <-; subst a;
       do 2 (apply elem_of_cons; right); apply elem_of_cons; by left|].
    cbn in Ha.
    destruct (bool_decide (a = "h1q-fb-v2")) eqn:E4;
      [apply bool_decide_eq_true in E4; injection Ha as <-; subst a;
       apply elem_of_cons; by left|].
    destruct (bool_decide (a = "h3-fb-05")) eqn:E5;
      [apply bool_decide_eq_true in E5; injection Ha as <-; subst a;
       apply elem_of_cons; by left|].
    destruct (bool_decide (a = "h3-20")) eqn:E6; [|done].
    apply bool_decide_eq_true in E6. injection Ha as <-. subst a.
    apply elem_of_cons; right; apply elem_of_cons; by left.
  - intros Ha. destruct v; cbn in Ha;
      repeat (apply elem_of_cons in Ha as [->|Ha]; [by vm_compute|]);
      by apply elem_of_nil in Ha.
Qed.

Lemma getAndCheckApplicationProtocol_spec err alpn s :
  unready s →
  ∃ s', getAndCheckApplicationProtocol err alpn s
        = Some (bool_decide (is_Some (alpn ≫= alpnVersion)), s') ∧
    if alpn ≫= alpnVersion is Some v then s' = set_version (Some v) s
    else dropping_ s' = true ∧ drainState_ s' = DONE ∧ sock_ s' = None ∧
         destroyed_ s' = true ∧ version_ s' = None ∧ controlStreams_ s' = ∅.
Proof.
  intros (Hv & Hc & Hwf & He & Hd & [k Hk]). unfold getAndCheckApplicationProtocol.
  rewrite Hk. cbn [mbind option_bind]. unfold onConnectionError.
  destruct (dropConnectionWithError_idle err s Hwf He Hd)
    as (s' & E & P & D & K & S & X & B & C).
  destruct alpn as [a|]; cbn.
  - destruct (alpnVersion a) as [v|] eqn:Ha; cbn.
    + eexists. by split.
    + rewrite Hv, E. cbn. exists s'.
      split; [done|]. unfold bounds in B. injection B as _ V _.
      split_and!; try done; congruence.
  - rewrite E. cbn. exists s'.
    split; [done|]. unfold bounds in B. injection B as _ V _.
    split_and!; try done; congruence.
Qed.

(** A refusal of the socket: the connection is dropped, on the session as
    it is by then. *)
Lemma createEgressControlStreams_refused err v id1 id2 id3 s :
  version_ s = Some v → controlStreams_ s = ∅ → is_Some (sock_ s) → distinctCodes →
  requestStreamsOnly s → streams_ s = ∅ → dropping_ s = false →
  granted v id1 id2 id3 = false →
  ∃ s', createEgressControlStreams err id1 id2 id3 s = Some (false, s') ∧
    dropping_ s' = true ∧ drainState_ s' = DONE ∧ sock_ s' = None ∧
    destroyed_ s' = true ∧ version_ s' = Some v.
Proof.
  intros Hv Hc [k Hk] (N1 & N2 & N3) Hwf He Hd Hg. unfold createEgressControlStreams.
  rewrite Hv. cbn [mbind option_bind]. unfold UnidirectionalStreamType in *.
  assert (∀ x, requestStreamsOnly x → streams_ x = ∅ → dropping_ x = false →
               version_ x = Some v →
               ∃ s', dropConnectionWithError err x = Some s' ∧
                 dropping_ s' = true ∧ drainState_ s' = DONE ∧ sock_ s' = None ∧
                 destroyed_ s' = true ∧ version_ s' = Some v) as Hdrop.
  { intros x Wx Ex Dx Vx.
    destruct (dropConnectionWithError_idle err x Wx Ex Dx)
      as (s' & E & P & D & K & S & X & B & C).
    exists s'. unfold bounds in B. injection B as _ V _.
    split_and!; try done; congruence. }
  destruct v; cbn in Hg; [done| |].
  - apply bool_decide_eq_false in Hg. destruct id1 as [a|]; [by destruct Hg; eauto|].
    rewrite createEgressControlStream_refused by eauto.
    destruct (Hdrop s Hwf He Hd Hv) as (s' & E & H). rewrite E. cbn. by exists s'.
  - destruct id1 as [a|].
    2:{ rewrite createEgressControlStream_refused by eauto.
        destruct (Hdrop s Hwf He Hd Hv) as (s' & E & H). rewrite E. cbn.
        by exists s'. }
    rewrite (createEgressControlStream_granted err _ a s k Hk)
      by (by rewrite Hc, lookup_empty).
    cbn [mbind option_bind negb].
    set (k1 := sock_do (OpSetControlStream a) k).
    set (s1 := set_sock (Some k1) _).
    destruct id2 as [b|].
    2:{ rewrite createEgressControlStream_refused by (by eexists).
        destruct (Hdrop s1) as (s' & E & H); try done. rewrite E. cbn. by exists s'. }
    rewrite (createEgressControlStream_granted err _ b s1 k1 eq_refl).
    2:{ subst s1. cbn. rewrite Hc, lookup_insert_ne by done. apply lookup_empty. }
    cbn [mbind option_bind negb].
    set (k2 := sock_do (OpSetControlStream b) k1).
    set (s2 := set_sock (Some k2) _).
    destruct id3 as [c|].
    { exfalso. rewrite !bool_decide_eq_true_2 in Hg by eauto. done. }
    rewrite createEgressControlStream_refused by (by eexists).
    destruct (Hdrop s2) as (s' & E & H); try done. rewrite E. cbn. by exists s'.
Qed.

Lemma onTransportReadyCommon_granted err alpn v id1 id2 id3 env s :
  unready s → distinctCodes →
  alpn ≫= alpnVersion = Some v → granted v id1 id2 id3 = true →
  let a := default 0 id1 in
  let b := default 0 id2 in
  let c := default 0 id3 in
  ∃ s3,
    onTransportReadyCommon err alpn id1 id2 id3 env s =
      (s4 ← (if bool_decide (drainState_ s = PENDING) then sendGoaway env s3
             else Some s3);
       Some (true, s4)) ∧
    version_ s3 = Some v ∧
    (∀ t, controlStreams_ s3 !! t = egressControlStreams v a b c t) ∧
    sockLog s3 = sockLog s ++ egressControlOps v a b c (scheduledWrite_ s) ∧
    aside s3 = aside s ∧ drainState_ s3 = drainState_ s ∧
    direction_ s3 = direction_ s ∧ is_Some (sock_ s3).
Proof.
  intros Hu Hdc Ha Hg a b c. unfold onTransportReadyCommon.
  destruct (getAndCheckApplicationProtocol_spec err alpn s Hu) as (s1 & E1 & H1).
  rewrite E1, Ha in *. cbn [mbind option_bind]. subst s1.
  rewrite bool_decide_eq_true_2 by eauto. cbn [negb].
  destruct Hu as (Hv & Hc & Hwf & He & Hd & Hk).
  set (s1 := set_version (Some v) s).
  destruct (createEgressControlStreams_granted err v id1 id2 id3 s1)
    as (s3 & E3 & C3 & L3 & A3 & B3 & D3 & K3); try done.
  rewrite E3. cbn [mbind option_bind negb]. rewrite D3.
  exists s3. split; [done|]. unfold bounds in B3. injection B3 as Dir3 V3 _.
  by split_and!.
Qed.

(** The transport is ready, on a session that was not asked to drain.
    With an ALPN string of a dialect, and the unidirectional streams the
    dialect needs granted by the socket, the session takes the dialect and
    opens its egress control streams, each with its preface: none for
    h1q-fb-v1, the H1Q control stream for h1q-fb-v2, and for HTTP/3 the
    control stream, on which SETTINGS follows the preface, and the two
    QPACK streams.  Each is marked as a control stream on the socket, and
    one write is requested.  Nothing else changes. *)
Theorem transport_ready_opens_control_streams (err : ProxygenError) (a : string)
  (v : HQVersion) (id1 id2 id3 : StreamId) (env : GoawayEnv) (s : HQSession) :
  unready s → distinctCodes → drainState_ s = NONE → a ∈ alpnsOf v →
  ∃ s',
    onTransportReadyCommon err (Some a) (Some id1) (Some id2) (Some id3) env s
      = Some (true, s') ∧
    version_ s' = Some v ∧
    (∀ t, controlStreams_ s' !! t = egressControlStreams v id1 id2 id3 t) ∧
    sockLog s' = sockLog s ++ egressControlOps v id1 id2 id3 (scheduledWrite_ s) ∧
    drainState_ s' = NONE ∧ aside s' = aside s.
Proof.
  intros Hu Hdc Hd Ha. apply alpnVersion_alpnsOf in Ha.
  destruct (onTransportReadyCommon_granted err (Some a) v (Some id1) (Some id2)
              (Some id3) env s Hu Hdc Ha)
    as (s3 & E & V & C & L & A & D & _).
  { destruct v; cbn; by rewrite ?bool_decide_eq_true_2 by eauto. }
  rewrite Hd in E. cbn in E. exists s3. split; [exact E|].
  split_and!; try done. by rewrite D.
Qed.

(** The transport-ready step succeeds exactly when the ALPN string is
    that of a dialect and the socket grants the unidirectional streams the
    dialect asks for.  When it fails, for a missing or unknown ALPN or for
    a refused stream, the connection has been dropped: the session is
    marked as dropping, its drain is DONE, the socket is released and the
    session is destroyed. *)
Theorem transport_ready_failure_drops (err : ProxygenError) (alpn : option string)
  (id1 id2 id3 : option StreamId) (env : GoawayEnv) (s : HQSession) :
  unready s → distinctCodes → drainState_ s = NONE →
  ∃ ok s',
    onTransportReadyCommon err alpn id1 id2 id3 env s = Some (ok, s') ∧
    (ok = true ↔
     ∃ a v, alpn = Some a ∧ a ∈ alpnsOf v ∧ granted v id1 id2 id3 = true) ∧
    (ok = false →
     dropping_ s' = true ∧ drainState_ s' = DONE ∧ sock_ s' = None ∧
     destroyed_ s' = true).
Proof.
  intros Hu Hdc Hd.
  destruct (alpn ≫= alpnVersion) as [v|] eqn:Ha.
  - destruct (granted v id1 id2 id3) eqn:Hg.
    + destruct (onTransportReadyCommon_granted err alpn v id1 id2 id3 env s Hu Hdc Ha Hg)
        as (s3 & E & _).
      rewrite Hd in E. cbn in E. exists true, s3. split; [exact E|]. split; [|done].
      split; [intros _|done]. destruct alpn as [a|]; [|done]. cbn in Ha.
      exists a, v. by rewrite <- alpnVersion_alpnsOf.
    + unfold onTransportReadyCommon.
      destruct (getAndCheckApplicationProtocol_spec err alpn s Hu) as (s1 & E1 & H1).
      rewrite E1, Ha in *. cbn [mbind option_bind]. subst s1.
      rewrite bool_decide_eq_true_2 by eauto. cbn [negb].
      destruct Hu as (Hv & Hc & Hwf & He & Hdr & Hk).
      destruct (createEgressControlStreams_refused err v id1 id2 id3
                  (set_version (Some v) s))
        as (s' & E & P & D & K & X & _); try done.
      rewrite E. cbn. exists false, s'. split; [done|]. split; [|done].
      split; [done|]. intros (a & v' & -> & Hin & Hg').
      apply alpnVersion_alpnsOf in Hin. cbn in Ha. congruence.
  - unfold onTransportReadyCommon.
    destruct (getAndCheckApplicationProtocol_spec err alpn s Hu) as (s1 & E1 & H1).
    rewrite E1, Ha in *. cbn [mbind option_bind].
    rewrite bool_decide_eq_false_2 by (by intros [? ?]). cbn.
    exists false, s1. split; [done|]. split.
    + split; [done|]. intros (a & v' & -> & Hin & _).
      apply alpnVersion_alpnsOf in Hin. cbn in Ha. congruence.
    + intros _. by destruct H1 as (? & ? & ? & ? & _).
Qed.

(** A drain requested before the transport is ready.  The request leaves
    the session in PENDING, the dialect being unknown; when the transport
    becomes ready the GOAWAY logic is kicked: a downstream session of a
    dialect with a control stream sends its first GOAWAY, with the largest
    stream id there is, right after it has opened its control streams,
    and is in FIRST_GOAWAY; any other session stays in PENDING and sends
    nothing. *)
Theorem drain_requested_before_ready (err : ProxygenError) (a : string)
  (v : HQVersion) (id1 id2 id3 : StreamId) (env0 env : GoawayEnv) (s : HQSession) :
  unready s → distinctCodes → drainState_ s = NONE →
  cooperates env = true → a ∈ alpnsOf v →
  ∃ s1 s',
    notifyPendingShutdown env0 s = Some s1 ∧ drainState_ s1 = PENDING ∧
    version_ s1 = None ∧
    onTransportReadyCommon err (Some a) (Some id1) (Some id2) (Some id3) env s1
      = Some (true, s') ∧
    version_ s' = Some v ∧
    if bool_decide (direction_ s = DOWNSTREAM) && negb (bool_decide (v = H1Q_FB_V1))
    then drainState_ s' = FIRST_GOAWAY ∧ goawaysSent s' = [kEightByteLimit]
    else drainState_ s' = PENDING ∧ goawaysSent s' = [].
Proof.
  intros Hu Hdc Hd Henv Ha. apply alpnVersion_alpnsOf in Ha.
  pose proof Hu as (Hv & Hc & Hwf & He & Hdr & Hk).
  unfold notifyPendingShutdown, drainImpl. rewrite Hd. cbn. rewrite Hv.
  set (s1 := set_drainState PENDING s).
  assert (unready s1) as Hu1 by done.
  exists s1.
  destruct (onTransportReadyCommon_granted err (Some a) v (Some id1) (Some id2)
              (Some id3) env s1 Hu1 Hdc Ha)
    as (s3 & E & V & C & L & A & D & Dir & K).
  { destruct v; cbn; by rewrite ?bool_decide_eq_true_2 by eauto. }
  cbn in E, C, D, Dir.
  rewrite E. clear E.
  assert (goawaysSent s3 = []) as G3.
  { unfold goawaysSent. rewrite C. unfold egressControlStreams, connControlType.
    rewrite V. destruct v; cbn; [done| |].
    - by rewrite bool_decide_eq_true_2.
    - by rewrite bool_decide_eq_true_2. }
  unfold sendGoaway. rewrite V. cbn [mbind option_bind].
  destruct v.
  - eexists. split_and!; try done. rewrite andb_false_r. split; [done|].
    unfold goawaysSent, connControlType in *. by destruct s3.
  - destruct (direction_ s) eqn:Hdir.
    + destruct (GoawayUtils_sendGoaway_orderly env s3) as (s4 & E4 & D4 & G4 & B4 & _);
        try done.
      { by left. }
      { unfold connControlType. rewrite V, C. cbn. rewrite !bool_decide_eq_true_2 by done.
        by eexists. }
      rewrite E4. cbn. exists s4. unfold bounds in B4. injection B4 as _ V4 _.
      split_and!; try done; try congruence.
      rewrite (bool_decide_eq_true_2 (DOWNSTREAM = DOWNSTREAM)) by done.
      rewrite (bool_decide_eq_false_2 (_ = H1Q_FB_V1)) by done. cbn [negb andb].
      split; [by rewrite D4, D|].
      rewrite G4, G3. unfold getGoawayStreamId. by rewrite D.
    + unfold GoawayUtils_sendGoaway. rewrite Dir. cbn. exists s3.
      split_and!; try done.
  - destruct (direction_ s) eqn:Hdir.
    + destruct (GoawayUtils_sendGoaway_orderly env s3) as (s4 & E4 & D4 & G4 & B4 & _);
        try done.
      { by left. }
      { unfold connControlType. rewrite V, C. cbn. rewrite !bool_decide_eq_true_2 by done.
        by eexists. }
      rewrite E4. cbn. exists s4. unfold bounds in B4. injection B4 as _ V4 _.
      split_and!; try done; try congruence.
      rewrite (bool_decide_eq_true_2 (DOWNSTREAM = DOWNSTREAM)) by done.
      rewrite (bool_decide_eq_false_2 (_ = H1Q_FB_V1)) by done. cbn [negb andb].
      split; [by rewrite D4, D|].
      rewrite G4, G3. unfold getGoawayStreamId. by rewrite D.
    + unfold GoawayUtils_sendGoaway. rewrite Dir. cbn. exists s3.
      split_and!; try done.
Qed.

End Ready.

Section Examples_Ready.
#[local] Existing Instance exampleCodes.

Lemma newSession_unready direction : unready (newSession direction newSocket).
Proof.
  unfold unready, requestStreamsOnly. cbn.
  split_and!; try done; try apply map_Forall_empty; by eexists.
Qed.

Lemma exampleCodes_distinct : distinctCodes.
Proof. by split_and!. Qed.

Lemma h3_20_is_HQ : "h3-20" ∈ alpnsOf HQ.
Proof. apply elem_of_cons; right; apply elem_of_cons; by left. Qed.

(** A downstream session whose transport comes up with the ALPN "h3-20"
    and the unidirectional streams 3, 7 and 11. *)
Lemma transport_ready_opens_control_streams_witness :
  let s := newSession DOWNSTREAM newSocket in
  unready s ∧ distinctCodes ∧ drainState_ s = NONE ∧ "h3-20" ∈ alpnsOf HQ ∧
  ∃ s',
    onTransportReadyCommon kErrorConnect (Some "h3-20") (Some 3) (Some 7) (Some 11)
      orderly s = Some (true, s') ∧
    version_ s' = Some HQ ∧
    sockLog s' = [OpSetControlStream 3; OpSetControlStream 7; OpSetControlStream 11;
                  OpNotifyPendingWriteOnConnection] ∧
    (ctrlWritten <$> controlStreams_ s' !! CONTROL) = Some [FrPreface CONTROL; FrSettings].
Proof.
  intros s.
  split; [apply newSession_unready|]. split; [exact exampleCodes_distinct|].
  split; [reflexivity|]. split; [exact h3_20_is_HQ|].
  destruct (transport_ready_opens_control_streams kErrorConnect "h3-20" HQ 3 7 11
              orderly s (newSession_unready DOWNSTREAM) exampleCodes_distinct eq_refl
              h3_20_is_HQ) as (s' & E & V & C & L & _).
  exists s'. split; [exact E|]. split; [exact V|]. split; [exact L|].
  rewrite (C CONTROL). reflexivity.
Defined.

(** The same session, when the socket refuses the second unidirectional
    stream: the connection is dropped. *)
Lemma transport_ready_failure_drops_witness :
  let s := newSession DOWNSTREAM newSocket in
  unready s ∧ distinctCodes ∧ drainState_ s = NONE ∧
  ∃ s',
    onTransportReadyCommon kErrorConnect (Some "h3-20") (Some 3) None (Some 11)
      orderly s = Some (false, s') ∧
    dropping_ s' = true ∧ drainState_ s' = DONE ∧ sock_ s' = None ∧
    destroyed_ s' = true.
Proof.
  intros s.
  split; [apply newSession_unready|]. split; [exact exampleCodes_distinct|].
  split; [reflexivity|].
  destruct (transport_ready_failure_drops kErrorConnect (Some "h3-20") (Some 3) None
              (Some 11) orderly s (newSession_unready DOWNSTREAM)
              exampleCodes_distinct eq_refl) as (ok & s' & E & Hok & Hdrop).
  destruct ok.
  - exfalso. destruct (proj1 Hok eq_refl) as (a & v & [= <-] & Hin & Hg).
    destruct v; cbn in Hin, Hg.
    + repeat (apply elem_of_cons in Hin as [Hin|Hin]; [discriminate Hin|]).
      by apply elem_of_nil in Hin.
    + repeat (apply elem_of_cons in Hin as [Hin|Hin]; [discriminate Hin|]).
      by apply elem_of_nil in Hin.
    + discriminate Hg.
  - exists s'. split; [exact E|]. by apply Hdrop.
Defined.

(** The same session, asked to drain before its transport is ready. *)
Lemma drain_requested_before_ready_witness :
  let s := newSession DOWNSTREAM newSocket in
  unready s ∧ distinctCodes ∧ drainState_ s = NONE ∧ cooperates orderly = true ∧
  "h3-20" ∈ alpnsOf HQ ∧
  ∃ s',
    run [Drain orderly;
         TransportReady kErrorConnect (Some "h3-20") (Some 3) (Some 7) (Some 11) orderly]
      s = Some s' ∧
    drainState_ s' = FIRST_GOAWAY ∧ goawaysSent s' = [kEightByteLimit].
Proof.
  intros s.
  split; [apply newSession_unready|]. split; [exact exampleCodes_distinct|].
  split; [reflexivity|]. split; [reflexivity|]. split; [exact h3_20_is_HQ|].
  destruct (drain_requested_before_ready kErrorConnect "h3-20" HQ 3 7 11 orderly
              orderly s (newSession_unready DOWNSTREAM) exampleCodes_distinct eq_refl
              eq_refl h3_20_is_HQ) as (s1 & s' & E1 & D1 & V1 & E & V & H).
  exists s'. split.
  - cbn [run step]. rewrite E1. cbn [mbind option_bind]. rewrite V1.
    unfold StreamId in *. rewrite E. reflexivity.
  - exact H.
Defined.

End Examples_Ready.
(** ** Errors on control streams, and STOP_SENDING *)

Section SessionErrorsProps.
Context `{codes : StreamTypeCodes}.

Lemma shouldDrop_quicControlStreamError noError error :
  shouldDrop noError (quicControlStreamError error) = shouldDrop noError error.
Proof. by destruct error. Qed.

(** The loop callback of a session that is due to be dropped. *)
Lemma runLoopCallback_drops codec c pe s :
  dropInNextLoop_ s = Some (c, pe) →
  requestStreamsOnly s → dropping_ s = false →
  (streams_ s ≠ ∅ → is_Some (sock_ s)) →
  map_Forall (λ _ st, detachesOnDrop st) (streams_ s) →
  ∃ s', runLoopCallback codec s = Some s' ∧
    dropping_ s' = true ∧ drainState_ s' = DONE ∧ sock_ s' = None ∧
    streams_ s' = ∅ ∧ destroyed_ s' = true.
Proof.
  intros Hn Hwf Hd Hk Hall. unfold runLoopCallback.
  set (s0 := set_loopCallbackScheduled false s).
  change (dropInNextLoop_ s0) with (dropInNextLoop_ s). rewrite Hn.
  destruct (dropConnectionWithError_request pe s0) as [Hiff Hpost]; try done.
  destruct (proj2 Hiff Hall) as [s2 E2]. rewrite E2. cbn [mbind option_bind].
  destruct (Hpost s2 E2) as (P2 & D2 & K2 & S2 & X2 & B2 & W2 & C2 & N2 & L2).
  destruct (checkForShutdown_request s2 W2)
    as (s3 & E3 & S3 & W3 & D3 & X3 & K3 & B3 & P3 & _).
  exists s3. split; [exact E3|].
  assert (shutdownState s2 = DONE) as Hsd.
  { unfold shutdownState. rewrite D2. by rewrite andb_false_r. }
  rewrite X2, orb_true_r in X3. rewrite Hsd in D3.
  split_and!; try done; try congruence.
  - destruct (bool_decide (shutdownState s2 = DONE) && _ && _); [done|].
    destruct (sock_ s3) eqn:E; [|done]. rewrite K2 in K3.
    by destruct (proj1 K3 (mk_is_Some _ _ eq_refl)).
  - rewrite S3, S2. apply unreaped_empty_iff, map_Forall_empty.
Qed.

(** A read error on a control stream (the peer reset it, or the transport
    failed).  An error for a stream that is no control stream is ignored,
    and so are the errors the socket reports when it closes without
    error.  Any other error is a connection error of the kind
    HTTP_CLOSED_CRITICAL_STREAM, whatever code the peer gave; it is kept
    for the next loop callback, which is scheduled, and the session is
    left as it is until then.  A connection error that is already waiting
    is not replaced.  The next loop callback drops the connection. *)
Theorem control_stream_error_closes_critical (noError : Z) (pe : ProxygenError)
  (id : StreamId) (error : QuicErrorCode) (codec : CodecEnv) (s : HQSession) :
  ∃ s1, controlStreamReadError noError pe id error s = Some s1 ∧
    (findControlStreamById id s = None ∨ shouldDrop noError error = false ∨
     is_Some (dropInNextLoop_ s) → s1 = s) ∧
    (is_Some (findControlStreamById id s) → shouldDrop noError error = true →
     dropInNextLoop_ s = None →
     dropInNextLoop_ s1 = Some (HTTP_CLOSED_CRITICAL_STREAM, pe) ∧
     (is_Some (sock_ s) → loopCallbackScheduled_ s1 = true) ∧
     streams_ s1 = streams_ s ∧ sock_ s1 = sock_ s ∧
     drainState_ s1 = drainState_ s ∧ dropping_ s1 = dropping_ s ∧
     (requestStreamsOnly s → dropping_ s = false →
      (streams_ s ≠ ∅ → is_Some (sock_ s)) →
      map_Forall (λ _ st, detachesOnDrop st) (streams_ s) →
      ∃ s2, runLoopCallback codec s1 = Some s2 ∧
        dropping_ s2 = true ∧ drainState_ s2 = DONE ∧ sock_ s2 = None ∧
        streams_ s2 = ∅ ∧ destroyed_ s2 = true)).
Proof.
  unfold controlStreamReadError.
  destruct (findControlStreamById id s) as [type|] eqn:Hf.
  2:{ exists s. split; [done|]. split; [done|]. by intros [? ?]. }
  unfold handleSessionError. cbn [mbind option_bind].
  rewrite shouldDrop_quicControlStreamError.
  destruct (shouldDrop noError error) eqn:Hs; cbn [negb].
  2:{ exists s. split; [done|]. split; [done|]. done. }
  destruct (dropInNextLoop_ s) as [x|] eqn:Hn.
  { exists s. split; [done|]. split; [done|]. done. }
  eexists. split; [done|]. split.
  { intros [?|[?|[? ?]]]; done. }
  intros _ _ _.
  assert ((if true && bool_decide
                 (match quicControlStreamError error with
                  | ApplicationErrorCode e => e
                  | _ => HTTP_NO_ERROR
                  end = HTTP_NO_ERROR)
           then HTTP_CLOSED_CRITICAL_STREAM
           else match quicControlStreamError error with
                | ApplicationErrorCode e => e
                | _ => HTTP_NO_ERROR
                end) = HTTP_CLOSED_CRITICAL_STREAM) as ->
    by (by destruct error).
  set (s0 := set_dropInNextLoop (Some (HTTP_CLOSED_CRITICAL_STREAM, pe)) s).
  pose proof (core_scheduleLoopCallback true s0) as C.
  pose proof (tables_scheduleLoopCallback true s0) as [T K].
  unfold core in C. injection C as _ _ D P _ _ _ _ N _.
  unfold tables in T. injection T as S I E L _ _.
  split; [by rewrite N|]. split.
  { intros [k Hk]. unfold scheduleLoopCallback.
    destruct (loopCallbackScheduled_ s0) eqn:El; [done|].
    change (sock_ s0) with (sock_ s). by rewrite Hk. }
  split; [by rewrite S|]. split; [by rewrite K|]. split; [by rewrite D|].
  split; [by rewrite P|].
  intros Hwf Hd Hk Hall.
  apply (runLoopCallback_drops codec HTTP_CLOSED_CRITICAL_STREAM pe).
  - by rewrite N.
  - unfold requestStreamsOnly. by rewrite S, I, E, L.
  - by rewrite P.
  - by rewrite S, K.
  - by rewrite S.
Qed.

End SessionErrorsProps.

Section StopSending.
Context `{codes : StreamTypeCodes}.

Lemma errorOnTransaction_both_clears ex st :
  exDirection ex = INGRESS_AND_EGRESS →
  readBuf_ (errorOnTransaction ex st) = [] ∧
  writeBuf_ (errorOnTransaction ex st) = [] ∧
  pendingEOM_ (errorOnTransaction ex st) = false ∧
  ingressError_ (errorOnTransaction ex st) = true.
Proof.
  intros Hd. unfold errorOnTransaction, isIngressException, isEgressException.
  rewrite Hd. by destruct (if detached_ st then st else txn_onError ex st).
Qed.

(** STOP_SENDING from the peer.  On a request stream that is not detached
    the session aborts both directions with HTTP_REQUEST_CANCELLED
    (STOP_SENDING, then a reset); with HTTP/3 a QPACK stream cancellation
    for the stream is written on the QPACK decoder stream first, and with
    the other dialects no control stream is written.  Then the session
    fails the transaction with a stream abort in both directions, which
    drops what the stream had buffered.  For a stream the session does
    not know nothing happens. *)
Theorem stop_sending_cancels_request (id : StreamId) (error : ErrorCode)
  (s : HQSession) :
  (findStream id s = None → onStopSending id error s = Some s) ∧
  ∀ st,
    is_Some (sock_ s) → canAbort s →
    streams_ s !! id = Some st → detached_ st = false →
    ingressStreamId_ st = Some id → isBidirectionalStream id = true →
    ∃ s' st',
      onStopSending id error s = Some s' ∧
      controlStreams_ s' =
        (if bool_decide (version_ s = Some HQ)
         then alter (ctrl_append (FrQpackCancel id)) QPACK_DECODER (controlStreams_ s)
         else controlStreams_ s) ∧
      sockLog s' = sockLog s ++
        (if bool_decide (version_ s = Some HQ) && negb (scheduledWrite_ s)
         then [OpNotifyPendingWriteOnConnection] else []) ++
        [OpStopSending id HTTP_REQUEST_CANCELLED;
         OpResetStream id HTTP_REQUEST_CANCELLED] ∧
      streams_ s' !! id = Some st' ∧
      txnLog (txn_ st') = txnLog (txn_ st) ++ [TxnOnError stopSendingException] ∧
      readBuf_ st' = [] ∧ writeBuf_ st' = [] ∧ pendingEOM_ st' = false ∧
      drainState_ s' = drainState_ s ∧ bounds s' = bounds s.
Proof.
  split.
  { intros Hf. unfold onStopSending. by rewrite Hf. }
  intros st Hk Hv Hst Hdet Hid Hbidi.
  unfold onStopSending. rewrite (findStream_request id st s Hst).
  unfold handleWriteError. cbn [mbind option_bind].
  change (getStream (RequestStream id) s) with (streams_ s !! id). rewrite Hst.
  cbn [mbind option_bind]. unfold getStreamId at 1. rewrite Hid.
  cbn [mbind option_bind setProxygenError exDirection].
  destruct (abortStream_log INGRESS_AND_EGRESS id HTTP_REQUEST_CANCELLED s Hk Hv)
    as (s1 & E1 & L1 & C1 & T1 & B1 & D1 & K1).
  rewrite E1. cbn [mbind option_bind]. rewrite Hbidi in L1, C1. cbn in L1, C1.
  rewrite andb_true_l in L1.
  fold stopSendingException.
  set (s' := updStream (RequestStream id) (errorOnTransaction stopSendingException) s1).
  assert (streams_ s1 = streams_ s) as S1 by (unfold tables in T1; congruence).
  pose proof (getStream_updStream (RequestStream id)
                (errorOnTransaction stopSendingException) s1) as G.
  fold s' in G. cbn in G. rewrite S1, Hst in G. cbn in G.
  destruct (core_sockLog_updStream (RequestStream id)
              (errorOnTransaction stopSendingException) s1) as [L C].
  fold s' in L, C.
  destruct (errorOnTransaction_txn stopSendingException st Hdet) as (Lt & _).
  destruct (errorOnTransaction_both_clears stopSendingException st eq_refl)
    as (R & W & P & _).
  exists s', (errorOnTransaction stopSendingException st).
  split; [done|]. split.
  { unfold core in C. injection C as _ _ _ _ Cc _. by rewrite Cc, C1. }
  split; [by rewrite L, L1|].
  split_and!; try done.
  - unfold core in C. injection C as _ _ D _. by rewrite D.
  - by rewrite (core_bounds _ _ C).
Qed.

Lemma findStream_kind id r s :
  findStream id s = Some r →
  r = RequestStream id ∨ (∃ p, r = IngressPushStream p) ∨ (∃ i, r = EgressPushStream i).
Proof.
  unfold findStream, findStreamImpl. intros H.
  apply bind_Some in H as (r' & Hr & H). apply bind_Some in H as (st & _ & [= <-]).
  destruct (streams_ s !! id); cbn in Hr; [left; congruence|].
  unfold findIngressPushStream, findIngressPushStreamByPushId,
    findEgressPushStream in Hr.
  right. destruct (lookup_by_stream_id id (streamLookup_ s)) as [e|]; cbn in Hr.
  - destruct (ingressPushStreams_ s !! e.1); cbn in Hr.
    + left. injection Hr as <-. by eauto.
    + right. destruct (egressPushStreams_ s !! id); cbn in Hr; [|done].
      injection Hr as <-. by eauto.
  - right. destruct (egressPushStreams_ s !! id); cbn in Hr; [|done].
    injection Hr as <-. by eauto.
Qed.

(** A read error that is no application error of the peer: a local error
    or a transport error.  The session says nothing on the socket.  The
    transaction of the stream, if the session knows the stream, is failed
    in both directions, with a connect error for a failed connect, a
    shutdown for any other local error and a connection reset, with the
    transport's code, for a transport error; what the stream had buffered
    is dropped.  No other stream is touched, nor the drain. *)
Theorem read_error_fails_transaction (ingressStarted : bool) (id : StreamId)
  (error : QuicErrorCode) (s : HQSession) :
  isApplicationError error = false →
  ∃ s', readError ingressStarted id error s = Some s' ∧
    sockLog s' = sockLog s ∧ core s' = core s ∧
    (findStream id s = None → s' = s) ∧
    (∀ st, streams_ s !! id = Some st → detached_ st = false →
       ∃ st', streams_ s' !! id = Some st' ∧
         txnLog (txn_ st') = txnLog (txn_ st) ++ [TxnOnError (readErrorException error)] ∧
         readBuf_ st' = [] ∧ writeBuf_ st' = [] ∧ pendingEOM_ st' = false) ∧
    (∀ id', id' ≠ id → streams_ s' !! id' = streams_ s !! id').
Proof.
  intros Happ. unfold readError.
  set (ex0 := {| exDirection := INGRESS_AND_EGRESS; exProxygenError := kErrorNone;
                 exErrno := None |}).
  assert (∃ ex, readErrorException error = ex ∧
            match error with
            | ApplicationErrorCode ec =>
                match findNonDetachedStream id s with
                | Some stream => onResetStream stream ingressStarted ec ex0 s
                | None => Some s
                end
            | LocalError errorCode =>
                Some (errorOnTransactionId id
                        (if bool_decide (errorCode = CONNECT_FAILED)
                         then setProxygenError kErrorConnect ex0
                         else setProxygenError kErrorShutdown ex0) s)
            | TransportErrorCode errorCode =>
                Some (errorOnTransactionId id
                        (setErrno error (setProxygenError kErrorConnectionReset ex0)) s)
            end = Some (errorOnTransactionId id ex s)) as (ex & Hex & ->).
  { destruct error as [ec|ec|ec]; [done| |].
    - eexists. split; [done|]. unfold readErrorException.
      destruct ec; by rewrite ?bool_decide_eq_true_2, ?bool_decide_eq_false_2 by done.
    - eexists. by split. }
  assert (exDirection ex = INGRESS_AND_EGRESS) as Hdir by (by subst ex).
  rewrite Hex. clear Hex ex0.
  eexists. split; [done|].
  destruct (core_errorOnTransactionId id ex s) as [C K].
  split; [unfold sockLog; by rewrite K|]. split; [done|].
  unfold errorOnTransactionId. split; [by intros ->|]. split.
  - intros st Hst Hdet. rewrite (findStream_request id st s Hst).
    pose proof (getStream_updStream (RequestStream id) (errorOnTransaction ex) s) as G.
    cbn in G. rewrite Hst in G. cbn in G.
    exists (errorOnTransaction ex st). split; [done|].
    destruct (errorOnTransaction_txn ex st Hdet) as (Lt & _).
    destruct (errorOnTransaction_both_clears ex st Hdir) as (R & W & P & _).
    by split_and!.
  - intros id' Hne.
    destruct (findStream id s) as [r|] eqn:Hf; [|done].
    destruct (findStream_kind id r s Hf) as [->|[[p ->]|[i ->]]].
    + destruct (updStream_request (errorOnTransaction ex) id s) as (S & _).
      rewrite S. destruct (streams_ s !! id); [|done]. by rewrite lookup_insert_ne.
    + unfold updStream. cbn. destruct (ingressPushStreams_ s !! p); [|done].
      unfold replaceStream.
      destruct (negb _ && _); [|done].
      unfold scheduleLoopCallback. by repeat case_match.
    + unfold updStream. cbn. destruct (egressPushStreams_ s !! i); [|done].
      unfold replaceStream.
      destruct (negb _ && _); [|done].
      unfold scheduleLoopCallback. by repeat case_match.
Qed.

End StopSending.

Section Examples_Errors.
#[local] Existing Instance exampleCodes.

(** The client asks the downstream HTTP/3 session to stop sending on the
    request stream 8: the cancellation of stream 8 is the last frame on
    the QPACK decoder stream. *)
Lemma stop_sending_cancels_request_witness :
  let s := servingDownstreamH3 in
  ∃ st,
    is_Some (sock_ s) ∧ canAbort s ∧ streams_ s !! 8 = Some st ∧
    detached_ st = false ∧ ingressStreamId_ st = Some 8 ∧
    isBidirectionalStream 8 = true ∧
    ∃ s' st',
      onStopSending 8 HTTP_NO_ERROR s = Some s' ∧
      controlStreams_ s' =
        alter (ctrl_append (FrQpackCancel 8)) QPACK_DECODER (controlStreams_ s) ∧
      (last ∘ ctrlWritten <$> controlStreams_ s' !! QPACK_DECODER)
        = Some (Some (FrQpackCancel 8)) ∧
      sockLog s' = sockLog s ++
        [OpStopSending 8 HTTP_REQUEST_CANCELLED;
         OpResetStream 8 HTTP_REQUEST_CANCELLED] ∧
      streams_ s' !! 8 = Some st' ∧
      txnLog (txn_ st') = txnLog (txn_ st) ++ [TxnOnError stopSendingException].
Proof.
  intros s.
  destruct (streams_ s !! 8) as [st|] eqn:E; [|by vm_compute in E].
  assert (is_Some (sock_ s)) as H1 by (vm_compute; eexists; reflexivity).
  assert (canAbort s) as H2
    by (right; right; split; vm_compute; [reflexivity | eexists; reflexivity]).
  assert (detached_ st = false) as H3
    by (vm_compute in E; injection E as <-; reflexivity).
  assert (ingressStreamId_ st = Some 8) as H4
    by (vm_compute in E; injection E as <-; reflexivity).
  assert (isBidirectionalStream 8 = true) as H5 by reflexivity.
  assert (bool_decide (version_ s = Some HQ) && negb (scheduledWrite_ s) = false) as H6
    by (vm_compute; reflexivity).
  assert (bool_decide (version_ s = Some HQ) = true) as H7
    by (vm_compute; reflexivity).
  exists st. split_and!; try assumption; try reflexivity.
  destruct (proj2 (stop_sending_cancels_request 8 HTTP_NO_ERROR s) st H1 H2 E H3 H4 H5)
    as (s' & st' & E' & C & L & S & T & _).
  rewrite H6 in L. rewrite H7 in C. exists s', st'.
  split; [exact E'|]. split; [exact C|].
  split; [rewrite C; vm_compute; reflexivity|].
  split; [exact L|]. split; [exact S|exact T].
Defined.

(** A transport error on the request stream 8 of the same session. *)
Lemma read_error_fails_transaction_witness :
  let s := servingDownstreamH3 in
  isApplicationError (TransportErrorCode 10) = false ∧
  ∃ s' st',
    readError true 8 (TransportErrorCode 10) s = Some s' ∧
    sockLog s' = sockLog s ∧
    streams_ s' !! 8 = Some st' ∧
    txnLog (txn_ st') =
      [TxnOnError {| exDirection := INGRESS_AND_EGRESS;
                     exProxygenError := kErrorConnectionReset;
                     exErrno := Some (TransportErrorCode 10) |}].
Proof.
  intros s. split; [reflexivity|].
  destruct (read_error_fails_transaction true 8 (TransportErrorCode 10) s eq_refl)
    as (s' & E & L & _ & _ & H & _).
  destruct (streams_ s !! 8) as [st|] eqn:E8; [|by vm_compute in E8].
  destruct (H st E8) as (st' & S & T & _).
  { vm_compute in E8. injection E8 as <-. reflexivity. }
  exists s', st'. split; [exact E|]. split; [exact L|]. split; [exact S|].
  rewrite T. vm_compute in E8. injection E8 as <-. reflexivity.
Defined.

End Examples_Errors.
(** ** The control streams of the peer *)

Section IngressControl.
Context `{codes : StreamTypeCodes}.

Lemma parseStreamPreface_control v type s :
  version_ s = Some v → createControlCodec v type = Some true →
  parseStreamPreface type s = Some (Some type).
Proof.
  intros Hv Hc. unfold parseStreamPreface. rewrite Hv. cbn.
  unfold createControlCodec in Hc. destruct v; [done| |].
  - unfold H1QFBV2_parseStreamPreface, withType.
    by destruct (bool_decide (type = H1Q_CONTROL)).
  - unfold HQ_parseStreamPreface, withType.
    destruct (bool_decide (type = CONTROL)); [done|].
    destruct (bool_decide (type = QPACK_ENCODER)).
    { by destruct (bool_decide (type = PUSH)). }
    destruct (bool_decide (type = QPACK_DECODER)); [|done].
    by destruct (bool_decide (type = PUSH)).
Qed.

(** The first stream of the peer with the preface of a control stream
    type of the dialect.  [tryCreateIngressControlStream] links it to the
    session's own control stream of that type, as its ingress half with an
    ingress codec, marks it as a control stream on the socket and returns
    the control stream.  Nothing else is asked of the socket, nothing is
    written, no other control stream changes, and from then on the
    session finds a control stream under the id of the peer's stream. *)
Theorem peer_control_stream_linked (id : StreamId) (type : UnidirectionalStreamType)
  (v : HQVersion) (c : HQControlStream) (s : HQSession) :
  is_Some (sock_ s) → version_ s = Some v →
  createControlCodec v type = Some true →
  controlStreams_ s !! type = Some c → ingressCodec_ c = false →
  ∃ s', tryCreateIngressControlStream id type s = Some (Some type, s') ∧
    controlStreams_ s' = <[type := linkedControlStream id c]> (controlStreams_ s) ∧
    sockLog s' = sockLog s ++ [OpSetControlStream id] ∧
    is_Some (findControlStreamById id s') ∧
    aside s' = aside s ∧ bounds s' = bounds s ∧ drainState_ s' = drainState_ s.
Proof.
  intros [k Hk] Hv Hcodec Hc Hi.
  unfold tryCreateIngressControlStream.
  rewrite (parseStreamPreface_control v type s) by done.
  cbn [mbind option_bind]. unfold createIngressControlStream, findControlStream.
  unfold UnidirectionalStreamType in *. rewrite Hc. cbn [mbind option_bind].
  rewrite Hi, Hv.
  cbn [mbind option_bind]. rewrite Hcodec. cbn [mbind option_bind].
  fold (linkedControlStream id c).
  set (s2 := set_controlStreams _ s).
  rewrite (sock_call_Some _ s2 k Hk). cbn [mbind option_bind].
  eexists. split; [done|]. unfold sockLog. cbn. rewrite Hk. cbn.
  split_and!; try done.
  unfold findControlStreamById. cbn.
  destruct (List.find _ _) as [e|] eqn:F; [by eexists|].
  assert ((type, linkedControlStream id c)
          ∈ map_to_list (<[type := linkedControlStream id c]> (controlStreams_ s))) as I
    by (apply elem_of_map_to_list, lookup_insert_eq).
  apply list_elem_of_In in I. apply (find_none _ _ F) in I.
  unfold ctrl_isUsing, linkedControlStream in I. cbn in I.
  rewrite Z.eqb_refl, orb_true_r in I. done.
Qed.

(** A second stream of the peer with the preface of a control stream type
    that is linked already.  [createIngressControlStream] drops the
    connection, which releases the socket, and gives null;
    [assignReadCallback] then rejects the stream on the socket that is no
    longer there: the call does not return. *)
Theorem duplicate_control_stream_drops (id : StreamId) (type : UnidirectionalStreamType)
  (toConsume : Z) (v : HQVersion) (c : HQControlStream) (s : HQSession) :
  is_Some (sock_ s) → version_ s = Some v →
  createControlCodec v type = Some true →
  controlStreams_ s !! type = Some c → ingressCodec_ c = true →
  requestStreamsOnly s → dropping_ s = false →
  map_Forall (λ _ st, detachesOnDrop st) (streams_ s) →
  (∃ s1, createIngressControlStream id type s = Some (None, s1) ∧
     dropping_ s1 = true ∧ drainState_ s1 = DONE ∧ sock_ s1 = None ∧
     streams_ s1 = ∅ ∧ destroyed_ s1 = true) ∧
  assignReadCallback id type toConsume s = None.
Proof.
  intros [k Hk] Hv Hcodec Hc Hi Hwf Hd Hall.
  assert (∀ x, sameButSock s x →
            ∃ s1, createIngressControlStream id type x = Some (None, s1) ∧
              dropping_ s1 = true ∧ drainState_ s1 = DONE ∧ sock_ s1 = None ∧
              streams_ s1 = ∅ ∧ destroyed_ s1 = true) as Hdup.
  { intros x Hx.
    pose proof (requestStreamsOnly_sameButSock _ _ Hx Hwf) as Wx.
    apply sameButSock_fields in Hx as (Sx & _ & _ & _ & Bx & Kx).
    unfold beside, core in Bx.
    injection Bx as _ _ _ Px Cx _.
    unfold createIngressControlStream, findControlStream.
    unfold UnidirectionalStreamType in *. rewrite Cx, Hc. cbn [mbind option_bind].
    rewrite Hi.
    destruct (dropConnectionWithError_request kErrorConnection x) as [Hiff Hpost];
      try done; try congruence.
    { intros _. apply Kx. by eexists. }
    destruct (proj2 Hiff) as [s1 E1]; [by rewrite Sx|].
    rewrite E1. cbn. exists s1. split; [done|].
    destruct (Hpost s1 E1) as (? & ? & ? & ? & ? & _). by split_and!. }
  split; [apply Hdup, sameButSock_refl|].
  unfold assignReadCallback.
  rewrite (sock_call_Some _ _ k Hk). cbn [mbind option_bind].
  set (s1 := set_sock _ s).
  unfold tryCreateIngressControlStream.
  rewrite (parseStreamPreface_control v type s1) by done.
  cbn [mbind option_bind].
  destruct (Hdup s1) as (s2 & E2 & _ & _ & K2 & _).
  { eexists. split; [done|]. rewrite Hk. split; by eauto. }
  rewrite E2. cbn [mbind option_bind]. unfold rejectStream, sock_call.
  by rewrite K2.
Qed.

End IngressControl.

Section Examples_IngressControl.
#[local] Existing Instance exampleCodes.

(** The client's control stream 2 reaches the downstream HTTP/3 session. *)
Lemma peer_control_stream_linked_witness :
  let s := the downstreamH3 in
  ∃ c,
    is_Some (sock_ s) ∧ version_ s = Some HQ ∧
    createControlCodec HQ CONTROL = Some true ∧
    controlStreams_ s !! CONTROL = Some c ∧ ingressCodec_ c = false ∧
    ∃ s', tryCreateIngressControlStream 2 CONTROL s = Some (Some CONTROL, s') ∧
      controlStreams_ s' = <[CONTROL := linkedControlStream 2 c]> (controlStreams_ s) ∧
      sockLog s' = sockLog s ++ [OpSetControlStream 2] ∧
      is_Some (findControlStreamById 2 s').
Proof.
  intros s.
  destruct (controlStreams_ s !! CONTROL) as [c|] eqn:E; [|by vm_compute in E].
  assert (is_Some (sock_ s)) as H1 by (vm_compute; eexists; reflexivity).
  assert (version_ s = Some HQ) as H2 by (vm_compute; reflexivity).
  assert (createControlCodec HQ CONTROL = Some true) as H3 by reflexivity.
  assert (ingressCodec_ c = false) as H4
    by (vm_compute in E; injection E as <-; reflexivity).
  exists c. split_and!; try assumption; try reflexivity.
  destruct (peer_control_stream_linked 2 CONTROL HQ c s H1 H2 H3 E H4)
    as (s' & E' & C & L & F & _).
  exists s'. split; [exact E'|]. split; [exact C|]. split; [exact L|exact F].
Defined.

(** A second control stream, 6, after the first: the connection is
    dropped, and the call aborts. *)
Lemma duplicate_control_stream_drops_witness :
  let s := the (run [UniPreface 2 0 1 None] (the downstreamH3)) in
  ∃ c,
    is_Some (sock_ s) ∧ version_ s = Some HQ ∧
    createControlCodec HQ CONTROL = Some true ∧
    controlStreams_ s !! CONTROL = Some c ∧ ingressCodec_ c = true ∧
    requestStreamsOnly s ∧ dropping_ s = false ∧
    map_Forall (λ _ st, detachesOnDrop st) (streams_ s) ∧
    assignReadCallback 6 CONTROL 1 s = None.
Proof.
  intros s.
  destruct (controlStreams_ s !! CONTROL) as [c|] eqn:E; [|by vm_compute in E].
  assert (is_Some (sock_ s)) as H1 by (vm_compute; eexists; reflexivity).
  assert (version_ s = Some HQ) as H2 by (vm_compute; reflexivity).
  assert (createControlCodec HQ CONTROL = Some true) as H3 by reflexivity.
  assert (ingressCodec_ c = true) as H4
    by (vm_compute in E; injection E as <-; reflexivity).
  assert (requestStreamsOnly s) as H5.
  { split_and!; [vm_compute; reflexivity..|].
    apply map_Forall_to_list. vm_compute. constructor. }
  assert (dropping_ s = false) as H6 by (vm_compute; reflexivity).
  assert (map_Forall (λ _ st, detachesOnDrop st) (streams_ s)) as H7.
  { apply map_Forall_to_list. vm_compute. constructor. }
  exists c. repeat (split; [first [assumption|reflexivity]|]).
  exact (proj2 (duplicate_control_stream_drops 6 CONTROL 1 HQ c s H1 H2 H3 E H4 H5 H6 H7)).
Defined.

End Examples_IngressControl.
(** ** Server push: the stream that arrives before its promise *)

Section PushBinding.
Context `{codes : StreamTypeCodes}.

(** The nascent push stream came first.  When the promise of the push
    arrives, for a push id the lookup knows with its stream, the pushed
    transaction is created and bound to that stream at once: it gets its
    codec, whose stream is the push stream, and its ingress, the stream id
    is recorded in it, the stream joins the set of streams with data to
    process, its reads are resumed and the loop callback is scheduled.
    (The new codec's [createStream()] answers the id of the push stream,
    as [bindTo] checks.) *)
Theorem nascent_push_stream_bound_on_promise (detaches : bool) (parentId : StreamId)
  (pushId : PushId) (streamId : StreamId) (s : HQSession) :
  is_Some (sock_ s) →
  is_Some (version_ s ≫= λ v, createCodec v s) →
  ingressPushStreams_ s !! pushId = None →
  lookup_by_push_id pushId (streamLookup_ s) = Some (pushId, streamId) →
  lookup_by_stream_id streamId (streamLookup_ s) = Some (pushId, streamId) →
  ∃ s' st,
    createIngressPushStream streamId detaches parentId pushId s = Some s' ∧
    ingressPushStreams_ s' = <[pushId := st]> (ingressPushStreams_ s) ∧
    ingressStreamId_ st = Some streamId ∧ codecStreamId_ st = Some streamId ∧
    hasCodec_ st = true ∧ hasIngress_ st = true ∧
    txnAssocTxnId (txn_ st) = Some parentId ∧ detached_ st = false ∧
    pendingProcessReadSet_ s' = set_insert streamId (pendingProcessReadSet_ s) ∧
    sockLog s' = sockLog s ++
      (if receiveStreamWindowSize_ s is Some w
       then [OpSetStreamFlowControlWindow streamId w] else []) ++
      [OpResumeRead streamId] ∧
    loopCallbackScheduled_ s' = true ∧
    streamLookup_ s' = streamLookup_ s ∧ streams_ s' = streams_ s.
Proof.
  intros [k Hk] Hcodec Hnew Hp Hs.
  destruct (version_ s) as [v|] eqn:Hv; [|by destruct Hcodec]. cbn in Hcodec.
  destruct (createCodec v s) as [[]|] eqn:Hcc; [|by destruct Hcodec].
  unfold createIngressPushStream, findIngressPushStreamByPushId.
  rewrite Hnew. cbn [mbind option_bind].
  set (st0 := new_stream UPSTREAM (Some parentId) None None _).
  set (s1 := set_ingressPushStreams _ s).
  unfold tryBindIngressStreamToTxn.
  change (streamLookup_ s1) with (streamLookup_ s). rewrite Hp.
  cbn [snd]. unfold findIngressPushStreamByPushId at 1.
  assert (ingressPushStreams_ s1 !! pushId = Some st0) as Hl1
    by (subst s1; cbn; apply lookup_insert_eq).
  rewrite Hl1. cbn [mbind option_bind].
  unfold bindTo. rewrite Hl1. cbn [mbind option_bind].
  assert (txnAssocTxnId (txn_ st0) = Some parentId) as Ha by done.
  rewrite Ha. cbn [mbind option_bind].
  change (version_ s1) with (version_ s). rewrite Hv. cbn [mbind option_bind].
  assert (createCodec v s1 = Some ()) as -> by (by destruct v).
  cbn [mbind option_bind].
  change (sock_ s1) with (sock_ s). rewrite Hk.
  unfold initCodec. cbn [mbind option_bind].
  assert (txn_isPushed (txn_ st0) = true) as -> by done.
  rewrite orb_true_r. cbn [mbind option_bind].
  set (st1 := set_hasCodec true _).
  assert (codecStreamId_ st1 = Some streamId) as Hc1 by done.
  rewrite Hc1. rewrite bool_decide_eq_true_2 by done. cbn [negb].
  set (st2 := setIngressStreamId streamId st1).
  unfold initIngress. cbn [mbind option_bind].
  change (receiveStreamWindowSize_ s1) with (receiveStreamWindowSize_ s).
  change (ingressStreamId_ st2) with (Some streamId).
  set (k1 := match receiveStreamWindowSize_ s with
             | Some w => sock_do (OpSetStreamFlowControlWindow streamId w) k
             | None => k
             end).
  assert (match receiveStreamWindowSize_ s with
          | Some w => id ← Some streamId;
                      Some (sock_do (OpSetStreamFlowControlWindow id w) k)
          | None => Some k
          end = Some k1) as -> by (subst k1; by destruct (receiveStreamWindowSize_ s)).
  cbn [mbind option_bind].
  assert (gate_then (eomGate_ (codec_do CodecSetCallback st2))
          = ({| gateCodec := false; gateTransport := false; gateCallback := true |},
             false)) as -> by done.
  cbn [mbind option_bind].
  set (st3 := set_hasIngress true _).
  set (s2 := set_ingressPushStreams _ (set_sock (Some k1) s1)).
  set (s3 := set_pendingProcessReadSet _ s2).
  unfold resumeReads. rewrite (sock_call_Some _ s3 k1 eq_refl).
  cbn [mbind option_bind].
  set (k2 := sock_do (OpResumeRead streamId) k1).
  set (s4 := scheduleLoopCallback true (set_sock (Some k2) s3)).
  assert (tables s4 = tables (set_sock (Some k2) s3) ∧ sock_ s4 = Some k2 ∧
          loopCallbackScheduled_ s4 = true) as (T4 & K4 & L4).
  { subst s4. unfold scheduleLoopCallback. cbn.
    destruct (loopCallbackScheduled_ s) eqn:El; by split_and!. }
  unfold tables in T4. cbn in T4. injection T4 as S4 I4 E4 LK4 DP4 PP4.
  unfold findIngressPushStream. rewrite LK4, Hs. cbn [mbind option_bind fst].
  unfold findIngressPushStreamByPushId. rewrite I4.
  rewrite lookup_insert_eq. cbn [mbind option_bind getStream].
  rewrite I4, lookup_insert_eq. cbn [mbind option_bind].
  assert (ingressStreamId_ st3 = Some streamId) as -> by done.
  rewrite !bool_decide_eq_true_2 by done. cbn.
  exists s4, st3. split; [done|].
  split. { rewrite I4. subst s1. cbn. apply insert_insert_eq. }
  split_and!; try done.
  unfold sockLog. rewrite K4, Hk. subst k2 k1. cbn.
  destruct (receiveStreamWindowSize_ s); cbn; by rewrite <- ?app_assoc.
Qed.

End PushBinding.

Section Examples_PushBinding.
#[local] Existing Instance exampleCodes.

(** The nascent push stream 15 of push 4 has arrived on the upstream
    session with a request on stream 0; the promise follows. *)
Lemma nascent_push_stream_bound_on_promise_witness :
  let s := the (run [nascentPush] requestingUpstreamH3) in
  is_Some (sock_ s) ∧
  is_Some (version_ s ≫= λ v, createCodec v s) ∧
  ingressPushStreams_ s !! 4 = None ∧
  lookup_by_push_id 4 (streamLookup_ s) = Some (4, 15) ∧
  lookup_by_stream_id 15 (streamLookup_ s) = Some (4, 15) ∧
  ∃ s' st,
    createIngressPushStream 15 true 0 4 s = Some s' ∧
    ingressPushStreams_ s' = <[4 := st]> (ingressPushStreams_ s) ∧
    ingressStreamId_ st = Some 15 ∧ hasIngress_ st = true ∧
    pendingProcessReadSet_ s' = set_insert 15 (pendingProcessReadSet_ s) ∧
    loopCallbackScheduled_ s' = true.
Proof.
  intros s.
  assert (is_Some (sock_ s)) as H1 by (vm_compute; eexists; reflexivity).
  assert (is_Some (version_ s ≫= λ v, createCodec v s)) as H2
    by (vm_compute; eexists; reflexivity).
  assert (ingressPushStreams_ s !! 4 = None) as H3 by (vm_compute; reflexivity).
  assert (lookup_by_push_id 4 (streamLookup_ s) = Some (4, 15)) as H4
    by (vm_compute; reflexivity).
  assert (lookup_by_stream_id 15 (streamLookup_ s) = Some (4, 15)) as H5
    by (vm_compute; reflexivity).
  repeat (split; [assumption|]).
  destruct (nascent_push_stream_bound_on_promise true 0 4 15 s H1 H2 H3 H4 H5)
    as (s' & st & E & I & Hi & _ & _ & Hg & _ & _ & P & _ & L & _).
  exists s', st. by split_and!.
Defined.

End Examples_PushBinding.

(** ** Writing the control streams *)

Lemma writeBase_rest `{QuicSocketWrites T} id writeBuf data taken notWritten
    tryToSend eof cb (k k' : T) :
  writeChain id data eof cb k = (inr notWritten, k') →
  data = taken ++ notWritten →
  tryToSend = Z.of_nat (length data) →
  tryToSend < 2 ^ 64 →
  writeBase id writeBuf data tryToSend eof cb k
  = (inr (Z.of_nat (length taken)), notWritten ++ writeBuf, k').
Proof.
  intros W D L B. unfold writeBase. rewrite W.
  assert (Z.of_nat (length data)
          = Z.of_nat (length taken) + Z.of_nat (length notWritten)) as E
    by (rewrite D, length_app; lia).
  destruct notWritten as [|b nw].
  - simpl in E. simpl. do 3 f_equal. lia.
  - do 3 f_equal. unfold wrap64. rewrite Z.mod_small; lia.
Qed.

Lemma take_drop_rest {A} (n : nat) (buf taken notWritten : list A) :
  take n buf = taken ++ notWritten →
  notWritten ++ drop n buf = drop (length taken) buf.
Proof.
  intros E. rewrite <- (take_drop n buf) at 2. rewrite E, <- app_assoc.
  by rewrite drop_app_length.
Qed.

(** When the socket has a send window for the stream and takes the
    write, the count [controlStreamWriteImpl] reports is the number of
    bytes the socket took, which is within both the window and the budget;
    the write buffer of the stream loses exactly those bytes, from its
    front, and the session is left as it is. *)
Theorem control_write_sends_front_of_buffer `{QuicSocketWrites T} noError toProxygenError type maxEgress (e : Egress T)
    c window taken notWritten k' :
  controlStreams_ (session e) !! type = Some c →
  is_Some (sock_ (session e)) →
  0 ≤ maxEgress < 2 ^ 64 →
  0 ≤ window →
  getStreamFlowControl (ctrlEgressStreamId c) (transport e) = inr window →
  let writeBuf := default [] (ctrlWriteBufs e !! type) in
  let offered := take (Z.to_nat (Z.min window maxEgress)) writeBuf in
  writeChain (ctrlEgressStreamId c) offered false false (transport e)
  = (inr notWritten, k') →
  offered = taken ++ notWritten →
  controlStreamWriteImpl noError toProxygenError type maxEgress e
  = Some (Z.of_nat (length taken),
          mkEgress (session e)
            (<[type := drop (length taken) writeBuf]> (ctrlWriteBufs e)) k') ∧
  Z.of_nat (length taken) ≤ Z.min window maxEgress.
Proof.
  intros C [k K] M W F writeBuf offered Wc D.
  assert (Z.of_nat (length offered) = Z.min (Z.min window maxEgress)
                                       (Z.of_nat (length writeBuf))) as L.
  { unfold offered. rewrite length_take. lia. }
  assert (Z.of_nat (length taken) ≤ Z.of_nat (length offered)) as Lt
    by (rewrite D, length_app; lia).
  split; [|lia].
  unfold controlStreamWriteImpl. rewrite C, K. cbn [mbind option_bind].
  rewrite F. fold writeBuf. fold offered.
  rewrite (writeBase_rest _ _ _ taken notWritten _ _ _ _ k' Wc D); [|lia..].
  replace (maxEgress <? Z.of_nat (length taken)) with false
    by (symmetry; apply Z.ltb_ge; lia).
  by rewrite (take_drop_rest _ _ _ _ D).
Qed.

Lemma control_write_sends_front_of_buffer_witness :
  controlStreamWriteImpl 0 (λ _, kErrorConnect) 3 3 (egressH3 (mkWindowSocket 2))
  = Some (2, mkEgress (the downstreamH3) {[ 0 := [0; 4; 0]; 2 := []; 3 := [7; 7] ]}
               (mkWindowSocket 0)).
Proof.
  assert (controlStreams_ (the downstreamH3) !! 3
          = Some (openedControlStream 3 11 [])) as C by (vm_compute; reflexivity).
  destruct (control_write_sends_front_of_buffer 0
              (λ _, kErrorConnect) 3 3 (egressH3 (mkWindowSocket 2)) _ 2 [7; 7] []
              (mkWindowSocket 0) C) as [E _];
    [by eexists|lia|lia|reflexivity|reflexivity|reflexivity|].
  rewrite E. vm_compute. reflexivity.
Defined.

Lemma handleSessionError_critical noError error proxygenError s :
  error ≠ LOCAL_NO_ERROR →
  dropInNextLoop_ s = None →
  handleSessionError noError true (quicControlStreamError (LocalError error))
    proxygenError s
  = Some (criticalStreamClosed proxygenError s).
Proof.
  intros N D. unfold handleSessionError, criticalStreamClosed. simpl.
  rewrite bool_decide_eq_false_2 by done. simpl. by rewrite D.
Qed.

(** When the socket reports an error other than NO_ERROR on a control
    stream and no drop is waiting, [controlStreamWriteImpl] reports no byte
    sent and leaves the drop of the connection with
    HTTP_CLOSED_CRITICAL_STREAM to the next loop callback.  If the send
    window could not be read, the write buffer is left as it is and the
    error is the socket's; if the write failed, the error is kErrorWrite
    and the bytes handed to the socket are gone from the write buffer. *)
Theorem control_write_failure_closes_critical `{QuicSocketWrites T} noError
    toProxygenError type maxEgress (e : Egress T) c error :
  controlStreams_ (session e) !! type = Some c →
  is_Some (sock_ (session e)) →
  dropInNextLoop_ (session e) = None →
  error ≠ LOCAL_NO_ERROR →
  let writeBuf := default [] (ctrlWriteBufs e !! type) in
  (getStreamFlowControl (ctrlEgressStreamId c) (transport e) = inl error →
   controlStreamWriteImpl noError toProxygenError type maxEgress e
   = Some (0, mkEgress
                (criticalStreamClosed (toProxygenError (LocalError error)) (session e))
                (ctrlWriteBufs e) (transport e))) ∧
  (∀ window k',
     getStreamFlowControl (ctrlEgressStreamId c) (transport e) = inr window →
     let canSend := Z.to_nat (Z.min window maxEgress) in
     writeChain (ctrlEgressStreamId c) (take canSend writeBuf) false false (transport e)
     = (inl error, k') →
     controlStreamWriteImpl noError toProxygenError type maxEgress e
     = Some (0, mkEgress (criticalStreamClosed kErrorWrite (session e))
                  (<[type := drop canSend writeBuf]> (ctrlWriteBufs e)) k')).
Proof.
  intros C [k K] D N writeBuf. split.
  - intros F. unfold controlStreamWriteImpl. rewrite C, K. cbn [mbind option_bind].
    rewrite F. by rewrite handleSessionError_critical.
  - intros window k' F canSend W. unfold controlStreamWriteImpl.
    rewrite C, K. cbn [mbind option_bind]. rewrite F.
    fold writeBuf. fold canSend. unfold writeBase. rewrite W.
    by rewrite handleSessionError_critical.
Qed.

Lemma control_write_failure_closes_critical_witness :
  controlStreamWriteImpl 0 (λ _, kErrorConnect) 3 3 (egressH3 (mkFaultySocket [11]))
  = Some (0, mkEgress (criticalStreamClosed kErrorConnect (the downstreamH3)) waiting
               (mkFaultySocket [11])) ∧
  controlStreamWriteImpl 0 (λ _, kErrorConnect) 3 3 (egressH3 (mkFaultySocket []))
  = Some (0, mkEgress (criticalStreamClosed kErrorWrite (the downstreamH3))
               {[ 0 := [0; 4; 0]; 2 := []; 3 := [7] ]} (mkFaultySocket [])).
Proof.
  assert (controlStreams_ (the downstreamH3) !! 3
          = Some (openedControlStream 3 11 [])) as C by (vm_compute; reflexivity).
  split.
  - refine (proj1 (control_write_failure_closes_critical 0 (λ _, kErrorConnect) 3 3
                     (egressH3 (mkFaultySocket [11])) _ (LOCAL_OTHER 1) C _ _ _) _);
      [by eexists|reflexivity|discriminate|reflexivity].
  - rewrite (proj2 (control_write_failure_closes_critical 0 (λ _, kErrorConnect) 3 3
                      (egressH3 (mkFaultySocket [])) _ (LOCAL_OTHER 2) C
                      ltac:(by eexists) eq_refl ltac:(discriminate))
               8 (mkFaultySocket []) eq_refl eq_refl).
    vm_compute. reflexivity.
Defined.

Lemma handleSessionError_control noError err proxygenError s :
  ∃ s', handleSessionError noError true err proxygenError s = Some s' ∧
        controlStreams_ s' = controlStreams_ s ∧
        (is_Some (sock_ s) → is_Some (sock_ s')).
Proof.
  unfold handleSessionError. cbn [mbind option_bind].
  destruct (negb (shouldDrop noError err)); [by eauto|].
  destruct (dropInNextLoop_ s); [by eauto|].
  eexists. split; [done|]. unfold scheduleLoopCallback.
  by destruct s as [? ? ? ? ? [?|] ? ? ? ? ? ? ? ? ? ? [|] ? ? ?].
Qed.

Lemma buffered_insert {T} (e e' : Egress T) type b b' :
  ctrlWriteBufs e !! type = Some b →
  ctrlWriteBufs e' = <[type := b']> (ctrlWriteBufs e) →
  (buffered e' + length b = buffered e + length b')%nat.
Proof.
  intros L E. unfold buffered. rewrite E.
  rewrite <- (insert_delete_eq (ctrlWriteBufs e)).
  rewrite <- (insert_delete_id (ctrlWriteBufs e) type b L) at 2.
  rewrite !map_to_list_insert by apply lookup_delete_eq.
  cbn [sum_list_with snd]. lia.
Qed.

(** One call of [controlStreamWriteImpl] on a stream with bytes waiting,
    on a socket that keeps to its interface. *)
Lemma controlStreamWriteImpl_kept `{QuicSocketWrites T} noError toProxygenError
    type maxEgress (e : Egress T) b :
  returnsTheRest T →
  is_Some (controlStreams_ (session e) !! type) →
  is_Some (sock_ (session e)) →
  0 ≤ maxEgress < 2 ^ 64 →
  ctrlWriteBufs e !! type = Some b →
  ∃ sent e' gone b',
    controlStreamWriteImpl noError toProxygenError type maxEgress e = Some (sent, e') ∧
    0 ≤ sent ≤ maxEgress ∧
    b = gone ++ b' ∧
    ctrlWriteBufs e' = <[type := b']> (ctrlWriteBufs e) ∧
    sent ≤ Z.of_nat (length gone) ∧
    controlStreams_ (session e') = controlStreams_ (session e) ∧
    is_Some (sock_ (session e')) ∧
    (neverFails T → sent = Z.of_nat (length gone) ∧ session e' = session e).
Proof.
  intros [Rw Rr] [c C] [k K] M B.
  unfold controlStreamWriteImpl. rewrite C, K, B.
  change (default [] (Some b)) with b. cbn [mbind option_bind].
  set (id := ctrlEgressStreamId c).
  destruct (getStreamFlowControl id (transport e)) as [error|window] eqn:F.
  - destruct (handleSessionError_control noError
                (quicControlStreamError (LocalError error))
                (toProxygenError (LocalError error)) (session e)) as (s' & -> & Cs & Ss).
    exists 0, (mkEgress s' (ctrlWriteBufs e) (transport e)), [], b.
    cbn [mbind option_bind session ctrlWriteBufs length app].
    split_and!; try done; try lia.
    + by rewrite insert_id.
    + by apply Ss; exists k.
    + intros [Nf _]. destruct (Nf id (transport e)) as [w Fw]. congruence.
  - apply Rw in F as W0. cbv beta iota zeta.
    set (canSend := Z.to_nat (Z.min window maxEgress)).
    assert (Z.of_nat (length (take canSend b))
            = Z.min (Z.min window maxEgress) (Z.of_nat (length b))) as L
      by (rewrite length_take; lia).
    destruct (writeChain id (take canSend b) false false (transport e))
      as [[error|notWritten] k'] eqn:W.
    + unfold writeBase. rewrite W.
      destruct (handleSessionError_control noError
                  (quicControlStreamError (LocalError error))
                  kErrorWrite (session e)) as (s' & -> & Cs & Ss).
      exists 0, (mkEgress s' (<[type := drop canSend b]> (ctrlWriteBufs e)) k'),
        (take canSend b), (drop canSend b).
      cbn [mbind option_bind session ctrlWriteBufs].
      split_and!; try done; try lia.
      * by rewrite take_drop.
      * by apply Ss; exists k.
      * intros [_ Nf].
        destruct (Nf id (take canSend b) false false (transport e)) as (n & k2 & Wn).
        congruence.
    + destruct (Rr _ _ _ _ _ _ _ W) as [taken D].
      assert (Z.of_nat (length taken) ≤ Z.of_nat (length (take canSend b))) as Lt
        by (rewrite D, length_app; lia).
      rewrite (writeBase_rest _ _ _ taken notWritten _ _ _ _ k' W D); [|lia..].
      replace (maxEgress <? Z.of_nat (length taken)) with false
        by (symmetry; apply Z.ltb_ge; lia).
      rewrite (take_drop_rest _ _ _ _ D).
      exists (Z.of_nat (length taken)),
        (mkEgress (session e) (<[type := drop (length taken) b]> (ctrlWriteBufs e)) k'),
        (take (length taken) b), (drop (length taken) b).
      cbn [session ctrlWriteBufs].
      assert (length taken ≤ length b)%nat by (rewrite length_take in Lt; lia).
      split_and!; try done; try lia.
      * by rewrite take_drop.
      * rewrite length_take. lia.
      * intros _. split; [|done]. rewrite length_take. lia.
Qed.

Lemma writeControlStreams_from_kept `{QuicSocketWrites T} noError toProxygenError
    types :
  returnsTheRest T →
  ∀ maxEgress (e : Egress T),
    Forall (λ t, is_Some (controlStreams_ (session e) !! t)) types →
    is_Some (sock_ (session e)) →
    0 ≤ maxEgress < 2 ^ 64 →
    ∃ remaining e',
      writeControlStreams_from noError toProxygenError types maxEgress e
      = Some (remaining, e') ∧
      0 ≤ remaining ≤ maxEgress ∧
      maxEgress - remaining + Z.of_nat (buffered e') ≤ Z.of_nat (buffered e) ∧
      (∀ type, ∃ gone, default [] (ctrlWriteBufs e !! type)
                       = gone ++ default [] (ctrlWriteBufs e' !! type)) ∧
      (neverFails T →
       maxEgress - remaining + Z.of_nat (buffered e') = Z.of_nat (buffered e) ∧
       session e' = session e).
Proof.
  intros R. induction types as [|type types IH]; intros maxEgress e Ft S M.
  - exists maxEgress, e. simpl. split_and!; try done; try lia.
    + intros type. by exists [].
    + intros _. split; [lia|done].
  - apply Forall_cons in Ft as [Ct Ft]. cbn [writeControlStreams_from].
    destruct (ctrlWriteBufs e !! type) as [b|] eqn:B; [|by apply IH].
    change (default [] (Some b)) with b.
    destruct b as [|x b]; [by apply IH|].
    destruct (controlStreamWriteImpl_kept noError toProxygenError type maxEgress e
                (x :: b) R Ct S M B)
      as (sent & e1 & gone & b' & -> & Ms & D & B1 & Ls & C1 & S1 & Nf).
    cbn [mbind option_bind].
    replace (maxEgress <? sent) with false by (symmetry; apply Z.ltb_ge; lia).
    pose proof (buffered_insert e e1 type _ b' B B1) as Bu.
    rewrite D, length_app in Bu.
    assert (∀ type0, ∃ gone0, default [] (ctrlWriteBufs e !! type0)
                              = gone0 ++ default [] (ctrlWriteBufs e1 !! type0)) as Sx.
    { intros type0. rewrite B1. destruct (decide (type0 = type)) as [->|Ne].
      - rewrite B, lookup_insert_eq. by exists gone.
      - rewrite lookup_insert_ne by done. by exists []. }
    destruct (maxEgress - sent =? 0) eqn:Z0.
    + exists (maxEgress - sent), e1. split_and!; try done; try lia.
      intros N. destruct (Nf N) as [-> ->]. split; [lia|done].
    + destruct (IH (maxEgress - sent) e1) as (remaining & e' & -> & Mr & Br & Sr & Nr);
        [by rewrite C1|done|lia|].
      exists remaining, e'. split_and!; try done; try lia.
      * intros type0. destruct (Sx type0) as [g0 ->]. destruct (Sr type0) as [g1 ->].
        exists (g0 ++ g1). by rewrite app_assoc.
      * intros N. destruct (Nf N) as [-> <-]. destruct (Nr N) as [Eq ->].
        split; [lia|done].
Qed.

Lemma visitsControlStreams_known order (s : HQSession) :
  visitsControlStreams order s →
  Forall (λ t, is_Some (controlStreams_ s !! t)) order.
Proof.
  intros V. apply Forall_forall. intros t I. rewrite V in I.
  apply list_elem_of_fmap in I as ([t' c] & -> & I).
  apply elem_of_map_to_list in I. by exists c.
Qed.

(** On a socket that keeps to its interface (what [writeChain] hands
    back is the end of what it was given), and whatever the order in which
    the loop meets the control streams, [writeControlStreams] does not
    abort, and the count it reports is within the budget and no larger than
    the number of bytes that left the write buffers; each write buffer
    only loses bytes from its front.  If the socket reports no error, the
    count is exactly the number of bytes that left the buffers and the
    session is left as it is. *)
Theorem control_writes_within_budget `{QuicSocketWrites T} noError toProxygenError
    order maxEgress (e : Egress T) :
  returnsTheRest T →
  visitsControlStreams order (session e) →
  is_Some (sock_ (session e)) →
  0 ≤ maxEgress < 2 ^ 64 →
  ∃ sent e',
    writeControlStreams noError toProxygenError order maxEgress e = Some (sent, e') ∧
    0 ≤ sent ≤ maxEgress ∧
    sent + Z.of_nat (buffered e') ≤ Z.of_nat (buffered e) ∧
    (∀ type, ∃ gone, default [] (ctrlWriteBufs e !! type)
                     = gone ++ default [] (ctrlWriteBufs e' !! type)) ∧
    (neverFails T →
     sent + Z.of_nat (buffered e') = Z.of_nat (buffered e) ∧ session e' = session e).
Proof.
  intros R V S M. unfold writeControlStreams.
  destruct (writeControlStreams_from_kept noError toProxygenError
              order R maxEgress e (visitsControlStreams_known _ _ V) S M)
    as (remaining & e' & -> & Mr & Br & Sr & Nr).
  exists (maxEgress - remaining), e'. cbn [mbind option_bind].
  split; [done|]. split; [lia|]. split; [done|]. split; [done|].
  exact Nr.
Qed.

Lemma windowSocket_returnsTheRest : returnsTheRest WindowSocket.
Proof.
  split.
  - intros id k window [= <-]. lia.
  - intros id data eof cb k notWritten k' [= <- _].
    exists (take (length data `min` sendWindow k) data). by rewrite take_drop.
Qed.

Lemma windowSocket_neverFails : neverFails WindowSocket.
Proof. split; intros; by eauto. Qed.

(** The control streams of the example are met in the order QPACK
    decoder (3), control (0), QPACK encoder (2); with a budget of five
    bytes the four bytes of the first and one byte of the second leave. *)
Lemma control_writes_within_budget_witness :
  visitsControlStreams [3; 0; 2] (the downstreamH3) ∧
  ∃ e', writeControlStreams 0 (λ _, kErrorConnect) [3; 0; 2] 5
          (egressH3 (mkWindowSocket 8))
        = Some (5, e') ∧
        ctrlWriteBufs e' = {[ 0 := [4; 0]; 2 := []; 3 := [] ]} ∧
        buffered e' = 2%nat.
Proof.
  assert (visitsControlStreams [3; 0; 2] (the downstreamH3)) as V.
  { unfold visitsControlStreams.
    let l := eval vm_compute in (map_to_list (controlStreams_ (the downstreamH3))).*1 in
    change ([3; 0; 2] ≡ₚ l).
    apply perm_skip, perm_swap. }
  split; [exact V|].
  destruct (control_writes_within_budget 0 (λ _, kErrorConnect) [3; 0; 2] 5
              (egressH3 (mkWindowSocket 8)) windowSocket_returnsTheRest V)
    as (sent & e' & E & _); [by eexists|lia|].
  exists e'.
  assert (Some (sent, e')
          = Some (5, mkEgress (the downstreamH3) {[ 0 := [4; 0]; 2 := []; 3 := [] ]}
                       (mkWindowSocket 3))) as Ev
    by (rewrite <- E; vm_compute; reflexivity).
  injection Ev as -> ->. split; [exact E|]. split; reflexivity.
Defined.

(** ** Letting go of the socket *)

Section Release.
Context `{codes : StreamTypeCodes}.

(** Substituting the results of the calls (leaving the equations between
    views as they are). *)
Ltac sub :=
  repeat match goal with
         | H : Some _ = Some _ |- _ => injection H as H
         | H : (_, _) = (_, _) |- _ => injection H as ? ?
         | H : ?x = _ |- _ => is_var x; subst x
         | H : _ = ?x |- _ => is_var x; subst x
         | H : None = Some _ |- _ => discriminate H
         | H : Some _ = None |- _ => discriminate H
         | H : true = false |- _ => discriminate H
         | H : false = true |- _ => discriminate H
         end.

Ltac held_go :=
  unfold held in *; simpl in *;
  repeat (simplify_option_eq || case_match); simpl in *; try done; try congruence.

Lemma held_scheduleLoopCallback b s : held (scheduleLoopCallback b s) = held s.
Proof. unfold scheduleLoopCallback. by repeat case_match. Qed.

Lemma held_putStream r st s : held (putStream r st s) = held s.
Proof. by destruct r. Qed.

Lemma held_replaceStream r st st' s : held (replaceStream r st st' s) = held s.
Proof.
  unfold replaceStream. case_match; [rewrite held_scheduleLoopCallback|];
    apply held_putStream.
Qed.

Lemma held_updStream r f s : held (updStream r f s) = held s.
Proof. unfold updStream. case_match; [apply held_replaceStream|done]. Qed.

Lemma held_foldl_updStream {A} (f : A → StreamRef) g l s :
  held (foldl (λ acc x, updStream (f x) (g x) acc) s l) = held s.
Proof.
  apply (foldl_inv (λ x, held x = held s)); [|done].
  intros x b <-. apply held_updStream.
Qed.

Lemma held_sock_call op s s' : sock_call op s = Some s' → held s' = held s.
Proof. unfold sock_call. intros. held_go. Qed.

Lemma held_scheduleWrite s s' : scheduleWrite s = Some s' → held s' = held s.
Proof.
  unfold scheduleWrite. destruct (scheduledWrite_ s); intros Hs; [by simplify_eq|].
  by apply held_sock_call in Hs.
Qed.

Lemma held_ctrl_write type f s s' : ctrl_write type f s = Some s' → held s' = held s.
Proof. unfold ctrl_write. intros. held_go. Qed.

Lemma held_versionUtils_abortStream id s s' :
  versionUtils_abortStream id s = Some s' → held s' = held s.
Proof.
  unfold versionUtils_abortStream. intros Hs.
  apply bind_Some in Hs as (v & _ & Hs). destruct v; simplify_eq; try done.
  apply bind_Some in Hs as (s1 & K1 & Hs).
  apply held_ctrl_write in K1. apply held_scheduleWrite in Hs. congruence.
Qed.

Lemma held_abortStream dir id err s s' :
  abortStream dir id err s = Some s' → held s' = held s.
Proof.
  unfold abortStream. intros Hs.
  apply bind_Some in Hs as (k & _ & Hs).
  apply bind_Some in Hs as (s1 & K1 & Hs).
  assert (held s1 = held s) as <-.
  { clear Hs. destruct (_ && _); [|by simplify_eq].
    apply bind_Some in K1 as (s0 & K0 & K1).
    apply held_versionUtils_abortStream in K0. apply held_sock_call in K1.
    congruence. }
  clear K1. destruct (_ && _); [by apply held_sock_call in Hs|by simplify_eq].
Qed.

Lemma held_checkNewStream id s ok s' :
  checkNewStream id s = Some (ok, s') → held s' = held s.
Proof.
  unfold checkNewStream, H1QFBV1_checkNewStream, GoawayUtils_checkNewStream.
  intros Hs. apply bind_Some in Hs as (v & _ & Hs).
  destruct v; repeat case_match; simplify_eq; try done;
    apply bind_Some in Hs as (s1 & K1 & Hs); simplify_eq;
    by apply held_abortStream in K1.
Qed.

Lemma held_clearStreamCallbacks id s : held (clearStreamCallbacks id s) = held s.
Proof. unfold clearStreamCallbacks. case_match eqn:E; [|done]. unfold held. simpl. by rewrite E. Qed.

Lemma held_cleanupPendingStreams s : held (cleanupPendingStreams s) = held s.
Proof.
  unfold cleanupPendingStreams.
  apply (foldl_inv (λ x, held x = held s)); [|done].
  intros x b <-. apply held_clearStreamCallbacks.
Qed.

Lemma held_eraseStream id s b s' : eraseStream id s = Some (b, s') → held s' = held s.
Proof.
  unfold eraseStream. intros Hs.
  repeat (simplify_option_eq || case_match); done.
Qed.

Lemma held_eraseStreamByPushId p s b s' :
  eraseStreamByPushId p s = Some (b, s') → held s' = held s.
Proof.
  unfold eraseStreamByPushId. intros Hs.
  repeat (simplify_option_eq || case_match); done.
Qed.

Lemma held_detachStreamTransport r s s' :
  detachStreamTransport r s = Some s' → held s' = held s.
Proof.
  unfold detachStreamTransport. intros Hs.
  apply bind_Some in Hs as (st & _ & Hs).
  apply bind_Some in Hs as (s1 & E1 & Hs).
  assert (held s1 = held s) as <-.
  { clear Hs. destruct (hasIngressStreamId st || hasEgressStreamId st).
    - apply bind_Some in E1 as (id & _ & E1).
      apply bind_Some in E1 as (? & _ & E1).
      apply fmap_Some in E1 as ([b s2] & E1 & ->). simpl.
      apply held_eraseStream in E1. rewrite E1.
      case_match; [apply held_clearStreamCallbacks|done].
    - destruct r; try done.
      apply fmap_Some in E1 as ([b s2] & E1 & ->). simpl.
      by apply held_eraseStreamByPushId in E1. }
  simplify_eq. destruct (bool_decide (numberOfStreams _ = _));
    [apply held_cleanupPendingStreams|done].
Qed.

Lemma held_checkForDetach r s s' : checkForDetach r s = Some s' → held s' = held s.
Proof.
  unfold checkForDetach. intros Hs. repeat case_match; simplify_eq; try done.
  by eapply held_detachStreamTransport.
Qed.

Lemma moves_refl s : moves s s.
Proof. by left. Qed.

Lemma moves_held s s1 s' : held s1 = held s → moves s1 s' → moves s s'.
Proof. intros E [K|R]; [left; congruence|by right]. Qed.

Lemma held_None s s' : held s' = held s → sock_ s = None → sock_ s' = None.
Proof.
  unfold held. intros E S. rewrite S in E. destruct (sock_ s'); [|done].
  by injection E.
Qed.

Lemma moves_checkForShutdown s s' :
  checkForShutdown s = Some s' →
  moves s s' ∧ (sock_ s = None → drainState_ s = DONE → released s').
Proof.
  intros Hs. pose proof (drainState_checkForShutdown _ _ Hs) as D.
  unfold checkForShutdown in Hs.
  set (s1 := if negb (bool_decide (version_ s = Some H1Q_FB_V1)) && _ && _
             then _ else s) in Hs.
  assert (held s1 = held s) as E1 by (unfold s1; by case_match).
  apply bind_Some in Hs as (s2 & Hf & Hs).
  apply (foldl_option_inv (λ x, held x = held s1)) in Hf; [| |reflexivity].
  2:{ intros x b x' Hx Hd. apply held_checkForDetach in Hd. congruence. }
  rewrite E1 in Hf. clear E1. clearbody s1.
  destruct (bool_decide (drainState_ s2 = DONE) && bool_decide (numberOfStreams s2 = 0%nat)
            && negb (loopCallbackScheduled_ s2)) eqn:Ed; injection Hs as <-.
  - assert (released (set_destroyed true
                        match sock_ s2 with Some _ => set_sock None s2 | None => s2 end)).
    { apply andb_prop in Ed as [Ed _]. apply andb_prop in Ed as [Ed _].
      apply bool_decide_eq_true in Ed. split; by destruct (sock_ s2) eqn:S. }
    split; [by right|done].
  - split; [by left|]. intros S0 D0. split; [by eapply held_None|].
    destruct D as [D|(D1 & _)]; congruence.
Qed.

Lemma moves_dropConnectionWithError proxygenError s s' :
  dropConnectionWithError proxygenError s = Some s' → moves s s'.
Proof.
  unfold dropConnectionWithError. destruct (dropping_ s); intros Hs;
    [sub; apply moves_refl|].
  apply bind_Some in Hs as (s2 & K2 & Hs).
  apply bind_Some in Hs as (s3 & K3 & Hs).
  destruct (bool_decide (numberOfStreams s3 = 0%nat)); sub.
  right. apply moves_checkForShutdown in K3 as [_ R]. apply R; [|done]. simpl.
  destruct (bool_decide (numberOfStreams _ = 0%nat)); sub; [done|].
  apply bind_Some in K2 as (k & _ & K2). sub.
  pose proof (held_foldl_updStream (λ r : StreamRef, r)
                (λ _, errorOnTransaction_err proxygenError)
                (allStreams (set_sock None (set_dropping true s)))
                (set_sock None (set_dropping true s))) as E.
  unfold held in E. simpl in E.
  match goal with |- sock_ ?x = None => destruct (sock_ x) end; [|done].
  by injection E.
Qed.

Lemma held_GoawayUtils_sendGoaway env s s' :
  GoawayUtils_sendGoaway env s = Some s' → held s' = held s.
Proof.
  unfold GoawayUtils_sendGoaway. intros Hs.
  destruct (bool_decide (direction_ s = UPSTREAM)); [by sub|].
  destruct (bool_decide (drainState_ s = DONE)); [by sub|].
  destruct (negb _); [done|].
  apply bind_Some in Hs as (c & _ & Hs).
  apply bind_Some in Hs as (s1 & E1 & Hs).
  apply bind_Some in Hs as (k & _ & Hs).
  assert (held s1 = held s) as <-.
  { clear Hs. destruct (generated env =? 0);
      [by sub|by apply held_ctrl_write in E1]. }
  clear E1.
  destruct (writeOffset env), (writeBufferedBytes env); try (by sub).
  destruct (generated env =? 0); [by sub|].
  apply bind_Some in Hs as (s2 & E2 & Hs). apply held_sock_call in E2. rewrite <- E2.
  destruct (negb (registered env)); [by sub|].
  apply bind_Some in Hs as (s3 & E3 & Hs). apply held_scheduleWrite in E3.
  rewrite <- E3. sub. by case_match.
Qed.

Lemma held_sendGoaway env s s' : sendGoaway env s = Some s' → held s' = held s.
Proof.
  unfold sendGoaway. intros Hs. apply bind_Some in Hs as (v & _ & Hs).
  destruct v; sub; try done; by apply held_GoawayUtils_sendGoaway in Hs.
Qed.

Lemma held_drainImpl env s s' : drainImpl env s = Some s' → held s' = held s.
Proof.
  unfold drainImpl. intros Hs. repeat case_match; sub; try done.
  by apply held_sendGoaway in Hs.
Qed.

Lemma moves_closeWhenIdle env s s' : closeWhenIdle env s = Some s' → moves s s'.
Proof.
  unfold closeWhenIdle. intros Hs. apply bind_Some in Hs as (s1 & K1 & Hs).
  apply held_drainImpl in K1. apply moves_checkForShutdown in Hs as [Hs _].
  eapply moves_held; [|exact Hs]. rewrite held_cleanupPendingStreams.
  by case_match.
Qed.

Lemma moves_onGoaway env lastGoodStreamID s s' :
  onGoaway env lastGoodStreamID s = Some s' → moves s s'.
Proof.
  unfold onGoaway. intros Hs. repeat (case_match; sub; try done).
  apply bind_Some in Hs as (s2 & K2 & Hs). apply held_drainImpl in K2.
  apply moves_checkForShutdown in Hs as [Hs _].
  eapply moves_held; [|exact Hs].
  match goal with
  | |- held (if _ then set_drainState _ ?x else if _ then set_drainState _ ?x else ?x) = _ =>
      transitivity (held x); [by repeat case_match|]
  end.
  by rewrite held_foldl_updStream.
Qed.

Lemma held_onGoawayAck env s s' : onGoawayAck env s = Some s' → held s' = held s.
Proof.
  unfold onGoawayAck. intros Hs. apply bind_Some in Hs as (s1 & K1 & Hs).
  sub. rewrite held_scheduleLoopCallback.
  repeat case_match; sub; try done. by apply held_sendGoaway in K1.
Qed.

Lemma held_HQControlStream_onCanceled s : held (HQControlStream_onCanceled s) = held s.
Proof. unfold HQControlStream_onCanceled. by rewrite held_scheduleLoopCallback. Qed.

Lemma held_headersComplete env close decoderPending s s' :
  headersComplete env close decoderPending s = Some s' → held s' = held s.
Proof.
  unfold headersComplete, H1QFBV1_headersComplete. intros Hs.
  apply bind_Some in Hs as (v & _ & Hs).
  destruct v; repeat case_match; sub; try done.
  - apply bind_Some in Hs as (s1 & K1 & Hs). sub.
    by apply held_drainImpl in K1.
  - apply bind_Some in Hs as (s1 & K1 & Hs). by sub.
  - by apply held_scheduleWrite in Hs.
Qed.

Lemma held_checkSendingGoaway env wantsKeepalive s s' :
  checkSendingGoaway env wantsKeepalive s = Some s' → held s' = held s.
Proof.
  unfold checkSendingGoaway, H1QFBV1_checkSendingGoaway, notifyPendingShutdown.
  intros Hs. repeat case_match; sub; try done.
  all: apply bind_Some in Hs as (s1 & K1 & Hs); sub.
  all: try apply held_drainImpl in K1.
  all: repeat case_match; sub; try done; congruence.
Qed.

Lemma moves_createEgressControlStream proxygenErr type id s ok s' :
  createEgressControlStream proxygenErr type id s = Some (ok, s') →
  if ok then held s' = held s else moves s s'.
Proof.
  unfold createEgressControlStream, onConnectionError. intros Hs.
  apply bind_Some in Hs as (k & _ & Hs). destruct id as [id|].
  - destruct (controlStreams_ s !! type); [done|].
    apply bind_Some in Hs as (s1 & K1 & Hs). sub.
    by apply held_sock_call in K1.
  - apply bind_Some in Hs as (s1 & K1 & Hs). sub.
    by apply moves_dropConnectionWithError in K1.
Qed.

Lemma moves_createEgressControlStreams proxygenErr id1 id2 id3 s ok s' :
  createEgressControlStreams proxygenErr id1 id2 id3 s = Some (ok, s') →
  if ok then held s' = held s else moves s s'.
Proof.
  unfold createEgressControlStreams. intros Hs.
  apply bind_Some in Hs as (v & _ & Hs). destruct v.
  - by sub.
  - apply bind_Some in Hs as ([ok1 s1] & K1 & Hs).
    apply moves_createEgressControlStream in K1. destruct ok1; simpl in Hs; [|by sub].
    apply bind_Some in Hs as (s2 & K2 & Hs). sub.
    apply held_scheduleWrite in K2. congruence.
  - apply bind_Some in Hs as ([ok1 s1] & K1 & Hs).
    apply moves_createEgressControlStream in K1. destruct ok1; simpl in Hs; [|by sub].
    apply bind_Some in Hs as ([ok2 s2] & K2 & Hs).
    apply moves_createEgressControlStream in K2. destruct ok2; simpl in Hs;
      [|sub; by eapply moves_held].
    apply bind_Some in Hs as ([ok3 s3] & K3 & Hs).
    apply moves_createEgressControlStream in K3. destruct ok3; simpl in Hs;
      [|sub; eapply moves_held; [|done]; congruence].
    apply bind_Some in Hs as (s4 & K4 & Hs).
    apply bind_Some in Hs as (s5 & K5 & Hs).
    apply bind_Some in Hs as (s6 & K6 & Hs). sub.
    apply held_ctrl_write in K4. apply held_scheduleWrite in K5, K6.
    congruence.
Qed.

Lemma moves_getAndCheckApplicationProtocol proxygenErr alpn s ok s' :
  getAndCheckApplicationProtocol proxygenErr alpn s = Some (ok, s') →
  if ok then held s' = held s else moves s s'.
Proof.
  unfold getAndCheckApplicationProtocol, onConnectionError. intros Hs.
  apply bind_Some in Hs as (k & _ & Hs).
  set (s1 := match alpn ≫= alpnVersion with Some v => set_version (Some v) s | None => s end)
    in Hs.
  assert (held s1 = held s) as E1 by (unfold s1; by destruct (alpn ≫= alpnVersion)).
  clearbody s1.
  repeat case_match; sub; try done.
  all: apply bind_Some in Hs as (s2 & K2 & Hs); sub.
  all: apply moves_dropConnectionWithError in K2; by eapply moves_held.
Qed.

Lemma moves_onTransportReadyCommon proxygenErr alpn id1 id2 id3 env s ok s' :
  onTransportReadyCommon proxygenErr alpn id1 id2 id3 env s = Some (ok, s') →
  moves s s'.
Proof.
  unfold onTransportReadyCommon. intros Hs.
  apply bind_Some in Hs as ([ok1 s1] & K1 & Hs).
  apply moves_getAndCheckApplicationProtocol in K1.
  destruct ok1; simpl in Hs; [|by sub].
  apply bind_Some in Hs as ([ok2 s2] & K2 & Hs).
  apply moves_createEgressControlStreams in K2.
  destruct ok2; simpl in Hs; [|sub; by eapply moves_held].
  apply bind_Some in Hs as (s3 & K3 & Hs). sub. left.
  destruct (bool_decide (drainState_ s2 = PENDING));
    [apply held_sendGoaway in K3|]; sub; congruence.
Qed.

Lemma held_set_sock k k' s : sock_ s = Some k → held (set_sock (Some k') s) = held s.
Proof. intros E. unfold held. simpl. by rewrite E. Qed.

Lemma held_createStreamTransport env id s r s' :
  createStreamTransport env id s = Some (r, s') → held s' = held s.
Proof.
  unfold createStreamTransport. intros Hs.
  apply bind_Some in Hs as (k & Ek & Hs).
  destruct (_ || _); [by sub|].
  apply bind_Some in Hs as (v & _ & Hs).
  apply bind_Some in Hs as (? & _ & Hs).
  apply bind_Some in Hs as (st1 & _ & Hs).
  apply bind_Some in Hs as ([k1 st2] & _ & Hs). sub.
  by apply (held_set_sock k).
Qed.

Lemma held_onNewBidirectionalStream env id s s' :
  onNewBidirectionalStream env id s = Some s' → held s' = held s.
Proof.
  unfold onNewBidirectionalStream. intros Hs.
  apply bind_Some in Hs as ([ok s1] & K1 & Hs). apply held_checkNewStream in K1.
  destruct ok; simpl in Hs; [|by sub].
  destruct (findNonDetachedStream id s1); [done|].
  apply bind_Some in Hs as ([r s2] & K2 & Hs). apply held_createStreamTransport in K2.
  apply bind_Some in Hs as (? & _ & Hs).
  apply bind_Some in Hs as (s3 & K3 & Hs). apply held_sock_call in K3. sub.
  transitivity (held s3); [done|congruence].
Qed.

Lemma held_onNewUnidirectionalStream id s s' :
  onNewUnidirectionalStream id s = Some s' → held s' = held s.
Proof.
  unfold onNewUnidirectionalStream. intros Hs.
  apply bind_Some in Hs as ([ok s1] & K1 & Hs). apply held_checkNewStream in K1.
  destruct ok; simpl in Hs; [|by sub].
  destruct (findControlStreamById id s1); [done|].
  apply held_sock_call in Hs. by rewrite Hs.
Qed.

Lemma held_newTransaction env handler quicStreamId s r s' :
  newTransaction env handler quicStreamId s = Some (r, s') → held s' = held s.
Proof.
  unfold newTransaction. intros Hs.
  destruct (_ || _); [by sub|].
  apply bind_Some in Hs as (k & _ & Hs).
  destruct (negb (good k)); [by sub|].
  destruct quicStreamId as [id|]; [|by sub].
  apply bind_Some in Hs as ([r1 s1] & K1 & Hs). apply held_createStreamTransport in K1.
  destruct r1 as [hqStream|]; [|by sub].
  apply bind_Some in Hs as (h & _ & Hs).
  apply bind_Some in Hs as (s3 & K3 & Hs). apply held_sock_call in K3. sub.
  rewrite K3, held_updStream. done.
Qed.

Lemma held_sendAbortImpl r code s s' :
  sendAbortImpl r code s = Some s' → held s' = held s.
Proof.
  unfold sendAbortImpl. intros Hs.
  apply bind_Some in Hs as (st & _ & Hs).
  apply bind_Some in Hs as (id & _ & Hs).
  apply bind_Some in Hs as (s1 & K1 & Hs). apply held_abortStream in K1. sub.
  by rewrite held_updStream.
Qed.

Lemma held_onResetStream r ingressStarted errorCode ex s s' :
  onResetStream r ingressStarted errorCode ex s = Some s' → held s' = held s.
Proof.
  unfold onResetStream. intros Hs. apply held_sendAbortImpl in Hs.
  by rewrite Hs, held_updStream.
Qed.

Lemma held_errorOnTransactionId id ex s : held (errorOnTransactionId id ex s) = held s.
Proof. unfold errorOnTransactionId. case_match; [apply held_updStream|done]. Qed.

Lemma held_readError ingressStarted id error s s' :
  readError ingressStarted id error s = Some s' → held s' = held s.
Proof.
  unfold readError. intros Hs. destruct error.
  - destruct (findNonDetachedStream id s); [|by sub].
    by apply held_onResetStream in Hs.
  - sub. apply held_errorOnTransactionId.
  - sub. apply held_errorOnTransactionId.
Qed.

Lemma held_readRequestStream id s s' :
  readRequestStream id s = Some s' → held s' = held s.
Proof.
  unfold readRequestStream. intros Hs.
  destruct (findIngressStream id false s).
  - apply bind_Some in Hs as (k & Ek & Hs).
    destruct (sock_read id k) as [readRes k1].
    pose proof (held_set_sock k k1 s Ek) as E1.
    destruct readRes as [e|[data eof]].
    + apply held_readError in Hs. congruence.
    + sub. rewrite <- E1. transitivity (held (updStream s0
        (λ st, set_readBuf (readBuf_ st ++ data) (set_readEOF eof st))
        (set_sock (Some k1) s))); [done|apply held_updStream].
  - apply bind_Some in Hs as (? & _ & Hs). by sub.
Qed.

Lemma held_readAvailable id s s' : readAvailable id s = Some s' → held s' = held s.
Proof.
  unfold readAvailable. intros Hs. destruct (_ <=? _); [by sub|].
  apply bind_Some in Hs as (s1 & K1 & Hs). apply held_readRequestStream in K1. sub.
  by rewrite held_scheduleLoopCallback, K1.
Qed.

Lemma held_processReadData_step codec id s s' :
  processReadData_step codec id s = Some s' → held s' = held s.
Proof.
  unfold processReadData_step. intros Hs.
  destruct (findIngressStream id true s); [|by sub].
  apply bind_Some in Hs as (st & _ & Hs).
  destruct (detached_ st); [sub; apply held_replaceStream|].
  destruct (stream_processReadData _ _) as [st1 blocked].
  destruct (negb blocked && readEOF_ st1).
  - apply bind_Some in Hs as (st2 & _ & Hs). sub. apply held_replaceStream.
  - sub. apply held_replaceStream.
Qed.

Lemma held_processReadData codec s s' :
  processReadData codec s = Some s' → held s' = held s.
Proof.
  unfold processReadData. intros Hs. apply bind_Some in Hs as (s1 & Hf & Hs). sub.
  apply (foldl_option_inv (λ x, held x = held s)) in Hf; [done| |done].
  intros x b x' Hx Hd. apply held_processReadData_step in Hd. congruence.
Qed.

Lemma released_checkForShutdown s s' :
  released s → checkForShutdown s = Some s' → released s'.
Proof. intros [R1 R2] Hs. by apply moves_checkForShutdown in Hs as [_ Hs]; apply Hs. Qed.

Lemma moves_runLoopCallback codec s s' : runLoopCallback codec s = Some s' → moves s s'.
Proof.
  unfold runLoopCallback. intros Hs.
  destruct (dropInNextLoop_ (set_loopCallbackScheduled false s)) as [[? proxygenError]|].
  - apply bind_Some in Hs as (s1 & K1 & Hs).
    apply moves_dropConnectionWithError in K1 as [K1|K1].
    + apply moves_checkForShutdown in Hs as [Hs _]. by eapply moves_held.
    + right. by eapply released_checkForShutdown.
  - apply bind_Some in Hs as (s1 & K1 & Hs). apply held_processReadData in K1.
    apply moves_checkForShutdown in Hs as [Hs _]. eapply moves_held; [|exact Hs].
    destruct (negb _); [rewrite held_scheduleLoopCallback|]; done.
Qed.

Lemma held_resumeReads streamId s s' : resumeReads streamId s = Some s' → held s' = held s.
Proof.
  unfold resumeReads. intros Hs. apply bind_Some in Hs as (s1 & K1 & Hs).
  apply held_sock_call in K1. sub. by rewrite held_scheduleLoopCallback.
Qed.

Lemma held_bindTo created pushId streamId s s' :
  bindTo created pushId streamId s = Some s' → held s' = held s.
Proof.
  unfold bindTo. intros Hs.
  apply bind_Some in Hs as (st & _ & Hs).
  apply bind_Some in Hs as (? & _ & Hs).
  apply bind_Some in Hs as (v & _ & Hs).
  apply bind_Some in Hs as (? & _ & Hs).
  apply bind_Some in Hs as (st1 & K1 & Hs).
  destruct (negb _); [done|].
  apply bind_Some in Hs as ([k1 st3] & _ & Hs).
  apply held_resumeReads in Hs. rewrite Hs.
  unfold initCodec in K1. apply bind_Some in K1 as (k & Ek & _).
  unfold held. simpl. by rewrite Ek.
Qed.

Lemma held_tryBindIngressStreamToTxn created pushId s b s' :
  tryBindIngressStreamToTxn created pushId s = Some (b, s') → held s' = held s.
Proof.
  unfold tryBindIngressStreamToTxn. intros Hs.
  destruct (lookup_by_push_id pushId (streamLookup_ s)); [|by sub].
  destruct (findIngressPushStreamByPushId pushId s); [|by sub].
  apply bind_Some in Hs as (s1 & K1 & Hs). apply held_bindTo in K1.
  apply bind_Some in Hs as (? & _ & Hs).
  apply bind_Some in Hs as (? & _ & Hs).
  apply bind_Some in Hs as (? & _ & Hs).
  destruct (_ && _); by sub.
Qed.

Lemma held_createIngressPushStream created detaches parentId pushId s s' :
  createIngressPushStream created detaches parentId pushId s = Some s' →
  held s' = held s.
Proof.
  unfold createIngressPushStream. intros Hs.
  destruct (findIngressPushStreamByPushId pushId s); [done|].
  apply fmap_Some in Hs as ([b s1] & K1 & ->).
  by apply held_tryBindIngressStreamToTxn in K1.
Qed.

Lemma held_onPushPromiseHeadersComplete created detaches parent pushID s s' :
  onPushPromiseHeadersComplete created detaches parent pushID s = Some s' →
  held s' = held s.
Proof.
  unfold onPushPromiseHeadersComplete. intros Hs.
  apply bind_Some in Hs as (s1 & K1 & Hs). apply held_createIngressPushStream in K1.
  sub. by rewrite !held_updStream.
Qed.

Lemma held_onNewPushStream pushStreamId pushId toConsume s s' :
  onNewPushStream pushStreamId pushId toConsume s = Some s' → held s' = held s.
Proof.
  unfold onNewPushStream. intros Hs.
  apply bind_Some in Hs as (s1 & K1 & Hs). apply held_sock_call in K1.
  apply bind_Some in Hs as (s2 & K2 & Hs). apply held_sock_call in K2.
  apply bind_Some in Hs as (s3 & K3 & Hs). apply held_sock_call in K3.
  apply bind_Some in Hs as (s4 & K4 & Hs). apply held_sock_call in K4.
  assert (s' = set_streamLookup
                 (streamLookup_push_back pushId pushStreamId (streamLookup_ s4)) s4)
    as -> by (by case_match; sub).
  transitivity (held s4); [done|congruence].
Qed.

Lemma released_sock_call op s : released s → sock_call op s = None.
Proof. intros [R _]. unfold sock_call. by rewrite R. Qed.

Lemma held_assignReadCallback id type toConsume s s' :
  assignReadCallback id type toConsume s = Some s' → held s' = held s.
Proof.
  unfold assignReadCallback, tryCreateIngressControlStream,
    createIngressControlStream, rejectStream. intros Hs.
  apply bind_Some in Hs as (s1 & K1 & Hs). apply held_sock_call in K1.
  apply bind_Some in Hs as ([ctrlStream s2] & K2 & Hs).
  apply bind_Some in K2 as (res & _ & K2).
  destruct res as [type'|].
  - apply bind_Some in K2 as ([c s3] & K3 & K2).
    apply bind_Some in K3 as (c0 & _ & K3).
    destruct (ingressCodec_ c0).
    + apply bind_Some in K3 as (s4 & K4 & K3). sub.
      apply moves_dropConnectionWithError in K4 as [K4|K4].
      * apply held_sock_call in Hs. congruence.
      * by rewrite released_sock_call in Hs.
    + apply bind_Some in K3 as (v & _ & K3).
      apply bind_Some in K3 as (codec & _ & K3). sub.
      apply bind_Some in K2 as (s4 & K4 & K2). apply held_sock_call in K4. sub.
      apply bind_Some in Hs as (s5 & K5 & Hs).
      apply held_sock_call in K5, Hs.
      rewrite Hs, K5, K4. done.
  - sub. apply held_sock_call in Hs. congruence.
Qed.

Lemma held_dispatcher_onDataAvailable id preface prefaceLen push s s' :
  dispatcher_onDataAvailable id preface prefaceLen push s = Some s' →
  held s' = held s.
Proof.
  unfold dispatcher_onDataAvailable, rejectStream. intros Hs.
  apply bind_Some in Hs as (type & _ & Hs). destruct type as [type|].
  - destruct (bool_decide (type = PUSH)).
    + destruct push as [[pushId pushIdLen]|]; [|by sub].
      by apply held_onNewPushStream in Hs.
    + by apply held_assignReadCallback in Hs.
  - apply bind_Some in Hs as (s1 & K1 & Hs). apply held_sock_call in K1. by sub.
Qed.

(** One event leaves the socket held as before, or lets go of it with the
    drain at its end. *)
Lemma step_moves ev s s' : step ev s = Some s' → moves s s'.
Proof.
  intros Hs. destruct ev; cbn [step] in Hs.
  - destruct (version_ s); [done|].
    apply fmap_Some in Hs as ([ok s1] & Hs & ->).
    by apply moves_onTransportReadyCommon in Hs.
  - left. by apply held_drainImpl in Hs.
  - by apply moves_closeWhenIdle in Hs.
  - by apply moves_dropConnectionWithError in Hs.
  - unfold onConnectionEnd in Hs. apply moves_closeWhenIdle in Hs.
    by eapply moves_held.
  - unfold timeoutExpired in Hs. destruct (negb _); [sub; apply moves_refl|].
    by apply moves_closeWhenIdle in Hs.
  - unfold HQControlStream_onGoaway in Hs. destruct (existsb _ _); [|done].
    by apply moves_onGoaway in Hs.
  - left. by apply held_onGoawayAck in Hs.
  - left. sub. apply held_HQControlStream_onCanceled.
  - left. by apply held_onNewBidirectionalStream in Hs.
  - left. by apply held_onNewUnidirectionalStream in Hs.
  - left. by apply held_dispatcher_onDataAvailable in Hs.
  - left. apply fmap_Some in Hs as ([r s1] & Hs & ->).
    by apply held_newTransaction in Hs.
  - left. by apply held_readAvailable in Hs.
  - left. by apply held_readError in Hs.
  - by apply moves_runLoopCallback in Hs.
  - left. by apply held_headersComplete in Hs.
  - left. by apply held_checkSendingGoaway in Hs.
  - left. by apply held_onPushPromiseHeadersComplete in Hs.
Qed.

Lemma drain_le_from_DONE d : drain_le DONE d = true → d = DONE.
Proof. by destruct d. Qed.

Lemma run_releaseInv evs :
  ∀ s s', drainInv s → releaseInv s → run evs s = Some s' → releaseInv s'.
Proof.
  induction evs as [|ev evs IH]; intros s s' I R Hs.
  { by injection Hs as <-. }
  cbn [run] in Hs. apply bind_Some in Hs as (s1 & K1 & Hs).
  destruct (step_drain _ _ _ I K1) as (I1 & D1 & _).
  apply (IH s1 s' I1); [|done]. clear IH Hs.
  apply step_moves in K1 as [K|[R1 R2]]; [|by split].
  destruct R as [Ra Rb]. split.
  - intros Hd. apply (held_None s s1 K). apply Ra.
    unfold held in K. injection K as _ E1 E2. by rewrite <- E1, <- E2.
  - intros S1. assert (sock_ s = None) as S0 by (by apply (held_None s1 s)).
    apply Rb in S0. rewrite S0 in D1. by apply drain_le_from_DONE.
Qed.

Lemma releaseInv_newSession direction sock : releaseInv (newSession direction sock).
Proof. split; [by intros [?|?]|done]. Qed.

(** In every run of a session from its creation, whatever the events,
    a session that was dropped or destroyed holds no socket any more, and
    a session holds no socket only with its drain at DONE, when it is not
    reusable. *)
Theorem socket_released_only_when_done (direction : TransportDirection)
    (sock : QuicSocket) (evs : list Event) (s : HQSession) :
  run evs (newSession direction sock) = Some s →
  (dropping_ s = true ∨ destroyed_ s = true → sock_ s = None) ∧
  (sock_ s = None → drainState_ s = DONE ∧ isReusable s = false).
Proof.
  intros Hs.
  destruct (run_releaseInv evs _ _ (drainInv_newSession direction sock)
              (releaseInv_newSession direction sock) Hs) as [Ra Rb].
  split; [exact Ra|]. intros S0. apply Rb in S0. split; [done|].
  unfold isReusable, isClosing. by rewrite S0.
Qed.

(** Once a session is closing (its drain has begun, or it is being
    dropped) it stays closing, whatever happens next: no event makes it
    reusable again. *)
Theorem closing_is_permanent (direction : TransportDirection) (sock : QuicSocket)
    (before after : list Event) (s s' : HQSession) :
  run before (newSession direction sock) = Some s →
  run after s = Some s' →
  isClosing s = true →
  isClosing s' = true ∧ isReusable s' = false.
Proof.
  intros K1 K2 C.
  destruct (run_drain before _ _ (drainInv_newSession direction sock) K1) as [I _].
  destruct (run_drain after _ _ I K2) as (_ & D & _).
  assert (drainState_ s ≠ NONE) as N.
  { unfold isClosing in C. apply orb_prop in C as [C|C].
    - by apply negb_true_iff, bool_decide_eq_false in C.
    - destruct (run_releaseInv before _ _ (drainInv_newSession direction sock)
                  (releaseInv_newSession direction sock) K1) as [Ra Rb].
      rewrite Rb; [done|]. apply Ra. by left. }
  assert (drainState_ s' ≠ NONE) as N'.
  { intros E. rewrite E in D. by destruct (drainState_ s). }
  unfold isReusable, isClosing. rewrite (bool_decide_eq_false_2 _ N'). done.
Qed.

End Release.

Section Examples_Release.

#[local] Existing Instance exampleCodes.

(** A downstream HTTP/3 session with a request, dropped. *)
Lemma socket_released_only_when_done_witness :
  ∃ s, run [TransportReady kErrorConnect (Some "h3-20") (Some 3) (Some 7) (Some 11) orderly;
            NewBidirectionalStream exampleStreamEnv 0;
            DropConnection]
         (newSession DOWNSTREAM newSocket) = Some s ∧
       dropping_ s = true ∧ sock_ s = None ∧ drainState_ s = DONE ∧
       isReusable s = false.
Proof.
  set (evs := [TransportReady kErrorConnect (Some "h3-20") (Some 3) (Some 7) (Some 11)
                 orderly;
               NewBidirectionalStream exampleStreamEnv 0; DropConnection]).
  assert (run evs (newSession DOWNSTREAM newSocket)
          = Some (the (run evs (newSession DOWNSTREAM newSocket)))) as R
    by (vm_compute; reflexivity).
  exists (the (run evs (newSession DOWNSTREAM newSocket))).
  destruct (socket_released_only_when_done DOWNSTREAM newSocket evs _ R) as [Ra Rb].
  assert (dropping_ (the (run evs (newSession DOWNSTREAM newSocket))) = true) as Dr
    by (vm_compute; reflexivity).
  pose proof (Ra (or_introl Dr)) as S0. destruct (Rb S0) as [D Re].
  by split_and!.
Defined.

(** An upstream session that was asked to drain stays closing when its
    request is answered with an error and the loop callback runs. *)
Lemma closing_is_permanent_witness :
  ∃ s s',
    run [TransportReady kErrorConnect (Some "h3-20") (Some 2) (Some 6) (Some 10) orderly;
         NewTransaction exampleStreamEnv (Some 1%nat) (Some 0);
         Drain orderly]
      (newSession UPSTREAM newSocket) = Some s ∧
    run [ReadError true 0 (LocalError CONNECT_FAILED); LoopCallback quietCodec] s
    = Some s' ∧
    isClosing s = true ∧ isClosing s' = true ∧ isReusable s' = false.
Proof.
  set (evs := [TransportReady kErrorConnect (Some "h3-20") (Some 2) (Some 6) (Some 10)
                 orderly;
               NewTransaction exampleStreamEnv (Some 1%nat) (Some 0); Drain orderly]).
  set (evs' := [ReadError true 0 (LocalError CONNECT_FAILED); LoopCallback quietCodec]).
  set (s := the (run evs (newSession UPSTREAM newSocket))).
  assert (run evs (newSession UPSTREAM newSocket) = Some s) as R
    by (vm_compute; reflexivity).
  assert (run evs' s = Some (the (run evs' s))) as R' by (vm_compute; reflexivity).
  assert (isClosing s = true) as C by (vm_compute; reflexivity).
  exists s, (the (run evs' s)).
  destruct (closing_is_permanent UPSTREAM newSocket evs evs' s _ R R' C) as [C' Re].
  by split_and!.
Defined.

End Examples_Release.

(** ** The socket driver of the tests: opening streams *)

Lemma land_1_mod4 id : Z.land id 1 = Z.land (id mod 4) 1.
Proof.
  change 1 with (Z.land 3 1) at 1. rewrite Z.land_assoc.
  change 3 with (Z.ones 2). by rewrite Z.land_ones.
Qed.

Lemma land_2_mod4 id : Z.land id 2 = Z.land (id mod 4) 2.
Proof.
  change 2 with (Z.land 3 2) at 1. rewrite Z.land_assoc.
  change 3 with (Z.ones 2). by rewrite Z.land_ones.
Qed.

Lemma wrap64_mod4 n : wrap64 (n + 4) mod 4 = n mod 4.
Proof.
  unfold wrap64. rewrite Z.mod_mod_divide by (by exists (2 ^ 62)).
  rewrite <- Z.add_mod_idemp_r by lia. change (4 mod 4) with 0.
  by rewrite Z.add_0_r.
Qed.

(** The counters of the driver keep the two low bits they were given by
    the constructor. *)
Lemma opens_counters transportType credit l :
  let d := Driver.opens l (Driver.create transportType credit) in
  Driver.transportType_ d = transportType ∧
  Driver.nextBidirectionalStreamId_ d mod 4
  = (if bool_decide (transportType = Driver.SERVER) then 1 else 0) ∧
  Driver.nextUnidirectionalStreamId_ d mod 4
  = (if bool_decide (transportType = Driver.SERVER) then 3 else 2).
Proof.
  unfold Driver.opens. apply (foldl_inv (λ d,
    Driver.transportType_ d = transportType ∧
    Driver.nextBidirectionalStreamId_ d mod 4
    = (if bool_decide (transportType = Driver.SERVER) then 1 else 0) ∧
    Driver.nextUnidirectionalStreamId_ d mod 4
    = (if bool_decide (transportType = Driver.SERVER) then 3 else 2))).
  - intros d o (Ht & Hb & Hu). destruct o; simpl.
    + split_and!; [done| |done]. by rewrite wrap64_mod4.
    + unfold Driver.createUnidirectionalStream.
      destruct (_ <=? _); simpl; [done|].
      split_and!; [done|done|]. by rewrite wrap64_mod4.
  - simpl. by destruct transportType.
Qed.

(** Whatever streams were opened on the driver before, and also once
    its 64-bit counters have wrapped around, a stream the driver opens is
    one its user may write on: [createBidirectionalStream] gives a
    bidirectional stream initiated by the driver's side, and
    [createUnidirectionalStream], when it grants a stream, gives a sending
    stream of that side, which passes [checkNotReadOnlyStream] (and fails
    [checkNotWriteOnlyStream]); a session of the same side takes it for a
    unidirectional stream of its own. *)
Theorem driver_opens_own_streams (transportType : Driver.TransportEnum) (credit : Z)
    (before : list Driver.Open) :
  let d := Driver.opens before (Driver.create transportType credit) in
  (let id := (Driver.createBidirectionalStream d).1 in
   isBidirectionalStream id = true ∧
   isServerStream id = bool_decide (transportType = Driver.SERVER) ∧
   Driver.checkNotReadOnlyStream d id = true ∧
   Driver.checkNotWriteOnlyStream d id = true) ∧
  (∀ id, (Driver.createUnidirectionalStream d).1 = Some id →
     Driver.isSendingStream d id = true ∧
     Driver.checkNotReadOnlyStream d id = true ∧
     Driver.checkNotWriteOnlyStream d id = false ∧
     ∀ s, (direction_ s = DOWNSTREAM ↔ transportType = Driver.SERVER) →
          isSelfUniStream s id = true ∧ isPeerUniStream s id = false).
Proof.
  intros d. destruct (opens_counters transportType credit before) as (Ht & Hb & Hu).
  fold d in Ht, Hb, Hu. split.
  - cbn [Driver.createBidirectionalStream fst].
    unfold Driver.checkNotReadOnlyStream, Driver.checkNotWriteOnlyStream,
      Driver.isReceivingStream, Driver.isSendingStream,
      isUnidirectionalStream, isBidirectionalStream, isServerStream, isClientStream.
    rewrite land_1_mod4, land_2_mod4, Hb, Ht.
    by destruct transportType.
  - intros id E. unfold Driver.createUnidirectionalStream in E.
    destruct (_ <=? _); [done|]. injection E as <-.
    unfold Driver.checkNotReadOnlyStream, Driver.checkNotWriteOnlyStream,
      Driver.isReceivingStream, Driver.isSendingStream, isSelfUniStream,
      isPeerUniStream,
      isUnidirectionalStream, isBidirectionalStream, isServerStream, isClientStream.
    rewrite land_1_mod4, land_2_mod4, Hu, Ht.
    split_and!; try by destruct transportType.
    intros s Hd. destruct transportType, (direction_ s) eqn:Ed;
      first [discriminate (proj1 Hd eq_refl) | discriminate (proj2 Hd eq_refl) | done].
Qed.

(** ** Clearing the callbacks of the pending streams *)

Section Cleanup.
Context `{codes : StreamTypeCodes}.

Lemma foldl_clearStreamCallbacks ids : ∀ s k,
  sock_ s = Some k →
  ∃ k', foldl (λ acc id, clearStreamCallbacks id acc) s ids = set_sock (Some k') s ∧
        sockOps k' = sockOps k ++
          flat_map (λ id, [OpSetReadCallback id None; OpSetPeekCallback id None]) ids.
Proof.
  induction ids as [|id ids IH]; intros s k K; simpl.
  - exists k. split; [|by rewrite app_nil_r]. by destruct s; simpl in *; subst.
  - unfold clearStreamCallbacks at 2. rewrite K.
    destruct (IH (set_sock (Some (sock_do (OpSetPeekCallback id None)
                                    (sock_do (OpSetReadCallback id None) k))) s) _ eq_refl)
      as (k' & -> & L).
    exists k'. split; [done|]. rewrite L. simpl. by rewrite <- !app_assoc.
Qed.

(** [CleanupPendingStreams] clears the read and peek callbacks of a
    stream exactly when the dispatcher still holds the stream, or the
    stream is in the push lookup and no ingress push stream is registered
    under the stream's own id taken as a push id (the push id of the entry
    is not looked at).  Nothing else of the session changes. *)
Theorem cleanup_tests_stream_id_as_push_id (s : HQSession) (id : StreamId) :
  is_Some (sock_ s) →
  let s' := cleanupPendingStreams s in
  let calls := drop (length (sockLog s)) (sockLog s') in
  (OpSetReadCallback id None ∈ calls ↔
   id ∈ dispatcherPending_ s ∨
   ∃ pushId, (pushId, id) ∈ streamLookup_ s ∧ ingressPushStreams_ s !! id = None) ∧
  (OpSetPeekCallback id None ∈ calls ↔ OpSetReadCallback id None ∈ calls) ∧
  tables s' = tables s ∧ core s' = core s.
Proof.
  intros [k K] s' calls. unfold s', cleanupPendingStreams in calls |- *.
  set (ids := dispatcherPending_ s ++ _) in *.
  destruct (foldl_clearStreamCallbacks ids s k K) as (k' & E & L).
  assert (calls = flat_map (λ id, [OpSetReadCallback id None; OpSetPeekCallback id None])
                    ids) as ->.
  { unfold calls. rewrite E. unfold sockLog. rewrite K. simpl.
    by rewrite L, drop_app_length. }
  assert (∀ op, op ∈ flat_map (λ id, [OpSetReadCallback id None; OpSetPeekCallback id None])
                       ids
                ↔ ∃ i, i ∈ ids ∧ (op = OpSetReadCallback i None ∨
                                   op = OpSetPeekCallback i None)) as F.
  { intros op. clear. induction ids as [|i0 ids IH]; simpl.
    - split; [by intros ?%elem_of_nil|by intros (i & ?%elem_of_nil & _)].
    - rewrite !elem_of_cons, IH. split.
      + intros [->|[->|(i & Ii & Ho)]];
          [exists i0|exists i0|exists i]; rewrite elem_of_cons; eauto.
      + intros (i & [->|Ii]%elem_of_cons & Ho); [destruct Ho; eauto|eauto 6]. }
  assert (id ∈ ids ↔ id ∈ dispatcherPending_ s ∨
            ∃ pushId, (pushId, id) ∈ streamLookup_ s ∧ ingressPushStreams_ s !! id = None)
    as I.
  { unfold ids. rewrite elem_of_app, list_elem_of_omap. split.
    - intros [?|([p i] & In & Hm)]; [by left|right]. simpl in Hm.
      destruct (ingressPushStreams_ s !! i) eqn:Ei; [done|]. injection Hm as ->.
      by exists p.
    - intros [?|(p & In & Hn)]; [by left|right]. exists (p, id). split; [done|].
      simpl. by rewrite Hn. }
  rewrite E. split_and!; try done.
  - rewrite F, <- I. split; [|by eauto].
    by intros (i & Ii & [[= ->]|[=]]).
  - rewrite !F. split.
    + intros (i & Ii & [[=]|[= ->]]). eauto.
    + intros (i & Ii & [[= ->]|[=]]). eauto.
Qed.

End Cleanup.

Section Examples_Cleanup.

#[local] Existing Instance exampleCodes.

(** The push stream of push 4 is bound to the stream 15; no push stream
    has the push id 15, and the callbacks of the stream 15 are cleared. *)
Lemma cleanup_tests_stream_id_as_push_id_witness :
  let s := the (run [nascentPush; promisePush] requestingUpstreamH3) in
  is_Some (sock_ s) ∧
  (ingressStreamId_ <$> ingressPushStreams_ s !! 4) = Some (Some 15) ∧
  OpSetReadCallback 15 None
    ∈ drop (length (sockLog s)) (sockLog (cleanupPendingStreams s)).
Proof.
  intros s.
  assert (is_Some (sock_ s)) as K by (vm_compute; by eexists).
  split; [exact K|]. split; [by vm_compute|].
  apply (proj1 (cleanup_tests_stream_id_as_push_id s 15 K)).
  right. exists 4. split; [|by vm_compute].
  assert (streamLookup_ s = [(4, 15)]) as -> by (vm_compute; reflexivity).
  apply elem_of_cons. by left.
Defined.

End Examples_Cleanup.

(** ** Reads that wait for a detached stream *)

Section DetachedReads.
Context `{codes : StreamTypeCodes}.

Lemma findIngressStream_request id s :
  requestStreamsOnly s →
  findIngressStream id true s = (_ ← streams_ s !! id; Some (RequestStream id)).
Proof.
  intros (_ & _ & L & _). unfold findIngressStream, findStreamImpl, findIngressPushStream.
  rewrite L. destruct (streams_ s !! id) as [st|] eqn:E; cbn; [|done]. by rewrite E.
Qed.

Lemma set_streams_same s : set_streams (streams_ s) s = s.
Proof. by destruct s. Qed.

(** The step of [processReadData] for a stream that is detached, or
    gone. *)
Lemma processReadData_step_detached codec id s :
  requestStreamsOnly s →
  (∀ st, streams_ s !! id = Some st → detached_ st = true) →
  processReadData_step codec id s
  = Some (set_streams (alter discarded id (streams_ s)) s).
Proof.
  intros W D.
  unfold processReadData_step. rewrite (findIngressStream_request id s W).
  unfold StreamId in *.
  destruct (streams_ s !! id) as [st|] eqn:E; cbn.
  - unfold getStream. unfold StreamId in *. rewrite E. cbn.
    rewrite (D st eq_refl). unfold replaceStream. rewrite (D st eq_refl).
    cbn. do 2 f_equal. apply map_eq. intros j. destruct (decide (j = id)) as [->|N].
    + by rewrite lookup_insert_eq, lookup_alter_eq, E.
    + by rewrite lookup_insert_ne, lookup_alter_ne.
  - f_equal. rewrite <- (set_streams_same s) at 1. f_equal. apply map_eq. intros j.
    destruct (decide (j = id)) as [->|N].
    + by rewrite lookup_alter_eq, E.
    + by rewrite lookup_alter_ne.
Qed.

Lemma discarded_idemp st : discarded (discarded st) = discarded st.
Proof. done. Qed.

Lemma foldl_processReadData_detached codec ids : ∀ s,
  requestStreamsOnly s →
  Forall (λ id, ∀ st, streams_ s !! id = Some st → detached_ st = true) ids →
  ∃ m, foldl (λ acc id, a ← acc; processReadData_step codec id a) (Some s) ids
       = Some (set_streams m s) ∧
       ∀ j, m !! j = (if bool_decide (j ∈ ids) then discarded <$> streams_ s !! j
                      else streams_ s !! j).
Proof.
  induction ids as [|id ids IH]; intros s W D.
  - exists (streams_ s). by rewrite set_streams_same.
  - apply Forall_cons in D as [D0 D]. cbn [foldl mbind option_bind].
    rewrite (processReadData_step_detached codec id s W D0).
    set (s1 := set_streams (alter discarded id (streams_ s)) s).
    assert (∀ j, streams_ s1 !! j = (if bool_decide (j = id)
                                      then discarded <$> streams_ s !! j
                                      else streams_ s !! j)) as L1.
    { intros j. unfold s1. cbn. case_bool_decide as Ej.
      - subst j. by rewrite lookup_alter_eq.
      - by rewrite lookup_alter_ne. }
    destruct (IH s1) as (m & -> & Lm).
    + destruct W as (A & B & C & F). unfold s1. split_and!; try done. cbn.
      intros j st. change (alter discarded id (streams_ s)) with (streams_ s1).
      rewrite L1. case_bool_decide; [|by apply F].
      destruct (streams_ s !! j) as [st0|] eqn:E0; [|done].
      intros [= <-]. by apply (F j st0).
    + eapply Forall_impl; [exact D|]. intros j Dj st. rewrite L1.
      case_bool_decide; [|by apply Dj].
      destruct (streams_ s !! j) as [st0|] eqn:E0; [|done].
      intros [= <-]. by apply (Dj st0).
    + exists m. split; [by destruct s|]. intros j. rewrite Lm, L1.
      destruct (decide (j = id)) as [->|N].
      * rewrite (bool_decide_eq_true_2 (id ∈ id :: ids)) by (apply elem_of_cons; by left).
        rewrite (bool_decide_eq_true_2 (id = id)) by done.
        unfold StreamId in *.
        destruct (bool_decide (id ∈ ids)); by destruct (streams_ s !! id).
      * rewrite (bool_decide_eq_false_2 (j = id)) by done.
        apply (f_equal (λ b : bool, if b then _ else _)).
        apply bool_decide_ext. rewrite elem_of_cons. split; [by right|by intros [?|?]].
Qed.

(** [processReadData] when the reads that wait are for streams whose
    transactions have let go of them, or for streams that are gone: the
    buffered bytes and the end-of-stream mark of each such stream are
    thrown away, without a call to the codec or to the transaction; every
    other stream and every other member of the session is left as it is;
    and the pending set is empty afterwards. *)
Theorem processReadData_discards_detached_reads (codec : CodecEnv) (s : HQSession) :
  requestStreamsOnly s →
  pendingDetached s →
  ∃ m, processReadData codec s
       = Some (set_pendingProcessReadSet [] (set_streams m s)) ∧
    (∀ id, m !! id = (if bool_decide (id ∈ pendingProcessReadSet_ s)
                      then discarded <$> streams_ s !! id
                      else streams_ s !! id)) ∧
    (∀ id st, id ∈ pendingProcessReadSet_ s → streams_ s !! id = Some st →
       ∃ st', m !! id = Some st' ∧
         readBuf_ st' = [] ∧ readEOF_ st' = false ∧
         codecCalls st' = codecCalls st ∧ txn_ st' = txn_ st ∧
         detached_ st' = true).
Proof.
  intros W P. unfold processReadData.
  destruct (foldl_processReadData_detached codec (pendingProcessReadSet_ s) s W P)
    as (m & E & Lm).
  rewrite E. cbn [mbind option_bind]. exists m. split; [done|]. split; [exact Lm|].
  intros id st I E0. rewrite Lm, bool_decide_eq_true_2 by done.
  unfold StreamId in *. rewrite E0. cbn. eexists. split; [done|].
  unfold pendingDetached in P. rewrite Forall_forall in P.
  pose proof (P id I st E0) as Dt. by split_and!.
Qed.

End DetachedReads.

Section Examples_DetachedReads.

#[local] Existing Instance exampleCodes.

(** The bytes 1, 2, 3 read from stream 0 wait in its buffer when its
    transaction lets go of the stream; [processReadData] throws them away
    and leaves stream 4 alone. *)
Lemma processReadData_discards_detached_reads_witness :
  let s := detachedReaderH3 in
  pendingProcessReadSet_ s = [0] ∧
  (readBuf_ <$> streams_ s !! 0) = Some [1; 2; 3] ∧
  ∃ m st', processReadData quietCodec s
           = Some (set_pendingProcessReadSet [] (set_streams m s)) ∧
    m !! 0 = Some st' ∧ readBuf_ st' = [] ∧ readEOF_ st' = false ∧
    m !! 4 = streams_ s !! 4.
Proof.
  intros s.
  assert (requestStreamsOnly s) as W.
  { split_and!; try (vm_compute; reflexivity).
    apply map_Forall_to_list. vm_compute. repeat constructor. }
  assert (pendingProcessReadSet_ s = [0]) as Hp by (vm_compute; reflexivity).
  assert (pendingDetached s) as P.
  { unfold pendingDetached. rewrite Hp.
    constructor; [|constructor]. intros st E.
    vm_compute in E. injection E as <-. reflexivity. }
  split; [exact Hp|]. split; [vm_compute; reflexivity|].
  destruct (processReadData_discards_detached_reads quietCodec s W P)
    as (m & E & L & D).
  destruct (streams_ s !! 0) as [st|] eqn:E0; [|by vm_compute in E0].
  destruct (D 0 st) as (st' & M0 & R & F & _);
    [rewrite Hp; apply elem_of_cons; by left | exact E0 |].
  exists m, st'. split; [exact E|]. split; [exact M0|]. split; [exact R|].
  split; [exact F|]. rewrite L, Hp. rewrite bool_decide_eq_false_2; [reflexivity|].
  intros I%elem_of_cons. destruct I as [I|I%elem_of_nil]; done.
Defined.

End Examples_DetachedReads.

(** ** The streams accepted and the stream id of the GOAWAY *)

Section Cover.
Context `{codes : StreamTypeCodes}.

Ltac sub :=
  repeat match goal with
         | H : Some _ = Some _ |- _ => injection H as H
         | H : (_, _) = (_, _) |- _ => injection H as ? ?
         | H : ?x = _ |- _ => is_var x; subst x
         | H : _ = ?x |- _ => is_var x; subst x
         | H : None = Some _ |- _ => discriminate H
         | H : Some _ = None |- _ => discriminate H
         | H : true = false |- _ => discriminate H
         | H : false = true |- _ => discriminate H
         end.

Lemma within_refl s : within s s.
Proof. by split. Qed.

Lemma within_trans s1 s2 s3 : within s1 s2 → within s2 s3 → within s1 s3.
Proof. intros [A1 B1] [A2 B2]. split; [congruence|]. intros id I. by apply B1, B2. Qed.

Lemma within_same s s' :
  maxIncomingStreamId_ s' = maxIncomingStreamId_ s → streams_ s' = streams_ s →
  within s s'.
Proof. intros A B. split; [done|]. intros id. by rewrite B. Qed.

(** Closing a chain of steps. *)
Ltac chain :=
  repeat match goal with
         | H : within ?a ?b |- within ?a ?c =>
             first [exact H | apply (within_trans a b c H)]
         end;
  first [apply within_refl | by apply within_same | idtac].

Lemma within_scheduleLoopCallback b s : within s (scheduleLoopCallback b s).
Proof. unfold scheduleLoopCallback. repeat case_match; by apply within_same. Qed.

Lemma within_putStream r st s :
  is_Some (getStream r s) → within s (putStream r st s).
Proof.
  intros G. destruct r; try by apply within_same. split; [done|]. intros i. cbn.
  destruct (decide (i = id)) as [->|N]; [done|]. by rewrite lookup_insert_ne.
Qed.

Lemma within_replaceStream r st st' s :
  is_Some (getStream r s) → within s (replaceStream r st st' s).
Proof.
  intros G. unfold replaceStream.
  pose proof (within_putStream r st' s G). case_match; [|done].
  eapply within_trans; [done|]. apply within_scheduleLoopCallback.
Qed.

Lemma within_updStream r f s : within s (updStream r f s).
Proof.
  unfold updStream. destruct (getStream r s) eqn:E; [|apply within_refl].
  apply within_replaceStream. by rewrite E.
Qed.

Lemma within_foldl_updStream {A} (f : A → StreamRef) g l s :
  within s (foldl (λ acc x, updStream (f x) (g x) acc) s l).
Proof.
  apply (foldl_inv (λ x, within s x)); [|apply within_refl].
  intros x b W. eapply within_trans; [exact W|]. apply within_updStream.
Qed.

Lemma within_sock_call op s s' : sock_call op s = Some s' → within s s'.
Proof.
  unfold sock_call. intros Hs. apply bind_Some in Hs as (k & _ & Hs). sub.
  by apply within_same.
Qed.

Lemma within_scheduleWrite s s' : scheduleWrite s = Some s' → within s s'.
Proof.
  unfold scheduleWrite. destruct (scheduledWrite_ s); intros Hs; [sub; apply within_refl|].
  apply within_sock_call in Hs. eapply within_trans; [|exact Hs]. by apply within_same.
Qed.

Lemma within_ctrl_write type f s s' : ctrl_write type f s = Some s' → within s s'.
Proof.
  unfold ctrl_write. intros Hs. apply bind_Some in Hs as (c & _ & Hs). sub.
  by apply within_same.
Qed.

Lemma within_versionUtils_abortStream id s s' :
  versionUtils_abortStream id s = Some s' → within s s'.
Proof.
  unfold versionUtils_abortStream. intros Hs.
  apply bind_Some in Hs as (v & _ & Hs). destruct v; sub; try apply within_refl.
  apply bind_Some in Hs as (s1 & K1 & Hs).
  apply within_ctrl_write in K1. apply within_scheduleWrite in Hs. chain.
Qed.

Lemma within_abortStream dir id err s s' :
  abortStream dir id err s = Some s' → within s s'.
Proof.
  unfold abortStream. intros Hs.
  apply bind_Some in Hs as (k & _ & Hs).
  apply bind_Some in Hs as (s1 & K1 & Hs).
  assert (within s s1) as W1.
  { clear Hs. destruct (_ && _); [|sub; apply within_refl].
    apply bind_Some in K1 as (s0 & K0 & K1).
    apply within_versionUtils_abortStream in K0. apply within_sock_call in K1. chain. }
  clear K1. destruct (_ && _); [apply within_sock_call in Hs|sub]; chain.
Qed.

Lemma within_checkNewStream id s ok s' :
  checkNewStream id s = Some (ok, s') → within s s'.
Proof.
  unfold checkNewStream, H1QFBV1_checkNewStream, GoawayUtils_checkNewStream.
  intros Hs. apply bind_Some in Hs as (v & _ & Hs).
  destruct v; repeat case_match; sub; try apply within_refl;
    apply bind_Some in Hs as (s1 & K1 & Hs); sub;
    by apply within_abortStream in K1.
Qed.

Lemma within_clearStreamCallbacks id s : within s (clearStreamCallbacks id s).
Proof. unfold clearStreamCallbacks. case_match; by apply within_same. Qed.

Lemma within_cleanupPendingStreams s : within s (cleanupPendingStreams s).
Proof.
  unfold cleanupPendingStreams.
  apply (foldl_inv (λ x, within s x)); [|apply within_refl].
  intros x b W. eapply within_trans; [exact W|]. apply within_clearStreamCallbacks.
Qed.

Lemma within_delete id s s' :
  maxIncomingStreamId_ s' = maxIncomingStreamId_ s →
  streams_ s' = delete id (streams_ s) → within s s'.
Proof.
  intros A B. split; [done|]. intros i. rewrite B. intros [st I].
  apply lookup_delete_Some in I as [_ I]. by eexists.
Qed.

Lemma within_eraseStream id s b s' : eraseStream id s = Some (b, s') → within s s'.
Proof.
  unfold eraseStream. intros Hs.
  repeat (simplify_option_eq || case_match); by apply (within_delete id).
Qed.

Lemma within_eraseStreamByPushId p s b s' :
  eraseStreamByPushId p s = Some (b, s') → within s s'.
Proof.
  unfold eraseStreamByPushId. intros Hs.
  repeat (simplify_option_eq || case_match); by apply within_same.
Qed.

Lemma within_detachStreamTransport r s s' :
  detachStreamTransport r s = Some s' → within s s'.
Proof.
  unfold detachStreamTransport. intros Hs.
  apply bind_Some in Hs as (st & _ & Hs).
  apply bind_Some in Hs as (s1 & E1 & Hs).
  assert (within s s1) as W1.
  { clear Hs. destruct (hasIngressStreamId st || hasEgressStreamId st).
    - apply bind_Some in E1 as (id & _ & E1).
      apply bind_Some in E1 as (? & _ & E1).
      apply fmap_Some in E1 as ([b s2] & E1 & ->). simpl.
      apply within_eraseStream in E1. eapply within_trans; [|exact E1].
      case_match; [apply within_clearStreamCallbacks|apply within_refl].
    - destruct r; try done.
      apply fmap_Some in E1 as ([b s2] & E1 & ->). simpl.
      by apply within_eraseStreamByPushId in E1. }
  sub. eapply within_trans; [exact W1|].
  destruct (bool_decide (numberOfStreams _ = _));
    [apply within_cleanupPendingStreams|apply within_refl].
Qed.

Lemma within_checkForDetach r s s' : checkForDetach r s = Some s' → within s s'.
Proof.
  unfold checkForDetach. intros Hs. repeat case_match; sub; try apply within_refl.
  by eapply within_detachStreamTransport.
Qed.

Lemma within_checkForShutdown s s' : checkForShutdown s = Some s' → within s s'.
Proof.
  unfold checkForShutdown. intros Hs.
  set (s1 := if negb (bool_decide (version_ s = Some H1Q_FB_V1)) && _ && _
             then _ else s) in Hs.
  assert (within s s1) as W1 by (unfold s1; case_match; by apply within_same).
  apply bind_Some in Hs as (s2 & Hf & Hs).
  apply (foldl_option_inv (λ x, within s x)) in Hf; [|clear Hf|exact W1].
  2:{ intros x b x' Hx Hd. apply within_checkForDetach in Hd. chain. }
  eapply within_trans; [exact Hf|].
  destruct (_ && _ && negb _); sub; [|apply within_refl].
  destruct (sock_ s2); by apply within_same.
Qed.

Lemma within_dropConnectionWithError proxygenError s s' :
  dropConnectionWithError proxygenError s = Some s' → within s s'.
Proof.
  unfold dropConnectionWithError. destruct (dropping_ s); intros Hs;
    [sub; apply within_refl|].
  apply bind_Some in Hs as (s2 & K2 & Hs).
  apply bind_Some in Hs as (s3 & K3 & Hs).
  destruct (bool_decide (numberOfStreams s3 = 0%nat)); sub.
  apply within_checkForShutdown in K3.
  eapply within_trans; [|exact K3].
  eapply (within_trans _ s2); [|by apply within_same].
  destruct (bool_decide (numberOfStreams _ = 0%nat)); sub; [by apply within_same|].
  apply bind_Some in K2 as (k & _ & K2). sub.
  eapply within_trans; [|apply within_foldl_updStream]. by apply within_same.
Qed.

Lemma within_GoawayUtils_sendGoaway env s s' :
  GoawayUtils_sendGoaway env s = Some s' → within s s'.
Proof.
  unfold GoawayUtils_sendGoaway. intros Hs.
  destruct (bool_decide (direction_ s = UPSTREAM)); [sub; apply within_refl|].
  destruct (bool_decide (drainState_ s = DONE)); [sub; apply within_refl|].
  destruct (negb _); [done|].
  apply bind_Some in Hs as (c & _ & Hs).
  apply bind_Some in Hs as (s1 & E1 & Hs).
  apply bind_Some in Hs as (k & _ & Hs).
  assert (within s s1) as W1.
  { clear Hs. destruct (generated env =? 0);
      [sub; apply within_refl|by apply within_ctrl_write in E1]. }
  clear E1. eapply within_trans; [exact W1|]. clear W1.
  destruct (writeOffset env), (writeBufferedBytes env); try (sub; by apply within_same).
  destruct (generated env =? 0); [sub; by apply within_same|].
  apply bind_Some in Hs as (s2 & E2 & Hs). apply within_sock_call in E2.
  eapply within_trans; [exact E2|].
  destruct (negb (registered env)); [sub; by apply within_same|].
  apply bind_Some in Hs as (s3 & E3 & Hs). apply within_scheduleWrite in E3.
  eapply within_trans; [exact E3|]. sub. case_match; by apply within_same.
Qed.

Lemma within_sendGoaway env s s' : sendGoaway env s = Some s' → within s s'.
Proof.
  unfold sendGoaway. intros Hs. apply bind_Some in Hs as (v & _ & Hs).
  destruct v; try by apply within_GoawayUtils_sendGoaway in Hs.
  sub. split; [done|]. intros id I.
  change (streams_ (H1QFBV1_sendGoaway s)) with (generateGoaway <$> streams_ s) in I.
  rewrite lookup_fmap in I. destruct I as [st I].
  apply fmap_Some in I as (st0 & I & _). by eexists.
Qed.

Lemma within_drainImpl env s s' : drainImpl env s = Some s' → within s s'.
Proof.
  unfold drainImpl. intros Hs. repeat case_match; sub; try apply within_refl.
  - apply within_sendGoaway in Hs. eapply within_trans; [|exact Hs]. by apply within_same.
  - by apply within_same.
Qed.

Lemma within_closeWhenIdle env s s' : closeWhenIdle env s = Some s' → within s s'.
Proof.
  unfold closeWhenIdle. intros Hs. apply bind_Some in Hs as (s1 & K1 & Hs).
  apply within_drainImpl in K1. apply within_checkForShutdown in Hs.
  eapply within_trans; [exact K1|]. eapply within_trans; [|exact Hs].
  eapply within_trans; [|apply within_cleanupPendingStreams].
  case_match; by apply within_same.
Qed.

Lemma within_onGoaway env lastGoodStreamID s s' :
  onGoaway env lastGoodStreamID s = Some s' → within s s'.
Proof.
  unfold onGoaway. intros Hs.
  destruct (negb _); [done|]. destruct (bool_decide (version_ s = _)); [done|].
  apply bind_Some in Hs as (s2 & K2 & Hs). apply within_drainImpl in K2.
  set (s3 := foldl _ s2 (nonDetachedStreams s2)) in Hs.
  assert (within s2 s3) as W3 by apply (within_foldl_updStream (λ r : StreamRef, r)).
  clearbody s3. apply within_checkForShutdown in Hs.
  eapply within_trans; [by apply within_same|]. eapply within_trans; [exact K2|].
  eapply within_trans; [exact W3|]. eapply within_trans; [|exact Hs].
  repeat case_match; by apply within_same.
Qed.

Lemma within_onGoawayAck env s s' : onGoawayAck env s = Some s' → within s s'.
Proof.
  unfold onGoawayAck. intros Hs. apply bind_Some in Hs as (s1 & K1 & Hs). sub.
  eapply within_trans; [|apply within_scheduleLoopCallback].
  repeat case_match; sub; try by apply within_same.
  by apply within_sendGoaway in K1.
Qed.

Lemma within_HQControlStream_onCanceled s : within s (HQControlStream_onCanceled s).
Proof.
  unfold HQControlStream_onCanceled.
  eapply within_trans; [|apply within_scheduleLoopCallback]. by apply within_same.
Qed.

Lemma within_headersComplete env close decoderPending s s' :
  headersComplete env close decoderPending s = Some s' → within s s'.
Proof.
  unfold headersComplete, H1QFBV1_headersComplete. intros Hs.
  apply bind_Some in Hs as (v & _ & Hs).
  destruct v; repeat case_match; sub; try apply within_refl; try by apply within_same.
  - apply bind_Some in Hs as (s1 & K1 & Hs). sub.
    apply within_drainImpl in K1. eapply within_trans; [exact K1|]. by apply within_same.
  - apply bind_Some in Hs as (s1 & K1 & Hs). sub. by apply within_same.
  - by apply within_scheduleWrite in Hs.
Qed.

Lemma within_checkSendingGoaway env wantsKeepalive s s' :
  checkSendingGoaway env wantsKeepalive s = Some s' → within s s'.
Proof.
  unfold checkSendingGoaway, H1QFBV1_checkSendingGoaway, notifyPendingShutdown.
  intros Hs. destruct (version_ s) as [[| |]|]; sub; try apply within_refl.
  apply bind_Some in Hs as (s1 & K1 & Hs). sub.
  assert (within s s1) as W1.
  { destruct (_ && _); [by apply within_drainImpl in K1|sub; apply within_refl]. }
  eapply within_trans; [exact W1|]. repeat case_match; by apply within_same.
Qed.

Lemma within_createEgressControlStream proxygenErr type id s ok s' :
  createEgressControlStream proxygenErr type id s = Some (ok, s') → within s s'.
Proof.
  unfold createEgressControlStream, onConnectionError. intros Hs.
  apply bind_Some in Hs as (k & _ & Hs). destruct id as [id|].
  - destruct (controlStreams_ s !! type); [done|].
    apply bind_Some in Hs as (s1 & K1 & Hs). sub.
    apply within_sock_call in K1. eapply within_trans; [|exact K1]. by apply within_same.
  - apply bind_Some in Hs as (s1 & K1 & Hs). sub.
    by apply within_dropConnectionWithError in K1.
Qed.

Lemma within_createEgressControlStreams proxygenErr id1 id2 id3 s ok s' :
  createEgressControlStreams proxygenErr id1 id2 id3 s = Some (ok, s') → within s s'.
Proof.
  unfold createEgressControlStreams. intros Hs.
  apply bind_Some in Hs as (v & _ & Hs). destruct v.
  - sub. apply within_refl.
  - apply bind_Some in Hs as ([ok1 s1] & K1 & Hs).
    apply within_createEgressControlStream in K1. destruct ok1; simpl in Hs; [|by sub].
    apply bind_Some in Hs as (s2 & K2 & Hs). sub.
    apply within_scheduleWrite in K2. chain.
  - apply bind_Some in Hs as ([ok1 s1] & K1 & Hs).
    apply within_createEgressControlStream in K1. destruct ok1; simpl in Hs; [|by sub].
    apply bind_Some in Hs as ([ok2 s2] & K2 & Hs).
    apply within_createEgressControlStream in K2. destruct ok2; simpl in Hs;
      [|sub; chain].
    apply bind_Some in Hs as ([ok3 s3] & K3 & Hs).
    apply within_createEgressControlStream in K3. destruct ok3; simpl in Hs;
      [|sub; chain].
    apply bind_Some in Hs as (s4 & K4 & Hs).
    apply bind_Some in Hs as (s5 & K5 & Hs).
    apply bind_Some in Hs as (s6 & K6 & Hs). sub.
    apply within_ctrl_write in K4. apply within_scheduleWrite in K5, K6. chain.
Qed.

Lemma within_onTransportReadyCommon proxygenErr alpn id1 id2 id3 env s ok s' :
  onTransportReadyCommon proxygenErr alpn id1 id2 id3 env s = Some (ok, s') →
  within s s'.
Proof.
  unfold onTransportReadyCommon. intros Hs.
  apply bind_Some in Hs as ([ok1 s1] & K1 & Hs).
  assert (within s s1) as W1.
  { clear Hs. unfold getAndCheckApplicationProtocol, onConnectionError in K1.
    apply bind_Some in K1 as (k & _ & K1).
    set (s0 := match alpn ≫= alpnVersion with
               | Some v => set_version (Some v) s | None => s end) in K1.
    assert (within s s0) as W0
      by (unfold s0; destruct (alpn ≫= alpnVersion); by apply within_same).
    clearbody s0. repeat case_match; sub; try done.
    all: apply bind_Some in K1 as (sx & Kx & K1); sub.
    all: apply within_dropConnectionWithError in Kx; chain. }
  clear K1. destruct ok1; simpl in Hs; [|by sub].
  apply bind_Some in Hs as ([ok2 s2] & K2 & Hs).
  apply within_createEgressControlStreams in K2.
  destruct ok2; simpl in Hs; [|sub; chain].
  apply bind_Some in Hs as (s3 & K3 & Hs). sub.
  destruct (bool_decide (drainState_ s2 = PENDING));
    [apply within_sendGoaway in K3|sub]; chain.
Qed.

Lemma within_onNewUnidirectionalStream id s s' :
  onNewUnidirectionalStream id s = Some s' → within s s'.
Proof.
  unfold onNewUnidirectionalStream. intros Hs.
  apply bind_Some in Hs as ([ok s1] & K1 & Hs). apply within_checkNewStream in K1.
  destruct ok; simpl in Hs; [|by sub].
  destruct (findControlStreamById id s1); [done|].
  apply within_sock_call in Hs. eapply within_trans; [exact K1|].
  eapply within_trans; [|exact Hs]. by apply within_same.
Qed.

Lemma within_sendAbortImpl r code s s' :
  sendAbortImpl r code s = Some s' → within s s'.
Proof.
  unfold sendAbortImpl. intros Hs.
  apply bind_Some in Hs as (st & _ & Hs).
  apply bind_Some in Hs as (id & _ & Hs).
  apply bind_Some in Hs as (s1 & K1 & Hs). apply within_abortStream in K1. sub.
  eapply within_trans; [exact K1|]. apply within_updStream.
Qed.

Lemma within_onResetStream r ingressStarted errorCode ex s s' :
  onResetStream r ingressStarted errorCode ex s = Some s' → within s s'.
Proof.
  unfold onResetStream. intros Hs. apply within_sendAbortImpl in Hs.
  eapply within_trans; [|exact Hs]. apply within_updStream.
Qed.

Lemma within_errorOnTransactionId id ex s : within s (errorOnTransactionId id ex s).
Proof.
  unfold errorOnTransactionId. case_match; [apply within_updStream|apply within_refl].
Qed.

Lemma within_readError ingressStarted id error s s' :
  readError ingressStarted id error s = Some s' → within s s'.
Proof.
  unfold readError. intros Hs. destruct error.
  - destruct (findNonDetachedStream id s); [|sub; apply within_refl].
    by apply within_onResetStream in Hs.
  - sub. apply within_errorOnTransactionId.
  - sub. apply within_errorOnTransactionId.
Qed.

Lemma within_readRequestStream id s s' :
  readRequestStream id s = Some s' → within s s'.
Proof.
  unfold readRequestStream. intros Hs.
  destruct (findIngressStream id false s) as [hqStream|].
  - apply bind_Some in Hs as (k & Ek & Hs).
    destruct (sock_read id k) as [readRes k1].
    assert (within s (set_sock (Some k1) s)) as W1 by (by apply within_same).
    destruct readRes as [e|[data eof]].
    + apply within_readError in Hs. chain.
    + sub. eapply within_trans; [exact W1|].
      eapply within_trans; [apply within_updStream|]. by apply within_same.
  - apply bind_Some in Hs as (? & _ & Hs). sub. apply within_refl.
Qed.

Lemma within_readAvailable id s s' : readAvailable id s = Some s' → within s s'.
Proof.
  unfold readAvailable. intros Hs. destruct (_ <=? _); [sub; apply within_refl|].
  apply bind_Some in Hs as (s1 & K1 & Hs). apply within_readRequestStream in K1. sub.
  eapply within_trans; [by apply within_same|].
  eapply within_trans; [exact K1|]. apply within_scheduleLoopCallback.
Qed.

Lemma within_processReadData_step codec id s s' :
  processReadData_step codec id s = Some s' → within s s'.
Proof.
  unfold processReadData_step. intros Hs.
  destruct (findIngressStream id true s) as [r|]; [|sub; apply within_refl].
  apply bind_Some in Hs as (st & G & Hs).
  assert (is_Some (getStream r s)) as Gs by (by rewrite G).
  destruct (detached_ st); [sub; by apply within_replaceStream|].
  destruct (stream_processReadData _ _) as [st1 blocked].
  destruct (negb blocked && readEOF_ st1).
  - apply bind_Some in Hs as (st2 & _ & Hs). sub. by apply within_replaceStream.
  - sub. by apply within_replaceStream.
Qed.

Lemma within_processReadData codec s s' :
  processReadData codec s = Some s' → within s s'.
Proof.
  unfold processReadData. intros Hs. apply bind_Some in Hs as (s1 & Hf & Hs). sub.
  apply (foldl_option_inv (λ x, within s x)) in Hf; [| |apply within_refl].
  - eapply within_trans; [exact Hf|]. by apply within_same.
  - intros x b x' Hx Hd. apply within_processReadData_step in Hd. chain.
Qed.

Lemma within_runLoopCallback codec s s' : runLoopCallback codec s = Some s' → within s s'.
Proof.
  unfold runLoopCallback. intros Hs.
  assert (within s (set_loopCallbackScheduled false s)) as W0 by (by apply within_same).
  destruct (dropInNextLoop_ (set_loopCallbackScheduled false s)) as [[? proxygenError]|].
  - apply bind_Some in Hs as (s1 & K1 & Hs).
    apply within_dropConnectionWithError in K1. apply within_checkForShutdown in Hs.
    chain.
  - apply bind_Some in Hs as (s1 & K1 & Hs). apply within_processReadData in K1.
    apply within_checkForShutdown in Hs.
    eapply within_trans; [exact W0|]. eapply within_trans; [by apply within_same|].
    eapply within_trans; [exact K1|]. eapply within_trans; [|exact Hs].
    destruct (negb _); [apply within_scheduleLoopCallback|apply within_refl].
Qed.

Lemma within_resumeReads streamId s s' : resumeReads streamId s = Some s' → within s s'.
Proof.
  unfold resumeReads. intros Hs. apply bind_Some in Hs as (s1 & K1 & Hs).
  apply within_sock_call in K1. sub.
  eapply within_trans; [exact K1|]. apply within_scheduleLoopCallback.
Qed.

Lemma within_bindTo created pushId streamId s s' :
  bindTo created pushId streamId s = Some s' → within s s'.
Proof.
  unfold bindTo. intros Hs.
  apply bind_Some in Hs as (st & _ & Hs).
  apply bind_Some in Hs as (? & _ & Hs).
  apply bind_Some in Hs as (v & _ & Hs).
  apply bind_Some in Hs as (? & _ & Hs).
  apply bind_Some in Hs as (st1 & K1 & Hs).
  destruct (negb _); [done|].
  apply bind_Some in Hs as ([k1 st3] & _ & Hs).
  apply within_resumeReads in Hs. eapply within_trans; [|exact Hs].
  by apply within_same.
Qed.

Lemma within_onPushPromiseHeadersComplete created detaches parent pushID s s' :
  onPushPromiseHeadersComplete created detaches parent pushID s = Some s' →
  within s s'.
Proof.
  unfold onPushPromiseHeadersComplete, createIngressPushStream,
    tryBindIngressStreamToTxn. intros Hs.
  apply bind_Some in Hs as (s1 & K1 & Hs). sub.
  eapply within_trans; [|apply within_updStream].
  eapply within_trans; [|apply within_updStream].
  destruct (findIngressPushStreamByPushId pushID s); [done|].
  apply fmap_Some in K1 as ([b s2] & K1 & ->). simpl.
  eapply (within_trans _ (set_ingressPushStreams _ s)); [by apply within_same|].
  repeat case_match; sub; try apply within_refl.
  apply bind_Some in K1 as (s3 & K3 & K1). apply within_bindTo in K3.
  apply bind_Some in K1 as (? & _ & K1).
  apply bind_Some in K1 as (? & _ & K1).
  apply bind_Some in K1 as (? & _ & K1).
  destruct (_ && _); by sub.
Qed.

Lemma within_onNewPushStream pushStreamId pushId toConsume s s' :
  onNewPushStream pushStreamId pushId toConsume s = Some s' → within s s'.
Proof.
  unfold onNewPushStream. intros Hs.
  apply bind_Some in Hs as (s1 & K1 & Hs). apply within_sock_call in K1.
  apply bind_Some in Hs as (s2 & K2 & Hs). apply within_sock_call in K2.
  apply bind_Some in Hs as (s3 & K3 & Hs). apply within_sock_call in K3.
  apply bind_Some in Hs as (s4 & K4 & Hs). apply within_sock_call in K4.
  assert (s' = set_streamLookup
                 (streamLookup_push_back pushId pushStreamId (streamLookup_ s4)) s4)
    as -> by (by case_match; sub).
  eapply within_trans; [exact K1|]. eapply within_trans; [exact K2|].
  eapply within_trans; [exact K3|]. eapply within_trans; [exact K4|].
  by apply within_same.
Qed.

Lemma within_assignReadCallback id type toConsume s s' :
  assignReadCallback id type toConsume s = Some s' → within s s'.
Proof.
  unfold assignReadCallback, tryCreateIngressControlStream,
    createIngressControlStream, rejectStream. intros Hs.
  apply bind_Some in Hs as (s1 & K1 & Hs). apply within_sock_call in K1.
  apply bind_Some in Hs as ([ctrlStream s2] & K2 & Hs).
  apply bind_Some in K2 as (res & _ & K2).
  destruct res as [type'|].
  - apply bind_Some in K2 as ([c s3] & K3 & K2).
    apply bind_Some in K3 as (c0 & _ & K3).
    destruct (ingressCodec_ c0).
    + apply bind_Some in K3 as (s4 & K4 & K3). sub.
      apply within_dropConnectionWithError in K4. apply within_sock_call in Hs. chain.
    + apply bind_Some in K3 as (v & _ & K3).
      apply bind_Some in K3 as (codec & _ & K3). sub.
      apply bind_Some in K2 as (s4 & K4 & K2). apply within_sock_call in K4. sub.
      apply bind_Some in Hs as (s5 & K5 & Hs).
      apply within_sock_call in K5, Hs.
      eapply within_trans; [exact K1|]. eapply within_trans; [by apply within_same|].
      eapply within_trans; [exact K4|]. chain.
  - sub. apply within_sock_call in Hs. chain.
Qed.

Lemma within_dispatcher_onDataAvailable id preface prefaceLen push s s' :
  dispatcher_onDataAvailable id preface prefaceLen push s = Some s' → within s s'.
Proof.
  unfold dispatcher_onDataAvailable, rejectStream. intros Hs.
  apply bind_Some in Hs as (type & _ & Hs). destruct type as [type|].
  - destruct (bool_decide (type = PUSH)).
    + destruct push as [[pushId pushIdLen]|]; [|sub; apply within_refl].
      apply within_onNewPushStream in Hs. eapply within_trans; [|exact Hs].
      by apply within_same.
    + apply within_assignReadCallback in Hs. eapply within_trans; [|exact Hs].
      by apply within_same.
  - apply bind_Some in Hs as (s1 & K1 & Hs). apply within_sock_call in K1. sub.
    eapply within_trans; [exact K1|]. by apply within_same.
Qed.

(** A stream the peer opens is put under [maxIncomingStreamId_]. *)
Lemma covered_onNewBidirectionalStream env id s s' :
  covered s → onNewBidirectionalStream env id s = Some s' → covered s'.
Proof.
  unfold onNewBidirectionalStream. intros C Hs.
  apply bind_Some in Hs as ([ok s1] & K1 & Hs). apply within_checkNewStream in K1.
  assert (covered s1) as C1.
  { intros i I. destruct K1 as [-> K1]. by apply C, K1. }
  clear C K1.
  destruct ok; simpl in Hs; [|by sub].
  destruct (findNonDetachedStream id s1); [done|].
  apply bind_Some in Hs as ([r s2] & K2 & Hs).
  apply bind_Some in Hs as (? & _ & Hs).
  apply bind_Some in Hs as (s3 & K3 & Hs). apply within_sock_call in K3 as [M3 S3]. sub.
  assert (maxIncomingStreamId_ s2 = maxIncomingStreamId_ s1 ∧
          ∀ i, is_Some (streams_ s2 !! i) → i = id ∨ is_Some (streams_ s1 !! i))
    as [M2 S2].
  { unfold createStreamTransport in K2.
    apply bind_Some in K2 as (k & _ & K2).
    destruct (_ || _); [sub; by eauto|].
    apply bind_Some in K2 as (v & _ & K2).
    apply bind_Some in K2 as (? & _ & K2).
    apply bind_Some in K2 as (st1 & _ & K2).
    apply bind_Some in K2 as ([k1 st2] & _ & K2). sub. split; [done|].
    intros i. cbn. destruct (decide (i = id)) as [->|N]; [by left|].
    rewrite lookup_insert_ne by done. by right. }
  intros i I. cbn in *. apply S3, S2 in I as [->|I]; [lia|].
  apply C1 in I. lia.
Qed.

(** An event that opens no request stream adds none, and leaves
    [maxIncomingStreamId_] as it is. *)
Lemma step_within ev s s' :
  step ev s = Some s' →
  match ev with
  | NewBidirectionalStream _ _ | NewTransaction _ _ _ => True
  | _ => within s s'
  end.
Proof.
  intros Hs. destruct ev; cbn [step] in Hs; try done.
  - destruct (version_ s); [done|].
    apply fmap_Some in Hs as ([ok s1] & Hs & ->).
    by eapply within_onTransportReadyCommon.
  - by eapply within_drainImpl.
  - by eapply within_closeWhenIdle.
  - by eapply within_dropConnectionWithError.
  - unfold onConnectionEnd in Hs. apply within_closeWhenIdle in Hs.
    eapply within_trans; [|exact Hs]. by apply within_same.
  - unfold timeoutExpired in Hs. destruct (negb _); [sub; apply within_refl|].
    by eapply within_closeWhenIdle.
  - unfold HQControlStream_onGoaway in Hs. destruct (existsb _ _); [|done].
    by eapply within_onGoaway.
  - by eapply within_onGoawayAck.
  - sub. apply within_HQControlStream_onCanceled.
  - by eapply within_onNewUnidirectionalStream.
  - by eapply within_dispatcher_onDataAvailable.
  - by eapply within_readAvailable.
  - by eapply within_readError.
  - by eapply within_runLoopCallback.
  - by eapply within_headersComplete.
  - by eapply within_checkSendingGoaway.
  - by eapply within_onPushPromiseHeadersComplete.
Qed.

(** An event other than a transaction of the session's own keeps every
    request stream within [maxIncomingStreamId_]. *)
Lemma step_covered ev s s' :
  opensTransaction ev = false → covered s → step ev s = Some s' → covered s'.
Proof.
  intros O C Hs.
  assert (within s s' → covered s') as W.
  { intros [M S] i I. rewrite M. by apply C, S. }
  pose proof (step_within ev s s' Hs) as K.
  destruct ev; try done; try by apply W.
  cbn [step] in Hs. by eapply covered_onNewBidirectionalStream.
Qed.

Lemma run_covered evs : ∀ s s',
  forallb (λ ev, negb (opensTransaction ev)) evs = true →
  covered s → run evs s = Some s' → covered s'.
Proof.
  induction evs as [|ev evs IH]; intros s s' O C Hs.
  { by injection Hs as <-. }
  cbn [run] in Hs. apply bind_Some in Hs as (s1 & K1 & Hs).
  cbn [forallb] in O. apply andb_prop in O as [O1 O].
  apply negb_true_iff in O1.
  apply (IH s1 s' O); [|done]. by eapply step_covered.
Qed.

(** In every run of a session that opens no transaction of its own (a
    downstream session), every request stream the session holds has an id
    within [maxIncomingStreamId_]; once the drain is past PENDING that is
    the id [getGoawayStreamId] gives, so the second GOAWAY of the session
    covers every stream it has accepted. *)
Theorem accepted_streams_within_goaway_id (direction : TransportDirection)
    (sock : QuicSocket) (evs : list Event) (s : HQSession) :
  forallb (λ ev, negb (opensTransaction ev)) evs = true →
  run evs (newSession direction sock) = Some s →
  (∀ id, is_Some (streams_ s !! id) → id ≤ maxIncomingStreamId_ s) ∧
  (drainState_ s ≠ NONE → drainState_ s ≠ PENDING →
   ∀ id, is_Some (streams_ s !! id) → id ≤ getGoawayStreamId s).
Proof.
  intros O Hs.
  assert (covered (newSession direction sock)) as C0.
  { intros id [st I]. cbn in I. by rewrite lookup_empty in I. }
  pose proof (run_covered evs _ _ O C0 Hs) as C. split; [exact C|].
  intros N P id I. unfold getGoawayStreamId.
  rewrite (bool_decide_eq_false_2 _ N), (bool_decide_eq_false_2 _ P). by apply C.
Qed.

End Cover.

Section Examples_Cover.

#[local] Existing Instance exampleCodes.

(** A downstream HTTP/3 session with the request streams 0, 8 and 16 that
    has sent its first GOAWAY: the second one will carry 16. *)
Lemma accepted_streams_within_goaway_id_witness :
  ∃ s, run (threeRequests ++ [CloseWhenIdle orderly]) (newSession DOWNSTREAM newSocket)
       = Some s ∧
       drainState_ s = FIRST_GOAWAY ∧ getGoawayStreamId s = 16 ∧
       ∀ id, is_Some (streams_ s !! id) → id ≤ 16.
Proof.
  set (evs := threeRequests ++ [CloseWhenIdle orderly]).
  set (s := the (run evs (newSession DOWNSTREAM newSocket))).
  assert (run evs (newSession DOWNSTREAM newSocket) = Some s) as R
    by (vm_compute; reflexivity).
  assert (drainState_ s = FIRST_GOAWAY) as D by (vm_compute; reflexivity).
  assert (getGoawayStreamId s = 16) as G by (vm_compute; reflexivity).
  exists s. split; [exact R|]. split; [exact D|]. split; [exact G|].
  destruct (accepted_streams_within_goaway_id DOWNSTREAM newSocket evs s eq_refl R)
    as [_ C].
  intros id I. rewrite <- G. apply C; [by rewrite D|by rewrite D|exact I].
Defined.

End Examples_Cover.

(** ** The close handshake of the first dialect *)

Section H1QClose.
Context `{codes : StreamTypeCodes}.

Lemma drainImpl_h1q env s :
  version_ s = Some H1Q_FB_V1 → drainState_ s = NONE →
  ∃ s1, drainImpl env s = Some s1 ∧ drainState_ s1 = PENDING ∧
        version_ s1 = Some H1Q_FB_V1.
Proof.
  intros V D. unfold drainImpl. rewrite D.
  rewrite bool_decide_eq_true_2 by done. cbn [negb].
  change (version_ (set_drainState PENDING s)) with (version_ s). rewrite V.
  unfold sendGoaway.
  change (version_ (set_drainState PENDING s)) with (version_ s). rewrite V.
  cbn [mbind option_bind]. by eexists.
Qed.

Lemma headersComplete_h1q env close decoderPending s :
  version_ s = Some H1Q_FB_V1 →
  ∃ s1, headersComplete env close decoderPending s = Some s1 ∧
        version_ s1 = Some H1Q_FB_V1 ∧
        drainState_ s1 = (if bool_decide (drainState_ s = DONE) then DONE
                          else if negb close then drainState_ s
                          else if bool_decide (drainState_ s = CLOSE_SENT) then DONE
                          else CLOSE_RECEIVED).
Proof.
  intros V. unfold headersComplete. rewrite V. cbn. unfold H1QFBV1_headersComplete.
  destruct (drainState_ s) eqn:D; destruct close;
    repeat (first [rewrite D | case_bool_decide
                  | progress cbn [andb negb mbind option_bind]]; try congruence);
    try (eexists; split_and!; [done|done|by rewrite ?D]).
  destruct (drainImpl_h1q env s V D) as (s1 & -> & _ & V1).
  cbn [mbind option_bind]. by eexists.
Qed.

Lemma checkSendingGoaway_h1q env wantsKeepalive s :
  version_ s = Some H1Q_FB_V1 →
  ∃ s1, checkSendingGoaway env wantsKeepalive s = Some s1 ∧
        version_ s1 = Some H1Q_FB_V1 ∧
        drainState_ s1 =
          match drainState_ s with
          | NONE => if wantsKeepalive then NONE else CLOSE_SENT
          | PENDING => CLOSE_SENT
          | CLOSE_RECEIVED => DONE
          | d => d
          end.
Proof.
  intros V. unfold checkSendingGoaway. rewrite V.
  unfold H1QFBV1_checkSendingGoaway, notifyPendingShutdown.
  destruct (drainState_ s) eqn:D; destruct wantsKeepalive;
    repeat (first [rewrite D | case_bool_decide
                  | progress cbn [andb negb mbind option_bind]]; try congruence);
    try (eexists; split_and!; [done|done|by rewrite ?D]).
  destruct (drainImpl_h1q env s V D) as (s1 & -> & D1 & V1).
  repeat (first [rewrite D1 | case_bool_decide
                | progress cbn [andb negb mbind option_bind]]; try congruence).
  by eexists.
Qed.

(** In a session of the first dialect, the drain is DONE as soon as a
    message with "Connection: close" was received and headers were sent
    after it, and also as soon as headers without keep-alive were sent and
    a message with "Connection: close" is received after them (in one of
    the drain states of the dialect).  Received headers without
    "Connection: close" change nothing, and neither do sent headers with
    keep-alive on a session that is not draining. *)
Theorem h1q_close_handshake (env env' : GoawayEnv) (decoderPending : bool)
    (s : HQSession) :
  version_ s = Some H1Q_FB_V1 →
  (∀ wantsKeepalive, ∃ s1 s2,
     headersComplete env true decoderPending s = Some s1 ∧
     checkSendingGoaway env' wantsKeepalive s1 = Some s2 ∧
     drainState_ s2 = DONE) ∧
  (drainState_ s ≠ FIRST_GOAWAY → drainState_ s ≠ SECOND_GOAWAY →
   ∃ s1 s2,
     checkSendingGoaway env false s = Some s1 ∧
     headersComplete env' true decoderPending s1 = Some s2 ∧
     drainState_ s2 = DONE) ∧
  headersComplete env false decoderPending s = Some s ∧
  (drainState_ s = NONE → checkSendingGoaway env true s = Some s).
Proof.
  intros V. split_and!.
  - intros wantsKeepalive.
    destruct (headersComplete_h1q env true decoderPending s V) as (s1 & E1 & V1 & D1).
    destruct (checkSendingGoaway_h1q env' wantsKeepalive s1 V1) as (s2 & E2 & _ & D2).
    exists s1, s2. split; [done|]. split; [done|]. rewrite D2, D1.
    by destruct (drainState_ s).
  - intros N1 N2.
    destruct (checkSendingGoaway_h1q env false s V) as (s1 & E1 & V1 & D1).
    destruct (headersComplete_h1q env' true decoderPending s1 V1) as (s2 & E2 & _ & D2).
    exists s1, s2. split; [done|]. split; [done|]. rewrite D2, D1.
    by destruct (drainState_ s).
  - unfold headersComplete. rewrite V. cbn. unfold H1QFBV1_headersComplete.
    by destruct (bool_decide (drainState_ s = DONE)).
  - intros N. unfold checkSendingGoaway. rewrite V.
    unfold H1QFBV1_checkSendingGoaway. rewrite N. cbn [negb andb].
    rewrite andb_false_r. cbn [mbind option_bind]. rewrite N.
    by rewrite !bool_decide_eq_false_2.
Qed.

End H1QClose.

Section Examples_H1QClose.

#[local] Existing Instance exampleCodes.

Lemma h1q_close_handshake_witness :
  ∃ s1 s2,
    checkSendingGoaway orderly false downstreamH1Q = Some s1 ∧
    headersComplete orderly true false s1 = Some s2 ∧
    drainState_ s1 = CLOSE_SENT ∧ drainState_ s2 = DONE.
Proof.
  destruct (h1q_close_handshake orderly orderly false downstreamH1Q eq_refl)
    as (_ & H & _).
  destruct H as (s1 & s2 & E1 & E2 & D); [by vm_compute|by vm_compute|].
  exists s1, s2. split; [exact E1|]. split; [exact E2|]. split; [|exact D].
  assert (Some s1 = Some (the (checkSendingGoaway orderly false downstreamH1Q))) as Es
    by (rewrite <- E1; vm_compute; reflexivity).
  assert (s1 = the (checkSendingGoaway orderly false downstreamH1Q)) as -> by congruence.
  vm_compute. reflexivity.
Defined.

End Examples_H1QClose.
(** ** The stream id of the second GOAWAY is final *)

Section Frozen.
Context `{codes : StreamTypeCodes}.

Ltac sub :=
  repeat match goal with
         | H : Some _ = Some _ |- _ => injection H as H
         | H : (_, _) = (_, _) |- _ => injection H as ? ?
         | H : ?x = _ |- _ => is_var x; subst x
         | H : _ = ?x |- _ => is_var x; subst x
         | H : None = Some _ |- _ => discriminate H
         | H : Some _ = None |- _ => discriminate H
         end.

(** Once the dialect is known no event changes it. *)
Lemma step_version ev s s' :
  drainInv s → is_Some (version_ s) → step ev s = Some s' →
  version_ s' = version_ s.
Proof.
  intros Hinv [v Hv] H.
  assert (advances s s' → version_ s' = version_ s) as Hadv
    by apply advances_version.
  destruct ev; cbn [step] in H.
  - by rewrite Hv in H.
  - by eapply Hadv, advances_drainImpl.
  - by eapply Hadv, advances_closeWhenIdle.
  - by eapply Hadv, advances_dropConnectionWithError.
  - by eapply Hadv, advances_onConnectionEnd.
  - apply Hadv. unfold timeoutExpired in H.
    destruct (negb _); [injection H as <-; apply advances_refl
                       | by eapply advances_closeWhenIdle].
  - apply Hadv. unfold HQControlStream_onGoaway in H.
    destruct (existsb _ _); [|done].
    eapply advances_onGoaway; [|done]. by rewrite Hv.
  - apply advancesW_onGoawayAck in H. apply H.
  - injection H as <-. apply Hadv, advances_onCanceled.
  - by eapply Hadv, quiet_advances, quiet_onNewBidirectionalStream.
  - by eapply Hadv, quiet_advances, quiet_onNewUnidirectionalStream.
  - by eapply Hadv, advances_dispatcher_onDataAvailable.
  - apply fmap_Some in H as ([r sx] & H & ->).
    by eapply Hadv, quiet_advances, quiet_newTransaction.
  - by eapply Hadv, quiet_advances, quiet_readAvailable.
  - by eapply Hadv, quiet_advances, quiet_readError.
  - by eapply Hadv, advances_runLoopCallback.
  - by eapply Hadv, advances_headersComplete.
  - by eapply Hadv, advances_checkSendingGoaway.
  - by eapply Hadv, quiet_advances, quiet_onPushPromiseHeadersComplete.
Qed.

(** [newTransaction] does not write [maxIncomingStreamId_]. *)
Lemma maxIncomingStreamId_newTransaction env handler quicStreamId s r s' :
  newTransaction env handler quicStreamId s = Some (r, s') →
  maxIncomingStreamId_ s' = maxIncomingStreamId_ s.
Proof.
  unfold newTransaction. intros H.
  destruct (_ || _ || _); [by sub|].
  apply bind_Some in H as (k & _ & H).
  destruct (negb (good k)); [by sub|].
  destruct quicStreamId as [id|]; [|by sub].
  apply bind_Some in H as ([r1 s1] & H1 & H). apply core_createStreamTransport in H1.
  assert (maxIncomingStreamId_ s1 = maxIncomingStreamId_ s) as M1
    by (unfold core in H1; by injection H1 as _ _ _ _ _ ? _).
  destruct r1 as [hqStream|]; [|by sub].
  apply bind_Some in H as (h & _ & H). apply bind_Some in H as (s3 & H3 & H).
  apply core_sock_call in H3. rewrite core_updStream in H3.
  unfold core in H3. injection H3 as _ _ _ _ _ M3 _. sub. congruence.
Qed.

(** With a GOAWAY bound in force, a downstream session of a dialect with
    a control stream accepts no bidirectional stream beyond
    [maxIncomingStreamId_]. *)
Lemma maxIncomingStreamId_onNewBidirectionalStream env id s s' :
  direction_ s = DOWNSTREAM →
  version_ s = Some H1Q_FB_V2 ∨ version_ s = Some HQ →
  drainState_ s ≠ NONE →
  isBidirectionalStream id = true →
  onNewBidirectionalStream env id s = Some s' →
  maxIncomingStreamId_ s' = maxIncomingStreamId_ s.
Proof.
  intros Hd Hv Hn Hb. unfold onNewBidirectionalStream. intros Hs.
  apply bind_Some in Hs as ([ok s1] & K1 & Hs).
  pose proof (within_checkNewStream _ _ _ _ K1) as [M1 _].
  destruct ok; cbn [negb] in Hs; [|by sub].
  assert (s1 = s ∧ id ≤ maxIncomingStreamId_ s) as [-> Hle].
  { assert (checkNewStream id s = GoawayUtils_checkNewStream id s) as E
      by (unfold checkNewStream; by destruct Hv as [->| ->]).
    rewrite E in K1. unfold GoawayUtils_checkNewStream in K1.
    destruct (isBidirectionalStream id && isServerStream id).
    { apply bind_Some in K1 as (? & _ & K1). by sub. }
    rewrite Hd, Hb in K1. rewrite (bool_decide_eq_false_2 _ Hn) in K1.
    rewrite (bool_decide_eq_false_2 (DOWNSTREAM = UPSTREAM)) in K1 by done.
    rewrite (bool_decide_eq_true_2 (DOWNSTREAM = DOWNSTREAM)) in K1 by done.
    cbn [negb andb orb] in K1.
    destruct (maxIncomingStreamId_ s <? id) eqn:L.
    { apply bind_Some in K1 as (? & _ & K1). by sub. }
    apply Z.ltb_ge in L. by sub. }
  destruct (findNonDetachedStream id s); [done|].
  apply bind_Some in Hs as ([r s2] & K2 & Hs).
  apply bind_Some in Hs as (? & _ & Hs).
  apply bind_Some in Hs as (s3 & K3 & Hs).
  apply core_createStreamTransport in K2. apply core_sock_call in K3.
  rewrite K2 in K3. unfold core in K3. injection K3 as _ _ _ _ _ M3 _.
  sub. cbn. rewrite M3. lia.
Qed.

(** What a run from a draining downstream session keeps. *)
Lemma run_frozen after : ∀ s s',
  drainInv s → direction_ s = DOWNSTREAM →
  version_ s = Some H1Q_FB_V2 ∨ version_ s = Some HQ →
  drainState_ s ≠ NONE →
  forallb bidirectionalId after = true →
  run after s = Some s' →
  maxIncomingStreamId_ s' = maxIncomingStreamId_ s ∧
  drain_le (drainState_ s) (drainState_ s') = true.
Proof.
  induction after as [|ev after IH]; intros s s' Hinv Hd Hv Hn Hb Hs.
  { injection Hs as <-. split; [done|apply drain_le_refl]. }
  cbn [run] in Hs. apply bind_Some in Hs as (s1 & K1 & Hs).
  cbn [forallb] in Hb. apply andb_prop in Hb as [Hb1 Hb].
  destruct (step_drain _ _ _ Hinv K1) as (I1 & D1 & _ & R1).
  assert (version_ s1 = version_ s) as V1.
  { apply (step_version ev); [done| |done]. destruct Hv as [->| ->]; by eexists. }
  assert (drainState_ s1 ≠ NONE) as N1.
  { intros E. rewrite E in D1. by destruct (drainState_ s). }
  assert (maxIncomingStreamId_ s1 = maxIncomingStreamId_ s) as M1.
  { pose proof (step_within ev s s1 K1) as W.
    destruct ev; try (by destruct W).
    - cbn [step] in K1. cbn [bidirectionalId] in Hb1.
      by eapply maxIncomingStreamId_onNewBidirectionalStream.
    - cbn [step] in K1. apply fmap_Some in K1 as ([r sx] & K1 & ->).
      by eapply maxIncomingStreamId_newTransaction. }
  destruct (IH s1 s') as [M' D']; try done; try congruence.
  split; [congruence|]. by eapply drain_le_trans.
Qed.

(** Once a downstream session of a dialect with a control stream has
    begun to drain, [maxIncomingStreamId_] is final: whatever happens
    later, the session accepts no stream beyond it.  Past PENDING it is
    the id [getGoawayStreamId] gives, so the id of the second GOAWAY is
    the one the session held when it sent the first. *)
Theorem goaway_id_final_once_draining (sock : QuicSocket)
    (before after : list Event) (s s' : HQSession) :
  run before (newSession DOWNSTREAM sock) = Some s →
  version_ s = Some H1Q_FB_V2 ∨ version_ s = Some HQ →
  drainState_ s ≠ NONE →
  forallb bidirectionalId after = true →
  run after s = Some s' →
  maxIncomingStreamId_ s' = maxIncomingStreamId_ s ∧
  (drainState_ s ≠ PENDING → getGoawayStreamId s' = getGoawayStreamId s).
Proof.
  intros Hb Hv Hn Hids Ha.
  destruct (run_drain before _ _ (drainInv_newSession DOWNSTREAM sock) Hb)
    as (Hinv & _ & Hd).
  change (direction_ (newSession DOWNSTREAM sock)) with DOWNSTREAM in Hd.
  destruct (run_frozen after s s' Hinv Hd Hv Hn Hids Ha) as [M D].
  split; [exact M|]. intros Hp. unfold getGoawayStreamId.
  rewrite (bool_decide_eq_false_2 _ Hn), (bool_decide_eq_false_2 _ Hp).
  rewrite !bool_decide_eq_false_2; [done|..].
  - intros E. rewrite E in D. by destruct (drainState_ s).
  - intros E. rewrite E in D. by destruct (drainState_ s).
Qed.

End Frozen.

Section Examples_Frozen.

#[local] Existing Instance exampleCodes.

(** The downstream HTTP/3 session with the request streams 0, 8 and 16
    has sent its first GOAWAY.  Stream 12 is then accepted, stream 20 is
    refused, and the second GOAWAY carries 16. *)
Lemma goaway_id_final_once_draining_witness :
  let before := threeRequests ++ [CloseWhenIdle orderly] in
  let after := [NewBidirectionalStream exampleStreamEnv 12;
                NewBidirectionalStream exampleStreamEnv 20;
                GoawayDelivered orderly] in
  ∃ s s',
    run before (newSession DOWNSTREAM newSocket) = Some s ∧
    drainState_ s = FIRST_GOAWAY ∧
    run after s = Some s' ∧
    drainState_ s' = SECOND_GOAWAY ∧
    is_Some (streams_ s' !! 12) ∧ streams_ s' !! 20 = None ∧
    maxIncomingStreamId_ s' = 16 ∧ goawaysSent s' = [kEightByteLimit; 16].
Proof.
  intros before after.
  set (s := the (run before (newSession DOWNSTREAM newSocket))).
  set (s' := the (run after s)).
  assert (run before (newSession DOWNSTREAM newSocket) = Some s) as R
    by (vm_compute; reflexivity).
  assert (run after s = Some s') as R' by (vm_compute; reflexivity).
  assert (version_ s = Some H1Q_FB_V2 ∨ version_ s = Some HQ) as V
    by (right; vm_compute; reflexivity).
  assert (drainState_ s ≠ NONE) as N by (vm_compute; discriminate).
  destruct (goaway_id_final_once_draining newSocket before after s s' R V N eq_refl R')
    as [M _].
  exists s, s'. split; [exact R|]. split; [vm_compute; reflexivity|].
  split; [exact R'|]. split; [vm_compute; reflexivity|].
  split; [vm_compute; eexists; reflexivity|]. split; [vm_compute; reflexivity|].
  split; [rewrite M; vm_compute; reflexivity|vm_compute; reflexivity].
Defined.

End Examples_Frozen.
